(** * webm-writer-js: a shallow embedding of the byte sink, the EBML
      serializer, the WebP keyframe extractor and the muxer, with the
      properties of the specification stated over it.

    Conventions.
    - JavaScript numbers that the code uses as byte counts and offsets are
      integers of [Z]; bytes and UTF-16 code units are [Z] as well.
    - The times and durations of the muxer are doubles, added and compared
      as IEEE 754 has it ([double], the [spec_float] of the Standard
      Library).
    - Typed arrays and ArrayBuffers live in an explicit store ([Heap]): a
      [Uint8Array] is a view (buffer id, byte offset, length) on a store
      cell, so two views of one buffer alias.
    - A thrown [Error] is a value of [error]; the promise chain of
      [BlobBuffer] is its field [writePromise], [None] while fulfilled and
      [Some e] once rejected with [e]. *)

From Stdlib Require Import ZArith QArith Qround Qminmax Lia Lqa List Bool SpecFloat.
From stdpp Require Import base list.
Import ListNotations.
Open Scope Z_scope.

(** ** Errors *)

Inductive error : Type :=
| NegativeOffset                  (* "Offset may not be negative" *)
| NaNOffset                       (* "Offset may not be NaN" *)
| SeekBeyondEnd                   (* "Seeking beyond the end of file is not allowed" *)
| OverwriteCrossesBlobBoundaries  (* "Overwrite crosses blob boundaries" *)
| MeasureUnknownLength            (* "Failed to determine size of element" *)
| RangeError                      (* TypedArray.prototype.set: offset is out of bounds *)
| BadEbmlDatatype                 (* "Bad EBML datatype ..." *)
| BadEbmlVarInt                   (* no width of 1..8 holds the varint *)
| BadWebP                         (* both messages of extractKeyframeFromWebP *)
| BadTrackNumber                  (* "TrackNumber must be > 0 and < 127" *)
| MissingFrameTiming              (* "Missing required frameDuration or frameRate setting" *)
| TypeError.                      (* a property of undefined is read *)

Inductive result (A : Type) : Type :=
| Ok (a : A)
| Err (e : error).
Arguments Ok {A} a.
Arguments Err {A} e.

Definition is_ok {A} (r : result A) : bool :=
  match r with Ok _ => true | Err _ => false end.

Definition rbind {A B} (r : result A) (k : A -> result B) : result B :=
  match r with Ok a => k a | Err e => Err e end.

Notation "'do' x <- r ; k" := (rbind r (fun x => k))
  (at level 10, x pattern, r at level 100, k at level 200).

(** ** JavaScript values met by the sink *)

(** What a property read or an offset argument can be. *)
Inductive jsval : Type :=
| JUndefined
| JNaN
| JInf (negative : bool)
| JNum (n : Z).

Definition truthy (v : jsval) : bool :=
  match v with
  | JUndefined | JNaN => false
  | JInf _ => true
  | JNum n => negb (n =? 0)
  end.

(** [a || b]. *)
Definition js_or (a b : jsval) : jsval := if truthy a then a else b.

(** [Number.isInteger]. *)
Definition isInteger (v : jsval) : option Z :=
  match v with JNum n => Some n | _ => None end.

(** [v < n], [v > n] for a number [n]; every comparison with NaN is false. *)
Definition js_lt (v : jsval) (n : Z) : bool :=
  match v with
  | JNum m => m <? n
  | JInf negative => negative
  | _ => false
  end.

Definition js_gt (v : jsval) (n : Z) : bool :=
  match v with
  | JNum m => n <? m
  | JInf negative => negb negative
  | _ => false
  end.

(** Global [isNaN], on a value that is a number or undefined. *)
Definition js_isNaN (v : jsval) : bool :=
  match v with JUndefined | JNaN => true | _ => false end.

(** ** The store of ArrayBuffers *)

Abbreviation Heap := (list (list Z)).

(** A [Uint8Array]: a window on the ArrayBuffer [vbuf]. *)
Record View : Type := mkView { vbuf : nat; voff : nat; vlen : nat }.

Definition heap_buffer (h : Heap) (b : nat) : list Z :=
  match h !! b with Some bs => bs | None => [] end.

Definition view_bytes (h : Heap) (v : View) : list Z :=
  take (vlen v) (drop (voff v) (heap_buffer h (vbuf v))).

Definition heap_alloc (h : Heap) (bs : list Z) : Heap * nat :=
  (h ++ [bs], length h).

(** Writes [src] over the cells [at, at + length src) of [dst]. *)
Definition splice (dst : list Z) (at_ : nat) (src : list Z) : list Z :=
  take at_ dst ++ src ++ drop (at_ + length src) dst.

(** ** Data accepted by the sink *)

Inductive Data : Type :=
| DString (units : list Z)     (* a string, as its UTF-16 code units *)
| DUint8Array (v : View)
| DArrayBuffer (b : nat)
| DBlob (bytes : list Z).

(** UTF-8 of a string of UTF-16 code units, as [new Blob([s])] stores it:
    a surrogate pair becomes four bytes, a lone surrogate U+FFFD. *)
Definition is_high_surrogate (c : Z) : bool := (0xD800 <=? c) && (c <? 0xDC00).
Definition is_low_surrogate (c : Z) : bool := (0xDC00 <=? c) && (c <? 0xE000).

Definition utf8_scalar (c : Z) : list Z :=
  if c <? 0x80 then [c]
  else if c <? 0x800 then
    [Z.lor 0xC0 (Z.shiftr c 6); Z.lor 0x80 (Z.land c 0x3F)]
  else if c <? 0x10000 then
    [Z.lor 0xE0 (Z.shiftr c 12);
     Z.lor 0x80 (Z.land (Z.shiftr c 6) 0x3F);
     Z.lor 0x80 (Z.land c 0x3F)]
  else
    [Z.lor 0xF0 (Z.shiftr c 18);
     Z.lor 0x80 (Z.land (Z.shiftr c 12) 0x3F);
     Z.lor 0x80 (Z.land (Z.shiftr c 6) 0x3F);
     Z.lor 0x80 (Z.land c 0x3F)].

Fixpoint utf8_encode (units : list Z) : list Z :=
  match units with
  | [] => []
  | c :: rest =>
      if is_high_surrogate c then
        match rest with
        | d :: rest' =>
            if is_low_surrogate d then
              utf8_scalar (0x10000 + (c - 0xD800) * 0x400 + (d - 0xDC00))
                ++ utf8_encode rest'
            else utf8_scalar 0xFFFD ++ utf8_encode rest
        | [] => utf8_scalar 0xFFFD
        end
      else if is_low_surrogate c then utf8_scalar 0xFFFD ++ utf8_encode rest
      else utf8_scalar c ++ utf8_encode rest
  end.

(** The bytes a datum contributes to a [Blob] built from it. *)
Definition data_bytes (h : Heap) (d : Data) : list Z :=
  match d with
  | DString s => utf8_encode s
  | DUint8Array v => view_bytes h v
  | DArrayBuffer b => heap_buffer h b
  | DBlob bs => bs
  end.

(** The three properties [measureData] probes. *)
Definition prop_byteLength (h : Heap) (d : Data) : jsval :=
  match d with
  | DUint8Array v => JNum (Z.of_nat (vlen v))
  | DArrayBuffer b => JNum (Z.of_nat (length (heap_buffer h b)))
  | DString _ | DBlob _ => JUndefined
  end.

Definition prop_length (h : Heap) (d : Data) : jsval :=
  match d with
  | DString s => JNum (Z.of_nat (length s))
  | DUint8Array v => JNum (Z.of_nat (vlen v))
  | DArrayBuffer _ | DBlob _ => JUndefined
  end.

Definition prop_size (h : Heap) (d : Data) : jsval :=
  match d with
  | DBlob bs => JNum (Z.of_nat (length bs))
  | _ => JUndefined
  end.

Definition measureData (h : Heap) (d : Data) : result Z :=
  let result := js_or (js_or (prop_byteLength h d) (prop_length h d)) (prop_size h d) in
  match isInteger result with
  | Some n => Ok n
  | None => Err MeasureUnknownLength
  end.

(** [convertToUint8Array]: a [Uint8Array] is returned as it is, an
    ArrayBuffer gets a view on the same cells, a blob or a string is read
    into a new buffer. *)
Definition convertToUint8Array (h : Heap) (d : Data) : Heap * View :=
  match d with
  | DUint8Array v => (h, v)
  | DArrayBuffer b => (h, mkView b 0 (length (heap_buffer h b)))
  | DBlob bs => let '(h', b) := heap_alloc h bs in (h', mkView b 0 (length bs))
  | DString s =>
      let bs := utf8_encode s in
      let '(h', b) := heap_alloc h bs in (h', mkView b 0 (length bs))
  end.

(** [target.set(source, at)] on two [Uint8Array]s: the source is read
    first, so views of one buffer may overlap. *)
Definition view_set (h : Heap) (target : View) (source : View) (at_ : nat)
  : result Heap :=
  let src := view_bytes h source in
  if (vlen target <? at_ + vlen source)%nat then Err RangeError
  else
    Ok (<[vbuf target :=
           splice (heap_buffer h (vbuf target)) (voff target + at_) src]> h).

(** ** BlobBuffer *)

Inductive Destination : Type := Memory | ToFileWriter | ToFs.

Record Entry : Type := mkEntry {
  e_offset : Z;
  e_data : Data;
  e_length : Z
}.

Record BlobBuffer : Type := mkBlobBuffer {
  buffer : list Entry;
  writePromise : option error;   (* [Some e]: the chain is rejected with [e] *)
  dest : Destination;
  pos : Z;
  length_ : Z
}.

Definition newBlobBuffer (d : Destination) : BlobBuffer :=
  mkBlobBuffer [] None d 0 0.

(** [seek]: the buffer after the call, and the error thrown if any. *)
Definition seek (b : BlobBuffer) (offset : jsval) : BlobBuffer * option error :=
  if js_lt offset 0 then (b, Some NegativeOffset)
  else if js_isNaN offset then (b, Some NaNOffset)
  else if js_gt offset (length_ b) then (b, Some SeekBeyondEnd)
  else
    match offset with
    | JNum n => (mkBlobBuffer (buffer b) (writePromise b) (dest b) n (length_ b), None)
    | _ => (b, Some NaNOffset) (* unreachable: the guards above *)
    end.

(** How the new entry lies with respect to an old one, in the order the
    loop of [write] tests it. *)
Inductive Overlap : Type := Disjoint | Crosses | Replaces | Inside.

Definition overlap (newEntry entry : Entry) : Overlap :=
  if (e_offset newEntry + e_length newEntry <=? e_offset entry)
     || (e_offset entry + e_length entry <=? e_offset newEntry)
  then Disjoint
  else if (e_offset newEntry <? e_offset entry)
     || (e_offset entry + e_length entry <? e_offset newEntry + e_length newEntry)
  then Crosses
  else if (e_offset newEntry =? e_offset entry)
     && (e_length newEntry =? e_length entry)
  then Replaces
  else Inside.

(** The linear search of [write]: [None] when the loop ends without an
    overlapping block and the code falls through to the append; else the
    store and the chunks as the callback leaves them, and the error it
    throws if any. A block that the new entry lies inside is replaced by
    its [Uint8Array] before [set] is called, so it stays replaced when
    [set] throws. *)
Fixpoint overwrite (h : Heap) (newEntry : Entry) (buf : list Entry)
  : option (Heap * list Entry * option error) :=
  match buf with
  | [] => None
  | entry :: rest =>
      match overlap newEntry entry with
      | Disjoint =>
          match overwrite h newEntry rest with
          | Some (h', rest', thrown) => Some (h', entry :: rest', thrown)
          | None => None
          end
      | Crosses => Some (h, entry :: rest, Some OverwriteCrossesBlobBoundaries)
      | Replaces =>
          Some (h, mkEntry (e_offset entry) (e_data newEntry) (e_length entry) :: rest, None)
      | Inside =>
          let '(h1, entryArray) := convertToUint8Array h (e_data entry) in
          let entry' := mkEntry (e_offset entry) (DUint8Array entryArray) (e_length entry) in
          let '(h2, newEntryArray) := convertToUint8Array h1 (e_data newEntry) in
          match view_set h2 entryArray newEntryArray
                  (Z.to_nat (e_offset newEntry - e_offset entry)) with
          | Ok h3 => Some (h3, entry' :: rest, None)
          | Err e => Some (h2, entry' :: rest, Some e)
          end
      end
  end.

(** The callback [write] chains on [writePromise], for a fulfilled chain:
    the store and the chunks after it, and the error it throws if any. In
    the file modes the bytes go to the platform ([_writeToFileWriter],
    [_writeToFs]), whose write is taken here to end well; the loop of
    [_writeToFs] is embedded apart, as [writeToFs]. *)
Definition write_callback (h : Heap) (b : BlobBuffer) (newEntry : Entry) (isAppend : bool)
  : Heap * list Entry * option error :=
  match dest b with
  | ToFs | ToFileWriter => (h, buffer b, None)
  | Memory =>
      if isAppend then (h, buffer b ++ [newEntry], None)
      else
        match overwrite h newEntry (buffer b) with
        | Some r => r
        | None => (h, buffer b ++ [newEntry], None)
        end
  end.

(** [write]: [measureData] throws before anything is changed; otherwise
    [pos] and [length] move at once and the callback runs after the writes
    queued before it, unless the chain is already rejected. *)
Definition write (h : Heap) (b : BlobBuffer) (data : Data)
  : Heap * BlobBuffer * option error :=
  match measureData h data with
  | Err e => (h, b, Some e)
  | Ok len =>
      let newEntry := mkEntry (pos b) data len in
      let isAppend := length_ b <=? e_offset newEntry in
      let pos' := pos b + len in
      let length' := Z.max (length_ b) pos' in
      match writePromise b with
      | Some e => (h, mkBlobBuffer (buffer b) (Some e) (dest b) pos' length', None)
      | None =>
          let '(h', buf', thrown) := write_callback h b newEntry isAppend in
          (h', mkBlobBuffer buf' thrown (dest b) pos' length', None)
      end
  end.

(** What the promise of [complete] settles to. *)
Inductive Completion : Type :=
| Rejected (e : error)
| Null                                   (* file modes *)
| BlobOf (bytes : list Z) (mimeType : option (list Z)).

Definition complete (h : Heap) (b : BlobBuffer) (mimeType : option (list Z)) : Completion :=
  match writePromise b with
  | Some e => Rejected e
  | None =>
      match dest b with
      | ToFs | ToFileWriter => Null
      | Memory => BlobOf (concat (map (fun entry => data_bytes h (e_data entry)) (buffer b))) mimeType
      end
  end.

(** ** Predicates of the specification *)

(** An offset that [seek] accepts: a number of [0, length]. *)
Definition offset_in_range (offset : jsval) (len : Z) : Prop :=
  exists n, offset = JNum n /\ 0 <= n <= len.

(** A datum whose measured extent is zero: the empty string, a
    [Uint8Array] of no element, an ArrayBuffer of no byte, a blob of size
    zero. *)
Definition zero_length_datum (h : Heap) (d : Data) : Prop :=
  match d with
  | DString s => s = []
  | DUint8Array v => vlen v = 0%nat
  | DArrayBuffer b => heap_buffer h b = []
  | DBlob bs => bs = []
  end.

(** ** Sequences of calls on a sink, and what the specification says
       they leave behind *)

Inductive Op : Type :=
| OpSeek (offset : jsval)
| OpWrite (data : Data).

(** Runs the calls in order; [None] as soon as one of them throws. *)
Fixpoint run (h : Heap) (b : BlobBuffer) (ops : list Op) : option (Heap * BlobBuffer) :=
  match ops with
  | [] => Some (h, b)
  | OpSeek offset :: rest =>
      match seek b offset with
      | (b', None) => run h b' rest
      | (_, Some _) => None
      end
  | OpWrite data :: rest =>
      match write h b data with
      | (h', b', None) => run h' b' rest
      | (_, _, Some _) => None
      end
  end.

(** The writes of a sequence of calls as (offset, bytes), in the order
    they are made on the sink [b]: each datum with the bytes it has when
    it is written. *)
Fixpoint writes_of (h : Heap) (b : BlobBuffer) (ops : list Op) : list (Z * list Z) :=
  match ops with
  | [] => []
  | OpSeek offset :: rest => writes_of h (fst (seek b offset)) rest
  | OpWrite data :: rest =>
      let '(h', b', _) := write h b data in
      (pos b, data_bytes h data) :: writes_of h' b' rest
  end.

(** The byte last written at position [p], if any was. *)
Fixpoint last_written (ws : list (Z * list Z)) (p : Z) : option Z :=
  match ws with
  | [] => None
  | (o, bs) :: rest =>
      match last_written rest p with
      | Some x => Some x
      | None =>
          if (o <=? p) && (p <? o + Z.of_nat (length bs))
          then bs !! Z.to_nat (p - o) else None
      end
  end.

(** The ArrayBuffer behind a datum. *)
Definition data_buffer (d : Data) : option nat :=
  match d with
  | DUint8Array v => Some (vbuf v)
  | DArrayBuffer b => Some b
  | DString _ | DBlob _ => None
  end.

(** A datum is byte-exact when [measureData] finds the number of bytes it
    occupies in a blob: any non-empty view inside its buffer, non-empty
    ArrayBuffer or blob, and a non-empty string of code units below 0x80. *)
Definition byte_exact (h : Heap) (d : Data) : Prop :=
  measureData h d = Ok (Z.of_nat (length (data_bytes h d))).

Definition op_data (ops : list Op) : list Data :=
  omap (fun op => match op with OpWrite d => Some d | OpSeek _ => None end) ops.

(** The bytes a memory sink holds. *)
Definition image (h : Heap) (buf : list Entry) : list Z :=
  concat (map (fun entry => data_bytes h (e_data entry)) buf).

(** [a] holds the whole of [o, o + len). *)
Definition contains (a : Entry) (o len : Z) : Prop :=
  e_offset a <= o /\ o + len <= e_offset a + e_length a.

(** *** The invariant of a memory sink *)

(** The buffer of a datum is allocated and its window lies inside it. *)
Definition data_ok (h : Heap) (d : Data) : Prop :=
  match d with
  | DUint8Array v =>
      (vbuf v < length h)%nat /\
      (voff v + vlen v <= length (heap_buffer h (vbuf v)))%nat
  | DArrayBuffer b => (b < length h)%nat
  | DString _ | DBlob _ => True
  end.

(** Chunks of positive length tile the file in the order of [buffer], and
    every chunk is as long as its bytes. *)
Fixpoint tiles (h : Heap) (base : Z) (buf : list Entry) : Prop :=
  match buf with
  | [] => True
  | e :: rest =>
      (Z.of_nat (length (data_bytes h (e_data e))) = e_length e /\
       data_ok h (e_data e)) /\
      (e_length e <> 0 -> e_offset e = base) /\
      tiles h (base + e_length e) rest
  end.

Definition extent (buf : list Entry) : Z :=
  fold_right (fun e n => e_length e + n) 0 buf.

(** A chunk of length zero sits at a boundary of the others. *)
Definition zero_ok (buf : list Entry) : Prop :=
  forall z a, z ∈ buf -> a ∈ buf -> e_length z = 0 ->
    e_offset z <= e_offset a \/ e_offset a + e_length a <= e_offset z.

(** Where the chunks are: their offsets and lengths. *)
Definition shape (buf : list Entry) : list (Z * Z) :=
  (fun e => (e_offset e, e_length e)) <$> buf.

Definition buffers_of (buf : list Entry) : list nat :=
  omap (fun e => data_buffer (e_data e)) buf.

(** What holds of every memory sink that byte-exact data have been
    written to, whoever shares their buffers: the cursor is within the
    file, the chunks of positive length tile it, each as long as its
    bytes, and a chunk of length zero sits on a boundary. *)
Record sink_shape (h : Heap) (b : BlobBuffer) : Prop := mkSinkShape {
  shape_dest : dest b = Memory;
  shape_pos : 0 <= pos b <= length_ b;
  shape_tiles : tiles h 0 (buffer b);
  shape_extent : extent (buffer b) = length_ b;
  shape_zero : zero_ok (buffer b);
  shape_offsets : Forall (fun e => e_offset e <= length_ b) (buffer b)
}.

(** The same, for a sink no two chunks of which show one ArrayBuffer, as
    is the sink of the muxer. *)
Record sink_inv (h : Heap) (b : BlobBuffer) : Prop := mkSinkInv {
  inv_dest : dest b = Memory;
  inv_pos : 0 <= pos b <= length_ b;
  inv_tiles : tiles h 0 (buffer b);
  inv_extent : extent (buffer b) = length_ b;
  inv_zero : zero_ok (buffer b);
  inv_offsets : Forall (fun e => e_offset e <= length_ b) (buffer b);
  inv_nodup : NoDup (buffers_of (buffer b))
}.

(** The body of the loop of [write] on the first block that the new entry
    overlaps, apart from the loop. *)
Definition hit_entry (h : Heap) (newEntry entry : Entry) : Heap * Entry * option error :=
  match overlap newEntry entry with
  | Disjoint => (h, entry, None)
  | Crosses => (h, entry, Some OverwriteCrossesBlobBoundaries)
  | Replaces => (h, mkEntry (e_offset entry) (e_data newEntry) (e_length entry), None)
  | Inside =>
      let '(h1, entryArray) := convertToUint8Array h (e_data entry) in
      let entry' := mkEntry (e_offset entry) (DUint8Array entryArray) (e_length entry) in
      let '(h2, newEntryArray) := convertToUint8Array h1 (e_data newEntry) in
      match view_set h2 entryArray newEntryArray
              (Z.to_nat (e_offset newEntry - e_offset entry)) with
      | Ok h3 => (h3, entry', None)
      | Err e => (h2, entry', Some e)
      end
  end.

(** The write of [len] bytes at [o] lies in one chunk of [buf]. *)
Definition in_one_chunk (buf : list Entry) (o len : Z) : Prop :=
  exists a, a ∈ buf /\ contains a o len.

(** What an accepted write of [d] at the cursor of [b] leaves: the chunk
    list [buf'] in the store [h']. *)
Definition step_ok (h : Heap) (b : BlobBuffer) (d : Data)
    (h' : Heap) (buf' : list Entry) : Prop :=
  let bs := data_bytes h d in
  let len' := Z.max (length_ b) (pos b + Z.of_nat (length bs)) in
  tiles h' 0 buf' /\
  extent buf' = len' /\
  zero_ok buf' /\
  Forall (fun e => e_offset e <= len') buf' /\
  NoDup (buffers_of buf') /\
  image h' buf' = splice (image h (buffer b)) (Z.to_nat (pos b)) bs /\
  (length h <= length h')%nat /\
  (forall id, (id < length h)%nat -> id ∉ buffers_of (buffer b) -> h' !! id = h !! id) /\
  (forall id, id ∈ buffers_of buf' ->
     id ∈ buffers_of (buffer b) \/ data_buffer d = Some id \/ (length h <= id)%nat).

(** The sink after a write of [len] bytes that leaves the chunks [buf'] and
    the chain in state [wp]. *)
Definition after_write (b : BlobBuffer) (buf' : list Entry) (wp : option error) (len : Z)
  : BlobBuffer :=
  mkBlobBuffer buf' wp (dest b) (pos b + len) (Z.max (length_ b) (pos b + len)).

(** What a write of [d] at the cursor of [b] leaves whatever buffers the
    chunks share: the chunk list [buf'] in the store [h'], where every
    buffer has kept its length. *)
Definition step_shape (h : Heap) (b : BlobBuffer) (d : Data)
    (h' : Heap) (buf' : list Entry) : Prop :=
  let len' := Z.max (length_ b) (pos b + Z.of_nat (length (data_bytes h d))) in
  tiles h' 0 buf' /\
  extent buf' = len' /\
  zero_ok buf' /\
  Forall (fun e => e_offset e <= len') buf' /\
  (length h <= length h')%nat /\
  (forall id, (id < length h)%nat ->
     length (heap_buffer h' id) = length (heap_buffer h id)).

(** The first chunk of [buf] that the new entry overlaps, which is where
    the loop of [write] stops, with the chunks before and after it. *)
Fixpoint first_overlap (newEntry : Entry) (buf : list Entry)
  : option (list Entry * Entry * list Entry) :=
  match buf with
  | [] => None
  | entry :: rest =>
      match overlap newEntry entry with
      | Disjoint =>
          match first_overlap newEntry rest with
          | Some (pre, e, post) => Some (entry :: pre, e, post)
          | None => None
          end
      | _ => Some ([], entry, rest)
      end
  end.

(** The write of [d] at the cursor of [b] is an overwrite inside a chunk
    whose ArrayBuffer another chunk of the sink shows as well: the bytes
    of both change. *)
Definition lands_in_shared (h : Heap) (b : BlobBuffer) (d : Data) : bool :=
  match measureData h d with
  | Ok len =>
      let newEntry := mkEntry (pos b) d len in
      if length_ b <=? pos b then false
      else
        match first_overlap newEntry (buffer b) with
        | Some (pre, e, post) =>
            match overlap newEntry e, data_buffer (e_data e) with
            | Inside, Some id => bool_decide (id ∈ buffers_of (pre ++ post))
            | _, _ => false
            end
        | None => false
        end
  | Err _ => false
  end.

(** No write of the calls lands in a shared buffer. *)
Fixpoint unshared (h : Heap) (b : BlobBuffer) (ops : list Op) : bool :=
  match ops with
  | [] => true
  | OpSeek offset :: rest => unshared h (fst (seek b offset)) rest
  | OpWrite d :: rest =>
      negb (lands_in_shared h b d) &&
      let '(h', b', _) := write h b d in unshared h' b' rest
  end.

(** * The WebP keyframe extractor (utils.mjs) *)

(** A JavaScript string is the list of its UTF-16 code units. *)
Abbreviation jsstring := (list Z).

Definition clamp_index (s : jsstring) (i : Z) : nat :=
  Z.to_nat (Z.min (Z.max i 0) (Z.of_nat (length s))).

(** [s.substring(a, b)]: both indices are clamped to the string and
    swapped when out of order. *)
Definition substring (s : jsstring) (a b : Z) : jsstring :=
  let a' := clamp_index s a in
  let b' := clamp_index s b in
  take (Nat.max a' b' - Nat.min a' b') (drop (Nat.min a' b') s).

(** [s.charCodeAt(i)] under a bitwise operator, where NaN counts as 0. *)
Definition charCodeAt_int (s : jsstring) (i : nat) : Z :=
  match s !! i with Some c => c | None => 0 end.

(** [(a | (b << 8) | (c << 16) | (d << 24)) >>> 0]: the operators work on
    32 bits and the result is read unsigned. *)
Definition byteStringToUint32LE (s : jsstring) : Z :=
  let a := charCodeAt_int s 0 in
  let b := charCodeAt_int s 1 in
  let c := charCodeAt_int s 2 in
  let d := charCodeAt_int s 3 in
  Z.land (Z.lor (Z.lor (Z.lor a (Z.shiftl b 8)) (Z.shiftl c 16)) (Z.shiftl d 24))
         0xFFFFFFFF.

Definition jsstring_eqb (s t : jsstring) : bool :=
  bool_decide (s = t).

(** [s.indexOf(needle, from)] for [from >= 0]: the first index at or after
    [from] where [needle] starts; [None] is the -1 of JavaScript. The
    search is over the suffixes of [s], [n] characters in. *)
Fixpoint index_from (needle : jsstring) (s : jsstring) (n : nat) : option nat :=
  if jsstring_eqb (take (length needle) s) needle then Some n
  else match s with
       | [] => None
       | _ :: rest => index_from needle rest (S n)
       end.

Definition indexOf (s needle : jsstring) (from : nat) : option nat :=
  if (length s <? from)%nat then
    (if jsstring_eqb needle [] then Some (length s) else None)
  else index_from needle (drop from s) from.

Definition str_VP8 : jsstring := [86; 80; 56].          (* "VP8" *)
Definition str_VP8_ : jsstring := [86; 80; 56; 32].     (* "VP8 " *)
Definition str_ALPH : jsstring := [65; 76; 80; 72].     (* "ALPH" *)

Record Keyframe : Type := mkKeyframe { frame : jsstring; hasAlpha : bool }.

(** Where the cursor stands after the chunk whose header is at [cursor]. *)
Definition next_chunk (webP : jsstring) (cursor : Z) : Z :=
  let chunkLength := byteStringToUint32LE (substring webP (cursor + 4) (cursor + 8)) in
  let cursor' := cursor + 8 + chunkLength in
  if negb (Z.land chunkLength 0x01 =? 0) then cursor' + 1 else cursor'.

(** The [while] loop of [extractKeyframeFromWebP], at most [fuel] rounds;
    [None] when the rounds are used up. *)
Fixpoint scan_chunks (fuel : nat) (webP : jsstring) (cursor : Z) (hasAlpha : bool)
  : option (result Keyframe) :=
  if cursor <? Z.of_nat (length webP) - 8 then
    match fuel with
    | O => None
    | S fuel' =>
        let fourCC := substring webP cursor (cursor + 4) in
        let chunkLength := byteStringToUint32LE (substring webP (cursor + 4) (cursor + 8)) in
        if jsstring_eqb fourCC str_VP8_ then
          Some (Ok (mkKeyframe (substring webP (cursor + 8) (cursor + 8 + chunkLength))
                               hasAlpha))
        else
          scan_chunks fuel' webP (next_chunk webP cursor)
                      (if jsstring_eqb fourCC str_ALPH then true else hasAlpha)
    end
  else Some (Err BadWebP).

(** Every round moves the cursor by eight characters at least, so the
    length of the input is fuel enough (see [scan_chunks_total]). *)
Definition extractKeyframeFromWebP (webP : jsstring) : result Keyframe :=
  match indexOf webP str_VP8 12 with
  | None => Err BadWebP
  | Some cursor =>
      match scan_chunks (length webP) webP (Z.of_nat cursor) false with
      | Some r => r
      | None => Err BadWebP
      end
  end.

(** The extractor as the specification words it: the chunk headers are
    scanned from byte 12. *)
Definition extract_from_byte_12 (webP : jsstring) : result Keyframe :=
  match indexOf webP str_VP8 12 with
  | None => Err BadWebP
  | Some _ =>
      match scan_chunks (length webP) webP 12 false with
      | Some r => r
      | None => Err BadWebP
      end
  end.

(** The walk over the chunks that the loop makes from [cursor]. *)
Inductive Walk (webP : jsstring) : Z -> bool -> result Keyframe -> Prop :=
| Walk_end cursor alpha :
    Z.of_nat (length webP) - 8 <= cursor ->
    Walk webP cursor alpha (Err BadWebP)
| Walk_VP8 cursor alpha :
    cursor < Z.of_nat (length webP) - 8 ->
    substring webP cursor (cursor + 4) = str_VP8_ ->
    Walk webP cursor alpha
      (Ok (mkKeyframe
             (substring webP (cursor + 8)
                (cursor + 8 + byteStringToUint32LE (substring webP (cursor + 4) (cursor + 8))))
             alpha))
| Walk_ALPH cursor alpha r :
    cursor < Z.of_nat (length webP) - 8 ->
    substring webP cursor (cursor + 4) = str_ALPH ->
    Walk webP (next_chunk webP cursor) true r ->
    Walk webP cursor alpha r
| Walk_skip cursor alpha r :
    cursor < Z.of_nat (length webP) - 8 ->
    substring webP cursor (cursor + 4) <> str_VP8_ ->
    substring webP cursor (cursor + 4) <> str_ALPH ->
    Walk webP (next_chunk webP cursor) alpha r ->
    Walk webP cursor alpha r.

(** "VP8" starts at index [i] of [s], and nowhere from [from] to [i]. *)
Definition first_VP8_at (s : jsstring) (from i : nat) : Prop :=
  (from <= i)%nat /\ take 3 (drop i s) = str_VP8 /\
  forall j, (from <= j < i)%nat -> take 3 (drop j s) <> str_VP8.

(** * The byte stream writer (ArrayBufferDataStream.mjs) *)

(** A stream: a buffer of fixed capacity and a cursor. *)
Record Stream : Type := mkStream { s_data : list Z; s_pos : nat }.

(** Modelled from the spec: [ArrayBufferDataStream] is not among the
    sources. Section 4.A: a fixed-capacity mutable buffer with a cursor
    [pos]; the buffer is not resized, so a byte written past the capacity
    is not stored. A new buffer holds zeros. *)
Definition newStream (capacity : nat) : Stream :=
  mkStream (replicate capacity 0) 0.

(** Modelled from the spec: [write_byte(b)] stores [b] at the cursor and
    advances it (section 4.A of the specification; the class is not among
    the sources). *)
Definition writeByte (s : Stream) (b : Z) : Stream :=
  mkStream (<[s_pos s := b]> (s_data s)) (S (s_pos s)).

(** Modelled from the spec: [write_bytes(bs)], byte after byte. *)
Definition writeBytes (s : Stream) (bs : list Z) : Stream :=
  fold_left writeByte bs s.

(** Modelled from the spec: [write_string(s)] writes the UTF-8 bytes of
    [s]. *)
Definition writeString (s : Stream) (str : jsstring) : Stream :=
  writeBytes s (utf8_encode str).

(** The [width] low bytes of [n], most significant first. *)
Fixpoint bytesBE (width : nat) (n : Z) : list Z :=
  match width with
  | O => []
  | S w => Z.land (Z.shiftr n (8 * Z.of_nat w)) 0xFF :: bytesBE w n
  end.

(** Modelled from the spec: [measure_unsigned_int(n)] is 1 if [n < 2^8], 2
    if [n < 2^16], and so on up to 5. *)
Definition measureUnsignedInt (n : Z) : nat :=
  if n <? 2 ^ 8 then 1
  else if n <? 2 ^ 16 then 2
  else if n <? 2 ^ 24 then 3
  else if n <? 2 ^ 32 then 4
  else 5.

(** Modelled from the spec: [write_unsigned_int_be(n, width?)] emits [n]
    big-endian in [width] bytes, [measure_unsigned_int(n)] of them when the
    width is left out. *)
Definition writeUnsignedIntBE (s : Stream) (n : Z) (width : option nat) : Stream :=
  let w := match width with Some w => w | None => measureUnsignedInt n end in
  writeBytes s (bytesBE w n).

(** Modelled from the spec: [write_u16_be], and the floats as the bytes of
    their IEEE-754 bit pattern, which is how a float reaches this model. *)
Definition writeU16BE (s : Stream) (n : Z) : Stream := writeBytes s (bytesBE 2 n).
Definition writeDoubleBE (s : Stream) (bits : Z) : Stream := writeBytes s (bytesBE 8 bits).
Definition writeFloatBE (s : Stream) (bits : Z) : Stream := writeBytes s (bytesBE 4 bits).

(** Modelled from the spec: the EBML varint of width [w] has its marker
    bit at position [7w] and [n] packed in the bits below it. *)
Definition ebmlVarIntBytes (n : Z) (w : nat) : list Z :=
  bytesBE w (Z.lor (Z.shiftl 1 (7 * Z.of_nat w)) n).

(** Modelled from the spec: the smallest width [w] of 1..8 such that
    [n < 2^(7w) - 1], so that the all-ones code is never produced. The
    specification names no width for a number from [2^56 - 1] on: there
    is none to choose, [None]. *)
Definition measureEBMLVarInt (n : Z) : option nat :=
  find (fun w => n <? 2 ^ (7 * Z.of_nat w) - 1) [1; 2; 3; 4; 5; 6; 7; 8]%nat.

(** Modelled from the spec: [write_ebml_var_int_width(n, w)]. *)
Definition writeEBMLVarIntWidth (s : Stream) (n : Z) (w : nat) : Stream :=
  writeBytes s (ebmlVarIntBytes n w).

(** Modelled from the spec: [write_ebml_var_int(n)]. The specification
    does not say what the writer does with a number for which there is no
    width of 1..8: it is taken here to throw. *)
Definition writeEBMLVarInt (s : Stream) (n : Z) : result Stream :=
  match measureEBMLVarInt n with
  | Some w => Ok (writeEBMLVarIntWidth s n w)
  | None => Err BadEbmlVarInt
  end.

(** Modelled from the spec: [seek(p)] sets the cursor. *)
Definition streamSeek (s : Stream) (p : nat) : Stream := mkStream (s_data s) p.

(** Modelled from the spec: [as_bytes()] is a snapshot of [0..pos). *)
Definition getAsDataArray (s : Stream) : list Z := take (s_pos s) (s_data s).

(** Reads an EBML varint of width [w]: the bits below the marker. *)
Fixpoint valueBE (bs : list Z) (acc : Z) : Z :=
  match bs with
  | [] => acc
  | b :: rest => valueBE rest (acc * 256 + b)
  end.

Definition decodeEBMLVarInt (bs : list Z) : Z :=
  Z.land (valueBE bs 0) (2 ^ (7 * Z.of_nat (length bs)) - 1).

(** * The EBML serializer (utils.mjs) *)

Definition EBML_SIZE_UNKNOWN : Z := -1.
Definition EBML_SIZE_UNKNOWN_5_BYTES : Z := -2.

(** The fields of an element object besides its data; [None] is a field
    that is undefined. *)
Record Header : Type := mkHeader {
  id : Z;
  size : option Z;
  offset : option Z;
  dataOffset : option Z
}.

(** The data of an element that is not a list of children. *)
Inductive Payload : Type :=
| PString (s : jsstring)
| PNumber (n : Z)
| PFloat64 (bits : Z)             (* EBMLFloat64, by its bit pattern *)
| PFloat32 (bits : Z)             (* EBMLFloat32 *)
| PUint8Array (bs : list Z)
| POther.                         (* any other data: "Bad EBML datatype" *)

#[local] Unset Elimination Schemes.
Inductive EBML : Type :=
| EArray (items : list EBML)      (* an array of sibling elements *)
| EString (s : jsstring)          (* raw data *)
| EUint8Array (bs : list Z)       (* raw data *)
| EList (hd : Header) (children : list EBML)
| ELeaf (hd : Header) (data : Payload).
#[local] Set Elimination Schemes.

Definition set_offset (hd : Header) (o : Z) : Header :=
  mkHeader (id hd) (size hd) (Some o) (dataOffset hd).
Definition set_dataOffset (hd : Header) (o : Z) : Header :=
  mkHeader (id hd) (size hd) (offset hd) (Some o).
Definition set_size (hd : Header) (n : Z) : Header :=
  mkHeader (id hd) (Some n) (offset hd) (dataOffset hd).

(** [ebml.size === c]. *)
Definition size_is (hd : Header) (c : Z) : bool :=
  match size hd with Some n => n =? c | None => false end.

(** [!ebml.size]. *)
Definition size_falsy (hd : Header) : bool :=
  match size hd with Some n => n =? 0 | None => true end.

(** The branches of [writeEBML] for an element whose data is not an array:
    the size field, [dataOffset], the payload. *)
Definition writeLeaf (buffer : Stream) (bufferFileOffset : Z) (hd : Header) (data : Payload)
  : result (Stream * Header) :=
  let here (b : Stream) := Z.of_nat (s_pos b) + bufferFileOffset in
  match data with
  | PString s =>
      do b1 <- writeEBMLVarInt buffer (Z.of_nat (length s));
      Ok (writeString b1 s, set_dataOffset hd (here b1))
  | PNumber n =>
      let hd1 := if size_falsy hd
                 then set_size hd (Z.of_nat (measureUnsignedInt n)) else hd in
      let sz := match size hd1 with Some z => z | None => 0 end in
      do b1 <- writeEBMLVarInt buffer sz;
      Ok (writeUnsignedIntBE b1 n (Some (Z.to_nat sz)), set_dataOffset hd1 (here b1))
  | PFloat64 bits =>
      do b1 <- writeEBMLVarInt buffer 8;
      Ok (writeDoubleBE b1 bits, set_dataOffset hd (here b1))
  | PFloat32 bits =>
      do b1 <- writeEBMLVarInt buffer 4;
      Ok (writeFloatBE b1 bits, set_dataOffset hd (here b1))
  | PUint8Array bs =>
      do b1 <- writeEBMLVarInt buffer (Z.of_nat (length bs));
      Ok (writeBytes b1 bs, set_dataOffset hd (here b1))
  | POther => Err BadEbmlDatatype
  end.

(** The size placeholder of an element with children. *)
Definition writePlaceholder (buffer : Stream) (hd : Header) : Stream :=
  if size_is hd EBML_SIZE_UNKNOWN then writeByte buffer 0xFF
  else if size_is hd EBML_SIZE_UNKNOWN_5_BYTES
  then writeBytes buffer [0x0F; 0xFF; 0xFF; 0xFF; 0xFF]
  else writeBytes buffer [0; 0; 0; 0].

(** [writeEBML]: the stream after the write and the tree with the fields
    the write fills in. *)
Fixpoint writeEBML (buffer : Stream) (bufferFileOffset : Z) (ebml : EBML)
  : result (Stream * EBML) :=
  let writeAll :=
    fix writeAll (buffer : Stream) (items : list EBML) : result (Stream * list EBML) :=
      match items with
      | [] => Ok (buffer, [])
      | item :: rest =>
          do (b1, item') <- writeEBML buffer bufferFileOffset item;
          do (b2, rest') <- writeAll b1 rest;
          Ok (b2, item' :: rest')
      end in
  match ebml with
  | EArray items =>
      do (b1, items') <- writeAll buffer items;
      Ok (b1, EArray items')
  | EString s => Ok (writeString buffer s, EString s)
  | EUint8Array bs => Ok (writeBytes buffer bs, EUint8Array bs)
  | EList hd children =>
      if id hd =? 0 then Err BadEbmlDatatype
      else
        let hd1 := set_offset hd (Z.of_nat (s_pos buffer) + bufferFileOffset) in
        let b1 := writeUnsignedIntBE buffer (id hd) None in
        let sizePos := s_pos b1 in
        let b2 := writePlaceholder b1 hd1 in
        let dataBegin := s_pos b2 in
        let hd2 := set_dataOffset hd1 (Z.of_nat dataBegin + bufferFileOffset) in
        do (b3, children') <- writeAll b2 children;
        if negb (size_is hd2 EBML_SIZE_UNKNOWN)
           && negb (size_is hd2 EBML_SIZE_UNKNOWN_5_BYTES)
        then
          let dataEnd := s_pos b3 in
          let hd3 := set_size hd2 (Z.of_nat dataEnd - Z.of_nat dataBegin) in
          let b4 := writeEBMLVarIntWidth (streamSeek b3 sizePos)
                      (Z.of_nat dataEnd - Z.of_nat dataBegin) 4 in
          Ok (streamSeek b4 dataEnd, EList hd3 children')
        else Ok (b3, EList hd2 children')
  | ELeaf hd data =>
      if id hd =? 0 then Err BadEbmlDatatype
      else
        let hd1 := set_offset hd (Z.of_nat (s_pos buffer) + bufferFileOffset) in
        let b1 := writeUnsignedIntBE buffer (id hd) None in
        do (b2, hd2) <- writeLeaf b1 bufferFileOffset hd1 data;
        Ok (b2, ELeaf hd2 data)
  end.

(** The loop of [writeEBML] over an array. *)
Fixpoint writeEBML_all (buffer : Stream) (bufferFileOffset : Z) (items : list EBML)
  : result (Stream * list EBML) :=
  match items with
  | [] => Ok (buffer, [])
  | item :: rest =>
      do (b1, item') <- writeEBML buffer bufferFileOffset item;
      do (b2, rest') <- writeEBML_all b1 bufferFileOffset rest;
      Ok (b2, item' :: rest')
  end.

(** The [n] bytes of a stream's buffer from position [p]. *)
Definition stream_bytes (s : Stream) (p n : nat) : list Z :=
  take n (drop p (s_data s)).

(** Nothing below position [p] differs between the two streams, and the
    buffer has kept its capacity. *)
Definition same_below (p : nat) (s s' : Stream) : Prop :=
  length (s_data s') = length (s_data s) /\
  forall i, (i < p)%nat -> s_data s' !! i = s_data s !! i.

(** The cursor has not gone back, and nothing before its old position has
    changed. *)
Definition advances (s s' : Stream) : Prop :=
  (s_pos s <= s_pos s')%nat /\ same_below (s_pos s) s s'.

(** * The muxer (WebMWriter.mjs) *)

(** ** JavaScript numbers *)

(** The times and durations of the muxer are JavaScript numbers: doubles
    of IEEE 754 (binary64), here the [spec_float] of the Standard
    Library with its operations, which round to the nearest double, ties
    to even. *)
Definition double : Type := spec_float.

Definition double_zero : double := S754_zero false.

(** [x + y]. *)
Definition double_add (x y : double) : double := SFadd 53 1024 x y.

(** The rational that a finite double is. *)
Definition double_value (x : double) : option Q :=
  match x with
  | S754_zero _ => Some 0%Q
  | S754_finite s m e =>
      let n := if s then Zneg m else Zpos m in
      Some (if 0 <=? e then inject_Z (n * 2 ^ e) else (n # 2 ^ Z.to_pos (- e)))%Q
  | S754_infinity _ | S754_nan => None
  end.

(** [x >= y]: false when one of them is NaN. *)
Definition double_ge (x y : double) : bool :=
  match x, y with
  | S754_nan, _ | _, S754_nan => false
  | S754_infinity sx, S754_infinity sy => implb sx sy
  | S754_infinity sx, _ => negb sx
  | _, S754_infinity sy => sy
  | _, _ =>
      match double_value x, double_value y with
      | Some p, Some q => Qle_bool q p
      | _, _ => false
      end
  end.

(** The double nearest to a rational, ties to even: the value of a
    literal, and of the quotient of two doubles. *)
Definition double_of_Q (q : Q) : double :=
  let round (s : bool) (n : positive) :=
    let '(m, e, l) := SFdiv_core_binary 53 1024 (Zpos n) 0 (Zpos (Qden q)) 0 in
    binary_round_aux 53 1024 s m e l in
  match Qnum q with
  | Z0 => S754_zero false
  | Zpos n => round false n
  | Zneg n => round true n
  end.

(** A number is truthy unless it is zero or NaN. *)
Definition double_truthy (x : double) : bool :=
  match x with
  | S754_zero _ | S754_nan => false
  | _ => true
  end.

(** The 64 bits of a double: sign, biased exponent and the 52 bits of
    the mantissa; NaN as the quiet NaN 7FF8000000000000. *)
Definition double_bits (x : double) : Z :=
  let sign (s : bool) := if s then 2 ^ 63 else 0 in
  match x with
  | S754_zero s => sign s
  | S754_infinity s => sign s + 0x7FF * 2 ^ 52
  | S754_nan => 0x7FF8 * 2 ^ 48
  | S754_finite s m e =>
      match binary_round 53 1024 s m e with
      | S754_finite _ m' e' =>
          if Zpos m' <? 2 ^ 52 then sign s + Zpos m'
          else sign s + (e' + 1075) * 2 ^ 52 + (Zpos m' - 2 ^ 52)
      | S754_infinity _ => sign s + 0x7FF * 2 ^ 52
      | _ => sign s
      end
  end.

(** [Math.round] of a finite number: the nearest integer, halves
    upwards. *)
Definition Math_round_Q (x : Q) : Z := Qfloor (x + (1 # 2))%Q.

(** [Math.round] of a double, as the integer that goes to the stream
    writer. The specification gives that writer bytes for integers only
    (section 4.A); a NaN or an infinity goes to it as 0 here, which is
    what the bit operators of JavaScript make of them. *)
Definition Math_round (x : double) : Z :=
  match double_value x with
  | Some q => Math_round_Q q
  | None => 0
  end.

(** A number of the options is truthy unless it is zero. *)
Definition Q_truthy (x : Q) : bool := negb (Qeq_bool x 0).

Definition MAX_CLUSTER_DURATION_MSEC : double := double_of_Q 5000.
Definition DEFAULT_TRACK_NUMBER : Z := 1.

(** The options, after [extend(optionDefaults, options)]: a field is
    [None] when it is null or undefined. A number of the options is the
    rational that the double given is, and the frame duration derived
    from the frame rate is their exact quotient: the muxer takes it as
    the double nearest to it, which is what the division of JavaScript
    gives. *)
Record Options : Type := mkOptions {
  quality : Q;
  transparent : bool;
  alphaQuality : option Q;
  fileWriter : bool;               (* a FileWriter was given *)
  fd : bool;                       (* a file descriptor was given *)
  frameDuration : option Q;
  frameRate : option Q
}.

Definition optionDefaults : Options :=
  mkOptions (95 # 100) false None false false None None.

Definition option_truthy (v : option Q) : bool :=
  match v with Some x => Q_truthy x | None => false end.

Definition clamp_quality (q : Q) : Q := Qmax (Qmin q (99999 # 100000)) 0.

Definition validateOptions (options : Options) : result Options :=
  do fd' <-
    (if negb (option_truthy (frameDuration options)) then
       if option_truthy (frameRate options) then
         match frameRate options with
         | Some rate => Ok (Some (1000 / rate)%Q)
         | None => Err MissingFrameTiming
         end
       else Err MissingFrameTiming
     else Ok (frameDuration options));
  let quality' := clamp_quality (quality options) in
  let alphaQuality' :=
    match alphaQuality options with
    | None => quality'
    | Some a => clamp_quality a
    end in
  Ok (mkOptions quality' (transparent options) (Some alphaQuality')
        (fileWriter options) (fd options) fd' (frameRate options)).

Record Frame : Type := mkFrame {
  f_frame : jsstring;             (* raw VP8 keyframe data *)
  f_alpha : option jsstring;
  f_duration : double;
  f_trackNumber : Z;
  f_timecode : Z
}.

Record Muxer : Type := mkMuxer {
  options : Options;
  writtenHeader : bool;
  videoWidth : Z;
  videoHeight : Z;
  clusterFrameBuffer : list Frame;
  clusterStartTime : double;
  clusterDuration : double;
  ebmlSegment : option Header;    (* the fields of the root element, once written *)
  segmentDuration : Header;       (* the fields of the Duration element *)
  seekHead : option EBML;         (* holds the three [positionEBML] of [seekPoints] *)
  cues : list EBML;
  heap : Heap;
  blobBuffer : BlobBuffer
}.

Definition set_sink (m : Muxer) (h : Heap) (bb : BlobBuffer) : Muxer :=
  mkMuxer (options m) (writtenHeader m) (videoWidth m) (videoHeight m)
    (clusterFrameBuffer m) (clusterStartTime m) (clusterDuration m)
    (ebmlSegment m) (segmentDuration m) (seekHead m) (cues m) h bb.

Definition set_seekHead (m : Muxer) (sh : option EBML) : Muxer :=
  mkMuxer (options m) (writtenHeader m) (videoWidth m) (videoHeight m)
    (clusterFrameBuffer m) (clusterStartTime m) (clusterDuration m)
    (ebmlSegment m) (segmentDuration m) sh (cues m) (heap m) (blobBuffer m).

Definition set_cues (m : Muxer) (cs : list EBML) : Muxer :=
  mkMuxer (options m) (writtenHeader m) (videoWidth m) (videoHeight m)
    (clusterFrameBuffer m) (clusterStartTime m) (clusterDuration m)
    (ebmlSegment m) (segmentDuration m) (seekHead m) cs (heap m) (blobBuffer m).

Definition set_cluster (m : Muxer) (frames : list Frame) (start duration : double) : Muxer :=
  mkMuxer (options m) (writtenHeader m) (videoWidth m) (videoHeight m)
    frames start duration
    (ebmlSegment m) (segmentDuration m) (seekHead m) (cues m) (heap m) (blobBuffer m).

Definition set_video (m : Muxer) (w h : Z) : Muxer :=
  mkMuxer (options m) (writtenHeader m) w h
    (clusterFrameBuffer m) (clusterStartTime m) (clusterDuration m)
    (ebmlSegment m) (segmentDuration m) (seekHead m) (cues m) (heap m) (blobBuffer m).

Definition set_header (m : Muxer) (seg : Header) (dur : Header) (sh : EBML) : Muxer :=
  mkMuxer (options m) true (videoWidth m) (videoHeight m)
    (clusterFrameBuffer m) (clusterStartTime m) (clusterDuration m)
    (Some seg) dur (Some sh) (cues m) (heap m) (blobBuffer m).

(** An element object with only [id] and [data]. *)
Definition element (i : Z) : Header := mkHeader i None None None.

(** [new BlobBuffer(options.fileWriter || options.fd)]: the constructor
    gets no [fs], so only a FileWriter takes the sink out of memory. *)
Definition sink_of (o : Options) : BlobBuffer :=
  newBlobBuffer (if fileWriter o then ToFileWriter else Memory).

(** [new WebMWriter(options)]. *)
Definition WebMWriter (h : Heap) (o : Options) : result Muxer :=
  do o' <- validateOptions o;
  Ok (mkMuxer o' false 0 0 [] double_zero double_zero None
        (element 0x4489) None [] h (sink_of o)).

(** [blobBuffer.write(stream.getAsDataArray())]: the data array is a view
    of the stream's own buffer. *)
Definition blob_write (m : Muxer) (s : Stream) : result Muxer :=
  let '(h1, b) := heap_alloc (heap m) (s_data s) in
  let d := DUint8Array (mkView b 0 (length (getAsDataArray s))) in
  match write h1 (blobBuffer m) d with
  | (h2, bb, None) => Ok (set_sink m h2 bb)
  | (_, _, Some e) => Err e
  end.

Definition blob_seek (m : Muxer) (offset : Z) : result Muxer :=
  match seek (blobBuffer m) (JNum offset) with
  | (bb, None) => Ok (set_sink m (heap m) bb)
  | (_, Some e) => Err e
  end.

Definition fileOffsetToSegmentRelative (m : Muxer) (fileOffset : option Z) : result Z :=
  match ebmlSegment m, fileOffset with
  | Some seg, Some o =>
      match dataOffset seg with
      | Some d => Ok (o - d)
      | None => Err TypeError
      end
  | _, _ => Err TypeError
  end.

(** The ids of [seekPoints], in the order of its keys. *)
Definition seekPoint_ids : list (list Z) :=
  [ [0x1C; 0x53; 0xBB; 0x6B];      (* Cues *)
    [0x15; 0x49; 0xA9; 0x66];      (* SegmentInfo *)
    [0x16; 0x54; 0xAE; 0x6B] ].    (* Tracks *)

Definition seekPositionEBMLTemplate : Header := mkHeader 0x53AC (Some 5) None None.

Definition createSeekHead : EBML :=
  EList (element 0x114D9B74)
    (map (fun ident =>
            EList (element 0x4DBB)
              [ELeaf (element 0x53AB) (PUint8Array ident);
               ELeaf seekPositionEBMLTemplate (PNumber 0)])
         seekPoint_ids).

(** [seekPoints[k].positionEBML.data = v]: the object is the second child
    of the [k]-th Seek of the SeekHead. *)
Definition set_position_data (seek : EBML) (v : Z) : EBML :=
  match seek with
  | EList hd [seekID; ELeaf phd _] => EList hd [seekID; ELeaf phd (PNumber v)]
  | other => other
  end.

Definition set_seekPoint (sh : EBML) (k : nat) (v : Z) : EBML :=
  match sh with
  | EList hd seeks =>
      EList hd (match seeks !! k with
                | Some seek => <[k := set_position_data seek v]> seeks
                | None => seeks
                end)
  | other => other
  end.

Definition header_of (t : EBML) : option Header :=
  match t with
  | EList hd _ | ELeaf hd _ => Some hd
  | _ => None
  end.

Definition children_of (t : EBML) : list EBML :=
  match t with
  | EList _ children => children
  | _ => []
  end.

Definition children_of_array (t : EBML) : list EBML :=
  match t with
  | EArray items => items
  | _ => []
  end.

Definition offset_of (t : option EBML) : option Z :=
  match t with Some t => hd ← header_of t; offset hd | None => None end.

Definition str_webm : jsstring := [119; 101; 98; 109].
Definition str_webm_writer_js : jsstring :=
  [119; 101; 98; 109; 45; 119; 114; 105; 116; 101; 114; 45; 106; 115].
Definition str_und : jsstring := [117; 110; 100].
Definition str_V_VP8 : jsstring := [86; 95; 86; 80; 56].

Definition ebmlHeader : EBML :=
  EList (element 0x1a45dfa3)
    [ELeaf (element 0x4286) (PNumber 1);          (* EBMLVersion *)
     ELeaf (element 0x42f7) (PNumber 1);          (* EBMLReadVersion *)
     ELeaf (element 0x42f2) (PNumber 4);          (* EBMLMaxIDLength *)
     ELeaf (element 0x42f3) (PNumber 8);          (* EBMLMaxSizeLength *)
     ELeaf (element 0x4282) (PString str_webm);   (* DocType *)
     ELeaf (element 0x4287) (PNumber 2);          (* DocTypeVersion *)
     ELeaf (element 0x4285) (PNumber 2)].         (* DocTypeReadVersion *)

Definition segmentInfo_of (duration : Header) : EBML :=
  EList (element 0x1549a966)
    [ELeaf (element 0x2ad7b1) (PNumber 1000000);            (* TimecodeScale *)
     ELeaf (element 0x4d80) (PString str_webm_writer_js);   (* MuxingApp *)
     ELeaf (element 0x5741) (PString str_webm_writer_js);   (* WritingApp *)
     ELeaf duration (PFloat64 (double_bits double_zero))].

Definition tracks_of (m : Muxer) : EBML :=
  let videoProperties :=
    [ELeaf (element 0xb0) (PNumber (videoWidth m));
     ELeaf (element 0xba) (PNumber (videoHeight m))]
    ++ (if transparent (options m)
        then [ELeaf (element 0x53C0) (PNumber 1)] else []) in
  EList (element 0x1654ae6b)
    [EList (element 0xae)
       [ELeaf (element 0xd7) (PNumber DEFAULT_TRACK_NUMBER);
        ELeaf (element 0x73c5) (PNumber DEFAULT_TRACK_NUMBER);
        ELeaf (element 0x9c) (PNumber 0);
        ELeaf (element 0x22b59c) (PString str_und);
        ELeaf (element 0x86) (PString str_V_VP8);
        ELeaf (element 0x258688) (PString str_VP8);
        ELeaf (element 0x83) (PNumber 1);
        EList (element 0xe0) videoProperties]].

Definition segment_of (m : Muxer) : EBML :=
  EList (mkHeader 0x18538067 (Some EBML_SIZE_UNKNOWN_5_BYTES) None None)
    [createSeekHead; segmentInfo_of (segmentDuration m); tracks_of m].

(** [writeHeader]. *)
Definition writeHeader (m : Muxer) : result Muxer :=
  let bufferStream := newStream 256 in
  do (bufferStream', written) <-
    writeEBML bufferStream (pos (blobBuffer m)) (EArray [ebmlHeader; segment_of m]);
  do m1 <- blob_write m bufferStream';
  match written with
  | EArray [_; EList seg [sh; EList info [_; _; _; ELeaf dur _] as segmentInfo; tracks]] =>
      let m2 := set_header m1 seg dur sh in
      do p1 <- fileOffsetToSegmentRelative m2 (offset_of (Some segmentInfo));
      do p2 <- fileOffsetToSegmentRelative m2 (offset_of (Some tracks));
      Ok (set_seekHead m2 (Some (set_seekPoint (set_seekPoint sh 1 p1) 2 p2)))
  | _ => Err TypeError   (* not reached: the serializer keeps the shape *)
  end.

Definition track_number_ok (n : Z) : bool := (0 <? n) && (n <? 127).

(** The four bytes before the frame data of a block. *)
Definition block_header (keyframe : Frame) (flags : Z) : result (list Z) :=
  let bufferStream := newStream (1 + 2 + 1) in
  if negb (track_number_ok (f_trackNumber keyframe)) then Err BadTrackNumber
  else
    do s1 <- writeEBMLVarInt bufferStream (f_trackNumber keyframe);
    let s2 := writeU16BE s1 (f_timecode keyframe) in
    let s3 := writeByte s2 flags in
    Ok (getAsDataArray s3).

Definition createBlockGroupForTransparentKeyframe (keyframe : Frame) (alpha : jsstring)
  : result EBML :=
  do hdr <- block_header keyframe 0;
  let block := EList (element 0xA1) [EUint8Array hdr; EString (f_frame keyframe)] in
  let blockAdditions :=
    EList (element 0x75A1)
      [EList (element 0xA6)
         [ELeaf (element 0xEE) (PNumber 1);
          ELeaf (element 0xA5) (PString alpha)]] in
  Ok (EList (element 0xA0) [block; blockAdditions]).

Definition createSimpleBlockForKeyframe (keyframe : Frame) : result EBML :=
  do hdr <- block_header keyframe (Z.shiftl 1 7);
  Ok (EList (element 0xA3) [EUint8Array hdr; EString (f_frame keyframe)]).

(** [keyframe.alpha] is tested for truth: null and the empty string fail. *)
Definition createContainerForKeyframe (keyframe : Frame) : result EBML :=
  match f_alpha keyframe with
  | Some (c :: rest) => createBlockGroupForTransparentKeyframe keyframe (c :: rest)
  | _ => createSimpleBlockForKeyframe keyframe
  end.

Definition createCluster (timecode : Z) (blocks : list EBML) : EBML :=
  EList (element 0x1f43b675)
    (ELeaf (element 0xe7) (PNumber (Math_round_Q (inject_Z timecode))) :: blocks).

Definition cuePoint (trackIndex clusterTime position : Z) : EBML :=
  EList (element 0xBB)
    [ELeaf (element 0xB3) (PNumber clusterTime);
     EList (element 0xB7)
       [ELeaf (element 0xF7) (PNumber trackIndex);
        ELeaf (element 0xF1) (PNumber position)]].

Definition addCuePoint (m : Muxer) (trackIndex clusterTime : Z)
    (clusterFileOffset : option Z) : result Muxer :=
  do position <- fileOffsetToSegmentRelative m clusterFileOffset;
  Ok (set_cues m (cues m ++ [cuePoint trackIndex clusterTime position])).

Fixpoint mapM {A B} (f : A -> result B) (l : list A) : result (list B) :=
  match l with
  | [] => Ok []
  | x :: rest => do y <- f x; do ys <- mapM f rest; Ok (y :: ys)
  end.

Definition rawImageSize (frames : list Frame) : nat :=
  fold_left (fun n f =>
               (n + (length (f_frame f)
                     + match f_alpha f with
                       | Some (c :: rest) => length (c :: rest)
                       | _ => 0
                       end))%nat)
            frames 0%nat.

(** [flushClusterFrameBuffer]. *)
Definition flushClusterFrameBuffer (m : Muxer) : result Muxer :=
  match clusterFrameBuffer m with
  | [] => Ok m
  | frames =>
      let buffer := newStream (rawImageSize frames + length frames * 64) in
      do blocks <- mapM createContainerForKeyframe frames;
      let cluster := createCluster (Math_round (clusterStartTime m)) blocks in
      do (buffer', cluster') <- writeEBML buffer (pos (blobBuffer m)) cluster;
      do m1 <- blob_write m buffer';
      do m2 <- addCuePoint m1 DEFAULT_TRACK_NUMBER (Math_round (clusterStartTime m))
                 (offset_of (Some cluster'));
      Ok (set_cluster m2 [] (double_add (clusterStartTime m) (clusterDuration m)) double_zero)
  end.

(** [addFrameToCluster]. *)
Definition addFrameToCluster (m : Muxer) (frame : Frame) : result Muxer :=
  let frame' := mkFrame (f_frame frame) (f_alpha frame) (f_duration frame)
                  DEFAULT_TRACK_NUMBER (Math_round (clusterDuration m)) in
  let m1 := set_cluster m (clusterFrameBuffer m ++ [frame']) (clusterStartTime m)
              (double_add (clusterDuration m) (f_duration frame)) in
  if double_ge (clusterDuration m1) MAX_CLUSTER_DURATION_MSEC
  then flushClusterFrameBuffer m1
  else Ok m1.

(** [writeCues]: the cue points of [cues] are the children of the element
    written, so they keep the fields the serializer fills in. *)
Definition writeCues (m : Muxer) : result Muxer :=
  let ebml := EList (element 0x1C53BB6B) (cues m) in
  let cuesBuffer := newStream (16 + length (cues m) * 32) in
  do (cuesBuffer', ebml') <- writeEBML cuesBuffer (pos (blobBuffer m)) ebml;
  do m1 <- blob_write (set_cues m (children_of ebml')) cuesBuffer';
  do p <- fileOffsetToSegmentRelative m1 (offset_of (Some ebml'));
  match seekHead m1 with
  | Some sh => Ok (set_seekHead m1 (Some (set_seekPoint sh 0 p)))
  | None => Err TypeError
  end.

(** [rewriteSeekHead]. *)
Definition rewriteSeekHead (m : Muxer) : result Muxer :=
  match seekHead m with
  | Some (EList hd children) =>
      match size hd, dataOffset hd with
      | Some sz, Some dataOff =>
          let seekHeadBuffer := newStream (Z.to_nat sz) in
          let oldPos := pos (blobBuffer m) in
          do (seekHeadBuffer', children') <-
            writeEBML seekHeadBuffer dataOff (EArray children);
          let m0 := set_seekHead m (Some (EList hd (children_of_array children'))) in
          do m1 <- blob_seek m0 dataOff;
          do m2 <- blob_write m1 seekHeadBuffer';
          blob_seek m2 oldPos
      | _, _ => Err TypeError
      end
  | _ => Err TypeError
  end.

(** [rewriteDuration]. *)
Definition rewriteDuration (m : Muxer) : result Muxer :=
  let buffer := writeDoubleBE (newStream 8) (double_bits (clusterStartTime m)) in
  let oldPos := pos (blobBuffer m) in
  match dataOffset (segmentDuration m) with
  | Some dataOff =>
      do m1 <- blob_seek m dataOff;
      do m2 <- blob_write m1 buffer;
      blob_seek m2 oldPos
  | None => Err NaNOffset          (* seek(undefined) *)
  end.

(** [rewriteSegmentLength]. *)
Definition rewriteSegmentLength (m : Muxer) : result Muxer :=
  match ebmlSegment m with
  | Some seg =>
      match offset seg, dataOffset seg with
      | Some off, Some dataOff =>
          let oldPos := pos (blobBuffer m) in
          let buffer := writeUnsignedIntBE (newStream 10) (id seg) None in
          let buffer := writeEBMLVarIntWidth buffer (pos (blobBuffer m) - dataOff) 5 in
          do m1 <- blob_seek m off;
          do m2 <- blob_write m1 buffer;
          blob_seek m2 oldPos
      | _, _ => Err TypeError
      end
  | None => Err TypeError
  end.

(** What [addFrame] gets: the host renders canvases to WebP, so a frame
    is given by the outcome of [renderAsWebP(frame, quality)], its
    [width || 0] and [height || 0], and the outcome of rendering its
    alpha channel as a grayscale image, used when the frame has one.
    A call in which a rendering throws is no value of this type:
    [decodeBase64WebPDataURL] on a data URL that is no WebP, and
    [convertAlphaToGrayscaleImage] on a frame that is a string, throw
    errors of their own, and [addFrame] below is the call in which the
    renderings have returned. *)
Record FrameInput : Type := mkFrameInput {
  fi_webP : jsstring;
  fi_width : Z;
  fi_height : Z;
  fi_alphaWebP : jsstring
}.

(** An argument that may be left out, as a condition: undefined is
    falsy. *)
Definition double_option_truthy (v : option double) : bool :=
  match v with Some x => double_truthy x | None => false end.

(** The second argument of [addFrame]. *)
Inductive AlphaArg : Type :=
| AlphaUndefined
| AlphaNumber (n : double)
| AlphaImage (webP : jsstring).   (* a canvas or a string, rendered *)

(** [addFrame(frame, alpha, overrideFrameDuration)], the frame as [image]. *)
Definition addFrame (m : Muxer) (image : FrameInput) (alpha : AlphaArg)
    (overrideFrameDuration : option double) : result Muxer :=
  do m1 <- (if negb (writtenHeader m)
            then writeHeader (set_video m (fi_width image) (fi_height image))
            else Ok m);
  do keyframe <- extractKeyframeFromWebP (fi_webP image);
  do frameDuration <-
    (if double_option_truthy overrideFrameDuration then
       match overrideFrameDuration with Some d => Ok d | None => Err TypeError end
     else match alpha with
          | AlphaNumber n => Ok n
          | _ => match frameDuration (options m1) with
                 | Some d => Ok (double_of_Q d)
                 | None => Err TypeError  (* not reached once validated *)
                 end
          end);
  let frameAlpha :=
    if transparent (options m1) then
      match alpha with
      | AlphaImage webP => Some webP
      | _ => if hasAlpha keyframe then Some (fi_alphaWebP image) else None
      end
    else None in
  do alphaFrame <-
    match frameAlpha with
    | Some webP => do k <- extractKeyframeFromWebP webP; Ok (Some (frame k))
    | None => Ok None
    end;
  addFrameToCluster m1 (mkFrame (frame keyframe) alphaFrame frameDuration 0 0).

(** [complete()]: the muxer after the call and what the promise settles
    to. *)
Definition mux_complete (m : Muxer) : result (Muxer * Completion) :=
  do m1 <- (if negb (writtenHeader m) then writeHeader m else Ok m);
  do m2 <- flushClusterFrameBuffer m1;
  do m3 <- writeCues m2;
  do m4 <- rewriteSeekHead m3;
  do m5 <- rewriteDuration m4;
  do m6 <- rewriteSegmentLength m5;
  Ok (m6, complete (heap m6) (blobBuffer m6) (Some [118; 105; 100; 101; 111; 47; 119; 101; 98; 109])).

Definition getWrittenSize (m : Muxer) : Z := length_ (blobBuffer m).

(** The calls of the public interface. *)
Inductive Call : Type :=
| CallAddFrame (frame : FrameInput) (alpha : AlphaArg)
    (overrideFrameDuration : option double)
| CallComplete.

Definition call (m : Muxer) (c : Call) : result Muxer :=
  match c with
  | CallAddFrame f a o => addFrame m f a o
  | CallComplete => do r <- mux_complete m; Ok (fst r)
  end.

(** ** Clusters, as the specification counts them *)



(** A number that is not negative: a zero, a positive double or the
    positive infinity. *)
Definition double_nonneg (x : double) : Prop :=
  match x with
  | S754_zero _ | S754_finite false _ _ | S754_infinity false => True
  | _ => False
  end.

(** The double has the sign [s]: it is no NaN. *)
Definition signed (s : bool) (x : double) : Prop :=
  match x with
  | S754_zero s' | S754_infinity s' | S754_finite s' _ _ => s' = s
  | S754_nan => False
  end.

(** A finite double in [lo, hi). *)
Definition double_within (x : double) (lo hi : Q) : Prop :=
  exists q, double_value x = Some q /\ (lo <= q)%Q /\ (q < hi)%Q.

(** The chain of the muxer's sink is fulfilled. *)
Definition chain_ok (m : Muxer) : Prop := writePromise (blobBuffer m) = None.

(** The bytes the muxer's sink holds. *)
Definition mux_image (m : Muxer) : list Z := image (heap m) (buffer (blobBuffer m)).

(** Two muxers that differ in their sink at most. *)
Definition same_fields (m m' : Muxer) : Prop :=
  options m' = options m /\ writtenHeader m' = writtenHeader m /\
  clusterFrameBuffer m' = clusterFrameBuffer m /\
  clusterStartTime m' = clusterStartTime m /\
  clusterDuration m' = clusterDuration m /\
  ebmlSegment m' = ebmlSegment m /\ segmentDuration m' = segmentDuration m /\
  seekHead m' = seekHead m /\ cues m' = cues m.

(** The fields of the SeekHead object itself. *)
Definition seekHead_header (sh : option EBML) : option Header :=
  match sh with
  | Some (EList hd _) => Some hd
  | _ => None
  end.

(** The first chunk of the sink is at offset 0 and has [len0] bytes. *)
Definition header_chunk (bb : BlobBuffer) (len0 : Z) : Prop :=
  exists rest, shape (buffer bb) = (0, len0) :: rest.

(** The invariant of a muxer between two calls, on a memory sink: the
    cursor is at the end; before the header is written nothing is; once it
    is written, it is the first chunk, the Segment element starts at 39
    and its payload at 48, and the places to patch lie in that chunk. *)
Record mux_inv (m : Muxer) : Prop := mkMuxInv {
  mi_sink : sink_inv (heap m) (blobBuffer m);
  mi_end : pos (blobBuffer m) = length_ (blobBuffer m);
  mi_new : writtenHeader m = false ->
    buffer (blobBuffer m) = [] /\ length_ (blobBuffer m) = 0 /\
    segmentDuration m = element 0x4489;
  mi_header : writtenHeader m = true ->
    exists len0 seg,
      header_chunk (blobBuffer m) len0 /\ 48 <= len0 /\
      ebmlSegment m = Some seg /\ id seg = 0x18538067 /\
      offset seg = Some 39 /\ dataOffset seg = Some 48 /\
      (forall d, dataOffset (segmentDuration m) = Some d -> 0 <= d < len0) /\
      (forall hd d, seekHead_header (seekHead m) = Some hd ->
                    dataOffset hd = Some d -> 0 <= d < len0)
}.

(** A write into the file at [off], the cursor put back where it was. *)
Definition patch (m : Muxer) (off : Z) (s : Stream) : result Muxer :=
  let oldPos := pos (blobBuffer m) in
  do m1 <- blob_seek m off;
  do m2 <- blob_write m1 s;
  blob_seek m2 oldPos.

(** ** The RIFF container, as the extractor reads it *)

(** The four bytes of [n], least significant first. *)
Definition le32 (n : Z) : jsstring :=
  [Z.land n 0xFF; Z.land (Z.shiftr n 8) 0xFF;
   Z.land (Z.shiftr n 16) 0xFF; Z.land (Z.shiftr n 24) 0xFF].

(** A chunk: the FourCC, the length of the payload, the payload, and one
    byte of padding after a payload of odd length. *)
Definition riff_chunk (fourCC payload : jsstring) : jsstring :=
  fourCC ++ le32 (Z.of_nat (length payload)) ++ payload
    ++ (if Z.odd (Z.of_nat (length payload)) then [0] else []).

Definition riff_chunks (chunks : list (jsstring * jsstring)) : jsstring :=
  concat (map (fun c => riff_chunk (fst c) (snd c)) chunks).

(** The chunk is an "ALPH" chunk. *)
Definition is_ALPH (c : jsstring * jsstring) : bool := jsstring_eqb (fst c) str_ALPH.

(** A chunk that the loop steps over: a FourCC of four characters other
    than "VP8 ", and a length that 32 bits hold. *)
Definition skipped_chunk (c : jsstring * jsstring) : Prop :=
  length (fst c) = 4%nat /\ fst c <> str_VP8_ /\ Z.of_nat (length (snd c)) < 2 ^ 32.

(** ** The layout of a written tree *)

(** The width [writeEBMLVarInt] chooses for a size. *)
Definition varint_width (z : Z) : nat :=
  match measureEBMLVarInt z with Some w => w | None => 0%nat end.

(** The width of the size field of an element with children. *)
Definition placeholder_width (hd : Header) : nat :=
  if size_is hd EBML_SIZE_UNKNOWN then 1%nat
  else if size_is hd EBML_SIZE_UNKNOWN_5_BYTES then 5%nat
  else 4%nat.

(** The size that the size field of an element without children holds,
    read off the element as it is once written. *)
Definition declared_size (hd : Header) (data : Payload) : Z :=
  match data with
  | PString s => Z.of_nat (length s)
  | PNumber _ => match size hd with Some z => z | None => 0 end
  | PFloat64 _ => 8
  | PFloat32 _ => 4
  | PUint8Array bs => Z.of_nat (length bs)
  | POther => 0
  end.

(** The bytes that its payload takes in the stream. *)
Definition payload_length (hd : Header) (data : Payload) : nat :=
  match data with
  | PString s => length (utf8_encode s)
  | PNumber _ => Z.to_nat (declared_size hd data)
  | PFloat64 _ => 8%nat
  | PFloat32 _ => 4%nat
  | PUint8Array bs => length bs
  | POther => 0%nat
  end.

(** The bytes that a written tree takes in the stream: for an element the
    id, the size field and the payload. *)
Fixpoint encoded_length (t : EBML) : nat :=
  let all :=
    fix all (l : list EBML) : nat :=
      match l with
      | [] => 0%nat
      | x :: r => (encoded_length x + all r)%nat
      end in
  match t with
  | EArray items => all items
  | EString s => length (utf8_encode s)
  | EUint8Array bs => length bs
  | EList hd children =>
      (measureUnsignedInt (id hd) + placeholder_width hd + all children)%nat
  | ELeaf hd data =>
      (measureUnsignedInt (id hd) + varint_width (declared_size hd data)
       + payload_length hd data)%nat
  end.

Fixpoint encoded_length_all (l : list EBML) : nat :=
  match l with
  | [] => 0%nat
  | x :: r => (encoded_length x + encoded_length_all r)%nat
  end.

(** The fields of a written tree agree with its place in the file: the
    elements follow one another from [start]; [offset] is where the id of
    an element stands and [dataOffset] where its payload starts; a list
    element whose size is not one of the two UNKNOWN marks declares the
    bytes its children take. *)
Fixpoint laid_out (start : Z) (t : EBML) : Prop :=
  let all :=
    fix all (start : Z) (l : list EBML) : Prop :=
      match l with
      | [] => True
      | x :: r => laid_out start x /\ all (start + Z.of_nat (encoded_length x)) r
      end in
  match t with
  | EArray items => all start items
  | EString _ | EUint8Array _ => True
  | EList hd children =>
      let dataStart :=
        start + Z.of_nat (measureUnsignedInt (id hd) + placeholder_width hd) in
      offset hd = Some start /\ dataOffset hd = Some dataStart /\
      (size_is hd EBML_SIZE_UNKNOWN = false ->
       size_is hd EBML_SIZE_UNKNOWN_5_BYTES = false ->
       size hd = Some (Z.of_nat (encoded_length_all children))) /\
      all dataStart children
  | ELeaf hd data =>
      offset hd = Some start /\
      dataOffset hd =
        Some (start + Z.of_nat (measureUnsignedInt (id hd)
                                + varint_width (declared_size hd data)))
  end.

Fixpoint laid_out_all (start : Z) (l : list EBML) : Prop :=
  match l with
  | [] => True
  | x :: r => laid_out start x /\ laid_out_all (start + Z.of_nat (encoded_length x)) r
  end.

(** Trees that [writeEBML] accepts: every element has an id other than
    zero and data of a known type, and every size is a number from 0 that
    an EBML varint of eight bytes or fewer holds. *)
Definition varint_ok (z : Z) : Prop := 0 <= z < 2 ^ 56 - 1.

Definition leaf_ok (hd : Header) (data : Payload) : Prop :=
  match data with
  | PString s => varint_ok (Z.of_nat (length s))
  | PNumber n =>
      varint_ok (if size_falsy hd then Z.of_nat (measureUnsignedInt n)
                 else match size hd with Some z => z | None => 0 end)
  | PFloat64 _ | PFloat32 _ => True
  | PUint8Array bs => varint_ok (Z.of_nat (length bs))
  | POther => False
  end.

Fixpoint ebml_ok (t : EBML) : Prop :=
  let all :=
    fix all (l : list EBML) : Prop :=
      match l with
      | [] => True
      | x :: r => ebml_ok x /\ all r
      end in
  match t with
  | EArray items => all items
  | EString _ | EUint8Array _ => True
  | EList hd children => id hd <> 0 /\ all children
  | ELeaf hd data => id hd <> 0 /\ leaf_ok hd data
  end.

Fixpoint ebml_ok_all (l : list EBML) : Prop :=
  match l with
  | [] => True
  | x :: r => ebml_ok x /\ ebml_ok_all r
  end.

(** A tree without the fields that [writeEBML] fills in: the ids, the data
    and the order of the elements. *)
Fixpoint skeleton (t : EBML) : EBML :=
  match t with
  | EArray items => EArray (map skeleton items)
  | EString s => EString s
  | EUint8Array bs => EUint8Array bs
  | EList hd children => EList (element (id hd)) (map skeleton children)
  | ELeaf hd data => ELeaf (element (id hd)) data
  end.

(** ** The bytes of a written tree *)

(** The size field of a written element with children. *)
Definition size_field (hd : Header) : list Z :=
  if size_is hd EBML_SIZE_UNKNOWN then [0xFF]
  else if size_is hd EBML_SIZE_UNKNOWN_5_BYTES then [0x0F; 0xFF; 0xFF; 0xFF; 0xFF]
  else ebmlVarIntBytes (match size hd with Some z => z | None => 0 end) 4.

(** The payload of a written element without children. *)
Definition payload_bytes (hd : Header) (data : Payload) : list Z :=
  match data with
  | PString s => utf8_encode s
  | PNumber n => bytesBE (Z.to_nat (declared_size hd data)) n
  | PFloat64 bits => bytesBE 8 bits
  | PFloat32 bits => bytesBE 4 bits
  | PUint8Array bs => bs
  | POther => []
  end.

(** The EBML encoding of a written tree: each element is its id, its size
    field and its payload. *)
Fixpoint encode (t : EBML) : list Z :=
  let all :=
    fix all (l : list EBML) : list Z :=
      match l with
      | [] => []
      | x :: r => encode x ++ all r
      end in
  match t with
  | EArray items => all items
  | EString s => utf8_encode s
  | EUint8Array bs => bs
  | EList hd children =>
      bytesBE (measureUnsignedInt (id hd)) (id hd) ++ size_field hd ++ all children
  | ELeaf hd data =>
      bytesBE (measureUnsignedInt (id hd)) (id hd)
        ++ ebmlVarIntBytes (declared_size hd data) (varint_width (declared_size hd data))
        ++ payload_bytes hd data
  end.

Fixpoint encode_all (l : list EBML) : list Z :=
  match l with
  | [] => []
  | x :: r => encode x ++ encode_all r
  end.

(** The stream [s'] is [s] with [bs] written at its cursor: the cursor has
    moved by the length of [bs], nothing before it has changed, and the
    bytes are there when the buffer has room for them. *)
Definition appended (s s' : Stream) (bs : list Z) : Prop :=
  s_pos s' = (s_pos s + length bs)%nat /\
  same_below (s_pos s) s s' /\
  ((s_pos s' <= length (s_data s'))%nat ->
   stream_bytes s' (s_pos s) (length bs) = bs).

(** ** A muxer that is ready for any call *)

(** A frame waiting in the cluster, as [addFrameToCluster] leaves it: on
    the default track, with alpha data whose length an EBML varint
    holds. *)
Definition frame_ok (f : Frame) : Prop :=
  f_trackNumber f = DEFAULT_TRACK_NUMBER /\
  match f_alpha f with
  | Some a => varint_ok (Z.of_nat (length a))
  | None => True
  end.

(** A Seek entry of the SeekHead: the id of the element sought, and its
    position in a field of five bytes. *)
Definition seek_entry_ok (t : EBML) : Prop :=
  exists hdS hdI ident hdP v,
    t = EList hdS [ELeaf hdI (PUint8Array ident); ELeaf hdP (PNumber v)] /\
    id hdS = 0x4DBB /\
    size_is hdS EBML_SIZE_UNKNOWN = false /\
    size_is hdS EBML_SIZE_UNKNOWN_5_BYTES = false /\
    id hdI = 0x53AB /\ length ident = 4%nat /\
    id hdP = 0x53AC /\ size hdP = Some 5.

(** The bytes of the EBML header element that [writeHeader] writes first:
    version 1, read version 1, ids of 4 bytes at most, sizes of 8 bytes at
    most, document type "webm", version 2, read version 2. *)
Definition ebmlHeader_bytes : list Z :=
  [0x1A; 0x45; 0xDF; 0xA3; 0x10; 0x00; 0x00; 0x1F;
   0x42; 0x86; 0x81; 0x01;
   0x42; 0xF7; 0x81; 0x01;
   0x42; 0xF2; 0x81; 0x04;
   0x42; 0xF3; 0x81; 0x08;
   0x42; 0x82; 0x84; 0x77; 0x65; 0x62; 0x6D;
   0x42; 0x87; 0x81; 0x02;
   0x42; 0x85; 0x81; 0x02].

(** The byte at [i] belongs to one of the three fields that [complete]
    patches: the id and size of the Segment, the entries of the SeekHead,
    the Duration. *)
Definition in_patched_field (i : nat) : Prop :=
  (39 <= i < 48)%nat \/ (56 <= i < 119)%nat \/ (171 <= i < 179)%nat.

(** The ids of the elements that the SeekHead and the cue points lead
    to, as they stand in the file. *)
Definition cues_id_bytes : list Z := [0x1C; 0x53; 0xBB; 0x6B].
Definition info_id_bytes : list Z := [0x15; 0x49; 0xA9; 0x66].
Definition tracks_id_bytes : list Z := [0x16; 0x54; 0xAE; 0x6B].
Definition cluster_id_bytes : list Z := [0x1F; 0x43; 0xB6; 0x75].

(** What a Seek entry says: the id sought and its position. *)
Definition seek_entry_data (t : EBML) : option (list Z * Z) :=
  match t with
  | EList _ [ELeaf _ (PUint8Array ident); ELeaf _ (PNumber v)] => Some (ident, v)
  | _ => None
  end.

(** The three entries of the SeekHead, with the Cues at [p]: the
    positions count from the start of the payload of the Segment. *)
Definition seek_targets (p : Z) : list (option (list Z * Z)) :=
  [Some (cues_id_bytes, p); Some (info_id_bytes, 71); Some (tracks_id_bytes, 131)].

(** The 21 bytes of a Seek entry in the file: the id of the entry with
    its size 15, the SeekID with the id sought, the SeekPosition in five
    bytes. *)
Definition seek_bytes (ident : list Z) (v : Z) : list Z :=
  [0x4D; 0xBB; 0x10; 0x00; 0x00; 0x0F; 0x53; 0xAB; 0x84] ++ ident
    ++ [0x53; 0xAC; 0x85] ++ bytesBE 5 v.

(** The header in the file: the EBML header at 0, the id of the
    SegmentInfo at 119 and the id of the Tracks at 179. *)
Definition header_bytes_ok (file : list Z) : Prop :=
  take 39 file = ebmlHeader_bytes /\
  take 4 (drop 119 file) = info_id_bytes /\
  take 4 (drop 179 file) = tracks_id_bytes.

(** A cue point of the file: on the default track, and its position,
    counted from the start of the payload of the Segment at 48, is where
    the id of a Cluster stands after the header. *)
Definition cue_ok (file : list Z) (cue : EBML) : Prop :=
  exists t p,
    skeleton cue = skeleton (cuePoint DEFAULT_TRACK_NUMBER t p) /\
    179 <= p + 48 /\
    take 4 (drop (Z.to_nat (p + 48)) file) = cluster_id_bytes.

(** The file [file'] has kept the bytes of [file], but for the fields
    that [complete] patches. *)
Definition kept (file file' : list Z) : Prop :=
  (length file <= length file')%nat /\
  forall i, (i < length file)%nat -> ~ in_patched_field i -> file' !! i = file !! i.

(** The invariant of a muxer on a memory sink between two calls, with
    what the calls need to go through: the chain of the sink is
    fulfilled, the options are validated, the frames and the cue points
    can be written and the cue points lead to Clusters, and once the
    header is written the file starts with it, its first chunk has 183
    bytes at least, in which the Duration is at 171 and the three entries
    of the SeekHead, for the Cues, the SegmentInfo and the Tracks, take
    the 63 bytes from 56. *)
Record mux_wf (m : Muxer) : Prop := mkMuxWf {
  wf_inv : mux_inv m;
  wf_chain : chain_ok m;
  wf_options : exists d, frameDuration (options m) = Some d;
  wf_frames : Forall frame_ok (clusterFrameBuffer m);
  wf_cues : ebml_ok_all (cues m);
  wf_header : writtenHeader m = true ->
    (exists len0, header_chunk (blobBuffer m) len0 /\ 183 <= len0) /\
    dataOffset (segmentDuration m) = Some 171 /\
    exists hd seeks,
      seekHead m = Some (EList hd seeks) /\
      size hd = Some 63 /\ dataOffset hd = Some 56 /\
      length seeks = 3%nat /\ Forall seek_entry_ok seeks;
  wf_bytes : writtenHeader m = true -> header_bytes_ok (mux_image m);
  wf_seeks : writtenHeader m = true ->
    exists hd seeks p,
      seekHead m = Some (EList hd seeks) /\
      map seek_entry_data seeks = seek_targets p;
  wf_cue_targets : Forall (cue_ok (mux_image m)) (cues m)
}.

(** The calls of the public interface, one after the other. *)
Fixpoint run_calls (m : Muxer) (calls : list Call) : result Muxer :=
  match calls with
  | [] => Ok m
  | c :: rest => do m' <- call m c; run_calls m' rest
  end.

(** The lengths of the alpha data that a call of [addFrame] can bring are
    numbers that an EBML varint holds. *)
Definition call_ok (c : Call) : Prop :=
  match c with
  | CallAddFrame image alpha _ =>
      varint_ok (Z.of_nat (length (fi_alphaWebP image))) /\
      match alpha with
      | AlphaImage webP => varint_ok (Z.of_nat (length webP))
      | _ => True
      end
  | CallComplete => True
  end.


(** The images that a call of [addFrame] brings are WebP files in which
    the extractor finds a keyframe. *)
Definition call_parses (c : Call) : Prop :=
  match c with
  | CallAddFrame image alpha _ =>
      (exists k, extractKeyframeFromWebP (fi_webP image) = Ok k) /\
      (exists k, extractKeyframeFromWebP (fi_alphaWebP image) = Ok k) /\
      match alpha with
      | AlphaImage webP => exists k, extractKeyframeFromWebP webP = Ok k
      | _ => True
      end
  | CallComplete => True
  end.

Definition mime_video_webm : list Z := [118; 105; 100; 101; 111; 47; 119; 101; 98; 109].

(** The file of [m'] is the file of [m] with bytes added at its end. *)
Definition appends_to (m m' : Muxer) : Prop :=
  exists tail, mux_image m' = mux_image m ++ tail.

(** The bytes of the entries of a SeekHead. *)
Definition seeks_bytes (entries : list (option (list Z * Z))) : list Z :=
  concat (map (fun d => match d with
                        | Some (ident, v) => seek_bytes ident v
                        | None => []
                        end) entries).

(** The position of the Cues that the SeekHead of the muxer holds. *)
Definition cues_position (m : Muxer) : option Z :=
  match seekHead m with
  | Some (EList _ (entry :: _)) =>
      match seek_entry_data entry with
      | Some (_, p) => Some p
      | None => None
      end
  | _ => None
  end.

(** ** The cluster, call after call *)

(** The duration that [addFrame] gives the frame: the override when it
    is a number other than zero and NaN, else the second argument when it
    is a number, else the frame duration of the options. *)
Definition frame_duration_of (m : Muxer) (alpha : AlphaArg)
    (overrideFrameDuration : option double) : option double :=
  if double_option_truthy overrideFrameDuration then overrideFrameDuration
  else match alpha with
       | AlphaNumber n => Some n
       | _ => option_map double_of_Q (frameDuration (options m))
       end.

(** What a call of [addFrame] with a frame of duration [d] does to the
    cluster. The duration of the cluster with the frame is the sum as a
    double. When it has reached the maximum the cluster is flushed: no
    frame waits any more, the next cluster starts where this one ends,
    and a cue point is added for the time at which this one started.
    Else the frame waits in the cluster, with the duration of the cluster
    before the call as its timecode, and no cue point is added. *)
Definition cluster_step (m m' : Muxer) (d : double) : Prop :=
  let total := double_add (clusterDuration m) d in
  if double_ge total MAX_CLUSTER_DURATION_MSEC
  then clusterFrameBuffer m' = [] /\ clusterDuration m' = double_zero /\
       clusterStartTime m' = double_add (clusterStartTime m) total /\
       exists position,
         cues m' = cues m ++ [cuePoint DEFAULT_TRACK_NUMBER
                                (Math_round (clusterStartTime m)) position]
  else exists f, clusterFrameBuffer m' = clusterFrameBuffer m ++ [f] /\
         f_duration f = d /\
         f_timecode f = Math_round (clusterDuration m) /\
         clusterDuration m' = total /\
         clusterStartTime m' = clusterStartTime m /\ cues m' = cues m.



(** The durations that a call gives are not negative: no NaN, no number
    below zero. *)
Definition call_nonneg (c : Call) : Prop :=
  match c with
  | CallAddFrame _ alpha overrideFrameDuration =>
      (forall d, overrideFrameDuration = Some d -> double_nonneg d) /\
      (forall n, alpha = AlphaNumber n -> double_nonneg n)
  | CallComplete => True
  end.

(** The cluster is below the maximum duration, and the timecodes of the
    frames that wait in it are within it. *)
Definition timecodes_fit (m : Muxer) : Prop :=
  double_within (clusterDuration m) 0 5000 /\
  Forall (fun f => 0 <= f_timecode f <= 5000) (clusterFrameBuffer m).

(** * The alpha channel as an image (WebMWriter.mjs) *)

(** A canvas, as [convertAlphaToGrayscaleImage] sees it: its size and the
    RGBA bytes of its pixels, row after row, which is what
    [getImageData(0, 0, width, height).data] reads and [putImageData]
    writes. *)
Record Canvas : Type := mkCanvas { cv_width : Z; cv_height : Z; cv_data : list Z }.

(** [array[i]] read from a [Uint8ClampedArray] to be stored into another:
    out of range the read gives undefined, which is stored as 0. *)
Definition clamped_read (array : list Z) (i : nat) : Z :=
  match array !! i with Some x => x | None => 0 end.

(** The loop of [convertAlphaToGrayscaleImage], at most [fuel] rounds;
    [None] when the rounds are used up. A store out of range is dropped. *)
Fixpoint alpha_loop (fuel : nat) (sourceData : list Z) (srcEnd srcCursor : Z)
    (dstCursor : nat) (destData : list Z) : option (list Z) :=
  if srcCursor <? srcEnd then
    match fuel with
    | O => None
    | S fuel' =>
        let alpha := clamped_read sourceData (Z.to_nat srcCursor) in
        let destData := <[dstCursor := alpha]> destData in
        let destData := <[(dstCursor + 1)%nat := alpha]> destData in
        let destData := <[(dstCursor + 2)%nat := alpha]> destData in
        let destData := <[(dstCursor + 3)%nat := 255]> destData in
        alpha_loop fuel' sourceData srcEnd (srcCursor + 4) (dstCursor + 4) destData
    end
  else Some destData.

(** [convertAlphaToGrayscaleImage(source)], with the canvas [alphaBuffer]
    that the muxer keeps between calls: the canvas is made anew, with
    pixels of zeros, when there is none or when its size is not that of
    the source; the canvas returned is the one kept. Every round of the
    loop moves the cursor by four, so [srcEnd] rounds are enough. *)
Definition convertAlphaToGrayscaleImage (alphaBuffer : option Canvas) (source : Canvas)
  : option Canvas :=
  let fresh :=
    mkCanvas (cv_width source) (cv_height source)
      (replicate (Z.to_nat (cv_width source * cv_height source * 4)) 0) in
  let buffer :=
    match alphaBuffer with
    | Some kept =>
        if negb (cv_width kept =? cv_width source)
           || negb (cv_height kept =? cv_height source)
        then fresh else kept
    | None => fresh
    end in
  let srcEnd := cv_width source * cv_height source * 4 in
  data ← alpha_loop (Z.to_nat srcEnd) (cv_data source) srcEnd 3 0 (cv_data buffer);
  Some (mkCanvas (cv_width buffer) (cv_height buffer) data).

(** The four bytes of a pixel, and of the gray pixel that shows its
    alpha. *)
Definition rgba (p : Z * Z * Z * Z) : list Z :=
  let '(r, g, b, a) := p in [r; g; b; a].

Definition gray_of_alpha (p : Z * Z * Z * Z) : list Z :=
  let '(_, _, _, a) := p in [a; a; a; 255].

(** A canvas holds four bytes for each of its pixels. *)
Definition canvas_ok (c : Canvas) : Prop :=
  0 <= cv_width c /\ 0 <= cv_height c /\
  Z.of_nat (length (cv_data c)) = cv_width c * cv_height c * 4.

(** * The sink on a file descriptor (BlobBuffer.mjs) *)

(** The file behind [fd], as a list of bytes, after
    [fs.write(fd, buffer, offset, length, position, ...)] has put [bytes]
    at [position]: a gap between the end of the file and the position is
    filled with zeros; nothing is done for no bytes. *)
Definition file_write (file : list Z) (position : nat) (bytes : list Z) : list Z :=
  match bytes with
  | [] => file
  | _ => take position file ++ replicate (position - length file) 0
           ++ bytes ++ drop (position + length bytes) file
  end.

(** The calls of [fs.write] that [_writeToFs] makes through
    [handleWriteComplete]: each call asks for what is left of [buffer],
    the system answers with the number of bytes it has written, one
    answer of [answers] for each call and no more than asked, and the
    loop goes on until the sum reaches the length of the buffer. [None]:
    the answers are used up and the promise is not resolved. *)
Fixpoint writeToFs_loop (answers : list nat) (file buffer : list Z)
    (offset totalWritten : nat) : option (list Z) :=
  match answers with
  | [] => None
  | answer :: rest =>
      let asked := (length buffer - totalWritten)%nat in
      let written := Nat.min answer asked in
      let file := file_write file (offset + totalWritten)
                    (take written (drop totalWritten buffer)) in
      let totalWritten := (totalWritten + written)%nat in
      if (length buffer <=? totalWritten)%nat then Some file
      else writeToFs_loop rest file buffer offset totalWritten
  end.

(** [_writeToFs(newEntry, fs, fd)]: the data are converted to a
    [Uint8Array], and the buffer written is made from
    [dataArray.buffer], the whole ArrayBuffer behind that array. *)
Definition writeToFs (answers : list nat) (h : Heap) (file : list Z) (newEntry : Entry)
  : option (Heap * list Z) :=
  let '(h1, dataArray) := convertToUint8Array h (e_data newEntry) in
  let buffer := heap_buffer h1 (vbuf dataArray) in
  file' ← writeToFs_loop answers file buffer (Z.to_nat (e_offset newEntry)) 0;
  Some (h1, file').

(** What [_writeToFs] writes for a datum. *)
Definition fs_bytes (h : Heap) (d : Data) : list Z :=
  match d with
  | DUint8Array v => heap_buffer h (vbuf v)
  | _ => data_bytes h d
  end.


(** * Properties *)

(** ** BlobBuffer.seek *)

(** C9. [seek offset] succeeds, and then sets [pos] to [offset] and nothing
    else, iff [offset] is a number with 0 <= offset <= length; a negative
    offset fails with NegativeOffset, NaN with NaNOffset, an offset above
    [length] with SeekBeyondEnd; a failing [seek] leaves the buffer, so
    [pos], as it was. *)
Theorem seek_spec (b : BlobBuffer) (offset : jsval) (Hlen : 0 <= length_ b) :
  (snd (seek b offset) = None <-> offset_in_range offset (length_ b)) /\
  (snd (seek b offset) = None ->
     exists n, offset = JNum n /\
       fst (seek b offset) = mkBlobBuffer (buffer b) (writePromise b) (dest b) n (length_ b)) /\
  (js_lt offset 0 = true -> snd (seek b offset) = Some NegativeOffset) /\
  (offset = JNaN -> snd (seek b offset) = Some NaNOffset) /\
  (js_gt offset (length_ b) = true -> snd (seek b offset) = Some SeekBeyondEnd) /\
  (snd (seek b offset) <> None -> fst (seek b offset) = b).
Proof.
  unfold seek, offset_in_range.
  destruct offset as [| |[|]|n]; simpl;
    try (repeat split; try congruence; intros [m [Hm _]]; congruence).
  destruct (n <? 0) eqn:Hneg; simpl;
    [apply Z.ltb_lt in Hneg | apply Z.ltb_ge in Hneg;
     destruct (length_ b <? n) eqn:Hgt; simpl;
     [apply Z.ltb_lt in Hgt | apply Z.ltb_ge in Hgt]];
    repeat split; try congruence; eauto;
    try (intros [m [Hm ?]]; inversion Hm; subst; lia);
    try (intros Hgt'; apply Z.ltb_lt in Hgt'; lia);
    try (intros _; exists n; split; [reflexivity | lia]).
Qed.

Lemma seek_spec_witness :
  snd (seek (newBlobBuffer Memory) (JNum 0)) = None <->
  offset_in_range (JNum 0) (length_ (newBlobBuffer Memory)).
Proof.
  apply (seek_spec (newBlobBuffer Memory) (JNum 0)). simpl. lia.
Defined.

(** ** BlobBuffer.write on a datum of length zero *)

(** C10, as stated, fails for the blob of size zero: [size] is the last
    operand of [||], so its 0 is the value of the probe, an integer, and
    the write records a chunk of length zero. *)
Lemma write_zero_size_blob_accepted :
  zero_length_datum [] (DBlob []) /\
  write [] (newBlobBuffer Memory) (DBlob []) =
    ([], mkBlobBuffer [mkEntry 0 (DBlob []) 0] None Memory 0 0, None).
Proof. split; reflexivity. Qed.

(** C10, amended. For the empty string, the empty [Uint8Array] and the
    empty ArrayBuffer, [write] throws the size-measurement error and
    changes nothing: their zero is a falsy operand of [||] and the probe
    ends on the undefined [size]. A blob of size zero is measured as 0
    and its write is accepted. *)
Theorem write_zero_length (h : Heap) (b : BlobBuffer) (d : Data)
  (Hzero : zero_length_datum h d) :
  match d with
  | DBlob _ => measureData h d = Ok 0 /\ snd (write h b d) = None
  | _ => write h b d = (h, b, Some MeasureUnknownLength)
  end.
Proof.
  destruct d as [s|v|a|bs]; simpl in Hzero; unfold write, measureData; simpl.
  - subst s. reflexivity.
  - rewrite Hzero. reflexivity.
  - rewrite Hzero. reflexivity.
  - subst bs. simpl. split; [reflexivity|].
    destruct (writePromise b); [reflexivity|].
    destruct (write_callback h b _ _) as [[h' buf'] thrown]; reflexivity.
Qed.

Lemma write_zero_length_witness :
  write [] (newBlobBuffer Memory) (DString []) =
    ([], newBlobBuffer Memory, Some MeasureUnknownLength).
Proof.
  apply (write_zero_length [] (newBlobBuffer Memory) (DString [])). reflexivity.
Defined.

(** ** Lists: [splice] *)

Section Splice.
Implicit Types (l s : list Z) (a i n k : nat).

Lemma length_splice l a s :
  (a + length s <= length l)%nat -> length (splice l a s) = length l.
Proof.
  intros H. unfold splice.
  rewrite !length_app, length_take, length_drop. lia.
Qed.

Lemma lookup_splice l a s i :
  (a <= length l)%nat ->
  splice l a s !! i =
    if decide (i < a)%nat then l !! i
    else if decide (i < a + length s)%nat then s !! (i - a)%nat
    else l !! i.
Proof.
  intros H. unfold splice.
  destruct (decide (i < a)%nat) as [Hi|Hi].
  - rewrite lookup_app_l by (rewrite length_take; lia).
    apply lookup_take_lt. lia.
  - rewrite lookup_app_r by (rewrite length_take; lia).
    rewrite length_take, Nat.min_l by lia.
    destruct (decide (i < a + length s)%nat) as [Hj|Hj].
    + rewrite lookup_app_l by lia. reflexivity.
    + rewrite lookup_app_r by lia. rewrite lookup_drop. f_equal. lia.
Qed.

Lemma splice_nil l a : splice l a [] = l.
Proof. unfold splice. simpl. rewrite Nat.add_0_r. apply take_drop. Qed.

Lemma splice_end l s : splice l (length l) s = l ++ s.
Proof.
  unfold splice. rewrite take_ge by lia.
  rewrite drop_ge by lia. rewrite app_nil_r. reflexivity.
Qed.

Lemma splice_app_l l1 l2 a s :
  (a + length s <= length l1)%nat ->
  splice (l1 ++ l2) a s = splice l1 a s ++ l2.
Proof.
  intros H. unfold splice.
  rewrite take_app_le by lia. rewrite drop_app_le by lia.
  rewrite <- !app_assoc. reflexivity.
Qed.

Lemma splice_app_r l1 l2 a s :
  (length l1 <= a)%nat ->
  splice (l1 ++ l2) a s = l1 ++ splice l2 (a - length l1) s.
Proof.
  intros H. unfold splice.
  rewrite take_app_ge by lia. rewrite drop_app_ge by lia.
  rewrite <- !app_assoc. repeat f_equal. lia.
Qed.

(** Writing through a window is writing in the window. *)
Lemma window_splice l k n a s :
  (a + length s <= n)%nat -> (k + n <= length l)%nat ->
  take n (drop k (splice l (k + a) s)) = splice (take n (drop k l)) a s.
Proof.
  intros Ha Hk. apply list_eq. intros i.
  destruct (decide (i < n)%nat) as [Hi|Hi].
  - rewrite lookup_take_lt by lia. rewrite lookup_drop.
    rewrite !lookup_splice by (rewrite ?length_take, ?length_drop; lia).
    repeat case_decide; try lia.
    + rewrite lookup_take_lt by lia. rewrite lookup_drop. reflexivity.
    + f_equal. lia.
    + rewrite lookup_take_lt by lia. rewrite lookup_drop. reflexivity.
  - rewrite lookup_take_ge by lia. symmetry. apply lookup_ge_None.
    rewrite length_splice; rewrite length_take, length_drop; lia.
Qed.

(** Outside the window nothing moves. *)
Lemma splice_outside l a s i :
  (a + length s <= length l)%nat ->
  (i < a \/ a + length s <= i)%nat ->
  splice l a s !! i = l !! i.
Proof.
  intros H Hi. rewrite lookup_splice by lia.
  repeat case_decide; try reflexivity; lia.
Qed.
End Splice.

(** ** The store: allocation and in-place update *)

Section HeapFacts.
Implicit Types (h ext : Heap) (d : Data) (id : nat).

Lemma heap_buffer_app h ext id :
  (id < length h)%nat -> heap_buffer (h ++ ext) id = heap_buffer h id.
Proof. intros H. unfold heap_buffer. rewrite lookup_app_l by lia. reflexivity. Qed.

Lemma heap_buffer_alloc h bs : heap_buffer (h ++ [bs]) (length h) = bs.
Proof.
  unfold heap_buffer. rewrite lookup_app_r by lia.
  rewrite Nat.sub_diag. reflexivity.
Qed.

Lemma heap_buffer_insert_eq h id bs :
  (id < length h)%nat -> heap_buffer (<[id:=bs]> h) id = bs.
Proof. intros H. unfold heap_buffer. rewrite list_lookup_insert_eq by lia. reflexivity. Qed.

Lemma heap_buffer_insert_ne h id id' bs :
  id <> id' -> heap_buffer (<[id:=bs]> h) id' = heap_buffer h id'.
Proof. intros H. unfold heap_buffer. rewrite list_lookup_insert_ne by done. reflexivity. Qed.

Lemma data_bytes_app h ext d :
  data_ok h d -> data_bytes (h ++ ext) d = data_bytes h d.
Proof.
  destruct d as [s|v|b|bs]; simpl; try reflexivity.
  - intros [Hb _]. unfold view_bytes. rewrite heap_buffer_app by lia. reflexivity.
  - intros Hb. apply heap_buffer_app. lia.
Qed.

Lemma data_ok_app h ext d : data_ok h d -> data_ok (h ++ ext) d.
Proof.
  destruct d as [s|v|b|bs]; simpl; try tauto.
  - intros [Hb Hw]. rewrite heap_buffer_app by lia. rewrite length_app. lia.
  - rewrite length_app. lia.
Qed.

Lemma data_bytes_insert_ne h id bs d :
  data_buffer d <> Some id -> data_bytes (<[id:=bs]> h) d = data_bytes h d.
Proof.
  destruct d as [s|v|b|bs']; simpl; try reflexivity; intros H.
  - unfold view_bytes. rewrite heap_buffer_insert_ne by congruence. reflexivity.
  - apply heap_buffer_insert_ne. congruence.
Qed.

Lemma data_ok_insert_ne h id bs d :
  data_buffer d <> Some id -> data_ok h d -> data_ok (<[id:=bs]> h) d.
Proof.
  destruct d as [s|v|b|bs']; simpl; try tauto; intros H.
  - rewrite heap_buffer_insert_ne by congruence. rewrite length_insert. tauto.
  - rewrite length_insert. tauto.
Qed.

Lemma length_view_bytes h (v : View) :
  (voff v + vlen v <= length (heap_buffer h (vbuf v)))%nat ->
  length (view_bytes h v) = vlen v.
Proof. intros H. unfold view_bytes. rewrite length_take, length_drop. lia. Qed.

(** A byte-exact datum is allocated, and not empty unless it is a blob. *)
Lemma byte_exact_ok h d : byte_exact h d -> data_ok h d.
Proof.
  unfold byte_exact, measureData.
  destruct d as [s|v|b|bs]; simpl; try tauto.
  - unfold view_bytes, heap_buffer.
    destruct (vlen v) as [|n] eqn:Hv; [discriminate|].
    destruct (h !! vbuf v) as [bs|] eqn:Hb.
    + apply lookup_lt_Some in Hb. cbn. intros H. injection H as H.
      rewrite length_take, length_drop in H. lia.
    + rewrite drop_nil, take_nil. cbn. intros H. injection H as H. lia.
  - unfold heap_buffer. destruct (h !! b) as [bs|] eqn:Hb.
    + apply lookup_lt_Some in Hb. intros _. exact Hb.
    + discriminate.
Qed.

(** What [convertToUint8Array] returns: a view with the bytes of the
    datum, on the datum's own buffer when it has one and on a new one
    otherwise. *)
Lemma convert_spec h d h1 v :
  data_ok h d -> convertToUint8Array h d = (h1, v) ->
  exists ext, h1 = h ++ ext /\
    view_bytes h1 v = data_bytes h d /\
    vlen v = length (data_bytes h d) /\
    (vbuf v < length h1)%nat /\
    (voff v + vlen v <= length (heap_buffer h1 (vbuf v)))%nat /\
    match data_buffer d with
    | Some id => vbuf v = id /\ ext = []
    | None => vbuf v = length h
    end.
Proof.
  destruct d as [s|w|b|bs]; simpl; intros Hok Hc; injection Hc as <- <-; simpl.
  - exists [utf8_encode s]. unfold view_bytes; simpl.
    rewrite heap_buffer_alloc, length_app. simpl.
    rewrite drop_0, take_ge by lia. repeat split; try lia.
  - exists []. rewrite app_nil_r. destruct Hok as [Hb Hw].
    rewrite length_view_bytes by lia. repeat split; try lia.
  - exists []. rewrite app_nil_r. unfold view_bytes; simpl.
    rewrite drop_0, take_ge by lia. repeat split; try lia.
  - exists [bs]. unfold view_bytes; simpl.
    rewrite heap_buffer_alloc, length_app. simpl.
    rewrite drop_0, take_ge by lia. repeat split; try lia.
Qed.
End HeapFacts.

(** ** The chunk list *)

Section Chunks.
Implicit Types (h : Heap) (buf pre post : list Entry) (e a : Entry) (base o : Z).

Lemma extent_app pre post : extent (pre ++ post) = extent pre + extent post.
Proof. induction pre as [|e pre IH]; simpl; lia. Qed.

Lemma image_app h pre post : image h (pre ++ post) = image h pre ++ image h post.
Proof. unfold image. rewrite map_app, concat_app. reflexivity. Qed.

Lemma buffers_of_app pre post :
  buffers_of (pre ++ post) = buffers_of pre ++ buffers_of post.
Proof. unfold buffers_of. apply omap_app. Qed.

Lemma tiles_app h base pre post :
  tiles h base (pre ++ post) <->
  tiles h base pre /\ tiles h (base + extent pre) post.
Proof.
  revert base. induction pre as [|e pre IH]; intros base; simpl.
  - rewrite Z.add_0_r. tauto.
  - rewrite IH. rewrite Z.add_assoc. tauto.
Qed.

Lemma extent_nonneg h base buf : tiles h base buf -> 0 <= extent buf.
Proof.
  revert base. induction buf as [|e buf IH]; intros base; simpl; [lia|].
  intros [[Hl _] [_ Ht]]. specialize (IH _ Ht). lia.
Qed.

Lemma length_image h base buf :
  tiles h base buf -> Z.of_nat (length (image h buf)) = extent buf.
Proof.
  revert base. induction buf as [|e buf IH]; intros base; simpl; [reflexivity|].
  intros [[Hl _] [_ Ht]]. unfold image in *. simpl.
  rewrite length_app, Nat2Z.inj_add, (IH _ Ht). lia.
Qed.

(** A chunk of positive length lies between [base] and the end. *)
Lemma tiles_bounds h base buf a :
  tiles h base buf -> a ∈ buf ->
  0 <= e_length a /\
  (e_length a <> 0 ->
     base <= e_offset a /\ e_offset a + e_length a <= base + extent buf).
Proof.
  revert base. induction buf as [|e buf IH]; intros base; simpl.
  - intros _ Ha. inversion Ha.
  - intros [[Hl Hok] [Hb Ht]] Ha.
    pose proof (extent_nonneg _ _ _ Ht) as Hn.
    apply elem_of_cons in Ha as [->|Ha].
    + split; [lia|]. intros Hz. specialize (Hb Hz). lia.
    + destruct (IH _ Ht Ha) as [H0 H1]. split; [exact H0|].
      intros Hz. specialize (H1 Hz). lia.
Qed.

(** Every position of the file is in a chunk. *)
Lemma tiles_cover h base buf p :
  tiles h base buf -> base <= p < base + extent buf ->
  exists a, a ∈ buf /\ e_length a <> 0 /\ e_offset a <= p < e_offset a + e_length a.
Proof.
  revert base. induction buf as [|e buf IH]; intros base; simpl.
  - intros _ Hp. lia.
  - intros [[Hl Hok] [Hb Ht]] Hp.
    destruct (decide (p < base + e_length e)) as [Hlt|Hge].
    + exists e. split; [apply elem_of_cons; auto|].
      assert (Hz : e_length e <> 0) by lia.
      specialize (Hb Hz). split; [exact Hz | lia].
    + destruct (IH (base + e_length e) Ht) as [a [Ha Hr]]; [lia|].
      exists a. split; [apply elem_of_cons; auto | exact Hr].
Qed.

Lemma zero_ok_shape buf buf' :
  shape buf' = shape buf -> zero_ok buf -> zero_ok buf'.
Proof.
  unfold shape. intros Hs Hz z a Hz' Ha Hl.
  apply (list_elem_of_fmap_2 (fun e => (e_offset e, e_length e))) in Hz', Ha.
  rewrite Hs in Hz', Ha.
  apply list_elem_of_fmap in Hz' as [z0 [Ez Hz0]].
  apply list_elem_of_fmap in Ha as [a0 [Ea Ha0]].
  injection Ez as Ez1 Ez2. injection Ea as Ea1 Ea2.
  rewrite Ez1, Ea1, Ea2. apply (Hz z0 a0 Hz0 Ha0). congruence.
Qed.
End Chunks.

(** ** The search of [write] *)

Section Search.
Implicit Types (h : Heap) (buf pre post : list Entry) (e a : Entry).

(** The loop ends on the first block that is not disjoint from the new
    entry, if there is one. *)
Lemma overwrite_cases h newEntry buf :
  (Forall (fun x => overlap newEntry x = Disjoint) buf /\
   overwrite h newEntry buf = None) \/
  (exists pre e post,
     buf = pre ++ e :: post /\
     Forall (fun x => overlap newEntry x = Disjoint) pre /\
     overlap newEntry e <> Disjoint /\
     overwrite h newEntry buf =
       let '(h', e', thrown) := hit_entry h newEntry e in
       Some (h', pre ++ e' :: post, thrown)).
Proof.
  induction buf as [|entry rest IH].
  - left. split; [constructor | reflexivity].
  - destruct (overlap newEntry entry) eqn:Hov.
    + destruct IH as [[Hall Hr]|[pre [e [post [-> [Hall [Hne Hr]]]]]]].
      * left. split; [constructor; assumption|].
        simpl. rewrite Hov, Hr. reflexivity.
      * right. exists (entry :: pre), e, post.
        split; [reflexivity|]. split; [constructor; assumption|].
        split; [exact Hne|].
        cbn [overwrite]. rewrite Hov, Hr.
        destruct (hit_entry h newEntry e) as [[h' e'] thrown]; reflexivity.
    + right. exists [], entry, rest. split; [reflexivity|].
      split; [constructor|]. split; [congruence|].
      cbn [overwrite]. unfold hit_entry. rewrite Hov. reflexivity.
    + right. exists [], entry, rest. split; [reflexivity|].
      split; [constructor|]. split; [congruence|].
      cbn [overwrite]. unfold hit_entry. rewrite Hov. reflexivity.
    + right. exists [], entry, rest. split; [reflexivity|].
      split; [constructor|]. split; [congruence|].
      cbn [overwrite]. unfold hit_entry. rewrite Hov.
      destruct (convertToUint8Array h (e_data entry)) as [h1 ev].
      destruct (convertToUint8Array h1 (e_data newEntry)) as [h2 nv].
      destruct (view_set h2 ev nv _) as [h3|err]; reflexivity.
Qed.

Lemma overlap_disjoint newEntry e :
  overlap newEntry e = Disjoint <->
  e_offset newEntry + e_length newEntry <= e_offset e \/
  e_offset e + e_length e <= e_offset newEntry.
Proof.
  unfold overlap.
  destruct (e_offset newEntry + e_length newEntry <=? e_offset e) eqn:H1;
  destruct (e_offset e + e_length e <=? e_offset newEntry) eqn:H2; simpl;
    rewrite ?Z.leb_le, ?Z.leb_gt in *; try (split; [lia | reflexivity]).
  split; [|lia]. repeat case_match; discriminate.
Qed.

Lemma overlap_crosses newEntry e :
  overlap newEntry e = Crosses <->
  ~ (e_offset newEntry + e_length newEntry <= e_offset e \/
     e_offset e + e_length e <= e_offset newEntry) /\
  (e_offset newEntry < e_offset e \/
   e_offset e + e_length e < e_offset newEntry + e_length newEntry).
Proof.
  unfold overlap.
  destruct (e_offset newEntry + e_length newEntry <=? e_offset e) eqn:H1;
  destruct (e_offset e + e_length e <=? e_offset newEntry) eqn:H2; simpl;
    rewrite ?Z.leb_le, ?Z.leb_gt in *; try (split; [discriminate | lia]).
  destruct (e_offset newEntry <? e_offset e) eqn:H3;
  destruct (e_offset e + e_length e <? e_offset newEntry + e_length newEntry) eqn:H4;
    simpl; rewrite ?Z.ltb_lt, ?Z.ltb_ge in *; try (split; [lia | reflexivity]).
  split; [|lia]. repeat case_match; discriminate.
Qed.

Lemma overlap_replaces newEntry e :
  overlap newEntry e = Replaces ->
  e_offset newEntry = e_offset e /\ e_length newEntry = e_length e.
Proof.
  unfold overlap. repeat case_match; try discriminate. intros _.
  apply andb_true_iff in H1 as [H1 H2]. lia.
Qed.

Lemma overlap_inside newEntry e :
  overlap newEntry e = Inside ->
  e_offset e <= e_offset newEntry /\
  e_offset newEntry + e_length newEntry <= e_offset e + e_length e /\
  e_offset newEntry < e_offset e + e_length e /\
  e_offset e < e_offset newEntry + e_length newEntry /\
  ~ (e_offset e = e_offset newEntry /\ e_length e = e_length newEntry).
Proof.
  unfold overlap.
  destruct (e_offset newEntry + e_length newEntry <=? e_offset e) eqn:H1;
    [discriminate|].
  destruct (e_offset e + e_length e <=? e_offset newEntry) eqn:H2;
    [discriminate|].
  destruct (e_offset newEntry <? e_offset e) eqn:H3; [discriminate|].
  destruct (e_offset e + e_length e <? e_offset newEntry + e_length newEntry) eqn:H4;
    [discriminate|].
  destruct (e_offset newEntry =? e_offset e) eqn:H5;
  destruct (e_length newEntry =? e_length e) eqn:H6; try discriminate;
    intros _; simpl in *; lia.
Qed.
End Search.

(** ** One overwrite inside a chunk *)

Section Hit.
Implicit Types (h : Heap) (d : Data) (e : Entry).

(** A datum whose buffer is left alone keeps its bytes and its measure. *)
Lemma frame_datum h h' d :
  (length h <= length h')%nat -> data_ok h d ->
  (forall id, data_buffer d = Some id -> h' !! id = h !! id) ->
  data_bytes h' d = data_bytes h d /\ data_ok h' d /\
  measureData h' d = measureData h d.
Proof.
  intros Hlen Hok Hfr. unfold measureData.
  destruct d as [s|v|b|bs]; simpl in *; try tauto.
  - unfold view_bytes, heap_buffer. rewrite (Hfr _ eq_refl).
    repeat split; try reflexivity; try lia.
    destruct Hok as [_ Hw]. unfold heap_buffer in Hw. exact Hw.
  - unfold heap_buffer. rewrite (Hfr _ eq_refl).
    repeat split; try reflexivity; lia.
Qed.

Variables (h : Heap) (d : Data) (o : Z).
Hypothesis Hexact : byte_exact h d.

Let bs := data_bytes h d.
Let newEntry := mkEntry o d (Z.of_nat (length bs)).

(** The new entry lies in [e]: the chunk keeps its place and length, its
    bytes are those of the write from the relative offset on, and no
    other buffer of the store is touched. *)
Lemma hit_contained e :
  Z.of_nat (length (data_bytes h (e_data e))) = e_length e ->
  data_ok h (e_data e) ->
  overlap newEntry e = Replaces \/ overlap newEntry e = Inside ->
  exists h' e',
    hit_entry h newEntry e = (h', e', None) /\
    e_offset e' = e_offset e /\ e_length e' = e_length e /\
    data_bytes h' (e_data e') =
      splice (data_bytes h (e_data e)) (Z.to_nat (o - e_offset e)) bs /\
    data_ok h' (e_data e') /\
    (length h <= length h')%nat /\
    (forall id, (id < length h)%nat -> data_buffer (e_data e) <> Some id ->
                h' !! id = h !! id) /\
    (forall id, data_buffer (e_data e') = Some id ->
                data_buffer (e_data e) = Some id \/ data_buffer d = Some id \/
                (length h <= id)%nat) /\
    (overlap newEntry e = Replaces -> h' = h /\ e_data e' = d) /\
    (forall id, (id < length h)%nat ->
                length (heap_buffer h' id) = length (heap_buffer h id)).
Proof.
  intros Hlen Hok Hov. pose proof (byte_exact_ok _ _ Hexact) as Hdok.
  unfold hit_entry. destruct Hov as [Hov|Hov]; rewrite Hov.
  - apply overlap_replaces in Hov as [Ho Hl]. simpl in Ho, Hl.
    eexists _, _. split; [reflexivity|]. simpl.
    repeat split; auto.
    + fold bs. rewrite <- Ho, Z.sub_diag. simpl.
      unfold splice. simpl. rewrite drop_ge by lia. rewrite app_nil_r. reflexivity.
  - apply overlap_inside in Hov as [Ho [Hend [Hlt [Hgt _]]]]. simpl in Ho, Hend, Hlt, Hgt.
    destruct (convertToUint8Array h (e_data e)) as [h1 ev] eqn:Hc1.
    destruct (convert_spec _ _ _ _ Hok Hc1)
      as [ext1 [-> [Hb1 [Hv1 [Hin1 [Hw1 Hid1]]]]]].
    pose proof (data_ok_app h ext1 d Hdok) as Hdok1.
    destruct (convertToUint8Array (h ++ ext1) (e_data newEntry)) as [h2 nv] eqn:Hc2.
    simpl in Hc2.
    destruct (convert_spec _ _ _ _ Hdok1 Hc2)
      as [ext2 [-> [Hb2 [Hv2 [Hin2 [Hw2 Hid2]]]]]].
    rewrite data_bytes_app in Hb2, Hv2 by exact Hdok. fold bs in Hb2, Hv2.
    unfold view_set. rewrite Hb2.
    assert (Hfit : (Z.to_nat (o - e_offset e) + length bs <= vlen ev)%nat) by lia.
    destruct (vlen ev <? _ + vlen nv)%nat eqn:Hchk;
      [apply Nat.ltb_lt in Hchk; simpl in Hchk; lia|]. simpl.
    assert (HB : heap_buffer ((h ++ ext1) ++ ext2) (vbuf ev)
                 = heap_buffer (h ++ ext1) (vbuf ev))
      by (apply heap_buffer_app; lia).
    assert (Hin3 : (vbuf ev < length ((h ++ ext1) ++ ext2))%nat)
      by (rewrite length_app; lia).
    eexists _, _. split; [reflexivity|]. simpl.
    split; [reflexivity|]. split; [reflexivity|].
    split; [|split; [|split; [|split; [|split; [|split]]]]].
    + unfold view_bytes. rewrite heap_buffer_insert_eq by exact Hin3.
      rewrite HB, window_splice by lia. f_equal. exact Hb1.
    + rewrite length_insert, heap_buffer_insert_eq by exact Hin3.
      split; [exact Hin3|]. rewrite HB, length_splice; lia.
    + rewrite length_insert, !length_app. lia.
    + intros id Hid Hne.
      rewrite list_lookup_insert_ne.
      * rewrite <- app_assoc. apply lookup_app_l. lia.
      * destruct (data_buffer (e_data e)) as [id'|]; [|lia].
        destruct Hid1 as [-> _]. congruence.
    + intros id Hid. injection Hid as <-.
      destruct (data_buffer (e_data e)) as [id'|]; [left|right; right].
      * destruct Hid1 as [-> _]. reflexivity.
      * lia.
    + intros Hr. discriminate.
    + intros id Hid.
      assert (Hold : heap_buffer ((h ++ ext1) ++ ext2) id = heap_buffer h id)
        by (rewrite <- app_assoc; apply heap_buffer_app; exact Hid).
      destruct (decide (id = vbuf ev)) as [->|Hne].
      * rewrite heap_buffer_insert_eq by exact Hin3.
        rewrite length_splice; [rewrite Hold; reflexivity|].
        rewrite HB. lia.
      * rewrite heap_buffer_insert_ne by congruence. rewrite Hold. reflexivity.
Qed.
End Hit.

(** ** Chunks whose buffers are left alone *)

Section Frame.
Implicit Types (h : Heap) (buf : list Entry).

Lemma data_buffer_alloc h d id :
  data_ok h d -> data_buffer d = Some id -> (id < length h)%nat.
Proof. destruct d; simpl; intros Hok Hid; inversion Hid; subst; tauto. Qed.

Lemma tiles_alloc h base buf id :
  tiles h base buf -> id ∈ buffers_of buf -> (id < length h)%nat.
Proof.
  revert base. induction buf as [|e buf IH]; intros base; simpl.
  - intros _ Hid. inversion Hid.
  - intros [[_ Hok] [_ Ht]]. unfold buffers_of. simpl.
    destruct (data_buffer (e_data e)) as [id'|] eqn:Hd; simpl.
    + intros Hin. apply elem_of_cons in Hin as [->|Hin].
      * eapply data_buffer_alloc; eassumption.
      * eapply IH; eassumption.
    + intros Hin. eapply IH; eassumption.
Qed.

Lemma tiles_frame h h' base buf :
  (length h <= length h')%nat ->
  (forall id, id ∈ buffers_of buf -> h' !! id = h !! id) ->
  tiles h base buf ->
  tiles h' base buf /\ image h' buf = image h buf.
Proof.
  intros Hlen. revert base. induction buf as [|e buf IH]; intros base Hfr; simpl.
  - intros _. split; [exact I | reflexivity].
  - intros [[Hl Hok] [Hb Ht]].
    destruct (frame_datum h h' (e_data e) Hlen Hok) as [Hbytes [Hok' _]].
    { intros id Hid. apply Hfr. unfold buffers_of. simpl. rewrite Hid.
      apply elem_of_cons. left. reflexivity. }
    destruct (IH (base + e_length e)) as [Ht' Him]; [|exact Ht|].
    { intros id Hid. apply Hfr. unfold buffers_of in *. simpl.
      destruct (data_buffer (e_data e)); [apply elem_of_cons; right|]; exact Hid. }
    unfold image in *. simpl. rewrite Hbytes, Him.
    repeat split; auto.
Qed.

Lemma buffers_of_cons e buf :
  buffers_of (e :: buf) =
    match data_buffer (e_data e) with Some id => id :: buffers_of buf | None => buffers_of buf end.
Proof. reflexivity. Qed.

Lemma shape_app_cons pre e e' post :
  e_offset e' = e_offset e -> e_length e' = e_length e ->
  shape (pre ++ e' :: post) = shape (pre ++ e :: post).
Proof.
  intros Ho Hl. unfold shape. rewrite !fmap_app, !fmap_cons, Ho, Hl. reflexivity.
Qed.

Lemma extent_shape buf buf' : shape buf' = shape buf -> extent buf' = extent buf.
Proof.
  revert buf'. induction buf as [|e buf IH]; intros [|e' buf'];
    unfold shape; csimpl; try discriminate; [reflexivity|].
  intros H. injection H as Ho Hl Hs.
  rewrite (IH buf' Hs). lia.
Qed.

Lemma offsets_shape buf buf' n :
  shape buf' = shape buf ->
  Forall (fun e => e_offset e <= n) buf -> Forall (fun e => e_offset e <= n) buf'.
Proof.
  revert buf'. induction buf as [|e buf IH]; intros [|e' buf'];
    unfold shape; csimpl; try discriminate; [constructor|].
  intros H. injection H as Ho Hl Hs.
  intros Hall. inversion Hall; subst. constructor; [lia|]. apply IH; assumption.
Qed.
End Frame.

(** ** [write] on a memory sink, case by case *)

Section WriteStep.
Variables (h : Heap) (b : BlobBuffer) (d : Data).
Hypothesis Hinv : sink_inv h b.
Hypothesis Hexact : byte_exact h d.
Hypothesis Hfresh : forall id, data_buffer d = Some id -> id ∉ buffers_of (buffer b).

Let bs := data_bytes h d.
Let nl := Z.of_nat (length bs).
Let newEntry := mkEntry (pos b) d nl.

Lemma zero_ok_push :
  (forall a, a ∈ buffer b ->
     pos b + nl <= e_offset a \/ e_offset a + e_length a <= pos b) ->
  zero_ok (buffer b ++ [newEntry]).
Proof.
  intros Hd z a Hz Ha Hl. pose proof (inv_zero _ _ Hinv) as Hzero.
  apply elem_of_app in Hz as [Hz|Hz]; apply elem_of_app in Ha as [Ha|Ha];
    rewrite ?list_elem_of_singleton in *; subst; simpl in *.
  - apply Hzero; assumption.
  - destruct (Hd _ Hz); lia.
  - destruct (Hd _ Ha); lia.
  - lia.
Qed.

Lemma buffers_of_push :
  NoDup (buffers_of (buffer b ++ [newEntry])) /\
  (forall id, id ∈ buffers_of (buffer b ++ [newEntry]) ->
     id ∈ buffers_of (buffer b) \/ data_buffer d = Some id \/ (length h <= id)%nat).
Proof.
  rewrite buffers_of_app, buffers_of_cons. simpl.
  pose proof (inv_nodup _ _ Hinv) as Hnd.
  destruct (data_buffer d) as [id'|] eqn:Hd.
  - split.
    + apply NoDup_app. split; [exact Hnd|]. split; [|apply NoDup_singleton].
      intros x Hx Hx'. apply list_elem_of_singleton in Hx'. subst.
      exact (Hfresh _ eq_refl Hx).
    + intros id Hid. apply elem_of_app in Hid as [Hid|Hid]; [auto|].
      apply list_elem_of_singleton in Hid. subst. auto.
  - change (buffers_of []) with (@nil nat). rewrite app_nil_r. split; [exact Hnd | auto].
Qed.

(** A new chunk at the end, or an empty one on a boundary. *)
Lemma push_ok :
  (forall a, a ∈ buffer b ->
     pos b + nl <= e_offset a \/ e_offset a + e_length a <= pos b) ->
  (nl <> 0 -> pos b = length_ b) ->
  step_ok h b d h (buffer b ++ [newEntry]).
Proof.
  intros Hd Hend. destruct Hinv as [Hdest Hpos Ht Hext Hzero Hoff Hnd].
  pose proof (byte_exact_ok _ _ Hexact) as Hok.
  assert (Hmax : Z.max (length_ b) (pos b + nl) = length_ b + nl).
  { destruct (decide (nl = 0)) as [Hz|Hz]; [lia|]. specialize (Hend Hz). lia. }
  unfold step_ok. fold bs nl. rewrite Hmax.
  split; [|split; [|split; [|split; [|split; [|split; [|split; [|split]]]]]]].
  - apply tiles_app. split; [exact Ht|]. simpl. rewrite Hext.
    fold bs. repeat split; auto.
  - rewrite extent_app. simpl. lia.
  - apply zero_ok_push. exact Hd.
  - apply Forall_app. split.
    + eapply Forall_impl; [exact Hoff|]. simpl. intros; lia.
    + constructor; [simpl; lia | constructor].
  - apply buffers_of_push.
  - rewrite image_app. unfold image at 2. simpl. rewrite app_nil_r. fold bs.
    pose proof (length_image _ _ _ Ht) as Hli.
    destruct (decide (nl = 0)) as [Hz|Hz].
    + assert (bs = []) as -> by (apply length_zero_iff_nil; lia).
      rewrite splice_nil, app_nil_r. reflexivity.
    + specialize (Hend Hz).
      replace (Z.to_nat (pos b)) with (length (image h (buffer b))) by lia.
      symmetry. apply splice_end.
  - lia.
  - auto.
  - apply buffers_of_push.
Qed.
End WriteStep.

Section WriteHit.
Variables (h : Heap) (b : BlobBuffer) (d : Data).
Hypothesis Hinv : sink_inv h b.
Hypothesis Hexact : byte_exact h d.
Hypothesis Hfresh : forall id, data_buffer d = Some id -> id ∉ buffers_of (buffer b).

Let bs := data_bytes h d.
Let nl := Z.of_nat (length bs).
Let newEntry := mkEntry (pos b) d nl.

(** Blocks that a write of positive length passes over end before it. *)
Lemma disjoint_before pre base :
  tiles h base pre -> base <= pos b -> 0 < nl ->
  Forall (fun x => overlap newEntry x = Disjoint) pre ->
  base + extent pre <= pos b.
Proof.
  revert base. induction pre as [|e pre IH]; intros base; simpl; [lia|].
  intros [[Hl _] [Hb Ht]] Hbase Hnl Hall. inversion Hall as [|? ? Hd Hall']; subst.
  apply overlap_disjoint in Hd. simpl in Hd.
  rewrite Z.add_assoc. apply IH; auto.
  destruct (decide (e_length e = 0)) as [Hz|Hz]; [lia|].
  specialize (Hb Hz). lia.
Qed.

Variables (pre post : list Entry) (e : Entry).
Hypothesis Hbuf : buffer b = pre ++ [e] ++ post.
Hypothesis Hpre : Forall (fun x => overlap newEntry x = Disjoint) pre.

Lemma split_tiles :
  tiles h 0 pre /\
  (Z.of_nat (length (data_bytes h (e_data e))) = e_length e /\ data_ok h (e_data e)) /\
  (e_length e <> 0 -> e_offset e = extent pre) /\
  tiles h (extent pre + e_length e) post.
Proof.
  pose proof (inv_tiles _ _ Hinv) as Ht. rewrite Hbuf in Ht.
  apply tiles_app in Ht as [Ht1 Ht2]. simpl in Ht2. tauto.
Qed.

(** The first block met crosses the write: no chunk holds the write. *)
Lemma crosses_not_in_one_chunk :
  overlap newEntry e = Crosses -> ~ in_one_chunk (buffer b) (pos b) nl.
Proof.
  intros Hov [a [Ha [Hc1 Hc2]]].
  apply overlap_crosses in Hov as [Hnd Hcr]. simpl in Hnd, Hcr.
  destruct split_tiles as [Ht1 [[Hle _] [Hbe Ht2]]].
  pose proof (inv_pos _ _ Hinv) as Hpos.
  assert (He : e ∈ buffer b).
  { rewrite Hbuf. apply elem_of_app. right. apply elem_of_cons. auto. }
  assert (Hnl : 0 < nl) by lia.
  destruct (decide (e_length e = 0)) as [Hz|Hz].
  { destruct (inv_zero _ _ Hinv e a He Ha Hz); lia. }
  specialize (Hbe Hz).
  rewrite Hbuf in Ha. apply elem_of_app in Ha as [Ha|Ha].
  - rewrite Forall_forall in Hpre. specialize (Hpre a Ha).
    apply overlap_disjoint in Hpre. simpl in Hpre. lia.
  - apply elem_of_app in Ha as [Ha|Ha].
    + apply list_elem_of_singleton in Ha. subst a. lia.
    + destruct (tiles_bounds _ _ _ _ Ht2 Ha) as [H0 Hb'].
      assert (Hza : e_length a <> 0) by lia.
      specialize (Hb' Hza). lia.
Qed.

(** The first block met holds the write: it is rewritten in place. *)
Lemma hit_ok :
  overlap newEntry e = Replaces \/ overlap newEntry e = Inside ->
  exists h' e',
    hit_entry h newEntry e = (h', e', None) /\
    contains e (pos b) nl /\ e_length e <> 0 /\
    e_offset e' = e_offset e /\ e_length e' = e_length e /\
    data_bytes h' (e_data e') =
      splice (data_bytes h (e_data e)) (Z.to_nat (pos b - e_offset e)) bs /\
    (overlap newEntry e = Replaces -> h' = h /\ e_data e' = d) /\
    step_ok h b d h' (pre ++ [e'] ++ post).
Proof.
  intros Hov.
  destruct split_tiles as [Ht1 [[Hle Hoke] [Hbe Ht2]]].
  destruct Hinv as [Hdest Hpos Ht Hext Hzero Hoff Hnd].
  destruct (hit_contained h d (pos b) Hexact e Hle Hoke Hov)
    as [h' [e' [Hhit [Ho' [Hl' [Hbytes [Hok' [Hlen [Hfr [Hid' [Hrep _]]]]]]]]]]].
  fold bs in Hhit, Hbytes.
  assert (Hc : contains e (pos b) nl /\ e_length e <> 0).
  { unfold contains. destruct Hov as [Hov|Hov].
    - pose proof Hov as Hov'. apply overlap_replaces in Hov as [H1 H2]. simpl in H1, H2.
      assert (Hnd' : overlap newEntry e <> Disjoint) by congruence.
      rewrite overlap_disjoint in Hnd'. simpl in Hnd'. lia.
    - apply overlap_inside in Hov. simpl in Hov. lia. }
  destruct Hc as [[Hc1 Hc2] Hnz]. specialize (Hbe Hnz).
  exists h', e'. split; [exact Hhit|]. split; [split; assumption|].
  split; [exact Hnz|]. split; [exact Ho'|]. split; [exact Hl'|].
  split; [exact Hbytes|]. split; [exact Hrep|].
  assert (Hshape : shape (pre ++ [e'] ++ post) = shape (buffer b))
    by (rewrite Hbuf; apply shape_app_cons; assumption).
  assert (Hmax : Z.max (length_ b) (pos b + nl) = length_ b).
  { pose proof (extent_nonneg _ _ _ Ht2). rewrite Hbuf, !extent_app in Hext.
    simpl in Hext. lia. }
  rewrite Hbuf, !buffers_of_app in Hnd.
  assert (Hfr_pre : forall id, id ∈ buffers_of pre -> h' !! id = h !! id).
  { intros id Hid. apply Hfr; [exact (tiles_alloc _ _ _ _ Ht1 Hid)|].
    intros Heq. apply NoDup_app in Hnd as [_ [Hdis _]].
    apply (Hdis id Hid). apply elem_of_app. left.
    rewrite buffers_of_cons, Heq. apply elem_of_cons. auto. }
  assert (Hfr_post : forall id, id ∈ buffers_of post -> h' !! id = h !! id).
  { intros id Hid. apply Hfr; [exact (tiles_alloc _ _ _ _ Ht2 Hid)|].
    intros Heq. apply NoDup_app in Hnd as [_ [_ Hnd]].
    apply NoDup_app in Hnd as [_ [Hdis _]].
    apply (Hdis id); [|exact Hid].
    rewrite buffers_of_cons, Heq. apply elem_of_cons. auto. }
  destruct (tiles_frame h h' 0 pre Hlen Hfr_pre Ht1) as [Ht1' Him1].
  destruct (tiles_frame h h' _ post Hlen Hfr_post Ht2) as [Ht2' Him2].
  unfold step_ok. fold bs nl. rewrite Hmax.
  split; [|split; [|split; [|split; [|split; [|split; [|split; [|split]]]]]]].
  - apply tiles_app. split; [exact Ht1'|]. simpl.
    rewrite Hbytes, Hl', Ho'. rewrite length_splice by lia.
    repeat split; auto.
  - rewrite (extent_shape _ _ Hshape). exact Hext.
  - apply (zero_ok_shape _ _ Hshape). exact Hzero.
  - apply (offsets_shape _ _ _ Hshape). exact Hoff.
  - rewrite !buffers_of_app.
    assert (Hnew : forall x, x ∈ buffers_of [e'] ->
              (x ∉ buffers_of pre) /\ (x ∉ buffers_of post)).
    { intros x Hx. rewrite buffers_of_cons in Hx.
      destruct (data_buffer (e_data e')) as [x'|] eqn:Hx'; [|inversion Hx].
      apply list_elem_of_singleton in Hx. subst x'.
      destruct (Hid' x eq_refl) as [Hcase|[Hcase|Hcase]].
      - apply NoDup_app in Hnd as [_ [Hd1 Hnd]].
        apply NoDup_app in Hnd as [_ [Hd2 _]].
        assert (Hin : x ∈ buffers_of [e])
          by (rewrite buffers_of_cons, Hcase; apply elem_of_cons; auto).
        split; [|apply Hd2; exact Hin].
        intros Hp. apply (Hd1 x Hp). apply elem_of_app. auto.
      - specialize (Hfresh x Hcase). rewrite Hbuf, !buffers_of_app in Hfresh.
        split; intros Hp; apply Hfresh; rewrite !elem_of_app; auto.
      - split; intros Hp;
          [apply (tiles_alloc _ _ _ _ Ht1) in Hp | apply (tiles_alloc _ _ _ _ Ht2) in Hp];
          lia. }
    apply NoDup_app in Hnd as [Hn1 [Hd1 Hnd]].
    apply NoDup_app in Hnd as [_ [_ Hn3]].
    apply NoDup_app. split; [exact Hn1|]. split.
    + intros x Hx Hx'. apply elem_of_app in Hx' as [Hx'|Hx'].
      * destruct (Hnew x Hx'). contradiction.
      * apply (Hd1 x Hx). apply elem_of_app. auto.
    + apply NoDup_app. split; [|split; [|exact Hn3]].
      * rewrite buffers_of_cons. destruct (data_buffer (e_data e'));
          [apply NoDup_singleton | apply NoDup_nil; exact I].
      * intros x Hx. apply (Hnew x Hx).
  - rewrite Hbuf, !image_app, Him1, Him2.
    pose proof (length_image _ _ _ Ht1) as Hl1.
    rewrite splice_app_r by lia.
    unfold image at 2 5. simpl. rewrite !app_nil_r.
    rewrite splice_app_l by lia.
    rewrite Hbytes. do 3 f_equal. lia.
  - exact Hlen.
  - intros id Hid Hnot. apply Hfr; [exact Hid|].
    intros Heq. apply Hnot. rewrite Hbuf, !buffers_of_app, !elem_of_app.
    right. left. rewrite buffers_of_cons, Heq. apply elem_of_cons. auto.
  - intros id Hid. rewrite !buffers_of_app, !elem_of_app in Hid.
    rewrite Hbuf, !buffers_of_app, !elem_of_app.
    destruct Hid as [Hid|[Hid|Hid]]; [tauto| |tauto].
    rewrite buffers_of_cons in Hid.
    destruct (data_buffer (e_data e')) as [x'|] eqn:Hx'; [|inversion Hid].
    apply list_elem_of_singleton in Hid. subst x'.
    destruct (Hid' id eq_refl) as [Hcase|[Hcase|Hcase]]; [|tauto|tauto].
    left. right. left. rewrite buffers_of_cons, Hcase. apply elem_of_cons. auto.
Qed.
End WriteHit.

Section WriteCases.
Variables (h : Heap) (b : BlobBuffer) (d : Data).
Hypothesis Hinv : sink_inv h b.
Hypothesis Hchain : writePromise b = None.
Hypothesis Hexact : byte_exact h d.
Hypothesis Hfresh : forall id, data_buffer d = Some id -> id ∉ buffers_of (buffer b).

Let bs := data_bytes h d.
Let nl := Z.of_nat (length bs).
Let newEntry := mkEntry (pos b) d nl.

Lemma write_unfold :
  write h b d =
    let '(h', buf', thrown) := write_callback h b newEntry (length_ b <=? pos b) in
    (h', after_write b buf' thrown nl, None).
Proof.
  unfold write. unfold byte_exact in Hexact. rewrite Hexact, Hchain.
  fold bs nl newEntry. simpl.
  destruct (write_callback h b newEntry _) as [[h' buf'] thrown]; reflexivity.
Qed.

(** The four ways a write to a memory sink can go. *)
Lemma write_cases :
  (* a pure append *)
  (pos b = length_ b /\
   write h b d = (h, after_write b (buffer b ++ [newEntry]) None nl, None) /\
   step_ok h b d h (buffer b ++ [newEntry])) \/
  (* nothing written, on a boundary of the chunks *)
  (pos b < length_ b /\ nl = 0 /\ in_one_chunk (buffer b) (pos b) nl /\
   write h b d = (h, after_write b (buffer b ++ [newEntry]) None nl, None) /\
   step_ok h b d h (buffer b ++ [newEntry])) \/
  (* an overwrite inside the chunk [e] *)
  (pos b < length_ b /\
   exists pre e post h' e',
     buffer b = pre ++ [e] ++ post /\
     contains e (pos b) nl /\ e_length e <> 0 /\
     e_offset e' = e_offset e /\ e_length e' = e_length e /\
     data_bytes h' (e_data e') =
       splice (data_bytes h (e_data e)) (Z.to_nat (pos b - e_offset e)) bs /\
     (e_offset e = pos b /\ e_length e = nl -> h' = h /\ e_data e' = d) /\
     write h b d = (h', after_write b (pre ++ [e'] ++ post) None nl, None) /\
     step_ok h b d h' (pre ++ [e'] ++ post)) \/
  (* an overwrite that no chunk holds *)
  (pos b < length_ b /\ ~ in_one_chunk (buffer b) (pos b) nl /\
   write h b d =
     (h, after_write b (buffer b) (Some OverwriteCrossesBlobBoundaries) nl, None)).
Proof.
  pose proof (inv_pos _ _ Hinv) as Hpos. pose proof (inv_tiles _ _ Hinv) as Ht.
  pose proof (inv_extent _ _ Hinv) as Hext.
  rewrite write_unfold. unfold write_callback. rewrite (inv_dest _ _ Hinv).
  destruct (length_ b <=? pos b) eqn:Happ.
  - apply Z.leb_le in Happ. left. split; [lia|]. split; [reflexivity|].
    apply push_ok; auto; [|lia].
    intros a Ha. right.
    destruct (tiles_bounds _ _ _ _ Ht Ha) as [H0 Hb].
    destruct (decide (e_length a = 0)) as [Hz|Hz].
    + pose proof (inv_offsets _ _ Hinv) as Hoff. rewrite Forall_forall in Hoff.
      specialize (Hoff a Ha). simpl in Hoff. lia.
    + specialize (Hb Hz). lia.
  - apply Z.leb_gt in Happ. right.
    destruct (overwrite_cases h newEntry (buffer b))
      as [[Hall Hr]|[pre [e [post [Hbuf [Hall [Hne Hr]]]]]]]; rewrite Hr; simpl.
    + left. rewrite Forall_forall in Hall.
      destruct (tiles_cover _ _ _ (pos b) Ht) as [a [Ha [Hz Hin]]]; [lia|].
      pose proof (Hall a Ha) as Hd. apply overlap_disjoint in Hd. simpl in Hd.
      assert (Hnl : nl = 0) by lia.
      split; [exact Happ|]. split; [exact Hnl|]. split.
      { exists a. split; [exact Ha|]. unfold contains. lia. }
      split; [reflexivity|].
      apply push_ok; auto; [|intros Hq; exfalso; apply Hq; exact Hnl].
      intros a' Ha'. specialize (Hall a' Ha'). apply overlap_disjoint in Hall.
      simpl in Hall. exact Hall.
    + right. change (e :: post) with ([e] ++ post) in Hbuf.
      destruct (overlap newEntry e) eqn:Hov; [congruence| | |].
      * right. split; [exact Happ|]. split.
        { eapply crosses_not_in_one_chunk; eauto. }
        unfold hit_entry. rewrite Hov, Hbuf. reflexivity.
      * left. split; [exact Happ|].
        destruct (hit_ok h b d Hinv Hexact Hfresh pre post e Hbuf)
          as [h' [e' [Hhit [Hc [Hz [Ho' [Hl' [Hby [Hrep Hstep]]]]]]]]]; [auto|].
        fold bs nl newEntry in Hhit, Hrep, Hstep, Hby, Hc.
        exists pre, e, post, h', e'. rewrite Hhit. simpl.
        repeat (split; [assumption|]). split; [|split; [reflexivity | exact Hstep]].
        intros _. apply Hrep. exact Hov.
      * left. split; [exact Happ|].
        destruct (hit_ok h b d Hinv Hexact Hfresh pre post e Hbuf)
          as [h' [e' [Hhit [Hc [Hz [Ho' [Hl' [Hby [Hrep Hstep]]]]]]]]]; [auto|].
        fold bs nl newEntry in Hhit, Hrep, Hstep, Hby, Hc.
        exists pre, e, post, h', e'. rewrite Hhit. simpl.
        repeat (split; [assumption|]). split; [|split; [reflexivity | exact Hstep]].
        intros [He1 He2]. apply overlap_inside in Hov. simpl in Hov.
        exfalso. lia.
Qed.
End WriteCases.

Section WriteSpec.
Variables (h : Heap) (b : BlobBuffer) (d : Data).
Hypothesis Hinv : sink_inv h b.
Hypothesis Hexact : byte_exact h d.

Let len := Z.of_nat (length (data_bytes h d)).

(** An accepted write keeps the invariant of the sink. *)
Lemma step_inv h' buf' :
  step_ok h b d h' buf' -> sink_inv h' (after_write b buf' None len).
Proof.
  intros [Ht [Hext [Hzero [Hoff [Hnd _]]]]].
  pose proof (inv_pos _ _ Hinv). fold len in Hext, Hoff.
  constructor; simpl; auto.
  - apply (inv_dest _ _ Hinv).
  - lia.
Qed.

Lemma in_one_chunk_fits :
  pos b <= length_ b -> in_one_chunk (buffer b) (pos b) len ->
  pos b + len <= length_ b.
Proof.
  intros Hpos [a [Ha [Hc1 Hc2]]].
  destruct (tiles_bounds _ _ _ _ (inv_tiles _ _ Hinv) Ha) as [H0 Hb].
  rewrite (inv_extent _ _ Hinv) in Hb.
  destruct (decide (e_length a = 0)) as [Hz|Hz]; [lia|].
  specialize (Hb Hz). lia.
Qed.
End WriteSpec.

(** ** [write] on a memory sink, whatever buffers the chunks share *)

Section ShapeFacts.
Implicit Types (h : Heap) (b : BlobBuffer) (d : Data) (buf : list Entry).

Lemma sink_inv_shape h b : sink_inv h b -> sink_shape h b.
Proof. intros [H1 H2 H3 H4 H5 H6 _]. constructor; assumption. Qed.

(** In a store whose buffers keep their lengths, a datum keeps its length
    and its measure. *)
Lemma lengths_datum h h' d :
  (length h <= length h')%nat ->
  (forall id, (id < length h)%nat ->
     length (heap_buffer h' id) = length (heap_buffer h id)) ->
  data_ok h d ->
  length (data_bytes h' d) = length (data_bytes h d) /\ data_ok h' d /\
  measureData h' d = measureData h d.
Proof.
  intros Hlen Hkeep Hok. unfold measureData.
  destruct d as [s|v|a|bs]; simpl in *; try tauto.
  - destruct Hok as [Ha Hw]. specialize (Hkeep _ Ha).
    unfold view_bytes. rewrite !length_take, !length_drop, Hkeep.
    repeat split; try reflexivity; lia.
  - specialize (Hkeep _ Hok). rewrite Hkeep. repeat split; try reflexivity; lia.
Qed.

Lemma lengths_tiles h h' base buf :
  (length h <= length h')%nat ->
  (forall id, (id < length h)%nat ->
     length (heap_buffer h' id) = length (heap_buffer h id)) ->
  tiles h base buf -> tiles h' base buf.
Proof.
  intros Hlen Hkeep. revert base. induction buf as [|e buf IH]; intros base; simpl.
  - auto.
  - intros [[Hl Hok] [Hb Ht]].
    destruct (lengths_datum h h' (e_data e) Hlen Hkeep Hok) as [Hl' [Hok' _]].
    rewrite Hl'. auto.
Qed.

Lemma lengths_byte_exact h h' d :
  (length h <= length h')%nat ->
  (forall id, (id < length h)%nat ->
     length (heap_buffer h' id) = length (heap_buffer h id)) ->
  byte_exact h d -> byte_exact h' d.
Proof.
  intros Hlen Hkeep Hex. pose proof (byte_exact_ok _ _ Hex) as Hok.
  destruct (lengths_datum h h' d Hlen Hkeep Hok) as [Hl [_ Hm]].
  unfold byte_exact in *. rewrite Hm, Hl. exact Hex.
Qed.

(** The block that the loop of [write] stops at is the one of
    [first_overlap]. *)
Lemma first_overlap_spec newEntry pre e post :
  Forall (fun x => overlap newEntry x = Disjoint) pre ->
  overlap newEntry e <> Disjoint ->
  first_overlap newEntry (pre ++ e :: post) = Some (pre, e, post).
Proof.
  intros Hpre Hne. induction Hpre as [|x pre Hx Hpre IH]; simpl.
  - destruct (overlap newEntry e); [congruence | reflexivity..].
  - rewrite Hx, IH. reflexivity.
Qed.
End ShapeFacts.

Section WriteShape.
Variables (h : Heap) (b : BlobBuffer) (d : Data).
Hypothesis Hshape : sink_shape h b.
Hypothesis Hexact : byte_exact h d.

Let bs := data_bytes h d.
Let nl := Z.of_nat (length bs).
Let newEntry := mkEntry (pos b) d nl.

(** A new chunk at the end, or an empty one on a boundary. *)
Lemma shape_push :
  (forall a, a ∈ buffer b ->
     pos b + nl <= e_offset a \/ e_offset a + e_length a <= pos b) ->
  (nl <> 0 -> pos b = length_ b) ->
  step_shape h b d h (buffer b ++ [newEntry]) /\
  image h (buffer b ++ [newEntry]) = splice (image h (buffer b)) (Z.to_nat (pos b)) bs.
Proof.
  intros Hd Hend. destruct Hshape as [Hdest Hpos Ht Hext Hzero Hoff].
  pose proof (byte_exact_ok _ _ Hexact) as Hok.
  assert (Hmax : Z.max (length_ b) (pos b + nl) = length_ b + nl).
  { destruct (decide (nl = 0)) as [Hz|Hz]; [lia|]. specialize (Hend Hz). lia. }
  split.
  - unfold step_shape. fold bs nl. rewrite Hmax.
    split; [|split; [|split; [|split; [|split]]]].
    + apply tiles_app. split; [exact Ht|]. simpl. rewrite Hext.
      fold bs. repeat split; auto.
    + rewrite extent_app. simpl. lia.
    + intros z a Hz Ha Hl.
      apply elem_of_app in Hz as [Hz|Hz]; apply elem_of_app in Ha as [Ha|Ha];
        rewrite ?list_elem_of_singleton in *; subst; simpl in *.
      * apply Hzero; assumption.
      * destruct (Hd _ Hz); lia.
      * destruct (Hd _ Ha); lia.
      * lia.
    + apply Forall_app. split.
      * eapply Forall_impl; [exact Hoff|]. simpl. intros; lia.
      * constructor; [simpl; lia | constructor].
    + lia.
    + intros id _. reflexivity.
  - rewrite image_app. unfold image at 2. simpl. rewrite app_nil_r. fold bs.
    pose proof (length_image _ _ _ Ht) as Hli.
    destruct (decide (nl = 0)) as [Hz|Hz].
    + assert (bs = []) as -> by (apply length_zero_iff_nil; lia).
      rewrite splice_nil, app_nil_r. reflexivity.
    + specialize (Hend Hz).
      replace (Z.to_nat (pos b)) with (length (image h (buffer b))) by lia.
      symmetry. apply splice_end.
Qed.

Variables (pre post : list Entry) (e : Entry).
Hypothesis Hbuf : buffer b = pre ++ [e] ++ post.
Hypothesis Hpre : Forall (fun x => overlap newEntry x = Disjoint) pre.

Lemma shape_split :
  tiles h 0 pre /\
  (Z.of_nat (length (data_bytes h (e_data e))) = e_length e /\ data_ok h (e_data e)) /\
  (e_length e <> 0 -> e_offset e = extent pre) /\
  tiles h (extent pre + e_length e) post.
Proof.
  pose proof (shape_tiles _ _ Hshape) as Ht. rewrite Hbuf in Ht.
  apply tiles_app in Ht as [Ht1 Ht2]. simpl in Ht2. tauto.
Qed.

(** The first block met crosses the write: no chunk holds the write. *)
Lemma shape_crosses :
  overlap newEntry e = Crosses -> ~ in_one_chunk (buffer b) (pos b) nl.
Proof.
  intros Hov [a [Ha [Hc1 Hc2]]].
  apply overlap_crosses in Hov as [Hnd Hcr]. simpl in Hnd, Hcr.
  destruct shape_split as [Ht1 [[Hle _] [Hbe Ht2]]].
  pose proof (shape_pos _ _ Hshape) as Hpos.
  assert (He : e ∈ buffer b).
  { rewrite Hbuf. apply elem_of_app. right. apply elem_of_cons. auto. }
  assert (Hnl : 0 < nl) by lia.
  destruct (decide (e_length e = 0)) as [Hz|Hz].
  { destruct (shape_zero _ _ Hshape e a He Ha Hz); lia. }
  specialize (Hbe Hz).
  rewrite Hbuf in Ha. apply elem_of_app in Ha as [Ha|Ha].
  - rewrite Forall_forall in Hpre. specialize (Hpre a Ha).
    apply overlap_disjoint in Hpre. simpl in Hpre. lia.
  - apply elem_of_app in Ha as [Ha|Ha].
    + apply list_elem_of_singleton in Ha. subst a. lia.
    + destruct (tiles_bounds _ _ _ _ Ht2 Ha) as [H0 Hb'].
      assert (Hza : e_length a <> 0) by lia.
      specialize (Hb' Hza). lia.
Qed.

(** The first block met holds the write: it is rewritten in place. The
    other chunks keep their bytes unless the write goes inside a chunk
    that shares its buffer with one of them. *)
Lemma shape_hit :
  pos b < length_ b ->
  overlap newEntry e = Replaces \/ overlap newEntry e = Inside ->
  exists h' e',
    hit_entry h newEntry e = (h', e', None) /\
    contains e (pos b) nl /\ e_length e <> 0 /\
    e_offset e' = e_offset e /\ e_length e' = e_length e /\
    data_bytes h' (e_data e') =
      splice (data_bytes h (e_data e)) (Z.to_nat (pos b - e_offset e)) bs /\
    (overlap newEntry e = Replaces -> h' = h /\ e_data e' = d) /\
    step_shape h b d h' (pre ++ [e'] ++ post) /\
    (lands_in_shared h b d = false ->
     image h' (pre ++ [e'] ++ post)
       = splice (image h (buffer b)) (Z.to_nat (pos b)) bs).
Proof.
  intros Hover Hov.
  destruct shape_split as [Ht1 [[Hle Hoke] [Hbe Ht2]]].
  destruct Hshape as [Hdest Hpos Ht Hext Hzero Hoff].
  destruct (hit_contained h d (pos b) Hexact e Hle Hoke Hov)
    as [h' [e' [Hhit [Ho' [Hl' [Hbytes [Hok' [Hlen [Hfr [Hid' [Hrep Hkeep]]]]]]]]]]].
  fold bs in Hhit, Hbytes.
  assert (Hc : contains e (pos b) nl /\ e_length e <> 0).
  { unfold contains. destruct Hov as [Hov|Hov].
    - pose proof Hov as Hov'. apply overlap_replaces in Hov as [H1 H2]. simpl in H1, H2.
      assert (Hnd' : overlap newEntry e <> Disjoint) by congruence.
      rewrite overlap_disjoint in Hnd'. simpl in Hnd'. lia.
    - apply overlap_inside in Hov. simpl in Hov. lia. }
  destruct Hc as [[Hc1 Hc2] Hnz]. specialize (Hbe Hnz).
  exists h', e'. split; [exact Hhit|]. split; [split; assumption|].
  split; [exact Hnz|]. split; [exact Ho'|]. split; [exact Hl'|].
  split; [exact Hbytes|]. split; [exact Hrep|].
  assert (Hshape' : shape (pre ++ [e'] ++ post) = shape (buffer b))
    by (rewrite Hbuf; apply shape_app_cons; assumption).
  assert (Hmax : Z.max (length_ b) (pos b + nl) = length_ b).
  { pose proof (extent_nonneg _ _ _ Ht2). rewrite Hbuf, !extent_app in Hext.
    simpl in Hext. lia. }
  pose proof (lengths_tiles h h' 0 pre Hlen Hkeep Ht1) as Ht1'.
  pose proof (lengths_tiles h h' (extent pre + e_length e) post Hlen Hkeep Ht2) as Ht2'.
  split.
  - unfold step_shape. fold bs nl. rewrite Hmax.
    split; [|split; [|split; [|split; [|split]]]].
    + apply tiles_app. split; [exact Ht1'|]. simpl.
      rewrite Hbytes, Hl', Ho'. rewrite length_splice by lia.
      repeat split; auto.
    + rewrite (extent_shape _ _ Hshape'). exact Hext.
    + apply (zero_ok_shape _ _ Hshape'). exact Hzero.
    + apply (offsets_shape _ _ _ Hshape'). exact Hoff.
    + exact Hlen.
    + exact Hkeep.
  - intros Hun.
    assert (Hsame : forall id, id ∈ buffers_of (pre ++ post) -> h' !! id = h !! id).
    { intros id Hid. destruct Hov as [Hov|Hov].
      - destruct (Hrep Hov) as [-> _]. reflexivity.
      - apply Hfr.
        + rewrite buffers_of_app in Hid. apply elem_of_app in Hid as [Hid|Hid];
            [exact (tiles_alloc _ _ _ _ Ht1 Hid) | exact (tiles_alloc _ _ _ _ Ht2 Hid)].
        + intros Heq. revert Hun. unfold lands_in_shared.
          unfold byte_exact in Hexact. rewrite Hexact. fold bs nl newEntry.
          destruct (length_ b <=? pos b) eqn:Happ; [apply Z.leb_le in Happ; lia|].
          rewrite Hbuf. cbn [app].
          rewrite (first_overlap_spec newEntry pre e post Hpre) by congruence.
          rewrite Hov, Heq. intros Hdec. apply bool_decide_eq_false in Hdec.
          contradiction. }
    assert (Him1 : image h' pre = image h pre).
    { refine (proj2 (tiles_frame h h' 0 pre Hlen _ Ht1)).
      intros id Hid. apply Hsame. rewrite buffers_of_app. apply elem_of_app. auto. }
    assert (Him2 : image h' post = image h post).
    { refine (proj2 (tiles_frame h h' (extent pre + e_length e) post Hlen _ Ht2)).
      intros id Hid. apply Hsame. rewrite buffers_of_app. apply elem_of_app. auto. }
    rewrite Hbuf, !image_app, Him1, Him2.
    pose proof (length_image _ _ _ Ht1) as Hl1.
    rewrite splice_app_r by lia.
    unfold image at 2 5. simpl. rewrite !app_nil_r.
    rewrite splice_app_l by lia.
    rewrite Hbytes. do 3 f_equal. lia.
Qed.
End WriteShape.

Section ShapeCases.
Variables (h : Heap) (b : BlobBuffer) (d : Data).
Hypothesis Hshape : sink_shape h b.
Hypothesis Hchain : writePromise b = None.
Hypothesis Hexact : byte_exact h d.

Let bs := data_bytes h d.
Let nl := Z.of_nat (length bs).
Let newEntry := mkEntry (pos b) d nl.

Lemma shape_write_unfold :
  write h b d =
    let '(h', buf', thrown) := write_callback h b newEntry (length_ b <=? pos b) in
    (h', after_write b buf' thrown nl, None).
Proof.
  unfold write. unfold byte_exact in Hexact. rewrite Hexact, Hchain.
  fold bs nl newEntry. simpl.
  destruct (write_callback h b newEntry _) as [[h' buf'] thrown]; reflexivity.
Qed.

(** The four ways a write to a memory sink can go. *)
Lemma shape_cases :
  (* a pure append *)
  (pos b = length_ b /\
   write h b d = (h, after_write b (buffer b ++ [newEntry]) None nl, None) /\
   step_shape h b d h (buffer b ++ [newEntry]) /\
   image h (buffer b ++ [newEntry]) = splice (image h (buffer b)) (Z.to_nat (pos b)) bs) \/
  (* nothing written, on a boundary of the chunks *)
  (pos b < length_ b /\ nl = 0 /\ in_one_chunk (buffer b) (pos b) nl /\
   write h b d = (h, after_write b (buffer b ++ [newEntry]) None nl, None) /\
   step_shape h b d h (buffer b ++ [newEntry]) /\
   image h (buffer b ++ [newEntry]) = splice (image h (buffer b)) (Z.to_nat (pos b)) bs) \/
  (* an overwrite inside the chunk [e] *)
  (pos b < length_ b /\
   exists pre e post h' e',
     buffer b = pre ++ [e] ++ post /\
     contains e (pos b) nl /\ e_length e <> 0 /\
     e_offset e' = e_offset e /\ e_length e' = e_length e /\
     data_bytes h' (e_data e') =
       splice (data_bytes h (e_data e)) (Z.to_nat (pos b - e_offset e)) bs /\
     (e_offset e = pos b /\ e_length e = nl -> h' = h /\ e_data e' = d) /\
     write h b d = (h', after_write b (pre ++ [e'] ++ post) None nl, None) /\
     step_shape h b d h' (pre ++ [e'] ++ post) /\
     (lands_in_shared h b d = false ->
      image h' (pre ++ [e'] ++ post)
        = splice (image h (buffer b)) (Z.to_nat (pos b)) bs)) \/
  (* an overwrite that no chunk holds *)
  (pos b < length_ b /\ ~ in_one_chunk (buffer b) (pos b) nl /\
   write h b d =
     (h, after_write b (buffer b) (Some OverwriteCrossesBlobBoundaries) nl, None)).
Proof.
  pose proof (shape_pos _ _ Hshape) as Hpos. pose proof (shape_tiles _ _ Hshape) as Ht.
  pose proof (shape_extent _ _ Hshape) as Hext.
  rewrite shape_write_unfold. unfold write_callback. rewrite (shape_dest _ _ Hshape).
  destruct (length_ b <=? pos b) eqn:Happ.
  - apply Z.leb_le in Happ. left. split; [lia|]. split; [reflexivity|].
    apply shape_push; auto; [|lia].
    intros a Ha. right.
    destruct (tiles_bounds _ _ _ _ Ht Ha) as [H0 Hb].
    destruct (decide (e_length a = 0)) as [Hz|Hz].
    + pose proof (shape_offsets _ _ Hshape) as Hoff. rewrite Forall_forall in Hoff.
      specialize (Hoff a Ha). simpl in Hoff. lia.
    + specialize (Hb Hz). lia.
  - apply Z.leb_gt in Happ. right.
    destruct (overwrite_cases h newEntry (buffer b))
      as [[Hall Hr]|[pre [e [post [Hbuf [Hall [Hne Hr]]]]]]]; rewrite Hr; simpl.
    + left. rewrite Forall_forall in Hall.
      destruct (tiles_cover _ _ _ (pos b) Ht) as [a [Ha [Hz Hin]]]; [lia|].
      pose proof (Hall a Ha) as Hd. apply overlap_disjoint in Hd. simpl in Hd.
      assert (Hnl : nl = 0) by lia.
      split; [exact Happ|]. split; [exact Hnl|]. split.
      { exists a. split; [exact Ha|]. unfold contains. lia. }
      split; [reflexivity|].
      apply shape_push; auto; [|intros Hq; exfalso; apply Hq; exact Hnl].
      intros a' Ha'. specialize (Hall a' Ha'). apply overlap_disjoint in Hall.
      simpl in Hall. exact Hall.
    + right. change (e :: post) with ([e] ++ post) in Hbuf.
      destruct (overlap newEntry e) eqn:Hov; [congruence| | |].
      * right. split; [exact Happ|]. split.
        { eapply shape_crosses; eauto. }
        unfold hit_entry. rewrite Hov, Hbuf. reflexivity.
      * left. split; [exact Happ|].
        destruct (shape_hit h b d Hshape Hexact pre post e Hbuf Hall Happ)
          as [h' [e' [Hhit [Hc [Hz [Ho' [Hl' [Hby [Hrep [Hstep Him]]]]]]]]]]; [auto|].
        fold bs nl newEntry in Hhit, Hrep, Hstep, Hby, Hc, Him.
        exists pre, e, post, h', e'. rewrite Hhit. simpl.
        repeat (split; [assumption|]).
        split; [|split; [reflexivity | split; [exact Hstep | exact Him]]].
        intros _. apply Hrep. exact Hov.
      * left. split; [exact Happ|].
        destruct (shape_hit h b d Hshape Hexact pre post e Hbuf Hall Happ)
          as [h' [e' [Hhit [Hc [Hz [Ho' [Hl' [Hby [Hrep [Hstep Him]]]]]]]]]]; [auto|].
        fold bs nl newEntry in Hhit, Hrep, Hstep, Hby, Hc, Him.
        exists pre, e, post, h', e'. rewrite Hhit. simpl.
        repeat (split; [assumption|]).
        split; [|split; [reflexivity | split; [exact Hstep | exact Him]]].
        intros [He1 He2]. apply overlap_inside in Hov. simpl in Hov.
        exfalso. lia.
Qed.

Let len := Z.of_nat (length (data_bytes h d)).

(** A write keeps the shape of the sink. *)
Lemma shape_step h' buf' thrown :
  step_shape h b d h' buf' -> sink_shape h' (after_write b buf' thrown len).
Proof.
  intros [Ht [Hext [Hzero [Hoff _]]]].
  pose proof (shape_pos _ _ Hshape). fold len in Hext, Hoff.
  constructor; simpl; auto.
  - apply (shape_dest _ _ Hshape).
  - lia.
Qed.

Lemma shape_fits :
  pos b <= length_ b -> in_one_chunk (buffer b) (pos b) len ->
  pos b + len <= length_ b.
Proof.
  intros Hpos [a [Ha [Hc1 Hc2]]].
  destruct (tiles_bounds _ _ _ _ (shape_tiles _ _ Hshape) Ha) as [H0 Hb].
  rewrite (shape_extent _ _ Hshape) in Hb.
  destruct (decide (e_length a = 0)) as [Hz|Hz]; [lia|].
  specialize (Hb Hz). lia.
Qed.
End ShapeCases.

(** ** BlobBuffer.write over written data *)

(** C2, as stated, fails in two ways. A string is measured in UTF-16 code
    units and stored in UTF-8: after "abc", the two units of "éé" at offset
    0 lie in the chunk [0, 3), and their four bytes do not fit the three of
    the chunk, so the chain is rejected with a RangeError, the chunk
    having been replaced by its array already. And a blob of size zero
    written on a chunk boundary is neither swapped nor spliced: an empty
    chunk is pushed. *)
Lemma overwrite_contained_not_accepted :
  let abc := mkEntry 0 (DString [97; 98; 99]) 3 in
  let b := mkBlobBuffer [abc] None Memory 0 3 in
  run [] (newBlobBuffer Memory) [OpWrite (DString [97; 98; 99]); OpSeek (JNum 0)]
    = Some ([], b) /\
  measureData [] (DString [233; 233]) = Ok 2 /\
  0 + 2 <= length_ b /\ in_one_chunk (buffer b) 0 2 /\
  write [] b (DString [233; 233])
    = ([[97; 98; 99]; [195; 169; 195; 169]],
       mkBlobBuffer [mkEntry 0 (DUint8Array (mkView 0 0 3)) 3] (Some RangeError) Memory 2 3,
       None) /\
  write [] b (DBlob [])
    = ([], mkBlobBuffer [abc; mkEntry 0 (DBlob []) 0] None Memory 0 3, None).
Proof.
  simpl. repeat split; try reflexivity; try lia.
  exists (mkEntry 0 (DString [97; 98; 99]) 3). split.
  - apply elem_of_cons. left. reflexivity.
  - unfold contains. simpl. lia.
Qed.

(** C2, amended. On a memory sink whose chunks tile the file and are as
    long as their bytes, which is so of every sink that data measured in
    bytes have been written to, take a datum that [measureData] measures
    in bytes (a [Uint8Array], an ArrayBuffer, a blob, a string of code
    units below 0x80), of length [len], written at an offset [o] below
    [length]. The write succeeds iff [o + len <= length] and [o, o + len)
    lies in one chunk; otherwise the chain is rejected with
    OverwriteCrossesBlobBoundaries and the chunks stay. On success the
    chunk keeps its place and length, gets the datum itself when the write
    replaces it exactly and else the new bytes spliced at the relative
    offset; unless [len] is 0 and [o] a chunk boundary, where an empty
    chunk is pushed. *)
Theorem write_overwrite_spec (h : Heap) (b : BlobBuffer) (d : Data)
  (Hshape : sink_shape h b) (Hchain : writePromise b = None)
  (Hexact : byte_exact h d)
  (Hover : pos b < length_ b) :
  let o := pos b in
  let bs := data_bytes h d in
  let len := Z.of_nat (length bs) in
  exists h' b',
    write h b d = (h', b', None) /\
    (writePromise b' = None <->
       o + len <= length_ b /\ in_one_chunk (buffer b) o len) /\
    (writePromise b' <> None ->
       writePromise b' = Some OverwriteCrossesBlobBoundaries /\
       h' = h /\ buffer b' = buffer b) /\
    (writePromise b' = None ->
       (exists pre e post e',
          buffer b = pre ++ [e] ++ post /\ contains e o len /\
          buffer b' = pre ++ [e'] ++ post /\
          e_offset e' = e_offset e /\ e_length e' = e_length e /\
          (e_offset e = o /\ e_length e = len -> h' = h /\ e_data e' = d) /\
          data_bytes h' (e_data e') =
            splice (data_bytes h (e_data e)) (Z.to_nat (o - e_offset e)) bs) \/
       (len = 0 /\ h' = h /\ buffer b' = buffer b ++ [mkEntry o d 0])).
Proof.
  intros o bs len. subst o bs len.
  pose proof (shape_pos _ _ Hshape) as Hpos.
  destruct (shape_cases h b d Hshape Hchain Hexact)
    as [[Happ _]|[[_ [Hz [Hin [Hw Hstep]]]]|[[_ Hhit]|[_ [Hnot Hw]]]]].
  - lia.
  - eexists _, _. split; [exact Hw|]. simpl.
    split; [split; [intros _|reflexivity]|].
    { split; [|exact Hin]. lia. }
    split; [congruence|]. intros _. right.
    rewrite Hz. auto.
  - destruct Hhit as [pre [e [post [h' [e' [Hbuf [Hc [Hnz [Ho' [Hl' [Hby [Hrep [Hw _]]]]]]]]]]]]].
    eexists _, _. split; [exact Hw|]. simpl.
    assert (Hin : in_one_chunk (buffer b) (pos b) (Z.of_nat (length (data_bytes h d)))).
    { exists e. split; [|exact Hc]. rewrite Hbuf, !elem_of_app.
      right. left. apply list_elem_of_singleton. reflexivity. }
    split; [split; [intros _|reflexivity]|].
    { split; [|exact Hin]. apply (shape_fits h b d Hshape); [lia | exact Hin]. }
    split; [congruence|]. intros _. left.
    exists pre, e, post, e'. repeat (split; [assumption || reflexivity|]). exact Hby.
  - eexists _, _. split; [exact Hw|]. simpl.
    split; [split; [discriminate | intros [_ Hin]; contradiction]|].
    split; [auto|]. discriminate.
Qed.

Lemma write_overwrite_spec_witness :
  let h := [[63; 33]] in
  let hello := mkEntry 0 (DBlob [72; 101; 108; 108; 111; 44; 32]) 7 in
  let world := mkEntry 7 (DString [119; 111; 114; 108; 100]) 5 in
  let array := mkEntry 12 (DUint8Array (mkView 0 0 2)) 2 in
  let arrayBuffer := mkEntry 14 (DArrayBuffer 0) 2 in
  let b := mkBlobBuffer [hello; world; array; arrayBuffer] None Memory 2 16 in
  let man := DString [45; 109; 97; 110] in
  run h (newBlobBuffer Memory)
    [OpWrite (e_data hello); OpWrite (e_data world); OpWrite (e_data array);
     OpWrite (e_data arrayBuffer); OpSeek (JNum 2)] = Some (h, b) /\
  exists h' b',
    write h b man = (h', b', None) /\
    (writePromise b' = None <-> 2 + 4 <= 16 /\ in_one_chunk (buffer b) 2 4) /\
    image h' (buffer b')
      = [72; 101; 45; 109; 97; 110; 32; 119; 111; 114; 108; 100; 63; 33; 63; 33].
Proof.
  intros h hello world array arrayBuffer b man. split; [reflexivity|].
  assert (Hshape : sink_shape h b).
  { constructor; simpl.
    - reflexivity.
    - lia.
    - unfold h. simpl. repeat split; intros; try reflexivity; lia.
    - reflexivity.
    - intros z a Hz Ha Hl.
      repeat (apply elem_of_cons in Hz as [->|Hz]; [simpl in Hl; lia|]).
      inversion Hz.
    - repeat constructor; simpl; lia. }
  destruct (write_overwrite_spec h b man Hshape) as [h' [b' [Hw [Hiff _]]]].
  - reflexivity.
  - reflexivity.
  - simpl. lia.
  - exists h', b'. split; [exact Hw|]. split; [exact Hiff|].
    vm_compute in Hw. injection Hw as <- <-. reflexivity.
Defined.

(** ** Sequences of calls *)

Section Run.
Implicit Types (h : Heap) (b : BlobBuffer) (ops : list Op).

Lemma seek_accepted b offset b' :
  seek b offset = (b', None) ->
  exists n, offset = JNum n /\ 0 <= n <= length_ b /\
    b' = mkBlobBuffer (buffer b) (writePromise b) (dest b) n (length_ b).
Proof.
  unfold seek. destruct offset as [| |[|]|n]; simpl; try discriminate.
  destruct (n <? 0) eqn:Hneg; [discriminate|].
  destruct (length_ b <? n) eqn:Hgt; [discriminate|].
  apply Z.ltb_ge in Hneg, Hgt. intros H. injection H as <-.
  exists n. repeat split; lia.
Qed.

(** A rejected chain stays rejected. *)
Lemma run_rejected ops : forall h b e hf bf,
  writePromise b = Some e -> run h b ops = Some (hf, bf) ->
  writePromise bf = Some e.
Proof.
  induction ops as [|[offset|d] ops IH]; intros h b e hf bf Hrej; simpl.
  - intros H. injection H as <- <-. exact Hrej.
  - destruct (seek b offset) as [b' [err|]] eqn:Hs; [discriminate|].
    destruct (seek_accepted _ _ _ Hs) as [n [_ [_ ->]]].
    apply IH. exact Hrej.
  - unfold write. destruct (measureData h d) as [len|err]; [|discriminate].
    rewrite Hrej. apply IH. reflexivity.
Qed.

(** The bytes of the sink after a write that has spliced its bytes in. *)
Lemma lookup_splice_image h b d (img' : list Z) (i : nat) :
  sink_shape h b ->
  img' = splice (image h (buffer b)) (Z.to_nat (pos b)) (data_bytes h d) ->
  img' !! i =
    let bs := data_bytes h d in
    if (pos b <=? Z.of_nat i) && (Z.of_nat i <? pos b + Z.of_nat (length bs))
    then bs !! Z.to_nat (Z.of_nat i - pos b)
    else image h (buffer b) !! i.
Proof.
  intros Hshape ->. simpl.
  pose proof (shape_pos _ _ Hshape) as Hpos.
  pose proof (length_image _ _ _ (shape_tiles _ _ Hshape)) as Hl.
  rewrite (shape_extent _ _ Hshape) in Hl.
  rewrite lookup_splice by lia.
  destruct (pos b <=? Z.of_nat i) eqn:H1; destruct (Z.of_nat i <? pos b + _) eqn:H2;
    simpl; rewrite ?Z.leb_le, ?Z.leb_gt, ?Z.ltb_lt, ?Z.ltb_ge in *;
    repeat case_decide; try lia; try reflexivity.
  f_equal. lia.
Qed.

(** Calls that are accepted keep the shape of the sink, and when no write
    lands in a shared buffer, each byte of the sink is the last one
    written at its place. *)
Lemma run_image ops : forall h b hf bf,
  sink_shape h b -> writePromise b = None ->
  (forall d, d ∈ op_data ops -> byte_exact h d) ->
  unshared h b ops = true ->
  run h b ops = Some (hf, bf) -> writePromise bf = None ->
  sink_shape hf bf /\
  forall i : nat,
    image hf (buffer bf) !! i =
      match last_written (writes_of h b ops) (Z.of_nat i) with
      | Some x => Some x
      | None => image h (buffer b) !! i
      end.
Proof.
  induction ops as [|[offset|d] ops IH]; intros h b hf bf Hshape Hchain Hexact Hun;
    cbn [run writes_of unshared] in *.
  - intros H _. injection H as <- <-. split; [exact Hshape | reflexivity].
  - destruct (seek b offset) as [b' [err|]] eqn:Hs; [discriminate|].
    destruct (seek_accepted _ _ _ Hs) as [n [-> [Hn ->]]].
    intros Hrun Hfin. cbn [fst] in *.
    apply (IH h (mkBlobBuffer (buffer b) (writePromise b) (dest b) n (length_ b)) hf bf);
      [destruct Hshape; constructor; simpl; auto | exact Hchain
      | intros d Hd; apply Hexact; exact Hd | exact Hun | exact Hrun | exact Hfin].
  - assert (Hd : d ∈ op_data (OpWrite d :: ops))
      by (unfold op_data; simpl; apply elem_of_cons; auto).
    pose proof (Hexact d Hd) as Hex.
    apply andb_true_iff in Hun as [Hland Hun]. apply negb_true_iff in Hland.
    assert (Hstep : (exists h' buf',
               write h b d
                 = (h', after_write b buf' None (Z.of_nat (length (data_bytes h d))), None) /\
               step_shape h b d h' buf' /\
               image h' buf'
                 = splice (image h (buffer b)) (Z.to_nat (pos b)) (data_bytes h d)) \/
             write h b d
               = (h, after_write b (buffer b) (Some OverwriteCrossesBlobBoundaries)
                       (Z.of_nat (length (data_bytes h d))), None)).
    { destruct (shape_cases h b d Hshape Hchain Hex)
        as [[_ [Hw [Hs Hi]]]|[[_ [_ [_ [Hw [Hs Hi]]]]]|[[_ Hhit]|[_ [_ Hw]]]]].
      - left. eauto.
      - left. eauto.
      - destruct Hhit as [pre [e [post [h' [e' [_ [_ [_ [_ [_ [_ [_ [Hw [Hs Hi]]]]]]]]]]]]]].
        left. exists h', (pre ++ [e'] ++ post). auto.
      - right. exact Hw. }
    destruct Hstep as [[h' [buf' [Hw [Hs Hi]]]]|Hw]; rewrite Hw in *.
    + intros Hrun Hfin.
      pose proof Hs as [_ [_ [_ [_ [Hlen Hkeep]]]]].
      destruct (IH h' (after_write b buf' None (Z.of_nat (length (data_bytes h d)))) hf bf)
        as [Hshapef Hlook]; auto.
      * apply shape_step; assumption.
      * intros d' Hd'. apply (lengths_byte_exact h h' d' Hlen Hkeep).
        apply Hexact. unfold op_data. simpl. apply elem_of_cons. auto.
      * split; [exact Hshapef|].
        intros i. rewrite Hlook. cbn [last_written].
        destruct (last_written _ _); [reflexivity|].
        cbn [buffer after_write].
        rewrite (lookup_splice_image h b d (image h' buf') i Hshape Hi). simpl.
        destruct (_ && _) eqn:Hrange; [|reflexivity].
        destruct (data_bytes h d !! _) eqn:Hbs; [reflexivity|].
        apply lookup_ge_None in Hbs. apply andb_true_iff in Hrange as [H1 H2].
        apply Z.leb_le in H1. apply Z.ltb_lt in H2. lia.
    + intros Hrun Hfin.
      apply run_rejected with (e := OverwriteCrossesBlobBoundaries) in Hrun;
        [congruence | reflexivity].
Qed.
End Run.

(** ** BlobBuffer.complete *)

Lemma new_sink_inv (h : Heap) : sink_inv h (newBlobBuffer Memory).
Proof.
  constructor; simpl.
  - reflexivity.
  - lia.
  - exact I.
  - reflexivity.
  - intros z a Hz. inversion Hz.
  - constructor.
  - constructor.
Qed.

(** C1, as stated, fails in two ways. The sink keeps the caller's arrays
    and overwrites them in place: after [write(arr)] and
    [write(arr.buffer)], one byte written at offset 0 lands in the buffer
    both chunks show, so the blob has it at offset 2 as well, where the
    last byte written was '?'. And a string is measured in UTF-16 code
    units but stored in UTF-8: after [write("é")] the blob has two bytes
    and the sink a length of 1. *)
Lemma complete_not_positional :
  let h0 := [[63; 33]] in
  let ops := [OpWrite (DUint8Array (mkView 0 0 2)); OpWrite (DArrayBuffer 0);
              OpSeek (JNum 0); OpWrite (DBlob [88])] in
  (exists h b,
     run h0 (newBlobBuffer Memory) ops = Some (h, b) /\
     writePromise b = None /\
     complete h b None = BlobOf [88; 33; 88; 33] None /\
     last_written (writes_of h0 (newBlobBuffer Memory) ops) 2 = Some 63) /\
  (exists b,
     run [] (newBlobBuffer Memory) [OpWrite (DString [233])] = Some ([], b) /\
     writePromise b = None /\
     complete [] b None = BlobOf [195; 169] None /\
     length_ b = 1).
Proof.
  split.
  - eexists _, _. split; [reflexivity|]. repeat split.
  - eexists _. split; [reflexivity|]. repeat split.
Qed.

(** C1, amended. Take calls on a new memory sink whose data are measured in
    bytes by [measureData] (each [Uint8Array], ArrayBuffer or blob, and
    each string of code units below 0x80), none of which is an overwrite
    inside a chunk whose ArrayBuffer another chunk of the sink shows as
    well. If no call throws and every write is accepted, the blob of
    [complete] has as many bytes as the sink's [length], and its byte at
    each position is the last byte written to that position, each datum
    counted with the bytes it has when it is written. *)
Theorem complete_materializes (h0 : Heap) (ops : list Op)
  (mimeType : option (list Z)) (h : Heap) (b : BlobBuffer)
  (Hexact : forall d, d ∈ op_data ops -> byte_exact h0 d)
  (Hunshared : unshared h0 (newBlobBuffer Memory) ops = true)
  (Hrun : run h0 (newBlobBuffer Memory) ops = Some (h, b))
  (Haccepted : writePromise b = None) :
  exists bytes,
    complete h b mimeType = BlobOf bytes mimeType /\
    Z.of_nat (length bytes) = length_ b /\
    forall i : nat, Z.of_nat i < length_ b ->
      exists x, bytes !! i = Some x /\
        last_written (writes_of h0 (newBlobBuffer Memory) ops) (Z.of_nat i) = Some x.
Proof.
  destruct (run_image ops h0 (newBlobBuffer Memory) h b) as [Hshape Hlook]; auto.
  - apply sink_inv_shape, new_sink_inv.
  - exists (image h (buffer b)).
    pose proof (length_image _ _ _ (shape_tiles _ _ Hshape)) as Hl.
    rewrite (shape_extent _ _ Hshape) in Hl.
    unfold complete. rewrite Haccepted, (shape_dest _ _ Hshape).
    split; [reflexivity|]. split; [exact Hl|].
    intros i Hi.
    destruct (lookup_lt_is_Some_2 (image h (buffer b)) i) as [x Hx]; [lia|].
    exists x. split; [exact Hx|].
    specialize (Hlook i). rewrite Hx in Hlook. simpl in Hlook.
    destruct (last_written _ _) as [y|]; [congruence|].
    unfold image in Hlook. simpl in Hlook. discriminate.
Qed.

Lemma complete_materializes_witness :
  let h0 := [[63; 33]; [0; 32; 72; 105; 46; 0; 0; 0; 0; 0]] in
  let ops := [OpWrite (DBlob [72; 101; 108; 108; 111; 44; 32]);
              OpWrite (DString [119; 111; 114; 108; 100]);
              OpWrite (DUint8Array (mkView 0 0 2)); OpWrite (DArrayBuffer 0);
              OpSeek (JNum 2); OpWrite (DString [45; 109; 97; 110]);
              OpSeek (JNum 16); OpWrite (DUint8Array (mkView 1 1 4))] in
  exists h b bytes,
    run h0 (newBlobBuffer Memory) ops = Some (h, b) /\
    complete h b None = BlobOf bytes None /\
    bytes = [72; 101; 45; 109; 97; 110; 32; 119; 111; 114; 108; 100; 63; 33; 63; 33;
             32; 72; 105; 46] /\
    Z.of_nat (length bytes) = length_ b /\
    forall i : nat, Z.of_nat i < length_ b ->
      exists x, bytes !! i = Some x /\
        last_written (writes_of h0 (newBlobBuffer Memory) ops) (Z.of_nat i) = Some x.
Proof.
  intros h0 ops.
  destruct (run h0 (newBlobBuffer Memory) ops) as [[h b]|] eqn:Hrun;
    [|vm_compute in Hrun; discriminate].
  assert (Hexact : forall d, d ∈ op_data ops -> byte_exact h0 d).
  { intros d Hd. unfold ops, op_data in Hd. simpl in Hd.
    repeat (apply elem_of_cons in Hd as [->|Hd]; [reflexivity|]). inversion Hd. }
  assert (Hunshared : unshared h0 (newBlobBuffer Memory) ops = true)
    by (vm_compute; reflexivity).
  assert (Haccepted : writePromise b = None)
    by (vm_compute in Hrun; injection Hrun as <- <-; reflexivity).
  destruct (complete_materializes h0 ops None h b Hexact Hunshared Hrun Haccepted)
    as [bytes [Hc [Hl Hlast]]].
  exists h, b, bytes. split; [reflexivity|]. split; [exact Hc|].
  split; [|split; [exact Hl | exact Hlast]].
  vm_compute in Hrun. injection Hrun as <- <-.
  vm_compute in Hc. injection Hc as <-. reflexivity.
Defined.


(** ** The WebP keyframe extractor *)

Section WebP.
Implicit Types (s webP needle : jsstring) (cursor : Z) (alpha : bool).

Lemma jsstring_eqb_eq s t : jsstring_eqb s t = true <-> s = t.
Proof. unfold jsstring_eqb. apply bool_decide_eq_true. Qed.

Lemma jsstring_eqb_neq s t : jsstring_eqb s t = false <-> s <> t.
Proof. unfold jsstring_eqb. apply bool_decide_eq_false. Qed.

(** [index_from] finds the first suffix that starts with the needle. *)
Lemma index_from_Some needle s n i :
  index_from needle s n = Some i ->
  (n <= i)%nat /\ take (length needle) (drop (i - n) s) = needle /\
  forall j, (n <= j < i)%nat -> take (length needle) (drop (j - n) s) <> needle.
Proof.
  revert n. induction s as [|c s IH]; intros n; simpl.
  - destruct (jsstring_eqb _ needle) eqn:He; [|discriminate].
    intros H. injection H as <-. apply jsstring_eqb_eq in He.
    rewrite Nat.sub_diag. simpl. split; [lia|]. split; [exact He|]. intros j Hj. lia.
  - destruct (jsstring_eqb _ needle) eqn:He.
    + intros H. injection H as <-. apply jsstring_eqb_eq in He.
      rewrite Nat.sub_diag. simpl. split; [lia|]. split; [exact He|]. intros j Hj. lia.
    + intros H. apply IH in H as [Hle [Hat Hbefore]].
      apply jsstring_eqb_neq in He.
      split; [lia|]. split.
      * replace (i - n)%nat with (S (i - S n)) by lia. exact Hat.
      * intros j Hj. destruct (decide (j = n)) as [->|Hne].
        -- rewrite Nat.sub_diag. exact He.
        -- replace (j - n)%nat with (S (j - S n)) by lia. simpl.
           apply Hbefore. lia.
Qed.

Lemma index_from_None needle s n :
  index_from needle s n = None ->
  forall k, take (length needle) (drop k s) <> needle.
Proof.
  revert n. induction s as [|c s IH]; intros n; simpl.
  - destruct (jsstring_eqb _ needle) eqn:He; [discriminate|].
    intros _ k. apply jsstring_eqb_neq in He. rewrite drop_nil. exact He.
  - destruct (jsstring_eqb _ needle) eqn:He; [discriminate|].
    apply jsstring_eqb_neq in He.
    intros H [|k]; [exact He|]. simpl. eapply IH. exact H.
Qed.

Lemma indexOf_VP8_Some s i :
  indexOf s str_VP8 12 = Some i -> first_VP8_at s 12 i.
Proof.
  unfold indexOf, first_VP8_at.
  destruct (length s <? 12)%nat eqn:Hl; [discriminate|].
  intros H. apply index_from_Some in H as [Hle [Hat Hbefore]].
  change (length str_VP8) with 3%nat in *.
  rewrite drop_drop in Hat. replace (12 + (i - 12))%nat with i in Hat by lia.
  split; [exact Hle|]. split; [exact Hat|].
  intros j Hj. specialize (Hbefore j Hj). rewrite drop_drop in Hbefore.
  replace (12 + (j - 12))%nat with j in Hbefore by lia. exact Hbefore.
Qed.

Lemma indexOf_VP8_None s :
  indexOf s str_VP8 12 = None ->
  forall j, (12 <= j)%nat -> take 3 (drop j s) <> str_VP8.
Proof.
  unfold indexOf. intros H j Hj.
  destruct (length s <? 12)%nat eqn:Hl.
  - apply Nat.ltb_lt in Hl. rewrite drop_ge by lia. discriminate.
  - pose proof (index_from_None _ _ _ H (j - 12)%nat) as Hk.
    rewrite drop_drop in Hk. replace (12 + (j - 12))%nat with j in Hk by lia.
    exact Hk.
Qed.

Lemma byteStringToUint32LE_nonneg s : 0 <= byteStringToUint32LE s.
Proof. unfold byteStringToUint32LE. apply Z.land_nonneg. right. lia. Qed.

Lemma next_chunk_advances webP cursor : cursor + 8 <= next_chunk webP cursor.
Proof.
  unfold next_chunk.
  pose proof (byteStringToUint32LE_nonneg (substring webP (cursor + 4) (cursor + 8))).
  destruct (negb _); lia.
Qed.

(** The loop ends within the fuel given to it, on the result of the
    walk. *)
Lemma scan_chunks_total fuel : forall webP cursor alpha,
  Z.of_nat (length webP) - cursor <= 8 * Z.of_nat fuel ->
  exists r, scan_chunks fuel webP cursor alpha = Some r /\ Walk webP cursor alpha r.
Proof.
  induction fuel as [|fuel IH]; intros webP cursor alpha Hfuel.
  - simpl. destruct (cursor <? _) eqn:Hc; [apply Z.ltb_lt in Hc; lia|].
    apply Z.ltb_ge in Hc. eexists. split; [reflexivity|]. constructor. lia.
  - cbn [scan_chunks]. destruct (cursor <? _) eqn:Hc.
    + apply Z.ltb_lt in Hc.
      destruct (jsstring_eqb (substring webP cursor (cursor + 4)) str_VP8_) eqn:Hv.
      * apply jsstring_eqb_eq in Hv. eexists. split; [reflexivity|].
        apply Walk_VP8; assumption.
      * apply jsstring_eqb_neq in Hv.
        pose proof (next_chunk_advances webP cursor) as Hadv.
        destruct (jsstring_eqb (substring webP cursor (cursor + 4)) str_ALPH) eqn:Ha.
        -- apply jsstring_eqb_eq in Ha.
           destruct (IH webP (next_chunk webP cursor) true) as [r [Hr Hw]]; [lia|].
           exists r. split; [exact Hr|]. apply Walk_ALPH; assumption.
        -- apply jsstring_eqb_neq in Ha.
           destruct (IH webP (next_chunk webP cursor) alpha) as [r [Hr Hw]]; [lia|].
           exists r. split; [exact Hr|]. apply Walk_skip; assumption.
    + apply Z.ltb_ge in Hc. eexists. split; [reflexivity|]. constructor. lia.
Qed.

(** The walk has one result. *)
Lemma Walk_functional webP cursor alpha r1 r2 :
  Walk webP cursor alpha r1 -> Walk webP cursor alpha r2 -> r1 = r2.
Proof.
  intros H1. revert r2.
  induction H1 as [c a Hend|c a Hlt Hv|c a r Hlt Ha Hw IH|c a r Hlt Hv Ha Hw IH];
    intros r2 H2; inversion H2; subst; try lia; try congruence; auto;
    exfalso; unfold str_ALPH, str_VP8_ in *; congruence.
Qed.
End WebP.

(** C5, as stated, fails where the first chunk does not begin with "VP8":
    the scan starts at the first "VP8" found from byte 12 on, not at byte
    12, so an "ALPH" chunk that stands before it is never read. After the
    twelve bytes of header, the chunks "ALPH" (two bytes) and "VP8 " (two
    bytes) give [hasAlpha = false], where a scan from byte 12 gives
    [true]. *)
Lemma extract_skips_leading_ALPH :
  let webP := [82; 73; 70; 70; 0; 0; 0; 0; 87; 69; 66; 80]
              ++ str_ALPH ++ [2; 0; 0; 0; 7; 7]
              ++ str_VP8_ ++ [2; 0; 0; 0; 1; 2] in
  extractKeyframeFromWebP webP = Ok (mkKeyframe [1; 2] false) /\
  extract_from_byte_12 webP = Ok (mkKeyframe [1; 2] true) /\
  extractKeyframeFromWebP webP <> extract_from_byte_12 webP.
Proof.
  split; [vm_compute; reflexivity|]. split; [vm_compute; reflexivity|].
  vm_compute. discriminate.
Qed.

(** C5, amended. For every string, the extractor fails with BadWebP when
    "VP8" does not occur at or after byte 12; otherwise it scans 8-byte
    chunk headers (FourCC, then a little-endian u32 length) from the first
    such occurrence, which is byte 12 when the first chunk begins with
    "VP8", for as long as the cursor is below [length - 8]: on a "VP8 "
    chunk it returns the payload, cut at the end of the input, with
    [hasAlpha] true iff an "ALPH" chunk was met on the way; any other chunk
    is skipped by its length plus one padding byte when the length is odd;
    when the headers run out it fails with BadWebP. *)
Theorem extractKeyframeFromWebP_spec (webP : jsstring) :
  ((forall j, (12 <= j)%nat -> take 3 (drop j webP) <> str_VP8) /\
   extractKeyframeFromWebP webP = Err BadWebP) \/
  (exists c,
     first_VP8_at webP 12 c /\
     (take 3 (drop 12 webP) = str_VP8 -> c = 12%nat) /\
     Walk webP (Z.of_nat c) false (extractKeyframeFromWebP webP) /\
     forall r, Walk webP (Z.of_nat c) false r -> extractKeyframeFromWebP webP = r).
Proof.
  unfold extractKeyframeFromWebP.
  destruct (indexOf webP str_VP8 12) as [c|] eqn:Hi.
  - right. exists c. pose proof (indexOf_VP8_Some _ _ Hi) as Hfirst.
    split; [exact Hfirst|]. split.
    + intros H12. destruct Hfirst as [Hle [_ Hmin]].
      destruct (decide (c = 12%nat)) as [|Hne]; [assumption|].
      exfalso. apply (Hmin 12%nat); [lia | exact H12].
    + destruct (scan_chunks_total (length webP) webP (Z.of_nat c) false)
        as [r [Hr Hw]]; [lia|].
      rewrite Hr. split; [exact Hw|].
      intros r' Hw'. eapply Walk_functional; eassumption.
  - left. split; [|reflexivity]. apply indexOf_VP8_None. exact Hi.
Qed.

(** ** The byte stream writer *)

Section StreamFacts.
Implicit Types (s : Stream) (bs : list Z) (p n i : nat).

Lemma writeBytes_pos bs : forall s, s_pos (writeBytes s bs) = (s_pos s + length bs)%nat.
Proof.
  unfold writeBytes. induction bs as [|b bs IH]; intros s; simpl; [lia|].
  rewrite IH. simpl. lia.
Qed.

Lemma writeBytes_length bs : forall s,
  length (s_data (writeBytes s bs)) = length (s_data s).
Proof.
  unfold writeBytes. induction bs as [|b bs IH]; intros s; simpl; [reflexivity|].
  rewrite IH. simpl. apply length_insert.
Qed.

(** The bytes written are where the cursor was, the others stay. *)
Lemma writeBytes_lookup bs : forall s i,
  s_data (writeBytes s bs) !! i =
    if decide (s_pos s <= i < s_pos s + length bs /\ i < length (s_data s))%nat
    then bs !! (i - s_pos s)%nat
    else s_data s !! i.
Proof.
  unfold writeBytes. induction bs as [|b bs IH]; intros s i; simpl.
  - case_decide; [lia | reflexivity].
  - rewrite IH. simpl. rewrite length_insert.
    destruct (decide (i = s_pos s)) as [->|Hne].
    + case_decide; [lia|]. case_decide.
      * rewrite Nat.sub_diag. simpl. apply list_lookup_insert_eq. lia.
      * rewrite list_insert_ge by lia. reflexivity.
    + rewrite list_lookup_insert_ne by done.
      repeat case_decide; try lia; try reflexivity.
      replace (i - s_pos s)%nat with (S (i - S (s_pos s))) by lia. reflexivity.
Qed.

Lemma writeBytes_below bs s p :
  (p <= s_pos s)%nat -> same_below p s (writeBytes s bs).
Proof.
  intros Hp. split; [apply writeBytes_length|].
  intros i Hi. rewrite writeBytes_lookup. case_decide; [lia | reflexivity].
Qed.

Lemma writeBytes_read bs s :
  (s_pos s + length bs <= length (s_data s))%nat ->
  stream_bytes (writeBytes s bs) (s_pos s) (length bs) = bs.
Proof.
  intros Hroom. unfold stream_bytes. apply list_eq. intros i.
  destruct (decide (i < length bs)%nat) as [Hi|Hi].
  - rewrite lookup_take_lt by lia. rewrite lookup_drop, writeBytes_lookup.
    case_decide; [|lia]. f_equal. lia.
  - rewrite lookup_take_ge by lia. symmetry. apply lookup_ge_None. lia.
Qed.

Lemma same_below_refl p s : same_below p s s.
Proof. split; auto. Qed.

Lemma same_below_trans p s1 s2 s3 :
  same_below p s1 s2 -> same_below p s2 s3 -> same_below p s1 s3.
Proof.
  intros [Hl1 H1] [Hl2 H2]. split; [congruence|].
  intros i Hi. rewrite H2, H1 by lia. reflexivity.
Qed.

Lemma same_below_le p q s s' : (p <= q)%nat -> same_below q s s' -> same_below p s s'.
Proof. intros Hpq [Hl H]. split; [exact Hl|]. intros i Hi. apply H. lia. Qed.

Lemma same_below_bytes p s s' q n :
  same_below p s s' -> (q + n <= p)%nat -> stream_bytes s' q n = stream_bytes s q n.
Proof.
  intros [Hl H] Hq. unfold stream_bytes. apply list_eq. intros i.
  destruct (decide (i < n)%nat) as [Hi|Hi].
  - rewrite !lookup_take_lt by lia. rewrite !lookup_drop. apply H. lia.
  - rewrite !lookup_take_ge by lia. reflexivity.
Qed.

Lemma length_bytesBE w (z : Z) : length (bytesBE w z) = w.
Proof. induction w as [|w IH]; simpl; [reflexivity|]. rewrite IH. reflexivity. Qed.

Lemma writeEBMLVarInt_Ok s (z : Z) s' :
  writeEBMLVarInt s z = Ok s' ->
  exists w, measureEBMLVarInt z = Some w /\ s' = writeBytes s (ebmlVarIntBytes z w).
Proof.
  unfold writeEBMLVarInt. destruct (measureEBMLVarInt z) as [w|]; [|discriminate].
  intros H. injection H as <-. exists w. split; reflexivity.
Qed.
End StreamFacts.

(** ** The EBML serializer *)

Section EBMLInduction.
Variable P : EBML -> Prop.
Hypothesis HArray : forall items, Forall P items -> P (EArray items).
Hypothesis HString : forall s, P (EString s).
Hypothesis HUint8Array : forall bs, P (EUint8Array bs).
Hypothesis HList : forall hd children, Forall P children -> P (EList hd children).
Hypothesis HLeaf : forall hd data, P (ELeaf hd data).

Fixpoint EBML_ind (t : EBML) : P t :=
  let all :=
    fix all (l : list EBML) : Forall P l :=
      match l with
      | [] => List.Forall_nil P
      | x :: r => List.Forall_cons P x r (EBML_ind x) (all r)
      end in
  match t with
  | EArray items => HArray items (all items)
  | EString s => HString s
  | EUint8Array bs => HUint8Array bs
  | EList hd children => HList hd children (all children)
  | ELeaf hd data => HLeaf hd data
  end.
End EBMLInduction.

Section Serializer.
Implicit Types (b buffer : Stream) (off : Z) (t : EBML) (items : list EBML).

(** The local loop of [writeEBML] is [writeEBML_all]. *)
Lemma writeEBML_EArray buffer off items :
  writeEBML buffer off (EArray items) =
    rbind (writeEBML_all buffer off items) (fun r => Ok (fst r, EArray (snd r))).
Proof.
  cbn [writeEBML].
  match goal with |- rbind (?f buffer items) _ = _ =>
    assert (Hall : forall l b, f b l = writeEBML_all b off l) end.
  { induction l as [|x l IH]; intros b; [reflexivity|].
    cbn [writeEBML_all].
    destruct (writeEBML b off x) as [[b1 x']|e]; [|reflexivity].
    cbn [rbind]. rewrite IH. reflexivity. }
  rewrite Hall. destruct (writeEBML_all buffer off items) as [[b1 items']|e]; reflexivity.
Qed.

Lemma writeEBML_EList buffer off hd children :
  writeEBML buffer off (EList hd children) =
    if id hd =? 0 then Err BadEbmlDatatype
    else
      let hd1 := set_offset hd (Z.of_nat (s_pos buffer) + off) in
      let b1 := writeUnsignedIntBE buffer (id hd) None in
      let b2 := writePlaceholder b1 hd1 in
      let hd2 := set_dataOffset hd1 (Z.of_nat (s_pos b2) + off) in
      rbind (writeEBML_all b2 off children) (fun r =>
        if negb (size_is hd2 EBML_SIZE_UNKNOWN)
           && negb (size_is hd2 EBML_SIZE_UNKNOWN_5_BYTES)
        then
          let payload := Z.of_nat (s_pos (fst r)) - Z.of_nat (s_pos b2) in
          let b4 := writeEBMLVarIntWidth (streamSeek (fst r) (s_pos b1)) payload 4 in
          Ok (streamSeek b4 (s_pos (fst r)), EList (set_size hd2 payload) (snd r))
        else Ok (fst r, EList hd2 (snd r))).
Proof.
  cbn [writeEBML]. destruct (id hd =? 0); [reflexivity|].
  match goal with |- rbind (?f ?b2 children) _ = _ =>
    assert (Hall : forall l b, f b l = writeEBML_all b off l) end.
  { induction l as [|x l IH]; intros b; [reflexivity|].
    cbn [writeEBML_all].
    destruct (writeEBML b off x) as [[b1 x']|e]; [|reflexivity].
    cbn [rbind]. rewrite IH. reflexivity. }
  rewrite Hall. cbv zeta.
  destruct (writeEBML_all _ off children) as [[b3 children']|e]; reflexivity.
Qed.
End Serializer.

Section SerializerFrame.
Implicit Types (b buffer : Stream) (off : Z) (t : EBML) (items : list EBML).

Lemma advances_refl b : advances b b.
Proof. split; [lia | apply same_below_refl]. Qed.

Lemma advances_trans b1 b2 b3 : advances b1 b2 -> advances b2 b3 -> advances b1 b3.
Proof.
  intros [Hp1 Hs1] [Hp2 Hs2]. split; [lia|].
  eapply same_below_trans; [exact Hs1|]. eapply same_below_le; [|exact Hs2]. lia.
Qed.

Lemma writeBytes_advances b bs : advances b (writeBytes b bs).
Proof. split; [rewrite writeBytes_pos; lia | apply writeBytes_below; lia]. Qed.

Lemma writePlaceholder_advances b hd : advances b (writePlaceholder b hd).
Proof.
  unfold writePlaceholder.
  destruct (size_is hd EBML_SIZE_UNKNOWN);
    [apply (writeBytes_advances b [0xFF])|].
  destruct (size_is hd EBML_SIZE_UNKNOWN_5_BYTES); apply writeBytes_advances.
Qed.

Lemma writeLeaf_advances b off hd data b' hd' :
  writeLeaf b off hd data = Ok (b', hd') -> advances b b'.
Proof.
  unfold writeLeaf.
  destruct data as [s|n|bits|bits|bs|]; try discriminate;
    match goal with |- rbind (writeEBMLVarInt b ?z) _ = _ -> _ =>
      destruct (writeEBMLVarInt b z) as [b1|e] eqn:Hv; [|discriminate] end;
    apply writeEBMLVarInt_Ok in Hv as [w [_ ->]];
    cbn [rbind]; intros H; injection H as <- _;
    (eapply advances_trans; [apply writeBytes_advances|]);
    apply writeBytes_advances.
Qed.

Lemma writeEBML_all_advances off items :
  Forall (fun t => forall buffer b' t',
            writeEBML buffer off t = Ok (b', t') -> advances buffer b') items ->
  forall buffer b' items',
    writeEBML_all buffer off items = Ok (b', items') -> advances buffer b'.
Proof.
  induction 1 as [|t items Ht Hall IH]; intros buffer b' items'; cbn [writeEBML_all].
  - intros H. injection H as <- _. apply advances_refl.
  - destruct (writeEBML buffer off t) as [[b1 t1]|e] eqn:H1; [|discriminate].
    cbn [rbind].
    destruct (writeEBML_all b1 off items) as [[b2 r2]|e] eqn:H2; [|discriminate].
    cbn [rbind]. intros H. injection H as <- _.
    eapply advances_trans; [eapply Ht; exact H1 | eapply IH; exact H2].
Qed.

(** [writeEBML] writes from the cursor on: what the stream held before the
    cursor is kept, also by the patches of the size fields. *)
Lemma writeEBML_advances off t : forall buffer b' t',
  writeEBML buffer off t = Ok (b', t') -> advances buffer b'.
Proof.
  induction t as [items IH|s|bs|hd children IH|hd data] using EBML_ind;
    intros buffer b' t'.
  - rewrite writeEBML_EArray.
    destruct (writeEBML_all buffer off items) as [[b1 r1]|e] eqn:H1; [|discriminate].
    cbn [rbind fst snd]. intros H. injection H as <- _.
    eapply writeEBML_all_advances; eassumption.
  - cbn [writeEBML]. intros H. injection H as <- _. apply writeBytes_advances.
  - cbn [writeEBML]. intros H. injection H as <- _. apply writeBytes_advances.
  - rewrite writeEBML_EList. destruct (id hd =? 0); [discriminate|]. cbv zeta.
    set (b1 := writeUnsignedIntBE buffer (id hd) None).
    set (hd1 := set_offset hd _).
    set (b2 := writePlaceholder b1 hd1).
    assert (H01 : advances buffer b1) by apply writeBytes_advances.
    assert (H12 : advances b1 b2) by apply writePlaceholder_advances.
    destruct (writeEBML_all b2 off children) as [[b3 r3]|e] eqn:H3; [|discriminate].
    cbn [rbind fst snd].
    assert (H23 : advances b2 b3) by (eapply writeEBML_all_advances; eassumption).
    assert (H03 : advances buffer b3)
      by (eapply advances_trans; [|exact H23]; eapply advances_trans; eassumption).
    destruct (_ && _); intros H; injection H as <- _; [|exact H03].
    destruct H03 as [Hp Hs]. split; [simpl; lia|]. simpl.
    eapply same_below_trans; [exact Hs|].
    destruct (writeBytes_below (ebmlVarIntBytes (Z.of_nat (s_pos b3) - Z.of_nat (s_pos b2)) 4)
                (streamSeek b3 (s_pos b1)) (s_pos buffer)) as [Hl Hlk].
    { simpl. destruct H01. lia. }
    split; [exact Hl | exact Hlk].
  - cbn [writeEBML]. destruct (id hd =? 0); [discriminate|].
    destruct (writeLeaf _ off _ data) as [[b2 hd2]|e] eqn:H2; [|discriminate].
    cbn [rbind]. intros H. injection H as <- _.
    eapply advances_trans; [apply writeBytes_advances|].
    eapply writeLeaf_advances. exact H2.
Qed.
End SerializerFrame.

Section ElementLayout.
Implicit Types (b buffer : Stream) (off : Z) (hd : Header).

Lemma size_is_set_offset hd o c : size_is (set_offset hd o) c = size_is hd c.
Proof. reflexivity. Qed.

Lemma size_is_set_dataOffset hd o c : size_is (set_dataOffset hd o) c = size_is hd c.
Proof. reflexivity. Qed.

End ElementLayout.

(** ** The layout of an element *)




(** ** The muxer: construction *)

(** C8, as stated, fails when both settings are given: the constructor
    only asks for one of them and lets [frameDuration] win. *)
Lemma WebMWriter_both_timings :
  exists m,
    WebMWriter []
      (mkOptions (95 # 100) false None false false (Some 40%Q) (Some 30%Q)) = Ok m /\
    frameDuration (options m) = Some 40%Q.
Proof. eexists. split; reflexivity. Qed.

(** C8, amended. Construction succeeds iff at least one of [frameDuration]
    and [frameRate] is set to a number other than zero, and fails with
    MissingFrameTiming otherwise; a [frameDuration] that is set is kept,
    whatever [frameRate] is, and when only [frameRate] is set
    [frameDuration] becomes [1000 / frameRate]. *)
Theorem WebMWriter_timing (h : Heap) (o : Options) :
  (is_ok (WebMWriter h o)
     = option_truthy (frameDuration o) || option_truthy (frameRate o)) /\
  (option_truthy (frameDuration o) || option_truthy (frameRate o) = false ->
     WebMWriter h o = Err MissingFrameTiming) /\
  (forall m, WebMWriter h o = Ok m ->
     if option_truthy (frameDuration o)
     then frameDuration (options m) = frameDuration o
     else exists rate, frameRate o = Some rate /\
            frameDuration (options m) = Some (1000 / rate)%Q).
Proof.
  unfold WebMWriter, validateOptions.
  destruct (option_truthy (frameDuration o)) eqn:Hd; simpl.
  - repeat split; try discriminate.
    intros m H. injection H as <-. reflexivity.
  - destruct (frameRate o) as [rate|] eqn:Hr; simpl.
    + destruct (Q_truthy rate) eqn:Ht; simpl.
      * repeat split; try discriminate.
        intros m H. injection H as <-. exists rate. split; reflexivity.
      * repeat split; discriminate.
    + repeat split; discriminate.
Qed.

(** ** The muxer: after [complete] *)


(** ** The sink under the muxer *)

Section SinkShape.
Implicit Types (h : Heap) (b : BlobBuffer) (d : Data).

(** An accepted write keeps the chunks where they are, and adds at most
    one at the end of the list. *)
Lemma write_accepted h b d :
  sink_inv h b -> writePromise b = None -> byte_exact h d ->
  (forall id, data_buffer d = Some id -> id ∉ buffers_of (buffer b)) ->
  let len := Z.of_nat (length (data_bytes h d)) in
  (exists h' buf',
     write h b d = (h', after_write b buf' None len, None) /\
     step_ok h b d h' buf' /\
     (shape buf' = shape (buffer b) \/
      shape buf' = shape (buffer b) ++ [(pos b, len)]) /\
     (pos b < length_ b -> pos b + len <= length_ b)) \/
  write h b d =
    (h, after_write b (buffer b) (Some OverwriteCrossesBlobBoundaries) len, None).
Proof.
  intros Hinv Hchain Hexact Hfresh len. subst len.
  pose proof (inv_pos _ _ Hinv) as Hpos.
  destruct (write_cases h b d Hinv Hchain Hexact Hfresh)
    as [[Happ [Hw Hs]]|[[_ [Hz [Hin [Hw Hs]]]]|[[_ Hhit]|[_ [_ Hw]]]]].
  - left. eexists _, _. split; [exact Hw|]. split; [exact Hs|]. split; [|lia].
    right. unfold shape. rewrite fmap_app. reflexivity.
  - left. eexists _, _. split; [exact Hw|]. split; [exact Hs|]. split; [|lia].
    right. unfold shape. rewrite fmap_app. reflexivity.
  - destruct Hhit as [pre [e [post [h' [e' [Hbuf [Hc [_ [Ho [Hl [_ [_ [Hw Hs]]]]]]]]]]]]].
    left. eexists _, _. split; [exact Hw|]. split; [exact Hs|]. split.
    + left. rewrite Hbuf. apply shape_app_cons; assumption.
    + intros _. apply (in_one_chunk_fits h b d Hinv); [lia|].
      exists e. split; [|exact Hc]. rewrite Hbuf, !elem_of_app.
      right. left. apply list_elem_of_singleton. reflexivity.
  - right. exact Hw.
Qed.

(** Allocating a buffer does not disturb a sink. *)
Lemma sink_inv_alloc h b bs :
  sink_inv h b -> sink_inv (h ++ [bs]) b /\ image (h ++ [bs]) (buffer b) = image h (buffer b).
Proof.
  intros Hinv. destruct Hinv as [Hd Hp Ht He Hz Ho Hn].
  destruct (tiles_frame h (h ++ [bs]) 0 (buffer b)) as [Ht' Him]; auto.
  - rewrite length_app. lia.
  - intros id Hid. apply lookup_app_l. eapply tiles_alloc; eassumption.
  - split; [constructor; assumption | exact Him].
Qed.
End SinkShape.

Section MuxerSink.
Implicit Types (m : Muxer) (s : Stream).

Lemma take_length_take {A} (p : nat) (l : list A) :
  take (length (take p l)) l = take p l.
Proof.
  rewrite length_take. destruct (decide (p <= length l)%nat).
  - rewrite Nat.min_l by lia. reflexivity.
  - rewrite Nat.min_r by lia. rewrite !take_ge by lia. reflexivity.
Qed.

(** [blobBuffer.write(stream.getAsDataArray())] when the chain is still
    fulfilled afterwards: the bytes of the stream are in the file at the
    cursor, and the chunks are where they were. *)
Lemma blob_write_spec m s m' :
  sink_inv (heap m) (blobBuffer m) -> blob_write m s = Ok m' -> chain_ok m' ->
  let bytes := getAsDataArray s in
  let n := Z.of_nat (length bytes) in
  let bb := blobBuffer m in
  chain_ok m /\ same_fields m m' /\
  sink_inv (heap m') (blobBuffer m') /\
  0 < n /\
  pos (blobBuffer m') = pos bb + n /\
  length_ (blobBuffer m') = Z.max (length_ bb) (pos bb + n) /\
  (pos bb < length_ bb -> pos bb + n <= length_ bb) /\
  mux_image m' = splice (mux_image m) (Z.to_nat (pos bb)) bytes /\
  (shape (buffer (blobBuffer m')) = shape (buffer bb) \/
   shape (buffer (blobBuffer m')) = shape (buffer bb) ++ [(pos bb, n)]).
Proof.
  intros Hinv Hw Hok. cbv zeta. unfold blob_write, heap_alloc in Hw.
  remember (heap m ++ [s_data s]) as h1 eqn:Hh1.
  remember (DUint8Array (mkView (length (heap m)) 0 (length (getAsDataArray s))))
    as d eqn:Hd.
  destruct (sink_inv_alloc _ _ (s_data s) Hinv) as [Hinv1 Him1].
  rewrite <- Hh1 in Hinv1, Him1.
  assert (Hbytes : data_bytes h1 d = getAsDataArray s).
  { subst d h1. simpl. unfold view_bytes. simpl.
    rewrite heap_buffer_alloc, drop_0. apply take_length_take. }
  assert (Hmeasure : measureData h1 d =
            if (length (getAsDataArray s) =? 0)%nat then Err MeasureUnknownLength
            else Ok (Z.of_nat (length (getAsDataArray s)))).
  { subst d. unfold measureData. simpl.
    destruct (length (getAsDataArray s)); reflexivity. }
  assert (Hdb : data_buffer d = Some (length (heap m))) by (subst d; reflexivity).
  clear Hd Hh1.
  destruct (writePromise (blobBuffer m)) as [e|] eqn:Hchain.
  { exfalso. unfold write in Hw. rewrite Hchain in Hw.
    destruct (measureData h1 d) as [len|e']; [|discriminate].
    injection Hw as <-. unfold chain_ok in Hok. simpl in Hok. discriminate. }
  destruct (length (getAsDataArray s) =? 0)%nat eqn:Hz.
  { exfalso. unfold write in Hw. rewrite Hmeasure in Hw. discriminate. }
  apply Nat.eqb_neq in Hz.
  assert (Hexact : byte_exact h1 d) by (unfold byte_exact; rewrite Hbytes; exact Hmeasure).
  assert (Hfresh : forall id, data_buffer d = Some id ->
                     id ∉ buffers_of (buffer (blobBuffer m))).
  { intros id Hid Hin. rewrite Hdb in Hid. injection Hid as <-.
    pose proof (tiles_alloc _ _ _ _ (inv_tiles _ _ Hinv) Hin). lia. }
  pose proof (write_accepted h1 (blobBuffer m) d Hinv1 Hchain Hexact Hfresh) as Hacc.
  cbv zeta in Hacc. rewrite Hbytes in Hacc.
  destruct Hacc as [[h' [buf' [Hw' [Hstep [Hshape Hfit]]]]]|Hw']; rewrite Hw' in Hw.
  - injection Hw as <-.
    pose proof (step_inv h1 (blobBuffer m) d Hinv1 h' buf' Hstep) as Hinv'.
    rewrite Hbytes in Hinv'.
    destruct Hstep as [_ [_ [_ [_ [_ [Him _]]]]]]. rewrite Hbytes, Him1 in Him.
    split; [exact Hchain|]. split; [repeat split|].
    split; [exact Hinv'|]. split; [lia|]. split; [reflexivity|]. split; [reflexivity|].
    split; [exact Hfit|]. split; [exact Him | exact Hshape].
  - injection Hw as <-. unfold chain_ok in Hok. simpl in Hok. discriminate.
Qed.

Lemma blob_seek_spec m off m' :
  blob_seek m off = Ok m' ->
  0 <= off <= length_ (blobBuffer m) /\ same_fields m m' /\ heap m' = heap m /\
  blobBuffer m' = mkBlobBuffer (buffer (blobBuffer m)) (writePromise (blobBuffer m))
                    (dest (blobBuffer m)) off (length_ (blobBuffer m)).
Proof.
  unfold blob_seek.
  destruct (seek (blobBuffer m) (JNum off)) as [bb [e|]] eqn:Hs; [discriminate|].
  intros H. injection H as <-.
  destruct (seek_accepted _ _ _ Hs) as [n [Hn [Hr ->]]]. injection Hn as <-.
  split; [exact Hr|]. split; [repeat split|]. split; reflexivity.
Qed.
End MuxerSink.

Section MuxerInvariant.
Implicit Types (m : Muxer) (s : Stream).

Lemma header_chunk_bound h bb len0 :
  sink_inv h bb -> header_chunk bb len0 -> len0 <> 0 -> len0 <= length_ bb.
Proof.
  intros Hinv [rest Hs] Hnz. destruct (buffer bb) as [|e0 buf] eqn:Hb; [discriminate|].
  unfold shape in Hs. rewrite fmap_cons in Hs. injection Hs as Ho Hl _.
  destruct (tiles_bounds _ _ _ e0 (inv_tiles _ _ Hinv)) as [_ Hbd].
  { rewrite Hb. apply elem_of_cons. auto. }
  rewrite (inv_extent _ _ Hinv) in Hbd. specialize (Hbd ltac:(lia)). lia.
Qed.

Lemma header_chunk_shape bb bb' len0 x :
  shape (buffer bb') = shape (buffer bb) \/ shape (buffer bb') = shape (buffer bb) ++ [x] ->
  header_chunk bb len0 -> header_chunk bb' len0.
Proof.
  intros [Hs|Hs] [rest Hh]; rewrite Hh in Hs.
  - exists rest. exact Hs.
  - exists (rest ++ [x]). exact Hs.
Qed.

Lemma mux_inv_transfer m m' :
  mux_inv m -> writtenHeader m = true -> writtenHeader m' = true ->
  ebmlSegment m' = ebmlSegment m -> segmentDuration m' = segmentDuration m ->
  seekHead_header (seekHead m') = seekHead_header (seekHead m) ->
  sink_inv (heap m') (blobBuffer m') ->
  pos (blobBuffer m') = length_ (blobBuffer m') ->
  (forall len0, header_chunk (blobBuffer m) len0 -> header_chunk (blobBuffer m') len0) ->
  mux_inv m'.
Proof.
  intros Hinv Hw Hw' Hseg Hdur Hsh Hsink Hend Hchunk.
  constructor; try assumption.
  - intros Hf. congruence.
  - intros _. destruct (mi_header _ Hinv Hw)
      as [len0 [seg [Hc [Hlen [Hs [Hid [Ho [Hd [Hdd Hshd]]]]]]]]].
    exists len0, seg. rewrite Hseg, Hdur, Hsh. auto 10.
Qed.

(** A write at the end of the file. *)
Lemma mux_inv_append m s m' :
  mux_inv m -> writtenHeader m = true ->
  blob_write m s = Ok m' -> chain_ok m' ->
  mux_inv m' /\ chain_ok m /\ same_fields m m' /\
  mux_image m' = mux_image m ++ getAsDataArray s.
Proof.
  intros Hinv Hw Hwr Hok.
  destruct (blob_write_spec m s m' (mi_sink _ Hinv) Hwr Hok)
    as [Hc [Hsame [Hsink [Hn [Hpos [Hlen [_ [Him Hshape]]]]]]]].
  pose proof (mi_end _ Hinv) as Hend.
  destruct Hsame as [Ho [Hh [Hb [Hst [Hdu [Hseg [Hdur [Hsh Hcu]]]]]]]].
  split; [|split; [exact Hc|split; [repeat split; assumption|]]].
  - apply (mux_inv_transfer m m'); try assumption; try congruence.
    + lia.
    + intros len0. eapply header_chunk_shape. exact Hshape.
  - rewrite Him.
    pose proof (length_image _ _ _ (inv_tiles _ _ (mi_sink _ Hinv))) as Hl.
    rewrite (inv_extent _ _ (mi_sink _ Hinv)) in Hl.
    replace (Z.to_nat (pos (blobBuffer m))) with (length (mux_image m))
      by (unfold mux_image; lia).
    apply splice_end.
Qed.

(** A patch inside the header chunk. *)
Lemma mux_inv_patch m off s m' :
  mux_inv m -> writtenHeader m = true ->
  (forall len0, header_chunk (blobBuffer m) len0 -> 0 <= off < len0) ->
  patch m off s = Ok m' -> chain_ok m' ->
  mux_inv m' /\ chain_ok m /\ same_fields m m' /\
  length_ (blobBuffer m') = length_ (blobBuffer m) /\
  off + Z.of_nat (length (getAsDataArray s)) <= length_ (blobBuffer m) /\
  mux_image m' = splice (mux_image m) (Z.to_nat off) (getAsDataArray s).
Proof.
  intros Hinv Hw Hoff Hp Hok. unfold patch in Hp.
  destruct (mi_header _ Hinv Hw) as [len0 [seg [Hc [Hlen0 _]]]].
  pose proof (Hoff len0 Hc) as Hoff0.
  pose proof (header_chunk_bound _ _ _ (mi_sink _ Hinv) Hc ltac:(lia)) as Hbound.
  pose proof (mi_end _ Hinv) as Hend.
  destruct (blob_seek m off) as [m1|e] eqn:H1; [|discriminate]. cbn [rbind] in Hp.
  destruct (blob_write m1 s) as [m2|e] eqn:H2; [|discriminate]. cbn [rbind] in Hp.
  destruct (blob_seek_spec _ _ _ H1) as [_ [Hs1 [Hh1 Hb1]]].
  destruct (blob_seek_spec _ _ _ Hp) as [_ [Hs3 [Hh3 Hb3]]].
  assert (Hok2 : chain_ok m2).
  { unfold chain_ok in *. rewrite Hb3 in Hok. exact Hok. }
  assert (Hsink1 : sink_inv (heap m1) (blobBuffer m1)).
  { rewrite Hh1, Hb1. destruct (mi_sink _ Hinv). constructor; simpl; auto. lia. }
  destruct (blob_write_spec m1 s m2 Hsink1 H2 Hok2)
    as [Hc1 [Hs2 [Hsink2 [Hn [Hpos2 [Hlen2 [Hfit [Him Hshape]]]]]]]].
  unfold mux_image in Him.
  rewrite Hb1 in Hpos2, Hlen2, Hfit, Him, Hshape. simpl in Hpos2, Hlen2, Hfit, Him, Hshape.
  specialize (Hfit ltac:(lia)).
  assert (Hlen' : length_ (blobBuffer m2) = length_ (blobBuffer m)) by lia.
  assert (Hsame : same_fields m m').
  { destruct Hs1 as [? [? [? [? [? [? [? [? ?]]]]]]]].
    destruct Hs2 as [? [? [? [? [? [? [? [? ?]]]]]]]].
    destruct Hs3 as [? [? [? [? [? [? [? [? ?]]]]]]]].
    repeat split; congruence. }
  destruct Hsame as [Ho' [Hh' [Hb' [Hst' [Hdu' [Hseg' [Hdur' [Hsh' Hcu']]]]]]]].
  split; [|split; [|split; [repeat split; assumption|]]].
  - apply (mux_inv_transfer m m'); try assumption; try congruence.
    + rewrite Hh3, Hb3. destruct Hsink2. constructor; simpl; auto. lia.
    + rewrite Hb3. simpl. lia.
    + intros l0 Hl0. rewrite Hb3. destruct Hl0 as [rest Hr].
      destruct Hshape as [Hsh2|Hsh2]; rewrite Hr in Hsh2;
        eexists; simpl; exact Hsh2.
  - unfold chain_ok in *. rewrite Hb1 in Hc1. exact Hc1.
  - rewrite Hb3. simpl. split; [exact Hlen'|]. split; [exact Hfit|].
    unfold mux_image in *. rewrite Hh3, Hb3. simpl.
    rewrite Hh1 in Him. exact Him.
Qed.
End MuxerInvariant.

Section MuxerSteps.
Implicit Types (m : Muxer).

Lemma seekHead_header_set_seekPoint sh k v :
  seekHead_header (Some (set_seekPoint sh k v)) = seekHead_header (Some sh).
Proof. destruct sh; reflexivity. Qed.

(** A muxer that differs from [m1] in fields the invariant does not read. *)
Lemma mux_inv_fields m1 m' :
  mux_inv m1 -> writtenHeader m1 = true ->
  heap m' = heap m1 -> blobBuffer m' = blobBuffer m1 ->
  writtenHeader m' = true -> ebmlSegment m' = ebmlSegment m1 ->
  segmentDuration m' = segmentDuration m1 ->
  seekHead_header (seekHead m') = seekHead_header (seekHead m1) ->
  mux_inv m'.
Proof.
  intros Hinv Hw Hh Hb Hw' Hseg Hdur Hsh.
  apply (mux_inv_transfer m1 m'); try assumption.
  - rewrite Hh, Hb. apply (mi_sink _ Hinv).
  - rewrite Hb. apply (mi_end _ Hinv).
  - intros len0. rewrite Hb. auto.
Qed.

Lemma flush_inv m m' :
  mux_inv m -> writtenHeader m = true ->
  flushClusterFrameBuffer m = Ok m' -> chain_ok m' ->
  mux_inv m' /\ chain_ok m /\ writtenHeader m' = true.
Proof.
  intros Hinv Hw. unfold flushClusterFrameBuffer.
  destruct (clusterFrameBuffer m) as [|f frames].
  { intros H Hok. injection H as <-. auto. }
  destruct (mapM createContainerForKeyframe (f :: frames)) as [blocks|e];
    [|discriminate]. cbn [rbind].
  destruct (writeEBML _ _ _) as [[buffer' cluster']|e]; [|discriminate]. cbn [rbind].
  destruct (blob_write m buffer') as [m1|e] eqn:Hwr; [|discriminate]. cbn [rbind].
  unfold addCuePoint.
  destruct (fileOffsetToSegmentRelative m1 _) as [p|e]; [|discriminate]. cbn [rbind].
  intros H Hok. injection H as <-.
  assert (Hok1 : chain_ok m1) by exact Hok.
  destruct (mux_inv_append m buffer' m1 Hinv Hw Hwr Hok1)
    as [Hinv1 [Hc [Hsame _]]].
  destruct Hsame as [_ [Hh _]].
  split; [|split; [exact Hc|simpl; congruence]].
  apply (mux_inv_fields m1); try reflexivity; try assumption; simpl; congruence.
Qed.

Lemma writeCues_inv m m' :
  mux_inv m -> writtenHeader m = true ->
  writeCues m = Ok m' -> chain_ok m' ->
  mux_inv m' /\ chain_ok m /\ writtenHeader m' = true.
Proof.
  intros Hinv Hw. unfold writeCues.
  destruct (writeEBML _ _ _) as [[cuesBuffer' ebml']|e]; [|discriminate]. cbn [rbind].
  destruct (blob_write (set_cues m (children_of ebml')) cuesBuffer') as [m1|e] eqn:Hwr;
    [|discriminate]. cbn [rbind].
  destruct (fileOffsetToSegmentRelative m1 _) as [p|e]; [|discriminate]. cbn [rbind].
  destruct (seekHead m1) as [sh|] eqn:Hsh; [|discriminate].
  intros H Hok. injection H as <-.
  assert (Hok1 : chain_ok m1) by exact Hok.
  assert (Hinv0 : mux_inv (set_cues m (children_of ebml')))
    by (apply (mux_inv_fields m); try reflexivity; assumption).
  destruct (mux_inv_append _ cuesBuffer' m1 Hinv0 Hw Hwr Hok1)
    as [Hinv1 [Hc [Hsame _]]].
  destruct Hsame as [_ [Hh _]]. simpl in Hh.
  split; [|split; [exact Hc|simpl; congruence]].
  apply (mux_inv_fields m1); try reflexivity; try assumption; try (simpl; congruence).
  simpl. rewrite Hsh. apply seekHead_header_set_seekPoint.
Qed.

Lemma rewriteDuration_inv m m' :
  mux_inv m -> writtenHeader m = true ->
  rewriteDuration m = Ok m' -> chain_ok m' ->
  mux_inv m' /\ chain_ok m /\ writtenHeader m' = true.
Proof.
  intros Hinv Hw. unfold rewriteDuration.
  destruct (dataOffset (segmentDuration m)) as [dataOff|] eqn:Hd; [|discriminate].
  intros Hp Hok.
  destruct (mi_header _ Hinv Hw) as [len0 [seg [Hc [_ [_ [_ [_ [_ [Hdd _]]]]]]]]].
  change (patch m dataOff
            (writeDoubleBE (newStream 8) (double_bits (clusterStartTime m))) = Ok m') in Hp.
  assert (Hin : forall l0, header_chunk (blobBuffer m) l0 -> 0 <= dataOff < l0).
  { intros l0 [rest Hl0]. destruct Hc as [rest0 Hc0].
    rewrite Hc0 in Hl0. injection Hl0 as <- _. apply Hdd. exact Hd. }
  destruct (mux_inv_patch _ _ _ _ Hinv Hw Hin Hp Hok) as [Hinv' [Hc' [Hsame _]]].
  destruct Hsame as [_ [Hh _]]. split; [exact Hinv'|]. split; [exact Hc'|congruence].
Qed.

Lemma rewriteSeekHead_inv m m' :
  mux_inv m -> writtenHeader m = true ->
  rewriteSeekHead m = Ok m' -> chain_ok m' ->
  mux_inv m' /\ chain_ok m /\ writtenHeader m' = true.
Proof.
  intros Hinv Hw. unfold rewriteSeekHead.
  destruct (seekHead m) as [[| | |hd children|]|] eqn:Hsh; try discriminate.
  destruct (size hd) as [sz|]; [|discriminate].
  destruct (dataOffset hd) as [dataOff|] eqn:Hd; [|discriminate].
  destruct (writeEBML _ dataOff _) as [[seekHeadBuffer' children']|e]; [|discriminate].
  cbn [rbind]. intros Hp Hok.
  set (m0 := set_seekHead m (Some (EList hd (children_of_array children')))) in *.
  assert (Hinv0 : mux_inv m0).
  { apply (mux_inv_fields m); try reflexivity; try assumption.
    simpl. rewrite Hsh. reflexivity. }
  destruct (mi_header _ Hinv Hw) as [len0 [seg [Hc [_ [_ [_ [_ [_ [_ Hshd]]]]]]]]].
  change (patch m0 dataOff seekHeadBuffer' = Ok m') in Hp.
  assert (Hin : forall l0, header_chunk (blobBuffer m0) l0 -> 0 <= dataOff < l0).
  { intros l0 [rest Hl0]. destruct Hc as [rest0 Hc0]. simpl in Hl0.
    rewrite Hc0 in Hl0. injection Hl0 as <- _.
    apply (Hshd hd); [rewrite Hsh; reflexivity | exact Hd]. }
  destruct (mux_inv_patch _ _ _ _ Hinv0 Hw Hin Hp Hok) as [Hinv' [Hc' [Hsame _]]].
  destruct Hsame as [_ [Hh _]]. split; [exact Hinv'|].
  split; [exact Hc'|]. rewrite Hh. exact Hw.
Qed.
End MuxerSteps.

Section HeaderLayout.
Implicit Types (m : Muxer).

Ltac evaluate_in H t :=
  let v := eval vm_compute in t in
  replace t with v in H by (vm_compute; reflexivity).

Lemma rbind_Ok {A B} (a : A) (k : A -> result B) : rbind (Ok a) k = k a.
Proof. reflexivity. Qed.

Lemma writeEBML_all_cons b off x l :
  writeEBML_all b off (x :: l) =
    (do (b1, item') <- writeEBML b off x;
     do (b2, rest') <- writeEBML_all b1 off l;
     Ok (b2, item' :: rest')).
Proof. reflexivity. Qed.

Lemma writeEBML_all_nil b off : writeEBML_all b off [] = Ok (b, []).
Proof. reflexivity. Qed.

(** The objects [writeHeader] writes on a new file, with the fields the
    serializer fills in. *)
Lemma writeHeader_written m bs w :
  pos (blobBuffer m) = 0 -> segmentDuration m = element 0x4489 ->
  writeEBML (newStream 256) (pos (blobBuffer m)) (EArray [ebmlHeader; segment_of m])
    = Ok (bs, w) ->
  exists tH seg sh ih i1 i2 i3 dur dd tracks' shd shc,
    w = EArray [tH; EList seg [sh; EList ih [i1; i2; i3; ELeaf dur dd]; tracks']] /\
    (179 <= s_pos bs)%nat /\ length (s_data bs) = 256%nat /\
    id seg = 0x18538067 /\ offset seg = Some 39 /\ dataOffset seg = Some 48 /\
    dataOffset dur = Some 171 /\
    sh = EList shd shc /\ dataOffset shd = Some 56 /\
    offset ih = Some 119.
Proof.
  intros Hend Hdur Hw.
  rewrite Hend in Hw.
  rewrite writeEBML_EArray, writeEBML_all_cons in Hw.
  evaluate_in Hw (writeEBML (newStream 256) 0 ebmlHeader).
  rewrite rbind_Ok in Hw. cbv beta iota in Hw.
  rewrite writeEBML_all_cons in Hw.
  unfold segment_of in Hw. rewrite Hdur in Hw.
  rewrite writeEBML_EList in Hw. cbv zeta in Hw.
  match type of Hw with context [if ?c then _ else _] => evaluate_in Hw c end.
  cbv iota in Hw.
  match type of Hw with context [writePlaceholder ?b ?h] =>
    evaluate_in Hw (writePlaceholder b h) end.
  rewrite writeEBML_all_cons in Hw.
  match type of Hw with context [writeEBML ?b 0 createSeekHead] =>
    evaluate_in Hw (writeEBML b 0 createSeekHead) end.
  rewrite rbind_Ok in Hw. cbv beta iota in Hw.
  rewrite writeEBML_all_cons in Hw.
  match type of Hw with context [writeEBML ?b 0 (segmentInfo_of ?d)] =>
    evaluate_in Hw (writeEBML b 0 (segmentInfo_of d)) end.
  rewrite rbind_Ok in Hw. cbv beta iota in Hw.
  rewrite writeEBML_all_cons in Hw.
  match type of Hw with context [writeEBML ?b 0 (tracks_of m)] =>
    destruct (writeEBML b 0 (tracks_of m)) as [[b5 tracks']|e] eqn:H5;
      [|discriminate];
    pose proof (writeEBML_advances _ _ _ _ _ H5) as [Hp5 [Hl5 _]] end.
  clear H5. simpl in Hp5, Hl5.
  rewrite rbind_Ok in Hw. cbv beta iota in Hw.
  rewrite !writeEBML_all_nil in Hw.
  repeat (rewrite rbind_Ok in Hw; cbv beta iota in Hw).
  match type of Hw with context [if ?c then _ else _] => evaluate_in Hw c end.
  cbv iota in Hw.
  repeat (rewrite rbind_Ok in Hw; cbv beta iota in Hw).
  cbn [fst snd] in Hw.
  injection Hw as <- <-.
  do 12 eexists. split; [reflexivity|].
  split; [exact Hp5|]. split; [exact Hl5|].
  repeat split.
Qed.

(** [writeHeader] on a new file: the header becomes the first chunk, the
    Segment element starts at 39 and its payload at 48. *)
Lemma writeHeader_inv m m' :
  mux_inv m -> writtenHeader m = false ->
  writeHeader m = Ok m' -> chain_ok m' ->
  mux_inv m' /\ chain_ok m /\ writtenHeader m' = true.
Proof.
  intros Hinv Hnew Hw Hok.
  destruct (mi_new _ Hinv Hnew) as [Hbuf [Hlen Hdur]].
  pose proof (mi_end _ Hinv) as Hend. rewrite Hlen in Hend.
  let body := eval cbv beta zeta delta [writeHeader] in (writeHeader m) in
  assert (Hu : writeHeader m = body) by (unfold writeHeader; reflexivity).
  rewrite Hu in Hw. clear Hu.
  destruct (writeEBML (newStream 256) (pos (blobBuffer m))
              (EArray [ebmlHeader; segment_of m])) as [[bs w]|e] eqn:Hwritten;
    [|discriminate].
  rewrite rbind_Ok in Hw. cbv beta iota in Hw.
  destruct (writeHeader_written m bs w Hend Hdur Hwritten)
    as (tH & seg & sh & ih & i1 & i2 & i3 & dur & dd & tracks' & shd & shc &
        -> & Hp5 & Hl5 & Hid & Hoff & Hdoff & Hdurd & -> & Hshd & _).
  clear Hwritten.
  destruct (blob_write m bs) as [m1|e] eqn:Hwr; [|discriminate].
  rewrite rbind_Ok in Hw. cbv beta iota zeta in Hw.
  match type of Hw with context [rbind ?r] =>
    destruct r as [p1|e]; [|discriminate] end.
  rewrite rbind_Ok in Hw. cbv beta iota in Hw.
  match type of Hw with context [rbind ?r] =>
    destruct r as [p2|e]; [|discriminate] end.
  rewrite rbind_Ok in Hw. cbv beta iota in Hw.
  injection Hw as <-.
  assert (Hok1 : chain_ok m1) by exact Hok.
  destruct (blob_write_spec m bs m1 (mi_sink _ Hinv) Hwr Hok1)
    as [Hc [Hsame [Hsink [Hn [Hpos [Hlen1 [_ [_ Hshape]]]]]]]].
  rewrite Hend in Hpos, Hshape. rewrite Hend, Hlen in Hlen1. rewrite Hbuf in Hshape.
  set (n := Z.of_nat (length (getAsDataArray bs))) in *.
  assert (Hn179 : 179 <= n).
  { unfold n, getAsDataArray. rewrite length_take. lia. }
  assert (Hshape1 : shape (buffer (blobBuffer m1)) = [(0, n)]).
  { destruct Hshape as [Hs|Hs]; [|exact Hs]. exfalso.
    pose proof (inv_extent _ _ Hsink) as Hext.
    destruct (buffer (blobBuffer m1)); [simpl in Hext; lia | discriminate]. }
  clear Hok Hwr.
  split; [|split; [exact Hc | reflexivity]].
  constructor.
  - exact Hsink.
  - simpl. lia.
  - simpl. discriminate.
  - intros _. exists n, seg. simpl.
    split; [exists []; exact Hshape1|]. split; [lia|].
    split; [reflexivity|]. split; [exact Hid|]. split; [exact Hoff|].
    split; [exact Hdoff|]. split.
    + intros d Hd. rewrite Hdurd in Hd. injection Hd as <-. lia.
    + intros hd d Hhd Hd. injection Hhd as <-. rewrite Hshd in Hd. injection Hd as <-. lia.
Qed.
End HeaderLayout.
Section SegmentLength.
Implicit Types (m : Muxer).

Lemma valueBE_bytesBE w : forall x acc,
  0 <= x ->
  valueBE (bytesBE w x) acc = acc * 2 ^ (8 * Z.of_nat w) + x mod 2 ^ (8 * Z.of_nat w).
Proof.
  induction w as [|w IH]; intros x acc Hx.
  - simpl. rewrite Z.mod_1_r. lia.
  - cbn [bytesBE valueBE]. rewrite IH by exact Hx.
    change 255 with (Z.ones 8). rewrite Z.land_ones by lia.
    rewrite Z.shiftr_div_pow2 by lia.
    replace (8 * Z.of_nat (S w)) with (8 * Z.of_nat w + 8) by lia.
    rewrite Z.pow_add_r by lia.
    rewrite (Z.rem_mul_r x (2 ^ (8 * Z.of_nat w)) (2 ^ 8)) by lia.
    change (2 ^ 8) with 256. ring.
Qed.

(** A number below 2^35 is read back from its 5-byte EBML varint. *)
Lemma decode_ebmlVarInt_5 n :
  0 <= n < 2 ^ 35 -> decodeEBMLVarInt (ebmlVarIntBytes n 5) = n.
Proof.
  intros Hn. unfold decodeEBMLVarInt, ebmlVarIntBytes.
  assert (Hlen : forall w x, length (bytesBE w x) = w).
  { induction w as [|w IH]; intros x; simpl; [reflexivity | f_equal; apply IH]. }
  rewrite Hlen.
  change (7 * Z.of_nat 5) with 35. change (Z.shiftl 1 35) with (2 ^ 35).
  assert (Hland : Z.land (2 ^ 35) n = 0).
  { apply Z.bits_inj'. intros i Hi. rewrite Z.land_spec, Z.bits_0.
    destruct (Z.eq_dec i 35) as [->|Hne].
    - replace (Z.testbit n 35) with false; [apply andb_false_r|].
      symmetry. destruct (Z.eq_dec n 0) as [->|Hnz]; [apply Z.bits_0|].
      apply Z.bits_above_log2; [lia|]. apply Z.log2_lt_pow2; lia.
    - rewrite Z.pow2_bits_false by lia. reflexivity. }
  pose proof (Z.add_lor_land (2 ^ 35) n) as Hadd. rewrite Hland in Hadd.
  rewrite Z.add_0_r in Hadd. rewrite Hadd.
  change (2 ^ 35 - 1) with (Z.ones 35). rewrite Z.land_ones by lia.
  change (2 ^ 35) with 34359738368 in *.
  rewrite valueBE_bytesBE by lia.
  change (2 ^ (8 * Z.of_nat 5)) with 1099511627776.
  rewrite (Z.mod_small _ 1099511627776) by lia.
  rewrite Z.add_0_l.
  replace (34359738368 + n) with (n + 1 * 34359738368) by lia.
  rewrite Z.mod_add by lia. apply Z.mod_small. lia.
Qed.

(** The nine bytes [rewriteSegmentLength] writes. *)
Lemma segment_length_bytes n :
  getAsDataArray
    (writeEBMLVarIntWidth (writeUnsignedIntBE (newStream 10) 0x18538067 None) n 5) =
  bytesBE 4 0x18538067 ++ ebmlVarIntBytes n 5.
Proof. reflexivity. Qed.

(** A rejected chain stays rejected: a sink whose chain is fulfilled after a
    step had it fulfilled before. *)
Lemma blob_write_chain m s m' :
  blob_write m s = Ok m' -> chain_ok m' -> chain_ok m.
Proof.
  intros Hw Hok. unfold chain_ok in *.
  destruct (writePromise (blobBuffer m)) as [e|] eqn:Hp; [exfalso|reflexivity].
  unfold blob_write, heap_alloc, write in Hw. rewrite Hp in Hw.
  destruct (measureData _ _); [|discriminate].
  injection Hw as <-. simpl in Hok. discriminate.
Qed.

Lemma blob_seek_chain m off m' :
  blob_seek m off = Ok m' -> chain_ok m' -> chain_ok m.
Proof.
  intros Hs Hok. destruct (blob_seek_spec _ _ _ Hs) as [_ [_ [_ Hb]]].
  unfold chain_ok in *. rewrite Hb in Hok. exact Hok.
Qed.

Lemma patch_chain m off s m' :
  patch m off s = Ok m' -> chain_ok m' -> chain_ok m.
Proof.
  unfold patch.
  destruct (blob_seek m off) as [m1|e] eqn:H1; [|discriminate]. cbn [rbind].
  destruct (blob_write m1 s) as [m2|e] eqn:H2; [|discriminate]. cbn [rbind].
  intros H3 Hok.
  eauto using blob_seek_chain, blob_write_chain.
Qed.

Lemma flush_chain m m' :
  flushClusterFrameBuffer m = Ok m' -> chain_ok m' -> chain_ok m.
Proof.
  unfold flushClusterFrameBuffer.
  destruct (clusterFrameBuffer m) as [|f frames].
  { intros H Hok. injection H as <-. exact Hok. }
  destruct (mapM createContainerForKeyframe (f :: frames)) as [blocks|e];
    [|discriminate]. cbn [rbind].
  destruct (writeEBML _ _ _) as [[buffer' cluster']|e]; [|discriminate]. cbn [rbind].
  destruct (blob_write m buffer') as [m1|e] eqn:Hwr; [|discriminate]. cbn [rbind].
  unfold addCuePoint.
  destruct (fileOffsetToSegmentRelative m1 _) as [p|e]; [|discriminate]. cbn [rbind].
  intros H Hok. injection H as <-.
  apply (blob_write_chain _ _ _ Hwr). exact Hok.
Qed.

Lemma writeCues_chain m m' :
  writeCues m = Ok m' -> chain_ok m' -> chain_ok m.
Proof.
  unfold writeCues.
  destruct (writeEBML _ _ _) as [[cuesBuffer' ebml']|e]; [|discriminate]. cbn [rbind].
  destruct (blob_write (set_cues m (children_of ebml')) cuesBuffer') as [m1|e] eqn:Hwr;
    [|discriminate]. cbn [rbind].
  destruct (fileOffsetToSegmentRelative m1 _) as [p|e]; [|discriminate]. cbn [rbind].
  destruct (seekHead m1) as [sh|] eqn:Hsh; [|discriminate].
  intros H Hok. injection H as <-.
  apply (blob_write_chain _ _ _ Hwr). exact Hok.
Qed.

Lemma rewriteSeekHead_chain m m' :
  rewriteSeekHead m = Ok m' -> chain_ok m' -> chain_ok m.
Proof.
  unfold rewriteSeekHead.
  destruct (seekHead m) as [[| | |hd children|]|] eqn:Hsh; try discriminate.
  destruct (size hd) as [sz|]; [|discriminate].
  destruct (dataOffset hd) as [dataOff|] eqn:Hd; [|discriminate].
  destruct (writeEBML _ dataOff _) as [[seekHeadBuffer' children']|e]; [|discriminate].
  cbn [rbind]. intros Hp Hok.
  change (patch (set_seekHead m (Some (EList hd (children_of_array children'))))
            dataOff seekHeadBuffer' = Ok m') in Hp.
  exact (patch_chain _ _ _ _ Hp Hok).
Qed.

Lemma rewriteDuration_chain m m' :
  rewriteDuration m = Ok m' -> chain_ok m' -> chain_ok m.
Proof.
  unfold rewriteDuration.
  destruct (dataOffset (segmentDuration m)) as [dataOff|] eqn:Hd; [|discriminate].
  intros Hp Hok.
  change (patch m dataOff
            (writeDoubleBE (newStream 8) (double_bits (clusterStartTime m))) = Ok m') in Hp.
  exact (patch_chain _ _ _ _ Hp Hok).
Qed.

(** [rewriteSegmentLength] puts the Segment id and the 5-byte varint of
    (length - 48) over the nine bytes at 39, inside the header chunk. *)
Lemma rewriteSegmentLength_spec m m' :
  mux_inv m -> writtenHeader m = true ->
  rewriteSegmentLength m = Ok m' -> chain_ok m' ->
  mux_inv m' /\ chain_ok m /\ writtenHeader m' = true /\
  length_ (blobBuffer m') = length_ (blobBuffer m) /\
  48 <= length_ (blobBuffer m) /\
  mux_image m' =
    splice (mux_image m) 39
      (bytesBE 4 0x18538067 ++ ebmlVarIntBytes (length_ (blobBuffer m) - 48) 5).
Proof.
  intros Hinv Hw Hp Hok.
  destruct (mi_header _ Hinv Hw)
    as (len0 & seg & Hc & Hlen0 & Hseg & Hid & Hoff & Hdoff & _).
  unfold rewriteSegmentLength in Hp. rewrite Hseg, Hoff, Hdoff, Hid in Hp.
  change (patch m 39
            (writeEBMLVarIntWidth (writeUnsignedIntBE (newStream 10) 0x18538067 None)
               (pos (blobBuffer m) - 48) 5) = Ok m') in Hp.
  assert (Hin : forall l0, header_chunk (blobBuffer m) l0 -> 0 <= 39 < l0).
  { intros l0 [rest Hl0]. destruct Hc as [rest0 Hc0].
    rewrite Hc0 in Hl0. injection Hl0 as <- _. lia. }
  destruct (mux_inv_patch _ _ _ _ Hinv Hw Hin Hp Hok)
    as [Hinv' [Hc' [Hsame [Hlen [Hfit Him]]]]].
  rewrite segment_length_bytes in Hfit, Him. rewrite (mi_end _ Hinv) in Him.
  destruct Hsame as [_ [Hh _]].
  split; [exact Hinv'|]. split; [exact Hc'|]. split; [congruence|].
  split; [exact Hlen|]. split; [|exact Him].
  pose proof (header_chunk_bound _ _ _ (mi_sink _ Hinv) Hc ltac:(lia)). lia.
Qed.

Lemma rewriteSegmentLength_chain m m' :
  rewriteSegmentLength m = Ok m' -> chain_ok m' -> chain_ok m.
Proof.
  unfold rewriteSegmentLength.
  destruct (ebmlSegment m) as [seg|]; [|discriminate].
  destruct (offset seg) as [off|]; [|discriminate].
  destruct (dataOffset seg) as [dataOff|]; [|discriminate].
  intros Hp Hok.
  change (patch m off
            (writeEBMLVarIntWidth (writeUnsignedIntBE (newStream 10) (id seg) None)
               (pos (blobBuffer m) - dataOff) 5) = Ok m') in Hp.
  exact (patch_chain _ _ _ _ Hp Hok).
Qed.

(** The two parts of a spliced block are read back where they were put. *)
Lemma splice_parts (l : list Z) (a : nat) (s1 s2 : list Z) :
  (a + length s1 + length s2 <= length l)%nat ->
  take (length s1) (drop a (splice l a (s1 ++ s2))) = s1 /\
  take (length s2) (drop (a + length s1) (splice l a (s1 ++ s2))) = s2.
Proof.
  intros Hfit. unfold splice.
  assert (Ha : a = length (take a l)) by (rewrite length_take; lia).
  split.
  - rewrite drop_app_length' by exact Ha.
    rewrite <- !app_assoc. apply take_app_length.
  - rewrite <- drop_drop, drop_app_length' by exact Ha.
    rewrite <- !app_assoc, drop_app_length. apply take_app_length.
Qed.

(** The muxer after the first step of [complete()]. *)
Lemma complete_header m m1 :
  mux_inv m ->
  (if negb (writtenHeader m) then writeHeader m else Ok m) = Ok m1 ->
  chain_ok m1 -> mux_inv m1 /\ writtenHeader m1 = true.
Proof.
  intros Hinv. destruct (writtenHeader m) eqn:Hw; cbn [negb]; intros H1 Hok.
  - injection H1 as <-. auto.
  - destruct (writeHeader_inv _ _ Hinv Hw H1 Hok) as [Hinv1 [_ Hw1]]. auto.
Qed.
End SegmentLength.
Section Reachable.
Implicit Types (m : Muxer).

(** A new muxer on a memory sink satisfies the invariant. *)
Lemma WebMWriter_inv h o m :
  fileWriter o = false -> WebMWriter h o = Ok m -> mux_inv m.
Proof.
  intros Hfw. unfold WebMWriter.
  destruct (validateOptions o) as [o'|e]; [|discriminate]. cbn [rbind].
  intros H. injection H as <-.
  constructor; cbn [heap blobBuffer writtenHeader segmentDuration];
    unfold sink_of; rewrite Hfw.
  - apply new_sink_inv.
  - reflexivity.
  - intros _. repeat split; reflexivity.
  - discriminate.
Qed.

Lemma addFrameToCluster_inv m frame m' :
  mux_inv m -> writtenHeader m = true ->
  addFrameToCluster m frame = Ok m' -> chain_ok m' ->
  mux_inv m' /\ chain_ok m /\ writtenHeader m' = true.
Proof.
  intros Hinv Hw. unfold addFrameToCluster. cbv zeta.
  match goal with |- context [flushClusterFrameBuffer ?x] => set (m1 := x) end.
  assert (Hinv1 : mux_inv m1)
    by (apply (mux_inv_fields m); try reflexivity; assumption).
  destruct (double_ge _ _).
  - intros Hf Hok. exact (flush_inv m1 m' Hinv1 Hw Hf Hok).
  - intros H Hok. injection H as <-. auto.
Qed.

(** [addFrame] keeps the invariant, and writes the header on the first
    call. *)
Lemma addFrame_inv m image alpha overrideFrameDuration m' :
  mux_inv m ->
  addFrame m image alpha overrideFrameDuration = Ok m' -> chain_ok m' ->
  mux_inv m' /\ chain_ok m /\ writtenHeader m' = true.
Proof.
  intros Hinv. unfold addFrame.
  match goal with |- context [rbind ?r] =>
    destruct r as [m1|e] eqn:H1; [|discriminate] end. cbn [rbind].
  destruct (extractKeyframeFromWebP (fi_webP image)) as [keyframe|e]; [|discriminate].
  cbn [rbind].
  match goal with |- context [rbind ?r] =>
    destruct r as [frameDuration|e]; [|discriminate] end. cbn [rbind]. cbv zeta.
  match goal with |- context [rbind ?r] =>
    destruct r as [alphaFrame|e]; [|discriminate] end. cbn [rbind].
  intros Hadd Hok.
  assert (Hc1 : chain_ok m1).
  { revert Hadd. unfold addFrameToCluster. cbv zeta. destruct (double_ge _ _).
    - intros Hf. exact (flush_chain _ _ Hf Hok).
    - intros H. injection H as <-. exact Hok. }
  assert (H1' : mux_inv m1 /\ chain_ok m /\ writtenHeader m1 = true).
  { revert H1. destruct (writtenHeader m) eqn:Hw; cbn [negb]; intros H1.
    - injection H1 as <-. auto.
    - assert (Hinv0 : mux_inv (set_video m (fi_width image) (fi_height image))).
      { destruct Hinv as [Hs He Hn Hh]. constructor; assumption. }
      exact (writeHeader_inv _ _ Hinv0 Hw H1 Hc1). }
  destruct H1' as [Hinv1 [Hc Hw1]].
  destruct (addFrameToCluster_inv _ _ _ Hinv1 Hw1 Hadd Hok) as [Hinv' [_ Hw']].
  auto.
Qed.

(** The steps of [complete()] that resolves with a blob: the muxer before
    the last of them, [rewriteSegmentLength], and after it. *)
Lemma complete_steps m m' bytes mimeType :
  mux_inv m -> mux_complete m = Ok (m', BlobOf bytes mimeType) ->
  exists m5,
    mux_inv m5 /\ writtenHeader m5 = true /\
    rewriteSegmentLength m5 = Ok m' /\ chain_ok m' /\ bytes = mux_image m'.
Proof.
  intros Hinv. unfold mux_complete.
  destruct (if negb (writtenHeader m) then writeHeader m else Ok m) as [m1|e] eqn:H1;
    [|discriminate]. cbn [rbind].
  destruct (flushClusterFrameBuffer m1) as [m2|e] eqn:H2; [|discriminate]. cbn [rbind].
  destruct (writeCues m2) as [m3|e] eqn:H3; [|discriminate]. cbn [rbind].
  destruct (rewriteSeekHead m3) as [m4|e] eqn:H4; [|discriminate]. cbn [rbind].
  destruct (rewriteDuration m4) as [m5|e] eqn:H5; [|discriminate]. cbn [rbind].
  destruct (rewriteSegmentLength m5) as [m6|e] eqn:H6; [|discriminate]. cbn [rbind].
  intros Hcomplete. injection Hcomplete as <- Hblob.
  unfold complete in Hblob.
  destruct (writePromise (blobBuffer m6)) as [e|] eqn:Hc6; [discriminate|].
  destruct (dest (blobBuffer m6)); try discriminate. injection Hblob as Hbytes _.
  pose proof (rewriteSegmentLength_chain _ _ H6 Hc6) as Hc5.
  pose proof (rewriteDuration_chain _ _ H5 Hc5) as Hc4.
  pose proof (rewriteSeekHead_chain _ _ H4 Hc4) as Hc3.
  pose proof (writeCues_chain _ _ H3 Hc3) as Hc2.
  pose proof (flush_chain _ _ H2 Hc2) as Hc1.
  destruct (complete_header _ _ Hinv H1 Hc1) as [Hinv1 Hw1].
  destruct (flush_inv _ _ Hinv1 Hw1 H2 Hc2) as [Hinv2 [_ Hw2]].
  destruct (writeCues_inv _ _ Hinv2 Hw2 H3 Hc3) as [Hinv3 [_ Hw3]].
  destruct (rewriteSeekHead_inv _ _ Hinv3 Hw3 H4 Hc4) as [Hinv4 [_ Hw4]].
  destruct (rewriteDuration_inv _ _ Hinv4 Hw4 H5 Hc5) as [Hinv5 [_ Hw5]].
  exists m5. split; [exact Hinv5|]. split; [exact Hw5|]. split; [exact H6|].
  split; [exact Hc6|]. symmetry. exact Hbytes.
Qed.
End Reachable.

(** ** The muxer: the Segment size after [complete] *)

(** C4. After [complete()] on a muxer with a memory sink, the nine bytes at
    the Segment's offset (39; its payload starts at 48) are the Segment id
    and the 5-byte EBML varint of (final length - 48), which decodes to that
    number when it is below 2^35; [rewriteSegmentLength] has put these nine
    bytes over the nine of the id and the placeholder and has changed no
    others, and they lie in the header chunk, the first one of the sink. *)
Theorem complete_segment_size (m m' : Muxer) (bytes : list Z) (mimeType : option (list Z))
  (Hinv : mux_inv m)
  (Hcomplete : mux_complete m = Ok (m', BlobOf bytes mimeType)) :
  exists seg len0 m5,
    let final_length := getWrittenSize m' in
    let field := take 5 (drop (39 + 4) bytes) in
    ebmlSegment m' = Some seg /\ id seg = 0x18538067 /\
    offset seg = Some 39 /\ dataOffset seg = Some 48 /\
    Z.of_nat (length bytes) = final_length /\
    take 4 (drop 39 bytes) = bytesBE 4 (id seg) /\
    field = ebmlVarIntBytes (final_length - 48) 5 /\
    (final_length - 48 < 2 ^ 35 -> decodeEBMLVarInt field = final_length - 48) /\
    rewriteSegmentLength m5 = Ok m' /\
    length (mux_image m5) = length bytes /\
    bytes = splice (mux_image m5) 39 (bytesBE 4 (id seg) ++ field) /\
    header_chunk (blobBuffer m') len0 /\ 39 + 9 <= len0.
Proof.
  destruct (complete_steps m m' bytes mimeType Hinv Hcomplete)
    as (m5 & Hinv5 & Hw5 & H6 & Hc6 & Hbytes).
  destruct (rewriteSegmentLength_spec _ _ Hinv5 Hw5 H6 Hc6)
    as [Hinv6 [_ [Hw6 [Hlen [H48 Him]]]]].
  destruct (mi_header _ Hinv6 Hw6)
    as (len0 & seg & Hchunk & Hlen0 & Hseg & Hid & Hoff & Hdoff & _).
  pose proof (length_image _ _ _ (inv_tiles _ _ (mi_sink _ Hinv6))) as Hl6.
  rewrite (inv_extent _ _ (mi_sink _ Hinv6)) in Hl6.
  pose proof (length_image _ _ _ (inv_tiles _ _ (mi_sink _ Hinv5))) as Hl5.
  rewrite (inv_extent _ _ (mi_sink _ Hinv5)) in Hl5.
  fold (mux_image m') in Hl6. fold (mux_image m5) in Hl5.
  rewrite <- Hbytes in Hl6, Him. unfold getWrittenSize. cbv zeta.
  set (n := length_ (blobBuffer m')) in *.
  set (field := ebmlVarIntBytes (n - 48) 5).
  assert (Hparts : take 4 (drop 39 bytes) = bytesBE 4 0x18538067 /\
                   take 5 (drop (39 + 4) bytes) = field).
  { rewrite Him, <- Hlen.
    apply (splice_parts (mux_image m5) 39 (bytesBE 4 0x18538067) field).
    change (length (bytesBE 4 0x18538067)) with 4%nat.
    change (length field) with 5%nat. lia. }
  destruct Hparts as [Hp4 Hp5].
  exists seg, len0, m5. rewrite Hp5, Hid.
  split; [exact Hseg|]. split; [reflexivity|]. split; [exact Hoff|].
  split; [exact Hdoff|]. split; [exact Hl6|]. split; [exact Hp4|].
  split; [reflexivity|]. split.
  { intros Hsmall. apply decode_ebmlVarInt_5. lia. }
  split; [exact H6|]. split; [lia|]. split.
  { rewrite Him, <- Hlen. reflexivity. }
  split; [exact Hchunk | lia].
Qed.

Lemma complete_segment_size_witness :
  let o := mkOptions (95 # 100) false None false false None (Some 30%Q) in
  let image := mkFrameInput
                 ([82; 73; 70; 70; 0; 0; 0; 0; 87; 69; 66; 80]
                  ++ str_VP8_ ++ [3; 0; 0; 0; 1; 2; 3; 0]) 0 0 [] in
  exists m m1 m' bytes mimeType,
    WebMWriter [] o = Ok m /\
    addFrame m image AlphaUndefined None = Ok m1 /\
    mux_inv m1 /\
    mux_complete m1 = Ok (m', BlobOf bytes mimeType) /\
    exists seg len0 m5,
      let final_length := getWrittenSize m' in
      let field := take 5 (drop (39 + 4) bytes) in
      ebmlSegment m' = Some seg /\ id seg = 0x18538067 /\
      offset seg = Some 39 /\ dataOffset seg = Some 48 /\
      Z.of_nat (length bytes) = final_length /\
      take 4 (drop 39 bytes) = bytesBE 4 (id seg) /\
      field = ebmlVarIntBytes (final_length - 48) 5 /\
      (final_length - 48 < 2 ^ 35 -> decodeEBMLVarInt field = final_length - 48) /\
      rewriteSegmentLength m5 = Ok m' /\
      length (mux_image m5) = length bytes /\
      bytes = splice (mux_image m5) 39 (bytesBE 4 (id seg) ++ field) /\
      header_chunk (blobBuffer m') len0 /\ 39 + 9 <= len0.
Proof.
  intros o image.
  let r := eval vm_compute in (WebMWriter [] o) in
  match r with
  | Ok ?m =>
      let a := eval vm_compute in (addFrame m image AlphaUndefined None) in
      match a with
      | Ok ?m1 =>
          let c := eval vm_compute in (mux_complete m1) in
          match c with
          | Ok (?m', BlobOf ?bytes ?mimeType) =>
              assert (Hm : WebMWriter [] o = Ok m) by (vm_compute; reflexivity);
              assert (Ha : addFrame m image AlphaUndefined None = Ok m1)
                by (vm_compute; reflexivity);
              assert (Hc : mux_complete m1 = Ok (m', BlobOf bytes mimeType))
                by (vm_compute; reflexivity);
              exists m, m1, m', bytes, mimeType;
              pose proof (WebMWriter_inv [] o m eq_refl Hm) as Hinv;
              destruct (addFrame_inv m image AlphaUndefined None m1 Hinv Ha eq_refl)
                as [Hinv1 _];
              split; [exact Hm|]; split; [exact Ha|]; split; [exact Hinv1|];
              split; [exact Hc|];
              exact (complete_segment_size m1 m' bytes mimeType Hinv1 Hc)
          end
      end
  end.
Defined.

(** ** The muxer: calls after [complete] *)




(** ** More on the options *)

Section ValidateOptions.


End ValidateOptions.


(** ** More on the WebP extractor *)

Section LittleEndian.

Lemma testbit_byte (x j : Z) :
  Z.testbit (Z.land x 0xFF) j = Z.testbit x j && (j <? 8).
Proof.
  change 255 with (Z.ones 8).
  destruct (Z.ltb_spec j 0) as [Hneg|Hpos].
  - rewrite !Z.testbit_neg_r by lia. reflexivity.
  - rewrite Z.land_spec. destruct (Z.ltb_spec j 8).
    + rewrite Z.ones_spec_low by lia. reflexivity.
    + rewrite Z.ones_spec_high by lia. reflexivity.
Qed.

Lemma byteStringToUint32LE_bits s i :
  0 <= i ->
  Z.testbit (byteStringToUint32LE s) i =
    (i <? 32) &&
    (Z.testbit (charCodeAt_int s 0) i
     || Z.testbit (charCodeAt_int s 1) (i - 8)
     || Z.testbit (charCodeAt_int s 2) (i - 16)
     || Z.testbit (charCodeAt_int s 3) (i - 24)).
Proof.
  intros Hi. unfold byteStringToUint32LE.
  change 4294967295 with (Z.ones 32).
  rewrite Z.land_spec, !Z.lor_spec.
  rewrite !Z.shiftl_spec by exact Hi.
  destruct (Z.ltb_spec i 32).
  - rewrite Z.ones_spec_low by lia. rewrite andb_true_r. reflexivity.
  - rewrite Z.ones_spec_high by lia. apply andb_false_r.
Qed.
End LittleEndian.

Lemma le32_read (n : Z) (rest : jsstring) :
  0 <= n < 2 ^ 32 -> byteStringToUint32LE (le32 n ++ rest) = n.
Proof.
  intros Hn. apply Z.bits_inj'. intros i Hi.
  rewrite byteStringToUint32LE_bits by exact Hi.
  unfold le32, charCodeAt_int. cbn [app lookup list_lookup].
  rewrite !testbit_byte.
  assert (Hhigh : 32 <= i -> Z.testbit n i = false).
  { intros Hge. destruct (Z.eq_dec n 0) as [->|Hnz]; [apply Z.bits_0|].
    apply Z.bits_above_log2; [lia|].
    apply Z.lt_le_trans with 32; [|exact Hge]. apply Z.log2_lt_pow2; lia. }
  destruct (Z.ltb_spec i 32) as [Hlt|Hge]; [|rewrite Hhigh by lia; reflexivity].
  cbn [andb].
  destruct (Z.ltb_spec i 8); destruct (Z.ltb_spec (i - 8) 8);
    destruct (Z.ltb_spec (i - 16) 8); destruct (Z.ltb_spec (i - 24) 8);
    try lia;
    repeat first [ rewrite Z.shiftr_spec by lia
                 | rewrite (Z.testbit_neg_r _ (i - 8)) by lia
                 | rewrite (Z.testbit_neg_r _ (i - 16)) by lia
                 | rewrite (Z.testbit_neg_r _ (i - 24)) by lia ];
    rewrite ?andb_true_r, ?andb_false_r, ?orb_false_r, ?orb_false_l;
    f_equal; lia.
Qed.

Lemma byteStringToUint32LE_range (s : jsstring) : 0 <= byteStringToUint32LE s < 2 ^ 32.
Proof.
  split; [apply byteStringToUint32LE_nonneg|].
  unfold byteStringToUint32LE. change 4294967295 with (Z.ones 32).
  rewrite Z.land_ones by lia. apply Z.mod_pos_bound. lia.
Qed.

(** X2. [byteStringToUint32LE] reads the first four characters as a number
    of 32 bits, least significant byte first: the result lies in
    [0, 2^32), characters after the fourth are not read, and the four bytes
    of a number below 2^32 give the number back. *)
Theorem byteStringToUint32LE_le32 (n : Z) (rest : jsstring)
  (Hn : 0 <= n < 2 ^ 32) :
  byteStringToUint32LE (le32 n ++ rest) = n /\
  forall s, 0 <= byteStringToUint32LE s < 2 ^ 32.
Proof.
  split; [apply le32_read; exact Hn | apply byteStringToUint32LE_range].
Qed.

Lemma byteStringToUint32LE_le32_witness :
  byteStringToUint32LE (le32 305419896 ++ [1; 2; 3]) = 305419896 /\
  forall s, 0 <= byteStringToUint32LE s < 2 ^ 32.
Proof. apply (byteStringToUint32LE_le32 305419896 [1; 2; 3]). lia. Defined.
Section RiffWalk.
Implicit Types (webP before after fourCC payload : jsstring)
  (chunks pre post : list (jsstring * jsstring)).

Lemma substring_app before s after :
  substring (before ++ s ++ after) (Z.of_nat (length before))
    (Z.of_nat (length before) + Z.of_nat (length s)) = s.
Proof.
  unfold substring, clamp_index. rewrite !length_app.
  replace (Z.to_nat (Z.min (Z.max (Z.of_nat (length before)) 0)
             (Z.of_nat (length before + (length s + length after)))))
    with (length before) by lia.
  replace (Z.to_nat (Z.min (Z.max (Z.of_nat (length before) + Z.of_nat (length s)) 0)
             (Z.of_nat (length before + (length s + length after)))))
    with (length before + length s)%nat by lia.
  rewrite Nat.max_r, Nat.min_l by lia.
  rewrite drop_app_length.
  replace (length before + length s - length before)%nat with (length s) by lia.
  apply take_app_length.
Qed.

Lemma length_le32 n : length (le32 n) = 4%nat.
Proof. reflexivity. Qed.

Lemma length_riff_chunk fourCC payload :
  Z.of_nat (length (riff_chunk fourCC payload)) =
    Z.of_nat (length fourCC) + 4 + Z.of_nat (length payload)
    + (if Z.odd (Z.of_nat (length payload)) then 1 else 0).
Proof.
  unfold riff_chunk. rewrite !length_app, length_le32.
  destruct (Z.odd _); simpl; lia.
Qed.

(** What the loop reads at the header of a chunk. *)
Lemma chunk_header before fourCC payload after :
  length fourCC = 4%nat -> Z.of_nat (length payload) < 2 ^ 32 ->
  let webP := before ++ riff_chunk fourCC payload ++ after in
  let cursor := Z.of_nat (length before) in
  substring webP cursor (cursor + 4) = fourCC /\
  byteStringToUint32LE (substring webP (cursor + 4) (cursor + 8))
    = Z.of_nat (length payload) /\
  substring webP (cursor + 8) (cursor + 8 + Z.of_nat (length payload)) = payload /\
  next_chunk webP cursor = Z.of_nat (length (before ++ riff_chunk fourCC payload)).
Proof.
  intros H4 Hlen webP cursor.
  assert (Hcc : substring webP cursor (cursor + 4) = fourCC).
  { subst webP cursor. unfold riff_chunk. rewrite <- !app_assoc.
    replace 4 with (Z.of_nat (length fourCC)) by lia. apply substring_app. }
  assert (Hle : substring webP (cursor + 4) (cursor + 8)
                = le32 (Z.of_nat (length payload))).
  { subst webP cursor. unfold riff_chunk. rewrite <- !app_assoc.
    rewrite (app_assoc before fourCC).
    replace (Z.of_nat (length before) + 4)
      with (Z.of_nat (length (before ++ fourCC))) by (rewrite length_app; lia).
    replace (Z.of_nat (length before) + 8)
      with (Z.of_nat (length (before ++ fourCC))
            + Z.of_nat (length (le32 (Z.of_nat (length payload)))))
      by (rewrite length_app, length_le32; lia).
    apply substring_app. }
  assert (Hread : byteStringToUint32LE (substring webP (cursor + 4) (cursor + 8))
                  = Z.of_nat (length payload)).
  { rewrite Hle. rewrite <- (app_nil_r (le32 _)). apply le32_read. lia. }
  split; [exact Hcc|]. split; [exact Hread|]. split.
  - subst webP cursor. unfold riff_chunk. rewrite <- !app_assoc.
    rewrite (app_assoc before fourCC), (app_assoc (before ++ fourCC)).
    replace (Z.of_nat (length before) + 8)
      with (Z.of_nat (length ((before ++ fourCC) ++ le32 (Z.of_nat (length payload)))))
      by (rewrite !length_app, length_le32; lia).
    apply substring_app.
  - unfold next_chunk. rewrite Hread. subst cursor.
    rewrite length_app, Nat2Z.inj_add, length_riff_chunk.
    change 1 with (Z.ones 1) at 1. rewrite Z.land_ones by lia.
    change (2 ^ 1) with 2. rewrite Zmod_odd.
    destruct (Z.odd (Z.of_nat (length payload))); simpl; lia.
Qed.

Lemma length_riff_chunks_pos c chunks :
  4 <= Z.of_nat (length (riff_chunks (c :: chunks))).
Proof.
  unfold riff_chunks. cbn [map concat]. rewrite length_app.
  pose proof (length_riff_chunk (fst c) (snd c)). destruct (Z.odd _); lia.
Qed.

(** The walk over chunks that are stepped over, up to a "VP8 " chunk. *)
Lemma walk_to_VP8 payload post : forall pre before alpha,
  Forall skipped_chunk pre ->
  Z.of_nat (length payload) < 2 ^ 32 ->
  payload <> [] \/ post <> [] ->
  Walk (before ++ riff_chunks (pre ++ (str_VP8_, payload) :: post))
    (Z.of_nat (length before)) alpha
    (Ok (mkKeyframe payload (alpha || existsb is_ALPH pre))).
Proof.
  induction pre as [|c pre IH]; intros before alpha Hpre Hlen Hmore.
  - cbn [app existsb]. rewrite orb_false_r.
    unfold riff_chunks. cbn [map concat fst snd]. fold (riff_chunks post).
    destruct (chunk_header before str_VP8_ payload (riff_chunks post) eq_refl Hlen)
      as [Hcc [Hread [Hframe _]]].
    assert (Hlt : Z.of_nat (length before)
                  < Z.of_nat (length (before ++ riff_chunk str_VP8_ payload
                                        ++ riff_chunks post)) - 8).
    { rewrite !length_app. pose proof (length_riff_chunk str_VP8_ payload) as Hl.
      change (Z.of_nat (length str_VP8_)) with 4 in Hl.
      destruct Hmore as [Hp|Hp].
      + destruct payload; [contradiction|]. cbn [length] in *. destruct (Z.odd _); lia.
      + destruct post as [|c post]; [contradiction|].
        pose proof (length_riff_chunks_pos c post). destruct (Z.odd _); lia. }
    pose proof (Walk_VP8 _ _ alpha Hlt Hcc) as Hw.
    rewrite Hread, Hframe in Hw. exact Hw.
  - inversion Hpre as [|c' pre' [H4 [Hne Hclen]] Hrest]; subst.
    cbn [app existsb]. unfold riff_chunks. cbn [map concat].
    fold (riff_chunks (pre ++ (str_VP8_, payload) :: post)).
    set (after := riff_chunks (pre ++ (str_VP8_, payload) :: post)).
    destruct (chunk_header before (fst c) (snd c) after H4 Hclen)
      as [Hcc [_ [_ Hnext]]].
    assert (Hlt : Z.of_nat (length before)
                  < Z.of_nat (length (before ++ riff_chunk (fst c) (snd c) ++ after)) - 8).
    { rewrite !length_app. pose proof (length_riff_chunk (fst c) (snd c)) as Hl.
      assert (Ha : 8 <= Z.of_nat (length after)).
      { subst after. clear. induction pre as [|d pre IH].
        - cbn [app]. unfold riff_chunks. cbn [map concat fst snd]. rewrite length_app.
          pose proof (length_riff_chunk str_VP8_ payload) as Hl.
          change (Z.of_nat (length str_VP8_)) with 4 in Hl. destruct (Z.odd _); lia.
        - cbn [app]. unfold riff_chunks in *. cbn [map concat]. rewrite length_app. lia. }
      destruct (Z.odd _); lia. }
    destruct (is_ALPH c) eqn:Halph; unfold is_ALPH in Halph.
    + apply jsstring_eqb_eq in Halph.
      specialize (IH (before ++ riff_chunk (fst c) (snd c)) true Hrest Hlen Hmore).
      rewrite <- app_assoc in IH. fold after in IH. rewrite <- Hnext in IH.
      cbn [orb] in *. rewrite orb_true_r.
      apply Walk_ALPH; [exact Hlt | rewrite Hcc; exact Halph | exact IH].
    + apply jsstring_eqb_neq in Halph.
      specialize (IH (before ++ riff_chunk (fst c) (snd c)) alpha Hrest Hlen Hmore).
      rewrite <- app_assoc in IH. fold after in IH. rewrite <- Hnext in IH.
      cbn [orb].
      apply Walk_skip; [exact Hlt | rewrite Hcc; exact Hne
                       | rewrite Hcc; exact Halph | exact IH].
Qed.

(** The walk over chunks none of which is a "VP8 " chunk ends in the
    error. *)
Lemma walk_no_VP8 : forall chunks before alpha,
  Forall skipped_chunk chunks ->
  Walk (before ++ riff_chunks chunks) (Z.of_nat (length before)) alpha (Err BadWebP).
Proof.
  induction chunks as [|c chunks IH]; intros before alpha Hall.
  - apply Walk_end. unfold riff_chunks. cbn [map concat]. rewrite app_nil_r. lia.
  - inversion Hall as [|c' cs' [H4 [Hne Hclen]] Hrest]; subst.
    unfold riff_chunks. cbn [map concat]. fold (riff_chunks chunks).
    destruct (Z_lt_le_dec (Z.of_nat (length before))
                (Z.of_nat (length (before ++ riff_chunk (fst c) (snd c)
                                     ++ riff_chunks chunks)) - 8)) as [Hlt|Hge];
      [|apply Walk_end; exact Hge].
    destruct (chunk_header before (fst c) (snd c) (riff_chunks chunks) H4 Hclen)
      as [Hcc [_ [_ Hnext]]].
    specialize (IH (before ++ riff_chunk (fst c) (snd c))
                  (if is_ALPH c then true else alpha) Hrest).
    rewrite <- app_assoc in IH. rewrite <- Hnext in IH.
    destruct (is_ALPH c) eqn:Halph; unfold is_ALPH in Halph.
    + apply jsstring_eqb_eq in Halph.
      apply Walk_ALPH; [exact Hlt | rewrite Hcc; exact Halph | exact IH].
    + apply jsstring_eqb_neq in Halph.
      apply Walk_skip; [exact Hlt | rewrite Hcc; exact Hne
                       | rewrite Hcc; exact Halph | exact IH].
Qed.

(** The search of [extractKeyframeFromWebP] stops at byte 12 when "VP8"
    stands there. *)
Lemma indexOf_VP8_at_12 header rest :
  length header = 12%nat -> take 3 rest = str_VP8 ->
  indexOf (header ++ rest) str_VP8 12 = Some 12%nat.
Proof.
  intros H12 Hvp8. unfold indexOf. rewrite length_app, H12.
  destruct (12 + length rest <? 12)%nat eqn:Hl; [apply Nat.ltb_lt in Hl; lia|].
  rewrite <- H12, drop_app_length.
  destruct rest as [|r rest]; [discriminate|].
  cbn [index_from]. change (length str_VP8) with 3%nat. rewrite Hvp8.
  unfold jsstring_eqb. rewrite bool_decide_eq_true_2 by reflexivity. reflexivity.
Qed.

(** The loop on a file whose chunks begin at byte 12. *)
Lemma extract_walk header rest r :
  length header = 12%nat -> take 3 rest = str_VP8 ->
  Walk (header ++ rest) 12 false r ->
  extractKeyframeFromWebP (header ++ rest) = r.
Proof.
  intros H12 Hvp8 Hwalk. unfold extractKeyframeFromWebP.
  rewrite (indexOf_VP8_at_12 _ _ H12 Hvp8).
  destruct (scan_chunks_total (length (header ++ rest)) (header ++ rest)
              (Z.of_nat 12) false ltac:(lia)) as [r' [Hscan Hw]].
  rewrite Hscan. exact (Walk_functional _ _ _ _ _ Hw Hwalk).
Qed.
End RiffWalk.

(** X3. A file of RIFF chunks is read back: when the chunks begin at byte
    12 with a FourCC that starts with "VP8", and a "VP8 " chunk follows
    chunks with other FourCCs, [extractKeyframeFromWebP] returns the payload
    of that chunk, with [hasAlpha] telling whether an "ALPH" chunk stands
    before it. The "VP8 " chunk must not be the last eight bytes of the
    file: its payload is not empty or a chunk follows it. *)
Theorem extractKeyframeFromWebP_riff (header : jsstring)
  (pre post : list (jsstring * jsstring)) (payload : jsstring)
  (Hheader : length header = 12%nat)
  (Hpre : Forall skipped_chunk pre)
  (Hfirst : match pre with [] => True | c :: _ => take 3 (fst c) = str_VP8 end)
  (Hlen : Z.of_nat (length payload) < 2 ^ 32)
  (Hmore : payload <> [] \/ post <> []) :
  extractKeyframeFromWebP (header ++ riff_chunks (pre ++ (str_VP8_, payload) :: post))
    = Ok (mkKeyframe payload (existsb is_ALPH pre)).
Proof.
  apply extract_walk; [exact Hheader | |].
  - destruct pre as [|c pre]; [reflexivity|].
    inversion Hpre as [|c' pre' [H4 _] _]; subst.
    cbn [app]. unfold riff_chunks. cbn [map concat]. unfold riff_chunk.
    rewrite <- !app_assoc. rewrite take_app_le by lia. exact Hfirst.
  - pose proof (walk_to_VP8 payload post pre header false Hpre Hlen Hmore) as Hw.
    rewrite Hheader in Hw. exact Hw.
Qed.

Lemma extractKeyframeFromWebP_riff_witness :
  extractKeyframeFromWebP
    ([82; 73; 70; 70; 0; 0; 0; 0; 87; 69; 66; 80]
     ++ riff_chunks ([([86; 80; 56; 88], [16; 0; 0; 0; 1; 0; 0; 1; 0; 0]);
                      (str_ALPH, [1; 2; 3])]
                     ++ (str_VP8_, [9; 8; 7]) :: []))
    = Ok (mkKeyframe [9; 8; 7] true).
Proof.
  apply (extractKeyframeFromWebP_riff
           [82; 73; 70; 70; 0; 0; 0; 0; 87; 69; 66; 80]
           [([86; 80; 56; 88], [16; 0; 0; 0; 1; 0; 0; 1; 0; 0]); (str_ALPH, [1; 2; 3])]
           [] [9; 8; 7]).
  - reflexivity.
  - repeat constructor; try discriminate; cbn; lia.
  - reflexivity.
  - cbn. lia.
  - left. discriminate.
Defined.

(** X4. A file of RIFF chunks without a "VP8 " chunk is refused: when the
    chunks begin at byte 12 with a FourCC that starts with "VP8" (as "VP8L"
    of the lossless format does) and none of them is a "VP8 " chunk, or
    when there is no chunk at all, [extractKeyframeFromWebP] fails. *)
Theorem extractKeyframeFromWebP_no_keyframe (header : jsstring)
  (chunks : list (jsstring * jsstring))
  (Hheader : length header = 12%nat)
  (Hchunks : Forall skipped_chunk chunks)
  (Hfirst : match chunks with [] => True | c :: _ => take 3 (fst c) = str_VP8 end) :
  extractKeyframeFromWebP (header ++ riff_chunks chunks) = Err BadWebP.
Proof.
  destruct chunks as [|c chunks].
  - unfold extractKeyframeFromWebP, indexOf, riff_chunks. cbn [map concat].
    rewrite app_nil_r, Hheader. cbn [Nat.ltb Nat.leb].
    rewrite <- Hheader, drop_all. reflexivity.
  - apply extract_walk; [exact Hheader | |].
    + inversion Hchunks as [|c' cs' [H4 _] _]; subst.
      unfold riff_chunks. cbn [map concat]. unfold riff_chunk.
      rewrite <- !app_assoc. rewrite take_app_le by lia. exact Hfirst.
    + pose proof (walk_no_VP8 (c :: chunks) header false Hchunks) as Hw.
      rewrite Hheader in Hw. exact Hw.
Qed.

Lemma extractKeyframeFromWebP_no_keyframe_witness :
  extractKeyframeFromWebP
    ([82; 73; 70; 70; 0; 0; 0; 0; 87; 69; 66; 80]
     ++ riff_chunks [([86; 80; 56; 76], [47; 0; 0; 0; 0; 7])]) = Err BadWebP.
Proof.
  apply (extractKeyframeFromWebP_no_keyframe
           [82; 73; 70; 70; 0; 0; 0; 0; 87; 69; 66; 80]
           [([86; 80; 56; 76], [47; 0; 0; 0; 0; 7])]).
  - reflexivity.
  - repeat constructor; try discriminate; cbn; lia.
  - reflexivity.
Defined.
(** ** More on the sink *)

Section SinkRuns.
Implicit Types (h : Heap) (b : BlobBuffer) (ops : list Op) (d : Data).

Lemma measureData_nonneg h d len : measureData h d = Ok len -> 0 <= len.
Proof.
  unfold measureData.
  destruct d as [s|v|buf|bs]; cbn [prop_byteLength prop_length prop_size js_or truthy].
  - destruct (length s); cbn; intros H; [discriminate|]. injection H as <-. lia.
  - destruct (vlen v); cbn; intros H; [discriminate|]. injection H as <-. lia.
  - destruct (length (heap_buffer h buf)); cbn; intros H; [discriminate|].
    injection H as <-. lia.
  - cbn. intros H. injection H as <-. lia.
Qed.
End SinkRuns.

(** X5. Once the chain of writes is rejected it stays so: whatever calls
    follow that do not throw, the error of the chain is the first one, the
    chunks and the ArrayBuffers are left as they were (the callbacks of the
    later writes never run), and [complete] is rejected with that error. *)
Theorem rejection_is_final (ops : list Op) :
  forall (h hf : Heap) (b bf : BlobBuffer) (e : error),
  writePromise b = Some e -> run h b ops = Some (hf, bf) ->
  writePromise bf = Some e /\ buffer bf = buffer b /\ hf = h /\
  forall mimeType, complete hf bf mimeType = Rejected e.
Proof.
  induction ops as [|[offset|d] ops IH]; intros h hf b bf e Hrej; cbn [run].
  - intros H. injection H as <- <-. unfold complete. rewrite Hrej. auto.
  - destruct (seek b offset) as [b' [err|]] eqn:Hs; [discriminate|].
    destruct (seek_accepted _ _ _ Hs) as [n [_ [_ ->]]].
    intros Hrun. apply (IH _ _ _ _ e) in Hrun; [exact Hrun | exact Hrej].
  - unfold write. destruct (measureData h d) as [len|err]; [|discriminate].
    rewrite Hrej. intros Hrun.
    apply (IH _ _ _ _ e) in Hrun; [exact Hrun | reflexivity].
Qed.

Lemma rejection_is_final_witness :
  let b := mkBlobBuffer [mkEntry 0 (DBlob [1; 2]) 2; mkEntry 2 (DBlob [3; 4]) 2]
             None Memory 1 4 in
  exists b1 hf bf,
    write [] b (DBlob [7; 7]) = ([], b1, None) /\
    writePromise b1 = Some OverwriteCrossesBlobBoundaries /\
    run [] b1 [OpSeek (JNum 0); OpWrite (DBlob [9])] = Some (hf, bf) /\
    buffer bf = buffer b /\
    complete hf bf None = Rejected OverwriteCrossesBlobBoundaries.
Proof.
  intros b.
  destruct (write [] b (DBlob [7; 7])) as [[h1 b1] err] eqn:Hw.
  destruct (run [] b1 [OpSeek (JNum 0); OpWrite (DBlob [9])]) as [[hf bf]|] eqn:Hrun;
    [|injection Hw as <- <- <-; discriminate Hrun].
  assert (Hrej : writePromise b1 = Some OverwriteCrossesBlobBoundaries)
    by (injection Hw as <- <- <-; reflexivity).
  destruct (rejection_is_final _ _ _ _ _ _ Hrej Hrun) as [_ [Hbuf [_ Hc]]].
  exists b1, hf, bf. injection Hw as <- <- <-.
  split; [reflexivity|]. split; [reflexivity|]. split; [exact Hrun|].
  split; [exact Hbuf | apply Hc].
Defined.

(** X7. The cursor and the length, whatever the calls and whether or not
    the writes are accepted: the cursor stays within [0, length], the
    length never shrinks, and the destination is the one given to the
    constructor. *)
Theorem cursor_within_length (ops : list Op) :
  forall (h hf : Heap) (b bf : BlobBuffer),
  0 <= pos b <= length_ b -> run h b ops = Some (hf, bf) ->
  0 <= pos bf <= length_ bf /\ length_ b <= length_ bf /\ dest bf = dest b.
Proof.
  induction ops as [|[offset|d] ops IH]; intros h hf b bf Hpos; cbn [run].
  - intros H. injection H as <- <-. split; [exact Hpos|]. split; [lia | reflexivity].
  - destruct (seek b offset) as [b' [err|]] eqn:Hs; [discriminate|].
    destruct (seek_accepted _ _ _ Hs) as [n [_ [Hn ->]]].
    intros Hrun. apply IH in Hrun; [exact Hrun | exact Hn].
  - unfold write. destruct (measureData h d) as [len|err] eqn:Hm; [|discriminate].
    apply measureData_nonneg in Hm.
    destruct (writePromise b) as [e|].
    + intros Hrun. apply IH in Hrun; cbn in *; [|lia].
      destruct Hrun as [H1 [H2 H3]]. split; [exact H1|]. split; [lia | exact H3].
    + destruct (write_callback h b _ _) as [[h' buf'] thrown];
        intros Hrun; apply IH in Hrun; cbn in *; try lia;
        destruct Hrun as [H1 [H2 H3]]; (split; [exact H1|]; split; [lia | exact H3]).
Qed.

Lemma cursor_within_length_witness :
  exists hf bf,
    run [] (newBlobBuffer Memory)
      [OpWrite (DBlob [1; 2; 3]); OpSeek (JNum 1); OpWrite (DBlob [7; 7; 7; 7])]
      = Some (hf, bf) /\
    0 <= pos bf <= length_ bf /\ 0 <= length_ bf /\ dest bf = Memory.
Proof.
  destruct (run [] (newBlobBuffer Memory)
              [OpWrite (DBlob [1; 2; 3]); OpSeek (JNum 1); OpWrite (DBlob [7; 7; 7; 7])])
    as [[hf bf]|] eqn:Hrun; [|discriminate Hrun].
  exists hf, bf. split; [reflexivity|].
  destruct (cursor_within_length _ [] hf (newBlobBuffer Memory) bf
              ltac:(cbn; lia) Hrun) as [H1 [H2 H3]].
  split; [exact H1|]. split; [exact H2 | exact H3].
Defined.

(** X8. Writes made one after the other at the end of a memory sink,
    without a seek, are all appended: no ArrayBuffer is touched, the chain
    stays fulfilled, the data are the new chunks in the order of the calls,
    the cursor has moved by the sum of the measured lengths, and [complete]
    resolves with the bytes of the chunks followed by the bytes of the
    data. This holds also when several data show the same ArrayBuffer. *)
Theorem appends_concatenate (ds : list Data) :
  forall (h hf : Heap) (b bf : BlobBuffer),
  dest b = Memory -> writePromise b = None -> pos b = length_ b ->
  run h b (map OpWrite ds) = Some (hf, bf) ->
  hf = h /\ writePromise bf = None /\ pos bf = length_ bf /\
  map e_data (buffer bf) = map e_data (buffer b) ++ ds /\
  (exists lens, Forall2 (fun d len => measureData h d = Ok len) ds lens /\
                pos bf = pos b + fold_right Z.add 0 lens) /\
  forall mimeType,
    complete hf bf mimeType
      = BlobOf (image h (buffer b) ++ concat (map (data_bytes h) ds)) mimeType.
Proof.
  induction ds as [|d ds IH]; intros h hf b bf Hdest Hok Hend; cbn [map run].
  - intros H. injection H as <- <-. split; [reflexivity|]. split; [exact Hok|].
    split; [exact Hend|]. split; [rewrite app_nil_r; reflexivity|]. split.
    + exists []. split; [constructor | cbn; lia].
    + intros mimeType. unfold complete. rewrite Hok, Hdest. cbn [map concat].
      rewrite app_nil_r. reflexivity.
  - unfold write. destruct (measureData h d) as [len|err] eqn:Hm; [|discriminate].
    pose proof (measureData_nonneg _ _ _ Hm) as Hlen.
    rewrite Hok. unfold write_callback. rewrite Hdest. cbn [e_offset].
    rewrite Hend. rewrite Z.leb_refl. intros Hrun.
    apply IH in Hrun; cbn [dest writePromise pos length_ buffer]; [|auto|auto|lia].
    destruct Hrun as [Hh [Hp [He [Hdata [[lens [Hl Hsum]] Hc]]]]].
    cbn [dest writePromise pos length_ buffer] in Hdata, Hsum, Hc.
    split; [exact Hh|]. split; [exact Hp|]. split; [exact He|]. split.
    + rewrite Hdata, List.map_app. cbn [map e_data]. rewrite <- app_assoc. reflexivity.
    + split.
      * exists (len :: lens). split; [constructor; assumption|].
        cbn [fold_right]. rewrite Hsum. lia.
      * intros mimeType. rewrite Hc. unfold image. rewrite List.map_app, concat_app.
        cbn [map concat e_data]. rewrite app_nil_r, <- app_assoc. reflexivity.
Qed.

Lemma appends_concatenate_witness :
  let h := [[63; 33]] in
  exists bf,
    run h (newBlobBuffer Memory)
      (map OpWrite [DBlob [72; 105]; DUint8Array (mkView 0 0 2); DArrayBuffer 0])
      = Some (h, bf) /\
    pos bf = 6 /\
    complete h bf None = BlobOf [72; 105; 63; 33; 63; 33] None.
Proof.
  intros h.
  destruct (run h (newBlobBuffer Memory)
              (map OpWrite [DBlob [72; 105]; DUint8Array (mkView 0 0 2); DArrayBuffer 0]))
    as [[hf bf]|] eqn:Hrun; [|discriminate Hrun].
  destruct (appends_concatenate _ h hf (newBlobBuffer Memory) bf
              eq_refl eq_refl eq_refl Hrun) as [Hh [_ [_ [_ [_ Hc]]]]].
  exists bf. subst hf. split; [reflexivity|]. split.
  - injection Hrun as <-. reflexivity.
  - apply Hc.
Defined.
(** ** More on the EBML serializer *)

Section Layout.
Implicit Types (b buffer : Stream) (off start : Z) (t : EBML) (items : list EBML)
  (hd : Header) (data : Payload).

Lemma encoded_length_all_eq items :
  (fix all (l : list EBML) : nat :=
     match l with
     | [] => 0%nat
     | x :: r => (encoded_length x + all r)%nat
     end) items = encoded_length_all items.
Proof. induction items as [|x r IH]; cbn; [reflexivity | rewrite IH; reflexivity]. Qed.

Lemma encoded_length_EArray items :
  encoded_length (EArray items) = encoded_length_all items.
Proof. cbn [encoded_length]. apply encoded_length_all_eq. Qed.

Lemma encoded_length_EList hd items :
  encoded_length (EList hd items) =
    (measureUnsignedInt (id hd) + placeholder_width hd + encoded_length_all items)%nat.
Proof. cbn [encoded_length]. rewrite encoded_length_all_eq. reflexivity. Qed.

Lemma laid_out_all_eq items : forall start,
  (fix all (start : Z) (l : list EBML) : Prop :=
     match l with
     | [] => True
     | x :: r => laid_out start x /\ all (start + Z.of_nat (encoded_length x)) r
     end) start items = laid_out_all start items.
Proof.
  induction items as [|x r IH]; intros start; cbn; [reflexivity|].
  rewrite IH. reflexivity.
Qed.

Lemma laid_out_EArray start items :
  laid_out start (EArray items) = laid_out_all start items.
Proof. cbn [laid_out]. apply laid_out_all_eq. Qed.

Lemma laid_out_EList start hd items :
  laid_out start (EList hd items) =
    (offset hd = Some start /\
     dataOffset hd
       = Some (start + Z.of_nat (measureUnsignedInt (id hd) + placeholder_width hd)) /\
     (size_is hd EBML_SIZE_UNKNOWN = false ->
      size_is hd EBML_SIZE_UNKNOWN_5_BYTES = false ->
      size hd = Some (Z.of_nat (encoded_length_all items))) /\
     laid_out_all
       (start + Z.of_nat (measureUnsignedInt (id hd) + placeholder_width hd)) items).
Proof. cbn [laid_out]. rewrite laid_out_all_eq. reflexivity. Qed.

Lemma ebml_ok_all_eq items :
  (fix all (l : list EBML) : Prop :=
     match l with
     | [] => True
     | x :: r => ebml_ok x /\ all r
     end) items = ebml_ok_all items.
Proof. induction items as [|x r IH]; cbn; [reflexivity | rewrite IH; reflexivity]. Qed.

Lemma measureEBMLVarInt_Some z : varint_ok z -> exists w, measureEBMLVarInt z = Some w.
Proof.
  intros [H0 H1]. unfold measureEBMLVarInt.
  cbn [find].
  repeat match goal with
         | |- exists w, (if ?c then _ else _) = _ => destruct c eqn:?; [eexists; reflexivity|]
         end.
  match goal with H : (z <? _) = false |- _ => apply Z.ltb_ge in H; cbn in H; lia end.
Qed.

Lemma writeEBMLVarInt_pos b z b1 :
  writeEBMLVarInt b z = Ok b1 -> s_pos b1 = (s_pos b + varint_width z)%nat.
Proof.
  intros H. apply writeEBMLVarInt_Ok in H as [w [Hw ->]].
  unfold varint_width. rewrite Hw, writeBytes_pos.
  unfold ebmlVarIntBytes. rewrite length_bytesBE. reflexivity.
Qed.

Lemma writeUnsignedIntBE_pos b n width :
  s_pos (writeUnsignedIntBE b n width) =
    (s_pos b + match width with Some w => w | None => measureUnsignedInt n end)%nat.
Proof. unfold writeUnsignedIntBE. rewrite writeBytes_pos, length_bytesBE. reflexivity. Qed.

Lemma writePlaceholder_pos b hd :
  s_pos (writePlaceholder b hd) = (s_pos b + placeholder_width hd)%nat.
Proof.
  unfold writePlaceholder, placeholder_width.
  destruct (size_is hd EBML_SIZE_UNKNOWN); [cbn; lia|].
  destruct (size_is hd EBML_SIZE_UNKNOWN_5_BYTES); rewrite writeBytes_pos; reflexivity.
Qed.

(** The element that [writeLeaf] returns, and where it leaves the
    cursor. *)
Lemma writeLeaf_layout b off hd data b' hd' :
  writeLeaf b off hd data = Ok (b', hd') ->
  id hd' = id hd /\ offset hd' = offset hd /\
  dataOffset hd' = Some (Z.of_nat (s_pos b + varint_width (declared_size hd' data)) + off) /\
  s_pos b' = (s_pos b + varint_width (declared_size hd' data)
              + payload_length hd' data)%nat.
Proof.
  unfold writeLeaf.
  destruct data as [s|n|bits|bits|bs|]; try discriminate;
    match goal with |- rbind (writeEBMLVarInt b ?z) _ = _ -> _ =>
      destruct (writeEBMLVarInt b z) as [b1|e] eqn:Hv; [|discriminate] end;
    apply writeEBMLVarInt_pos in Hv;
    cbn [rbind]; intros H; injection H as <- <-;
    cbn [declared_size payload_length id offset dataOffset set_dataOffset size].
  - unfold writeString. rewrite writeBytes_pos, Hv. repeat split; f_equal; lia.
  - rewrite writeUnsignedIntBE_pos.
    destruct (size_falsy hd) eqn:Hf; cbn [size set_size id offset] in *.
    + rewrite Hv. repeat split; f_equal; lia.
    + unfold size_falsy in Hf. destruct (size hd) as [z|] eqn:Hs; [|discriminate].
      rewrite Hv. repeat split; f_equal; lia.
  - unfold writeDoubleBE. rewrite writeBytes_pos, length_bytesBE, Hv.
    repeat split; f_equal; lia.
  - unfold writeFloatBE. rewrite writeBytes_pos, length_bytesBE, Hv.
    repeat split; f_equal; lia.
  - rewrite writeBytes_pos, Hv. repeat split; f_equal; lia.
Qed.

Lemma writeEBML_all_layout off items :
  Forall (fun t => forall buffer b' t',
            writeEBML buffer off t = Ok (b', t') ->
            s_pos b' = (s_pos buffer + encoded_length t')%nat /\
            laid_out (Z.of_nat (s_pos buffer) + off) t') items ->
  forall buffer b' items',
    writeEBML_all buffer off items = Ok (b', items') ->
    s_pos b' = (s_pos buffer + encoded_length_all items')%nat /\
    laid_out_all (Z.of_nat (s_pos buffer) + off) items'.
Proof.
  induction 1 as [|t items Ht Hall IH]; intros buffer b' items'; cbn [writeEBML_all].
  - intros H. injection H as <- <-. cbn. split; [lia | exact I].
  - destruct (writeEBML buffer off t) as [[b1 t1]|e] eqn:H1; [|discriminate].
    cbn [rbind].
    destruct (writeEBML_all b1 off items) as [[b2 r2]|e] eqn:H2; [|discriminate].
    cbn [rbind]. intros H. injection H as <- <-.
    destruct (Ht _ _ _ H1) as [Hp1 Hl1]. destruct (IH _ _ _ H2) as [Hp2 Hl2].
    cbn [encoded_length_all laid_out_all]. split; [lia|]. split; [exact Hl1|].
    replace (Z.of_nat (s_pos buffer) + off + Z.of_nat (encoded_length t1))
      with (Z.of_nat (s_pos b1) + off) by lia.
    exact Hl2.
Qed.

Lemma writeEBML_layout_step off t : forall buffer b' t',
  writeEBML buffer off t = Ok (b', t') ->
  s_pos b' = (s_pos buffer + encoded_length t')%nat /\
  laid_out (Z.of_nat (s_pos buffer) + off) t'.
Proof.
  induction t as [items IH|s|bs|hd children IH|hd data] using EBML_ind;
    intros buffer b' t'.
  - rewrite writeEBML_EArray.
    destruct (writeEBML_all buffer off items) as [[b1 r1]|e] eqn:H1; [|discriminate].
    cbn [rbind fst snd]. intros H. injection H as <- <-.
    rewrite encoded_length_EArray, laid_out_EArray.
    eapply writeEBML_all_layout; eassumption.
  - cbn [writeEBML]. intros H. injection H as <- <-. unfold writeString.
    rewrite writeBytes_pos. cbn. split; [reflexivity | exact I].
  - cbn [writeEBML]. intros H. injection H as <- <-.
    rewrite writeBytes_pos. cbn. split; [reflexivity | exact I].
  - rewrite writeEBML_EList. destruct (id hd =? 0); [discriminate|]. cbv zeta.
    set (b1 := writeUnsignedIntBE buffer (id hd) None).
    set (hd1 := set_offset hd (Z.of_nat (s_pos buffer) + off)).
    set (b2 := writePlaceholder b1 hd1).
    assert (Hp1 : s_pos b1 = (s_pos buffer + measureUnsignedInt (id hd))%nat)
      by apply writeUnsignedIntBE_pos.
    assert (Hp2 : s_pos b2 = (s_pos b1 + placeholder_width hd)%nat)
      by (unfold b2; rewrite writePlaceholder_pos; reflexivity).
    destruct (writeEBML_all b2 off children) as [[b3 r3]|e] eqn:H3; [|discriminate].
    cbn [rbind fst snd].
    destruct (writeEBML_all_layout off children IH _ _ _ H3) as [Hp3 Hl3].
    rewrite !size_is_set_dataOffset. unfold hd1. rewrite !size_is_set_offset.
    set (start := Z.of_nat (s_pos buffer) + off).
    destruct (size_is hd EBML_SIZE_UNKNOWN) eqn:Hu;
      [|destruct (size_is hd EBML_SIZE_UNKNOWN_5_BYTES) eqn:Hu5];
      cbn [negb andb]; intros H; injection H as <- <-;
      rewrite encoded_length_EList, laid_out_EList.
    + set (hd' := set_dataOffset _ _).
      assert (Hw : placeholder_width hd' = placeholder_width hd) by reflexivity.
      rewrite Hw. change (id hd') with (id hd).
      unfold placeholder_width in *. rewrite Hu in *.
      split; [lia|]. split; [reflexivity|]. split; [cbn; f_equal; lia|]. split.
      * intros Hc. change (size_is hd EBML_SIZE_UNKNOWN = false) in Hc. congruence.
      * replace (start + Z.of_nat (measureUnsignedInt (id hd) + 1))
          with (Z.of_nat (s_pos b2) + off) by lia.
        exact Hl3.
    + set (hd' := set_dataOffset _ _).
      assert (Hw : placeholder_width hd' = placeholder_width hd) by reflexivity.
      rewrite Hw. change (id hd') with (id hd).
      unfold placeholder_width in *. rewrite Hu, Hu5 in *.
      split; [lia|]. split; [reflexivity|]. split; [cbn; f_equal; lia|]. split.
      * intros _ Hc. change (size_is hd EBML_SIZE_UNKNOWN_5_BYTES = false) in Hc.
        congruence.
      * replace (start + Z.of_nat (measureUnsignedInt (id hd) + 5))
          with (Z.of_nat (s_pos b2) + off) by lia.
        exact Hl3.
    + set (payload := Z.of_nat (s_pos b3) - Z.of_nat (s_pos b2)).
      set (hd' := set_size _ payload).
      assert (Hw : placeholder_width hd' = 4%nat).
      { unfold placeholder_width, size_is, hd'. cbn [size set_size].
        replace (payload =? EBML_SIZE_UNKNOWN) with false
          by (symmetry; apply Z.eqb_neq; unfold EBML_SIZE_UNKNOWN; lia).
        replace (payload =? EBML_SIZE_UNKNOWN_5_BYTES) with false
          by (symmetry; apply Z.eqb_neq; unfold EBML_SIZE_UNKNOWN_5_BYTES; lia).
        reflexivity. }
      rewrite Hw. change (id hd') with (id hd).
      unfold placeholder_width in Hp2. rewrite Hu, Hu5 in Hp2.
      cbn [s_pos streamSeek].
      split; [lia|]. split; [reflexivity|]. split; [cbn; f_equal; lia|]. split.
      * intros _ _. cbn. f_equal. lia.
      * replace (start + Z.of_nat (measureUnsignedInt (id hd) + 4))
          with (Z.of_nat (s_pos b2) + off) by lia.
        exact Hl3.
  - cbn [writeEBML]. destruct (id hd =? 0); [discriminate|]. cbv zeta.
    destruct (writeLeaf _ off _ data) as [[b2 hd2]|e] eqn:H2; [|discriminate].
    cbn [rbind]. intros H. injection H as <- <-.
    apply writeLeaf_layout in H2 as [Hid [Hoff [Hdoff Hpos]]].
    rewrite writeUnsignedIntBE_pos in Hdoff, Hpos.
    cbn [encoded_length laid_out]. rewrite Hid.
    cbn [id offset set_offset] in Hoff |- *.
    split; [lia|]. split; [exact Hoff|]. rewrite Hdoff. f_equal. lia.
Qed.
End Layout.
Section Acceptance.
Implicit Types (b buffer : Stream) (off : Z) (t : EBML) (items : list EBML)
  (hd : Header) (data : Payload).

Lemma ebml_ok_EArray items : ebml_ok (EArray items) = ebml_ok_all items.
Proof. cbn [ebml_ok]. apply ebml_ok_all_eq. Qed.

Lemma ebml_ok_EList hd items :
  ebml_ok (EList hd items) = (id hd <> 0 /\ ebml_ok_all items).
Proof. cbn [ebml_ok]. rewrite ebml_ok_all_eq. reflexivity. Qed.

Lemma writeEBMLVarInt_accepts b z :
  varint_ok z -> exists b1, writeEBMLVarInt b z = Ok b1.
Proof.
  unfold writeEBMLVarInt.
  intros Hz. destruct (measureEBMLVarInt_Some z Hz) as [w ->]. eexists. reflexivity.
Qed.

Lemma writeLeaf_accepts b off hd data :
  leaf_ok hd data -> exists r, writeLeaf b off hd data = Ok r.
Proof.
  unfold writeLeaf, leaf_ok.
  destruct data as [s|n|bits|bits|bs|]; intros Hok; try contradiction.
  - destruct (writeEBMLVarInt_accepts b _ Hok) as [b1 ->]. eexists; reflexivity.
  - cbv zeta. destruct (size_falsy hd); cbn [size set_size] in *;
      destruct (writeEBMLVarInt_accepts b _ Hok) as [b1 ->]; eexists; reflexivity.
  - destruct (writeEBMLVarInt_accepts b 8) as [b1 ->];
      [unfold varint_ok; lia | eexists; reflexivity].
  - destruct (writeEBMLVarInt_accepts b 4) as [b1 ->];
      [unfold varint_ok; lia | eexists; reflexivity].
  - destruct (writeEBMLVarInt_accepts b _ Hok) as [b1 ->]. eexists; reflexivity.
Qed.

Lemma writeEBML_all_accepts off items :
  Forall (fun t => forall buffer,
            ebml_ok t -> exists r, writeEBML buffer off t = Ok r) items ->
  forall buffer,
    ebml_ok_all items -> exists r, writeEBML_all buffer off items = Ok r.
Proof.
  induction 1 as [|t items Ht Hall IH]; intros buffer;
    cbn [writeEBML_all ebml_ok_all].
  - intros _; eexists; reflexivity.
  - intros [Hok Hoks].
    destruct (Ht buffer Hok) as [[b1 t1] ->]; cbn [rbind].
    destruct (IH b1 Hoks) as [[b2 r2] ->]; cbn [rbind].
    eexists; reflexivity.
Qed.

Lemma writeEBML_accepts_step off t : forall buffer,
  ebml_ok t -> exists r, writeEBML buffer off t = Ok r.
Proof.
  induction t as [items IH|s|bs|hd children IH|hd data] using EBML_ind; intros buffer.
  - rewrite writeEBML_EArray, ebml_ok_EArray. intros Hok.
    destruct (writeEBML_all_accepts off items IH buffer Hok) as [[b1 r1] ->];
      cbn [rbind]. eexists; reflexivity.
  - cbn. intros _; eexists; reflexivity.
  - cbn. intros _; eexists; reflexivity.
  - rewrite writeEBML_EList, ebml_ok_EList. intros [Hnz Hok].
    destruct (Z.eqb_spec (id hd) 0) as [Hz|_]; [contradiction|].
    cbv zeta.
    match goal with |- exists r, rbind (writeEBML_all ?b2 off children) _ = _ =>
      destruct (writeEBML_all_accepts off children IH b2 Hok) as [[b3 r3] ->];
      cbn [rbind]
    end.
    destruct (_ && _); eexists; reflexivity.
  - cbn [writeEBML ebml_ok]. intros [Hnz Hl].
    destruct (Z.eqb_spec (id hd) 0) as [Hz|_]; [contradiction|].
    cbv zeta.
    match goal with |- exists r, rbind (writeLeaf ?b1 off ?hd1 data) _ = _ =>
      destruct (writeLeaf_accepts b1 off hd1 data) as [[b2 hd2] ->]; cbn [rbind]
    end.
    + exact Hl.
    + eexists. reflexivity.
Qed.

Lemma writeLeaf_id b off hd data b' hd' :
  writeLeaf b off hd data = Ok (b', hd') -> id hd' = id hd.
Proof.
  unfold writeLeaf.
  destruct data as [s|n|bits|bits|bs|]; try discriminate;
    match goal with |- rbind (writeEBMLVarInt b ?z) _ = _ -> _ =>
      destruct (writeEBMLVarInt b z) as [b1|e] eqn:Hv; [|discriminate] end;
    cbn [rbind]; intros H; injection H as _ <-; try reflexivity.
  destruct (size_falsy hd); reflexivity.
Qed.

Lemma writeEBML_all_skeleton off items :
  Forall (fun t => forall buffer b' t',
            writeEBML buffer off t = Ok (b', t') -> skeleton t' = skeleton t) items ->
  forall buffer b' items',
    writeEBML_all buffer off items = Ok (b', items') ->
    map skeleton items' = map skeleton items.
Proof.
  induction 1 as [|t items Ht Hall IH]; intros buffer b' items'; cbn [writeEBML_all].
  - intros H. injection H as _ <-. reflexivity.
  - destruct (writeEBML buffer off t) as [[b1 t1]|e] eqn:H1; [|discriminate].
    cbn [rbind].
    destruct (writeEBML_all b1 off items) as [[b2 r2]|e] eqn:H2; [|discriminate].
    cbn [rbind]. intros H. injection H as _ <-. cbn [map].
    rewrite (Ht _ _ _ H1), (IH _ _ _ H2). reflexivity.
Qed.

Lemma writeEBML_skeleton_step off t : forall buffer b' t',
  writeEBML buffer off t = Ok (b', t') -> skeleton t' = skeleton t.
Proof.
  induction t as [items IH|s|bs|hd children IH|hd data] using EBML_ind;
    intros buffer b' t'.
  - rewrite writeEBML_EArray.
    destruct (writeEBML_all buffer off items) as [[b1 r1]|e] eqn:H1; [|discriminate].
    cbn [rbind fst snd]. intros H. injection H as _ <-. cbn [skeleton].
    f_equal. eapply writeEBML_all_skeleton; eassumption.
  - cbn [writeEBML]. intros H. injection H as _ <-. reflexivity.
  - cbn [writeEBML]. intros H. injection H as _ <-. reflexivity.
  - rewrite writeEBML_EList. destruct (id hd =? 0); [discriminate|]. cbv zeta.
    match goal with |- rbind (writeEBML_all ?b2 off children) _ = _ -> _ =>
      destruct (writeEBML_all b2 off children) as [[b3 r3]|e] eqn:H3; [|discriminate]
    end.
    cbn [rbind fst snd].
    destruct (_ && _); intros H; injection H as _ <-; cbn [skeleton id set_size
      set_dataOffset set_offset]; f_equal; eapply writeEBML_all_skeleton; eassumption.
  - cbn [writeEBML]. destruct (id hd =? 0); [discriminate|]. cbv zeta.
    match goal with |- rbind (writeLeaf ?b1 off ?hd1 data) _ = _ -> _ =>
      destruct (writeLeaf b1 off hd1 data) as [[b2 hd2]|e] eqn:H2; [|discriminate]
    end.
    cbn [rbind]. intros H. injection H as _ <-. cbn [skeleton].
    rewrite (writeLeaf_id _ _ _ _ _ _ H2). reflexivity.
Qed.
End Acceptance.
Section Encoding.
Implicit Types (s b buffer : Stream) (off : Z) (t : EBML) (items : list EBML)
  (hd : Header) (data : Payload) (bs : list Z).

Lemma encode_all_eq items :
  (fix all (l : list EBML) : list Z :=
     match l with
     | [] => []
     | x :: r => encode x ++ all r
     end) items = encode_all items.
Proof. induction items as [|x r IH]; cbn; [reflexivity | rewrite IH; reflexivity]. Qed.

Lemma encode_EArray items : encode (EArray items) = encode_all items.
Proof. cbn [encode]. apply encode_all_eq. Qed.

Lemma encode_EList hd items :
  encode (EList hd items) =
    bytesBE (measureUnsignedInt (id hd)) (id hd) ++ size_field hd ++ encode_all items.
Proof. cbn [encode]. rewrite encode_all_eq. reflexivity. Qed.

Lemma stream_bytes_app s p n1 n2 :
  stream_bytes s p (n1 + n2) = stream_bytes s p n1 ++ stream_bytes s (p + n1) n2.
Proof.
  unfold stream_bytes. rewrite <- take_take_drop, drop_drop. reflexivity.
Qed.

Lemma appended_refl s : appended s s [].
Proof.
  split; [cbn; lia|]. split; [apply same_below_refl|]. intros _. reflexivity.
Qed.

Lemma appended_writeBytes s bs : appended s (writeBytes s bs) bs.
Proof.
  split; [apply writeBytes_pos|]. split; [apply writeBytes_below; lia|].
  intros Hroom. apply writeBytes_read.
  rewrite writeBytes_pos, writeBytes_length in Hroom. exact Hroom.
Qed.

Lemma appended_trans s s1 s2 bs1 bs2 :
  appended s s1 bs1 -> appended s1 s2 bs2 -> appended s s2 (bs1 ++ bs2).
Proof.
  intros [Hp1 [Hs1 Hb1]] [Hp2 [Hs2 Hb2]]. unfold appended. rewrite length_app.
  split; [lia|]. split.
  - eapply same_below_trans; [exact Hs1|]. eapply same_below_le; [|exact Hs2]. lia.
  - intros Hroom. rewrite stream_bytes_app. f_equal.
    + rewrite (same_below_bytes (s_pos s1) s1 s2) by (try exact Hs2; lia).
      apply Hb1. destruct Hs2 as [Hl _]. lia.
    + rewrite <- Hp1. apply Hb2. exact Hroom.
Qed.

(** A block written earlier is replaced by one of the same length, the
    cursor put back at the end. *)
Lemma appended_overwrite s s3 pre old new post :
  appended s s3 (pre ++ old ++ post) -> length new = length old ->
  appended s
    (streamSeek (writeBytes (streamSeek s3 (s_pos s + length pre)) new) (s_pos s3))
    (pre ++ new ++ post).
Proof.
  intros [Hp [Hs Hb]] Hlen. unfold appended. rewrite !length_app in *.
  set (sf := streamSeek _ (s_pos s3)).
  assert (Hdata : s_data sf
                  = s_data (writeBytes (streamSeek s3 (s_pos s + length pre)) new))
    by reflexivity.
  assert (Hl : length (s_data sf) = length (s_data s3))
    by (rewrite Hdata, writeBytes_length; reflexivity).
  split; [cbn; lia|]. split.
  - destruct Hs as [Hl3 Hlk]. split; [congruence|].
    intros i Hi. rewrite Hdata, writeBytes_lookup. cbn [s_pos s_data streamSeek].
    case_decide; [lia|]. apply Hlk. exact Hi.
  - intros Hroom. rewrite Hl in Hroom. unfold sf in Hroom.
    cbn [s_pos streamSeek] in Hroom.
    specialize (Hb ltac:(lia)).
    apply list_eq. intros j.
    assert (Hj : stream_bytes sf (s_pos s) (length pre + (length new + length post)) !! j
                 = if decide (j < length pre + (length new + length post))%nat
                   then s_data sf !! (s_pos s + j)%nat else None).
    { unfold stream_bytes. case_decide.
      - rewrite lookup_take_lt by lia. apply lookup_drop.
      - apply lookup_take_ge. lia. }
    rewrite Hj. clear Hj.
    assert (Hj3 : forall k, (k < length pre + (length old + length post))%nat ->
                  s_data s3 !! (s_pos s + k)%nat = (pre ++ old ++ post) !! k).
    { intros k Hk. rewrite <- Hb. unfold stream_bytes.
      rewrite lookup_take_lt by lia. rewrite lookup_drop. reflexivity. }
    case_decide as Hjin.
    + rewrite Hdata, writeBytes_lookup. cbn [s_pos s_data streamSeek].
      case_decide as Hin.
      * rewrite lookup_app_r by lia. rewrite lookup_app_l by lia. f_equal. lia.
      * rewrite Hj3 by lia.
        destruct (decide (j < length pre)%nat) as [Hpre|Hpre].
        -- rewrite !lookup_app_l by lia. reflexivity.
        -- rewrite !(lookup_app_r pre) by lia.
           rewrite !lookup_app_r by lia. f_equal. lia.
    + symmetry. apply lookup_ge_None. rewrite !length_app. lia.
Qed.

Lemma appended_writeEBMLVarInt b z b1 :
  writeEBMLVarInt b z = Ok b1 ->
  appended b b1 (ebmlVarIntBytes z (varint_width z)).
Proof.
  intros H. apply writeEBMLVarInt_Ok in H as [w [Hw ->]].
  unfold varint_width. rewrite Hw. apply appended_writeBytes.
Qed.

Lemma writeLeaf_encoding b off hd data b' hd' :
  writeLeaf b off hd data = Ok (b', hd') ->
  appended b b'
    (ebmlVarIntBytes (declared_size hd' data) (varint_width (declared_size hd' data))
       ++ payload_bytes hd' data).
Proof.
  unfold writeLeaf.
  destruct data as [s|n|bits|bits|bs|]; try discriminate;
    match goal with |- rbind (writeEBMLVarInt b ?z) _ = _ -> _ =>
      destruct (writeEBMLVarInt b z) as [b1|e] eqn:Hv; [|discriminate] end;
    apply appended_writeEBMLVarInt in Hv;
    cbn [rbind]; intros H; injection H as <- <-;
    cbn [declared_size payload_bytes size set_dataOffset];
    (eapply appended_trans; [exact Hv | apply appended_writeBytes]).
Qed.

Lemma writeEBML_all_encoding off items :
  Forall (fun t => forall buffer b' t',
            writeEBML buffer off t = Ok (b', t') -> appended buffer b' (encode t')) items ->
  forall buffer b' items',
    writeEBML_all buffer off items = Ok (b', items') ->
    appended buffer b' (encode_all items').
Proof.
  induction 1 as [|t items Ht Hall IH]; intros buffer b' items'; cbn [writeEBML_all].
  - intros H. injection H as <- <-. apply appended_refl.
  - destruct (writeEBML buffer off t) as [[b1 t1]|e] eqn:H1; [|discriminate].
    cbn [rbind].
    destruct (writeEBML_all b1 off items) as [[b2 r2]|e] eqn:H2; [|discriminate].
    cbn [rbind]. intros H. injection H as <- <-. cbn [encode_all].
    eapply appended_trans; [eapply Ht; exact H1 | eapply IH; exact H2].
Qed.

Lemma writeEBML_encoding_step off t : forall buffer b' t',
  writeEBML buffer off t = Ok (b', t') -> appended buffer b' (encode t').
Proof.
  induction t as [items IH|s|bs|hd children IH|hd data] using EBML_ind;
    intros buffer b' t'.
  - rewrite writeEBML_EArray.
    destruct (writeEBML_all buffer off items) as [[b1 r1]|e] eqn:H1; [|discriminate].
    cbn [rbind fst snd]. intros H. injection H as <- <-. rewrite encode_EArray.
    eapply writeEBML_all_encoding; eassumption.
  - cbn [writeEBML]. intros H. injection H as <- <-. apply appended_writeBytes.
  - cbn [writeEBML]. intros H. injection H as <- <-. apply appended_writeBytes.
  - rewrite writeEBML_EList. destruct (id hd =? 0); [discriminate|]. cbv zeta.
    set (idb := bytesBE (measureUnsignedInt (id hd)) (id hd)).
    set (b1 := writeUnsignedIntBE buffer (id hd) None).
    set (hd1 := set_offset hd (Z.of_nat (s_pos buffer) + off)).
    set (b2 := writePlaceholder b1 hd1).
    assert (H01 : appended buffer b1 idb) by apply appended_writeBytes.
    destruct (writeEBML_all b2 off children) as [[b3 r3]|e] eqn:H3; [|discriminate].
    cbn [rbind fst snd].
    pose proof (writeEBML_all_encoding off children IH _ _ _ H3) as H23.
    rewrite !size_is_set_dataOffset. unfold hd1. rewrite !size_is_set_offset.
    destruct (size_is hd EBML_SIZE_UNKNOWN) eqn:Hu;
      [|destruct (size_is hd EBML_SIZE_UNKNOWN_5_BYTES) eqn:Hu5];
      cbn [negb andb]; intros H; injection H as <- <-; rewrite encode_EList.
    + set (hd' := set_dataOffset _ _).
      assert (Hf : size_field hd' = [0xFF])
        by (unfold size_field; change (size_is hd' EBML_SIZE_UNKNOWN)
              with (size_is hd EBML_SIZE_UNKNOWN); rewrite Hu; reflexivity).
      rewrite Hf. change (id hd') with (id hd). fold idb.
      eapply appended_trans; [exact H01|]. eapply appended_trans; [|exact H23].
      unfold b2, writePlaceholder, hd1. rewrite size_is_set_offset, Hu.
      apply (appended_writeBytes b1 [0xFF]).
    + set (hd' := set_dataOffset _ _).
      assert (Hf : size_field hd' = [0x0F; 0xFF; 0xFF; 0xFF; 0xFF]).
      { unfold size_field.
        change (size_is hd' EBML_SIZE_UNKNOWN) with (size_is hd EBML_SIZE_UNKNOWN).
        change (size_is hd' EBML_SIZE_UNKNOWN_5_BYTES)
          with (size_is hd EBML_SIZE_UNKNOWN_5_BYTES).
        rewrite Hu, Hu5. reflexivity. }
      rewrite Hf. change (id hd') with (id hd). fold idb.
      eapply appended_trans; [exact H01|]. eapply appended_trans; [|exact H23].
      unfold b2, writePlaceholder, hd1. rewrite !size_is_set_offset, Hu, Hu5.
      apply appended_writeBytes.
    + set (payload := Z.of_nat (s_pos b3) - Z.of_nat (s_pos b2)).
      set (hd' := set_size _ payload).
      assert (H12 : appended b1 b2 [0; 0; 0; 0]).
      { unfold b2, writePlaceholder, hd1. rewrite !size_is_set_offset, Hu, Hu5.
        apply appended_writeBytes. }
      assert (Hge : 0 <= payload) by (destruct H23 as [Hp _]; lia).
      assert (Hf : size_field hd' = ebmlVarIntBytes payload 4).
      { unfold size_field, size_is, hd'. cbn [size set_size].
        replace (payload =? EBML_SIZE_UNKNOWN) with false
          by (symmetry; apply Z.eqb_neq; unfold EBML_SIZE_UNKNOWN; lia).
        replace (payload =? EBML_SIZE_UNKNOWN_5_BYTES) with false
          by (symmetry; apply Z.eqb_neq; unfold EBML_SIZE_UNKNOWN_5_BYTES; lia).
        reflexivity. }
      rewrite Hf. change (id hd') with (id hd). fold idb.
      assert (H03 : appended buffer b3 (idb ++ [0; 0; 0; 0] ++ encode_all r3)).
      { eapply appended_trans; [exact H01|]. eapply appended_trans; eassumption. }
      pose proof (appended_overwrite buffer b3 idb [0; 0; 0; 0]
                    (ebmlVarIntBytes payload 4) (encode_all r3) H03
                    ltac:(unfold ebmlVarIntBytes; rewrite length_bytesBE; reflexivity))
        as Hover.
      replace (s_pos buffer + length idb)%nat with (s_pos b1) in Hover
        by (destruct H01 as [Hp _]; lia).
      exact Hover.
  - cbn [writeEBML]. destruct (id hd =? 0); [discriminate|]. cbv zeta.
    destruct (writeLeaf _ off _ data) as [[b2 hd2]|e] eqn:H2; [|discriminate].
    cbn [rbind]. intros H. injection H as <- <-. cbn [encode].
    rewrite (writeLeaf_id _ _ _ _ _ _ H2). cbn [id set_offset].
    eapply appended_trans; [apply appended_writeBytes|].
    eapply writeLeaf_encoding. exact H2.
Qed.
End Encoding.

(** X9. The fields that [writeEBML] fills in agree with the bytes it
    writes, at every depth of the tree: the cursor moves by the encoded
    length of the tree, every element has its [offset] where its id
    starts and its [dataOffset] after its size field, the elements of a
    list follow one another, and a list element whose size is not one of
    the UNKNOWN marks ends with [size] equal to the bytes its children
    take. *)
Theorem writeEBML_layout (buffer : Stream) (off : Z) (t : EBML)
  (b' : Stream) (t' : EBML)
  (Hw : writeEBML buffer off t = Ok (b', t')) :
  s_pos b' = (s_pos buffer + encoded_length t')%nat /\
  laid_out (Z.of_nat (s_pos buffer) + off) t'.
Proof. exact (writeEBML_layout_step off t buffer b' t' Hw). Qed.

Lemma writeEBML_layout_witness :
  exists b' t',
    writeEBML (newStream 64) 1000 (cuePoint 1 5000 300) = Ok (b', t') /\
    s_pos b' = 21%nat /\ laid_out 1000 t'.
Proof.
  destruct (writeEBML (newStream 64) 1000 (cuePoint 1 5000 300)) as [[b' t']|e] eqn:Hw;
    [|vm_compute in Hw; discriminate].
  exists b', t'. split; [reflexivity|].
  destruct (writeEBML_layout _ _ _ _ _ Hw) as [Hp Hl].
  split; [vm_compute in Hw; injection Hw as <- <-; reflexivity | exact Hl].
Defined.

(** X10. The bytes that [writeEBML] leaves in a stream with room for them
    are the EBML encoding of the tree it returns: for each element the id,
    the size field (the unknown-size marks, or the varint of the size
    patched in once the children are written) and the payload, the
    elements of a list one after the other. What the stream held before
    the cursor is kept. *)
Theorem writeEBML_bytes (buffer : Stream) (off : Z) (t : EBML)
  (b' : Stream) (t' : EBML)
  (Hw : writeEBML buffer off t = Ok (b', t'))
  (Hroom : (s_pos b' <= length (s_data b'))%nat) :
  stream_bytes b' (s_pos buffer) (encoded_length t') = encode t' /\
  length (encode t') = encoded_length t' /\
  same_below (s_pos buffer) buffer b'.
Proof.
  destruct (writeEBML_encoding_step off t buffer b' t' Hw) as [Hp [Hs Hb]].
  destruct (writeEBML_layout_step off t buffer b' t' Hw) as [Hp' _].
  assert (Hlen : length (encode t') = encoded_length t') by lia.
  split; [|split; [exact Hlen | exact Hs]].
  rewrite <- Hlen. apply Hb. exact Hroom.
Qed.

Lemma writeEBML_bytes_witness :
  exists b' t',
    writeEBML (newStream 64) 1000 (cuePoint 1 5000 300) = Ok (b', t') /\
    stream_bytes b' 0 (encoded_length t') = encode t' /\
    encode t' = [0xBB; 0x10; 0; 0; 0x10; 0xB3; 0x82; 0x13; 0x88; 0xB7; 0x10; 0; 0; 7;
                 0xF7; 0x81; 1; 0xF1; 0x82; 1; 0x2C].
Proof.
  destruct (writeEBML (newStream 64) 1000 (cuePoint 1 5000 300)) as [[b' t']|e] eqn:Hw;
    [|vm_compute in Hw; discriminate].
  exists b', t'. split; [reflexivity|].
  assert (Hroom : (s_pos b' <= length (s_data b'))%nat)
    by (vm_compute in Hw; injection Hw as <- <-; vm_compute; lia).
  destruct (writeEBML_bytes _ _ _ _ _ Hw Hroom) as [Hb _].
  split; [exact Hb|]. vm_compute in Hw. injection Hw as <- <-. reflexivity.
Defined.

(** X12. [writeEBML] changes nothing of a tree but the fields [offset],
    [dataOffset] and [size]: the ids, the data and the order of the
    elements of the tree it returns are those of the tree it was given. *)
Theorem writeEBML_keeps_tree (buffer : Stream) (off : Z) (t : EBML)
  (b' : Stream) (t' : EBML)
  (Hw : writeEBML buffer off t = Ok (b', t')) :
  skeleton t' = skeleton t.
Proof. exact (writeEBML_skeleton_step off t buffer b' t' Hw). Qed.

Lemma writeEBML_keeps_tree_witness :
  exists b' t',
    writeEBML (newStream 64) 1000 (cuePoint 1 5000 300) = Ok (b', t') /\
    skeleton t' = skeleton (cuePoint 1 5000 300).
Proof.
  destruct (writeEBML (newStream 64) 1000 (cuePoint 1 5000 300)) as [[b' t']|e] eqn:Hw;
    [|vm_compute in Hw; discriminate].
  exists b', t'. split; [reflexivity|]. exact (writeEBML_keeps_tree _ _ _ _ _ Hw).
Defined.

(** ** The muxer never throws *)

Section SinkSuccess.
Implicit Types (m : Muxer) (s : Stream).

(** [blobBuffer.write(stream.getAsDataArray())] on a fulfilled chain, at
    the end of the file or inside a chunk: the write is accepted. *)
Lemma blob_write_ok m s :
  sink_inv (heap m) (blobBuffer m) -> chain_ok m ->
  getAsDataArray s <> [] ->
  pos (blobBuffer m) = length_ (blobBuffer m) \/
  in_one_chunk (buffer (blobBuffer m)) (pos (blobBuffer m))
    (Z.of_nat (length (getAsDataArray s))) ->
  exists m', blob_write m s = Ok m' /\ chain_ok m'.
Proof.
  intros Hinv Hchain Hne Hwhere. unfold blob_write, heap_alloc.
  remember (heap m ++ [s_data s]) as h1 eqn:Hh1.
  remember (DUint8Array (mkView (length (heap m)) 0 (length (getAsDataArray s))))
    as d eqn:Hd.
  destruct (sink_inv_alloc _ _ (s_data s) Hinv) as [Hinv1 Him1].
  rewrite <- Hh1 in Hinv1, Him1.
  assert (Hbytes : data_bytes h1 d = getAsDataArray s).
  { subst d h1. simpl. unfold view_bytes. simpl.
    rewrite heap_buffer_alloc, drop_0. apply take_length_take. }
  assert (Hexact : byte_exact h1 d).
  { unfold byte_exact. rewrite Hbytes. subst d. unfold measureData. simpl.
    destruct (getAsDataArray s); [contradiction | reflexivity]. }
  assert (Hfresh : forall id, data_buffer d = Some id ->
                     id ∉ buffers_of (buffer (blobBuffer m))).
  { intros id Hid Hin. subst d. injection Hid as <-.
    pose proof (tiles_alloc _ _ _ _ (inv_tiles _ _ Hinv) Hin). lia. }
  clear Hd Hh1.
  destruct (write_cases h1 (blobBuffer m) d Hinv1 Hchain Hexact Hfresh)
    as [[_ [Hw _]]|[[_ [_ [_ [Hw _]]]]|[[_ Hhit]|[Hlt [Hnot _]]]]].
  - rewrite Hw. eexists. split; reflexivity.
  - rewrite Hw. eexists. split; reflexivity.
  - destruct Hhit as (pre & e & post & h' & e' & _ & _ & _ & _ & _ & _ & _ & Hw & _).
    rewrite Hw. eexists. split; reflexivity.
  - exfalso. destruct Hwhere as [Hend|Hin]; [lia|].
    apply Hnot. rewrite Hbytes. exact Hin.
Qed.

Lemma blob_seek_ok m off :
  0 <= off <= length_ (blobBuffer m) ->
  blob_seek m off =
    Ok (set_sink m (heap m)
          (mkBlobBuffer (buffer (blobBuffer m)) (writePromise (blobBuffer m))
             (dest (blobBuffer m)) off (length_ (blobBuffer m)))).
Proof.
  intros Hoff. unfold blob_seek, seek. cbn [js_lt js_isNaN js_gt].
  destruct (Z.ltb_spec off 0); [lia|].
  destruct (Z.ltb_spec (length_ (blobBuffer m)) off); [lia|]. reflexivity.
Qed.

(** The first chunk holds every range below its length. *)
Lemma header_chunk_holds bb len0 off n :
  header_chunk bb len0 -> 0 <= off -> off + n <= len0 ->
  in_one_chunk (buffer bb) off n.
Proof.
  intros [rest Hs] H0 Hn. destruct (buffer bb) as [|e0 buf] eqn:Hb; [discriminate|].
  unfold shape in Hs. rewrite fmap_cons in Hs. injection Hs as Ho Hl _.
  exists e0. split; [apply elem_of_cons; auto|]. unfold contains. lia.
Qed.

(** A patch that the header chunk holds goes through. *)
Lemma patch_ok m off s len0 :
  mux_inv m -> writtenHeader m = true -> chain_ok m ->
  header_chunk (blobBuffer m) len0 ->
  getAsDataArray s <> [] ->
  0 <= off -> off + Z.of_nat (length (getAsDataArray s)) <= len0 ->
  exists m', patch m off s = Ok m' /\ chain_ok m'.
Proof.
  intros Hinv Hw Hchain Hc Hne H0 Hfit. unfold patch.
  assert (Hlen0 : len0 <= length_ (blobBuffer m)).
  { apply (header_chunk_bound (heap m)); [apply (mi_sink _ Hinv) | exact Hc|].
    destruct (getAsDataArray s); [contradiction | cbn [length] in Hfit; lia]. }
  rewrite (blob_seek_ok m off) by lia. cbn [rbind].
  set (m1 := set_sink m _ _).
  assert (Hsink1 : sink_inv (heap m1) (blobBuffer m1)).
  { unfold m1. cbn. destruct (mi_sink _ Hinv). constructor; cbn; auto. lia. }
  destruct (blob_write_ok m1 s Hsink1 Hchain Hne) as [m2 [Hw2 Hc2]].
  { right. unfold m1. cbn. eapply header_chunk_holds; eassumption. }
  rewrite Hw2. cbn [rbind].
  destruct (blob_write_spec m1 s m2 Hsink1 Hw2 Hc2)
    as [_ [_ [_ [_ [_ [Hlen2 _]]]]]].
  unfold m1 in Hlen2. cbn in Hlen2.
  rewrite (blob_seek_ok m2 (pos (blobBuffer m))).
  - eexists. split; [reflexivity|]. exact Hc2.
  - pose proof (inv_pos _ _ (mi_sink _ Hinv)). lia.
Qed.
End SinkSuccess.
Section WellFormedSteps.
Implicit Types (m : Muxer) (s : Stream).

Lemma header_chunk_unique bb len0 len1 :
  header_chunk bb len0 -> header_chunk bb len1 -> len0 = len1.
Proof. intros [r0 H0] [r1 H1]. congruence. Qed.

(** A write that is accepted keeps the header chunk. *)
Lemma blob_write_chunk m s m' len0 :
  sink_inv (heap m) (blobBuffer m) -> blob_write m s = Ok m' -> chain_ok m' ->
  header_chunk (blobBuffer m) len0 -> header_chunk (blobBuffer m') len0.
Proof.
  intros Hinv Hw Hok Hc.
  destruct (blob_write_spec m s m' Hinv Hw Hok) as [_ [_ [_ [_ [_ [_ [_ [_ Hshape]]]]]]]].
  eapply header_chunk_shape; [exact Hshape | exact Hc].
Qed.

Lemma patch_chunk m off s m' len0 :
  mux_inv m -> patch m off s = Ok m' -> chain_ok m' ->
  header_chunk (blobBuffer m) len0 -> header_chunk (blobBuffer m') len0.
Proof.
  intros Hinv. unfold patch.
  destruct (blob_seek m off) as [m1|e] eqn:H1; [|discriminate]. cbn [rbind].
  destruct (blob_write m1 s) as [m2|e] eqn:H2; [|discriminate]. cbn [rbind].
  intros H3 Hok Hc.
  destruct (blob_seek_spec _ _ _ H1) as [Hoff [_ [Hh1 Hb1]]].
  destruct (blob_seek_spec _ _ _ H3) as [_ [_ [Hh3 Hb3]]].
  assert (Hok2 : chain_ok m2) by (unfold chain_ok in *; rewrite Hb3 in Hok; exact Hok).
  assert (Hsink1 : sink_inv (heap m1) (blobBuffer m1)).
  { rewrite Hh1, Hb1. destruct (mi_sink _ Hinv). constructor; cbn; auto. }
  assert (Hc1 : header_chunk (blobBuffer m1) len0) by (rewrite Hb1; exact Hc).
  pose proof (blob_write_chunk m1 s m2 len0 Hsink1 H2 Hok2 Hc1) as Hc2.
  rewrite Hb3. exact Hc2.
Qed.

(** The invariant goes over to a muxer with the same fields and the same
    header chunk. *)
Lemma getAsDataArray_nonempty s :
  (0 < s_pos s)%nat -> (0 < length (s_data s))%nat -> getAsDataArray s <> [].
Proof.
  intros Hp Hl. unfold getAsDataArray. intros Hnil.
  apply (f_equal (@length Z)) in Hnil. rewrite length_take in Hnil. cbn in Hnil. lia.
Qed.

Lemma image_length m :
  mux_inv m -> Z.of_nat (length (mux_image m)) = length_ (blobBuffer m).
Proof.
  intros Hinv.
  pose proof (length_image _ _ _ (inv_tiles _ _ (mi_sink _ Hinv))) as Hl.
  rewrite (inv_extent _ _ (mi_sink _ Hinv)) in Hl. exact Hl.
Qed.

Lemma header_long m :
  mux_wf m -> writtenHeader m = true -> (183 <= length (mux_image m))%nat.
Proof.
  intros Hwf Hw. destruct (wf_header _ Hwf Hw) as [[len0 [Hc Hl]] _].
  pose proof (header_chunk_bound _ _ _ (mi_sink _ (wf_inv _ Hwf)) Hc ltac:(lia)).
  pose proof (image_length m (wf_inv _ Hwf)). lia.
Qed.

Lemma appends_to_refl m : appends_to m m.
Proof. exists []. symmetry. apply app_nil_r. Qed.

Lemma appends_to_trans m1 m2 m3 :
  appends_to m1 m2 -> appends_to m2 m3 -> appends_to m1 m3.
Proof.
  intros [t1 H1] [t2 H2]. exists (t1 ++ t2). rewrite H2, H1. symmetry. apply app_assoc.
Qed.

Lemma kept_refl (f : list Z) : kept f f.
Proof. split; [lia | reflexivity]. Qed.

Lemma kept_trans (f1 f2 f3 : list Z) : kept f1 f2 -> kept f2 f3 -> kept f1 f3.
Proof.
  intros [Hl1 H1] [Hl2 H2]. split; [lia|].
  intros i Hi Hout. rewrite H2 by (lia || exact Hout). apply H1; assumption.
Qed.

Lemma kept_app (f tail : list Z) : kept f (f ++ tail).
Proof.
  split; [rewrite length_app; lia|]. intros i Hi _. apply lookup_app_l. exact Hi.
Qed.

Lemma kept_splice (f bs : list Z) (a : nat) :
  (a + length bs <= length f)%nat ->
  (forall i, (a <= i < a + length bs)%nat -> in_patched_field i) ->
  kept f (splice f a bs).
Proof.
  intros Hfit Hin. split; [rewrite length_splice; lia|].
  intros i Hi Hout. apply splice_outside; [exact Hfit|].
  destruct (decide (i < a)%nat); [lia|].
  destruct (decide (a + length bs <= i)%nat); [lia|].
  exfalso. apply Hout, Hin. lia.
Qed.

(** A window of the file that the patches do not meet. *)
Lemma kept_window (f f' : list Z) (a n : nat) :
  kept f f' -> (a + n <= length f)%nat ->
  (forall i, (a <= i < a + n)%nat -> ~ in_patched_field i) ->
  take n (drop a f') = take n (drop a f).
Proof.
  intros [Hl Hk] Hfit Hout. apply list_eq. intros i.
  destruct (decide (i < n)%nat) as [Hi|Hi].
  - rewrite !lookup_take_lt by exact Hi. rewrite !lookup_drop.
    apply Hk; [lia | apply Hout; lia].
  - rewrite !lookup_take_ge by lia. reflexivity.
Qed.

Lemma header_bytes_kept (f f' : list Z) :
  kept f f' -> (183 <= length f)%nat -> header_bytes_ok f -> header_bytes_ok f'.
Proof.
  intros Hk Hl (H0 & H1 & H2). unfold header_bytes_ok, in_patched_field.
  rewrite <- H0, <- H1, <- H2.
  split; [|split]; [change (take 39 f') with (take 39 (drop 0 f'));
                    change (take 39 f) with (take 39 (drop 0 f))|..];
    (apply kept_window; [exact Hk | lia | unfold in_patched_field; lia]).
Qed.

Lemma window_length (f bs : list Z) (a n : nat) :
  take n (drop a f) = bs -> length bs = n -> (0 < n)%nat -> (a + n <= length f)%nat.
Proof.
  intros <-. rewrite length_take, length_drop. lia.
Qed.

Lemma cue_ok_kept (f f' : list Z) cue : kept f f' -> cue_ok f cue -> cue_ok f' cue.
Proof.
  intros Hk (t & p & Hs & Hp & Hb). exists t, p. split; [exact Hs|]. split; [exact Hp|].
  rewrite <- Hb. apply kept_window; [exact Hk | |unfold in_patched_field; lia].
  apply (window_length f cluster_id_bytes); [exact Hb | reflexivity | lia].
Qed.

(** What the invariant says of the header. *)
Lemma wf_seekHead m :
  mux_wf m -> writtenHeader m = true ->
  exists len0 hd seeks p,
    header_chunk (blobBuffer m) len0 /\ 183 <= len0 /\
    dataOffset (segmentDuration m) = Some 171 /\
    seekHead m = Some (EList hd seeks) /\
    size hd = Some 63 /\ dataOffset hd = Some 56 /\
    length seeks = 3%nat /\ Forall seek_entry_ok seeks /\
    map seek_entry_data seeks = seek_targets p.
Proof.
  intros Hwf Hw.
  destruct (wf_header _ Hwf Hw)
    as [[len0 [Hc Hl]] [Hd (hd & seeks & Hsh & Hsz & Hdo & Hlen & Hseeks)]].
  destruct (wf_seeks _ Hwf Hw) as (hd' & seeks' & p & Hsh' & Hdata).
  rewrite Hsh in Hsh'. injection Hsh' as <- <-.
  exists len0, hd, seeks, p. auto 10.
Qed.

(** The invariant goes over to a muxer with the same fields and the same
    header chunk whose file has kept the bytes. *)
Lemma mux_wf_transfer m m' :
  mux_wf m -> writtenHeader m = true ->
  mux_inv m' -> chain_ok m' -> same_fields m m' ->
  (forall len0, header_chunk (blobBuffer m) len0 -> header_chunk (blobBuffer m') len0) ->
  kept (mux_image m) (mux_image m') ->
  mux_wf m'.
Proof.
  intros Hwf Hw Hinv' Hok' Hsame Hchunk Hkept.
  pose proof (header_long m Hwf Hw) as Hlong.
  destruct Hsame as [Ho [Hh [Hb [Hst [Hdu [Hseg [Hdur [Hsh Hcu]]]]]]]].
  destruct Hwf as [_ _ Hopt Hfr Hcues Hhd Hbytes Hseeks Htargets].
  constructor; try assumption.
  - rewrite Ho. exact Hopt.
  - rewrite Hb. exact Hfr.
  - rewrite Hcu. exact Hcues.
  - intros _. destruct (Hhd Hw) as [[len0 [Hc Hl]] [Hd Hs]].
    split; [exists len0; split; [apply Hchunk; exact Hc | exact Hl]|].
    rewrite Hdur, Hsh. split; assumption.
  - intros _. exact (header_bytes_kept _ _ Hkept Hlong (Hbytes Hw)).
  - intros _. rewrite Hsh. exact (Hseeks Hw).
  - rewrite Hcu. eapply Forall_impl; [exact Htargets|].
    intros cue. apply cue_ok_kept. exact Hkept.
Qed.

(** A write at the end of the file of a muxer whose header is written. *)
Lemma append_step m s :
  mux_wf m -> writtenHeader m = true -> getAsDataArray s <> [] ->
  exists m', blob_write m s = Ok m' /\ mux_wf m' /\ same_fields m m' /\
    mux_image m' = mux_image m ++ getAsDataArray s.
Proof.
  intros Hwf Hw Hne. pose proof (wf_inv _ Hwf) as Hinv.
  destruct (blob_write_ok m s (mi_sink _ Hinv) (wf_chain _ Hwf) Hne)
    as [m' [Hbw Hok]]; [left; apply (mi_end _ Hinv)|].
  destruct (mux_inv_append m s m' Hinv Hw Hbw Hok) as [Hinv' [_ [Hsame Him]]].
  exists m'. split; [exact Hbw|]. split; [|split; assumption].
  apply (mux_wf_transfer m m'); try assumption.
  - intros len0. apply (blob_write_chunk m s m'); try assumption. apply (mi_sink _ Hinv).
  - rewrite Him. apply kept_app.
Qed.

(** A patch of one of the three fields, in the header chunk. *)
Lemma patch_step m off s len0 :
  mux_wf m -> writtenHeader m = true -> header_chunk (blobBuffer m) len0 ->
  getAsDataArray s <> [] -> 0 <= off ->
  off + Z.of_nat (length (getAsDataArray s)) <= len0 ->
  (forall i, (Z.to_nat off <= i < Z.to_nat off + length (getAsDataArray s))%nat ->
             in_patched_field i) ->
  exists m', patch m off s = Ok m' /\ mux_wf m' /\ same_fields m m' /\
    mux_image m' = splice (mux_image m) (Z.to_nat off) (getAsDataArray s) /\
    (Z.to_nat off + length (getAsDataArray s) <= length (mux_image m))%nat.
Proof.
  intros Hwf Hw Hc Hne Hoff Hfit Hfield. pose proof (wf_inv _ Hwf) as Hinv.
  destruct (patch_ok m off s len0 Hinv Hw (wf_chain _ Hwf) Hc Hne)
    as [m' [Hp Hok]]; [lia | exact Hfit |].
  assert (Hin : forall l0, header_chunk (blobBuffer m) l0 -> 0 <= off < l0).
  { intros l0 Hl0. rewrite (header_chunk_unique _ _ _ Hl0 Hc).
    destruct (getAsDataArray s); [contradiction | cbn [length] in Hfit; lia]. }
  destruct (mux_inv_patch _ _ _ _ Hinv Hw Hin Hp Hok)
    as [Hinv' [_ [Hsame [Hlen [Hfit' Him]]]]].
  pose proof (image_length m Hinv) as Hil.
  assert (Hfits : (Z.to_nat off + length (getAsDataArray s) <= length (mux_image m))%nat)
    by lia.
  exists m'. split; [exact Hp|].
  split; [|split; [exact Hsame|split; [exact Him|exact Hfits]]].
  apply (mux_wf_transfer m m'); try assumption.
  - intros l0. apply (patch_chunk m off s m'); assumption.
  - rewrite Him. apply kept_splice; assumption.
Qed.

Lemma rewriteDuration_ok m :
  mux_wf m -> writtenHeader m = true ->
  exists m', rewriteDuration m = Ok m' /\ mux_wf m' /\ same_fields m m' /\
    mux_image m' =
      splice (mux_image m) 171 (bytesBE 8 (double_bits (clusterStartTime m))).
Proof.
  intros Hwf Hw. destruct (wf_header _ Hwf Hw) as [[len0 [Hc Hl]] [Hd _]].
  set (s := writeDoubleBE (newStream 8) (double_bits (clusterStartTime m))).
  assert (Hbytes : getAsDataArray s = bytesBE 8 (double_bits (clusterStartTime m)))
    by reflexivity.
  destruct (patch_step m 171 s len0 Hwf Hw Hc)
    as (m' & Hp & Hwf' & Hsame & Him & _);
    [rewrite Hbytes; discriminate | lia | rewrite Hbytes, length_bytesBE; lia
    | rewrite Hbytes, length_bytesBE; unfold in_patched_field; lia |].
  exists m'. split; [unfold rewriteDuration; rewrite Hd; exact Hp|].
  split; [exact Hwf'|]. split; [exact Hsame|]. rewrite Him, Hbytes. reflexivity.
Qed.

Lemma rewriteSegmentLength_ok m :
  mux_wf m -> writtenHeader m = true ->
  exists m', rewriteSegmentLength m = Ok m' /\ mux_wf m' /\ same_fields m m' /\
    mux_image m' =
      splice (mux_image m) 39
        (bytesBE 4 0x18538067 ++ ebmlVarIntBytes (length_ (blobBuffer m) - 48) 5).
Proof.
  intros Hwf Hw. destruct (wf_header _ Hwf Hw) as [[len0 [Hc Hl]] _].
  destruct (mi_header _ (wf_inv _ Hwf) Hw)
    as (len1 & seg & Hc1 & _ & Hseg & Hid & Hoff & Hdoff & _).
  set (s := writeEBMLVarIntWidth (writeUnsignedIntBE (newStream 10) 0x18538067 None)
              (pos (blobBuffer m) - 48) 5).
  assert (Hbytes : getAsDataArray s =
                   bytesBE 4 0x18538067 ++ ebmlVarIntBytes (pos (blobBuffer m) - 48) 5).
  { unfold s. apply segment_length_bytes. }
  assert (Hlen : length (getAsDataArray s) = 9%nat).
  { rewrite Hbytes. unfold ebmlVarIntBytes. rewrite length_app, !length_bytesBE.
    reflexivity. }
  destruct (patch_step m 39 s len0 Hwf Hw Hc)
    as (m' & Hp & Hwf' & Hsame & Him & _);
    [rewrite Hbytes; discriminate | lia | rewrite Hlen; lia
    | rewrite Hlen; unfold in_patched_field; lia |].
  exists m'. split.
  - unfold rewriteSegmentLength. rewrite Hseg, Hoff, Hdoff, Hid. exact Hp.
  - split; [exact Hwf'|]. split; [exact Hsame|].
    rewrite Him, Hbytes, (mi_end _ (wf_inv _ Hwf)). reflexivity.
Qed.
End WellFormedSteps.
Section WrittenTrees.
Implicit Types (b : Stream) (t : EBML).

Lemma measureUnsignedInt_ok n : varint_ok (Z.of_nat (measureUnsignedInt n)).
Proof.
  unfold varint_ok, measureUnsignedInt.
  repeat match goal with |- context [if ?c then _ else _] => destruct c end;
    cbn; lia.
Qed.

Lemma writeLeaf_keeps_ok b off hd data b' hd' :
  leaf_ok hd data -> writeLeaf b off hd data = Ok (b', hd') -> leaf_ok hd' data.
Proof.
  unfold writeLeaf.
  destruct data as [s|n|bits|bits|bs|]; try discriminate;
    intros Hok;
    match goal with |- rbind (writeEBMLVarInt b ?z) _ = _ -> _ =>
      destruct (writeEBMLVarInt b z) as [b1|e] eqn:Hv; [|discriminate] end;
    cbn [rbind]; intros H; injection H as _ <-; try exact Hok.
  unfold leaf_ok in *. unfold size_falsy at 1. cbn [size set_dataOffset].
  destruct (size_falsy hd) eqn:Hf; cbn [size set_size].
  - assert (Hm : (1 <= measureUnsignedInt n)%nat).
    { unfold measureUnsignedInt.
      repeat match goal with |- context [if ?c then _ else _] => destruct c end; lia. }
    destruct (Z.of_nat (measureUnsignedInt n) =? 0) eqn:H0; [lia|].
    apply measureUnsignedInt_ok.
  - unfold size_falsy in Hf. destruct (size hd) as [z|]; [|discriminate].
    rewrite Hf. exact Hok.
Qed.

Lemma writeEBML_all_keeps_ok off items :
  Forall (fun t => forall buffer b' t',
            ebml_ok t -> writeEBML buffer off t = Ok (b', t') -> ebml_ok t') items ->
  forall buffer b' items',
    ebml_ok_all items -> writeEBML_all buffer off items = Ok (b', items') ->
    ebml_ok_all items'.
Proof.
  induction 1 as [|t items Ht Hall IH]; intros buffer b' items'; cbn [writeEBML_all].
  - intros _ H. injection H as _ <-. exact I.
  - intros [Hok Hoks].
    destruct (writeEBML buffer off t) as [[b1 t1]|e] eqn:H1; [|discriminate].
    cbn [rbind].
    destruct (writeEBML_all b1 off items) as [[b2 r2]|e] eqn:H2; [|discriminate].
    cbn [rbind]. intros H. injection H as _ <-. cbn [ebml_ok_all].
    split; [exact (Ht _ _ _ Hok H1) | exact (IH _ _ _ Hoks H2)].
Qed.

(** A written tree is again a tree that the serializer accepts. *)
Lemma writeEBML_keeps_ok off t : forall buffer b' t',
  ebml_ok t -> writeEBML buffer off t = Ok (b', t') -> ebml_ok t'.
Proof.
  induction t as [items IH|s|bs|hd children IH|hd data] using EBML_ind;
    intros buffer b' t'.
  - rewrite writeEBML_EArray, ebml_ok_EArray. intros Hok.
    destruct (writeEBML_all buffer off items) as [[b1 r1]|e] eqn:H1; [|discriminate].
    cbn [rbind fst snd]. intros H. injection H as _ <-. rewrite ebml_ok_EArray.
    eapply writeEBML_all_keeps_ok; eassumption.
  - cbn [writeEBML]. intros _ H. injection H as _ <-. exact I.
  - cbn [writeEBML]. intros _ H. injection H as _ <-. exact I.
  - rewrite writeEBML_EList, ebml_ok_EList. intros [Hid Hok].
    destruct (id hd =? 0); [discriminate|]. cbv zeta.
    match goal with |- rbind (writeEBML_all ?b2 off children) _ = _ -> _ =>
      destruct (writeEBML_all b2 off children) as [[b3 r3]|e] eqn:H3; [|discriminate]
    end.
    cbn [rbind fst snd].
    destruct (_ && _); intros H; injection H as _ <-; rewrite ebml_ok_EList;
      cbn [id set_size set_dataOffset set_offset];
      (split; [exact Hid | eapply writeEBML_all_keeps_ok; eassumption]).
  - cbn [writeEBML ebml_ok]. intros [Hid Hok].
    destruct (id hd =? 0); [discriminate|]. cbv zeta.
    match goal with |- rbind (writeLeaf ?b1 off ?hd1 data) _ = _ -> _ =>
      destruct (writeLeaf b1 off hd1 data) as [[b2 hd2]|e] eqn:H2; [|discriminate]
    end.
    cbn [rbind]. intros H. injection H as _ <-. cbn [ebml_ok].
    rewrite (writeLeaf_id _ _ _ _ _ _ H2). cbn [id set_offset].
    split; [exact Hid|].
    eapply writeLeaf_keeps_ok; [|exact H2].
    destruct data; exact Hok.
Qed.

(** A written element with children: its object, with its place in the
    file. *)
Lemma written_list b off hd children b' t' :
  writeEBML b off (EList hd children) = Ok (b', t') ->
  exists hd' children', t' = EList hd' children' /\ id hd' = id hd /\
    offset hd' = Some (Z.of_nat (s_pos b) + off) /\
    dataOffset hd' =
      Some (Z.of_nat (s_pos b) + off
            + Z.of_nat (measureUnsignedInt (id hd') + placeholder_width hd')) /\
    s_pos b' = (s_pos b + encoded_length t')%nat.
Proof.
  intros Hw.
  pose proof (writeEBML_skeleton_step _ _ _ _ _ Hw) as Hs.
  destruct (writeEBML_layout_step _ _ _ _ _ Hw) as [Hp Hl].
  destruct t' as [| | |hd' children'|]; try discriminate.
  cbn [skeleton] in Hs. injection Hs as Hid _.
  rewrite laid_out_EList in Hl. destruct Hl as [Ho [Hd _]].
  exists hd', children'. repeat split; assumption.
Qed.
(** The id of a written element with children stands where the write
    began, whether or not the stream had room for all that follows. *)
Lemma written_list_id b off hd children b' t' :
  writeEBML b off (EList hd children) = Ok (b', t') ->
  (s_pos b + measureUnsignedInt (id hd) <= length (s_data b))%nat ->
  stream_bytes b' (s_pos b) (measureUnsignedInt (id hd))
    = bytesBE (measureUnsignedInt (id hd)) (id hd).
Proof.
  intros Hw Hroom. revert Hw. rewrite writeEBML_EList.
  destruct (id hd =? 0); [discriminate|]. cbv zeta.
  set (w := measureUnsignedInt (id hd)) in *.
  set (b1 := writeUnsignedIntBE b (id hd) None).
  assert (Hb1 : b1 = writeBytes b (bytesBE w (id hd))) by reflexivity.
  assert (Hp1 : s_pos b1 = (s_pos b + w)%nat)
    by (rewrite Hb1, writeBytes_pos, length_bytesBE; reflexivity).
  assert (Hread : stream_bytes b1 (s_pos b) w = bytesBE w (id hd)).
  { rewrite Hb1. rewrite <- (length_bytesBE w (id hd)) at 2.
    apply writeBytes_read. rewrite length_bytesBE. exact Hroom. }
  match goal with |- rbind (writeEBML_all ?b2 off children) _ = _ -> _ =>
    pose proof (writePlaceholder_advances b1 (set_offset hd (Z.of_nat (s_pos b) + off)))
      as Ha2;
    destruct (writeEBML_all b2 off children) as [[b3 r3]|e] eqn:H3; [|discriminate];
    assert (Ha3 : advances b2 b3)
      by (eapply (writeEBML_all_advances off children); [|exact H3];
          apply Forall_true; intros t; apply writeEBML_advances)
  end.
  pose proof (advances_trans _ _ _ Ha2 Ha3) as [Hp13 Hs13].
  cbn [rbind fst snd].
  assert (Hfinal : forall bf, same_below (s_pos b1) b3 bf ->
            stream_bytes bf (s_pos b) w = bytesBE w (id hd)).
  { intros bf Hbf. rewrite <- Hread.
    apply (same_below_bytes (s_pos b1)); [|lia].
    eapply same_below_trans; [exact Hs13 | exact Hbf]. }
  destruct (_ && _); intros H; injection H as <- _.
  - apply Hfinal. unfold writeEBMLVarIntWidth, streamSeek.
    match goal with |- same_below _ _ (mkStream (s_data (writeBytes ?s0 ?bs)) _) =>
      pose proof (writeBytes_below bs s0 (s_pos b1) ltac:(cbn [s_pos]; lia)) as [Hl Hs]
    end.
    split; [exact Hl | exact Hs].
  - apply Hfinal. apply same_below_refl.
Qed.

(** The first bytes of what is written for an element with children, from
    a new stream, are its id. *)
Lemma written_list_id_new capacity off hd children b' t' :
  writeEBML (newStream capacity) off (EList hd children) = Ok (b', t') ->
  (measureUnsignedInt (id hd) <= capacity)%nat ->
  take (measureUnsignedInt (id hd)) (getAsDataArray b')
    = bytesBE (measureUnsignedInt (id hd)) (id hd).
Proof.
  intros Hw Hcap.
  pose proof (written_list_id _ _ _ _ _ _ Hw) as Hid.
  destruct (written_list _ _ _ _ _ _ Hw) as (hd' & children' & -> & Hid' & _ & _ & Hp).
  rewrite encoded_length_EList, Hid' in Hp. cbn [s_pos newStream] in Hp, Hid.
  unfold getAsDataArray. rewrite take_take, Nat.min_l by lia.
  unfold stream_bytes in Hid. rewrite drop_0 in Hid. apply Hid.
  unfold newStream. cbn [s_data s_pos]. rewrite length_replicate. lia.
Qed.
End WrittenTrees.
Section ClusterSuccess.
Implicit Types (m : Muxer) (f : Frame).

(** The invariant goes over to a muxer on the same sink whose frames, cue
    points and Seek entries can be written and lead where they should. *)
Lemma mux_wf_fields m m' hd seeks seeks' p' :
  mux_wf m -> writtenHeader m = true ->
  heap m' = heap m -> blobBuffer m' = blobBuffer m -> options m' = options m ->
  writtenHeader m' = true -> ebmlSegment m' = ebmlSegment m ->
  segmentDuration m' = segmentDuration m ->
  seekHead m = Some (EList hd seeks) -> seekHead m' = Some (EList hd seeks') ->
  length seeks' = 3%nat -> Forall seek_entry_ok seeks' ->
  map seek_entry_data seeks' = seek_targets p' ->
  Forall frame_ok (clusterFrameBuffer m') -> ebml_ok_all (cues m') ->
  Forall (cue_ok (mux_image m)) (cues m') ->
  mux_wf m'.
Proof.
  intros Hwf Hw Hh Hb Ho Hw' Hseg Hdur Hsh Hsh' Hlen Hseeks Hdata Hfr Hcues Htargets.
  destruct (wf_header _ Hwf Hw) as [Hchunk [Hd (hd0 & seeks0 & Hsh0 & Hsz & Hdo & _)]].
  rewrite Hsh in Hsh0. injection Hsh0 as <- <-.
  assert (Him : mux_image m' = mux_image m) by (unfold mux_image; rewrite Hh, Hb; reflexivity).
  constructor; try assumption.
  - apply (mux_inv_fields m); try assumption; [apply (wf_inv _ Hwf)|].
    rewrite Hsh, Hsh'. reflexivity.
  - unfold chain_ok. rewrite Hb. apply (wf_chain _ Hwf).
  - rewrite Ho. apply (wf_options _ Hwf).
  - intros _. rewrite Hb, Hdur. split; [exact Hchunk|]. split; [exact Hd|].
    exists hd, seeks'. auto.
  - intros _. rewrite Him. apply (wf_bytes _ Hwf Hw).
  - intros _. exists hd, seeks', p'. auto.
  - rewrite Him. exact Htargets.
Qed.

(** The same, for a muxer that has kept the SeekHead. *)
Lemma mux_wf_same_seekHead m m' :
  mux_wf m -> writtenHeader m = true ->
  heap m' = heap m -> blobBuffer m' = blobBuffer m -> options m' = options m ->
  writtenHeader m' = true -> ebmlSegment m' = ebmlSegment m ->
  segmentDuration m' = segmentDuration m -> seekHead m' = seekHead m ->
  Forall frame_ok (clusterFrameBuffer m') -> ebml_ok_all (cues m') ->
  Forall (cue_ok (mux_image m)) (cues m') ->
  mux_wf m'.
Proof.
  intros Hwf Hw Hh Hb Ho Hw' Hseg Hdur Hsh Hfr Hcues Htargets.
  destruct (wf_seekHead m Hwf Hw)
    as (len0 & hd & seeks & p & _ & _ & _ & Hs & _ & _ & Hlen & Hseeks & Hdata).
  apply (mux_wf_fields m m' hd seeks seeks p); try assumption. congruence.
Qed.

Lemma ebml_ok_all_app l1 l2 :
  ebml_ok_all (l1 ++ l2) <-> ebml_ok_all l1 /\ ebml_ok_all l2.
Proof.
  induction l1 as [|x l1 IH]; cbn [app ebml_ok_all]; [tauto|]. rewrite IH. tauto.
Qed.

Lemma number_leaf_ok i n : i <> 0 -> ebml_ok (ELeaf (element i) (PNumber n)).
Proof.
  intros Hi. cbn [ebml_ok]. split; [exact Hi|]. apply measureUnsignedInt_ok.
Qed.

Ltac ok_tree :=
  repeat match goal with
  | |- _ /\ _ => split
  | |- True => exact I
  | |- _ <> _ => discriminate
  | |- ebml_ok (EList _ _) => rewrite ebml_ok_EList; cbn [id element ebml_ok_all]
  | |- ebml_ok (ELeaf _ (PNumber _)) => apply number_leaf_ok
  | |- ebml_ok (EUint8Array _) => exact I
  | |- ebml_ok (EString _) => exact I
  end.

Lemma cuePoint_ok trackIndex clusterTime position :
  ebml_ok (cuePoint trackIndex clusterTime position).
Proof. unfold cuePoint. ok_tree. Qed.

Lemma createContainerForKeyframe_ok f :
  frame_ok f -> exists t, createContainerForKeyframe f = Ok t /\ ebml_ok t.
Proof.
  intros [Htrack Halpha].
  assert (Hhdr : forall flags, exists hdr, block_header f flags = Ok hdr).
  { intros flags. unfold block_header. rewrite Htrack. eexists. reflexivity. }
  unfold createContainerForKeyframe.
  destruct (f_alpha f) as [[|c rest]|].
  - unfold createSimpleBlockForKeyframe. destruct (Hhdr (Z.shiftl 1 7)) as [hdr ->].
    eexists. split; [reflexivity|]. ok_tree.
  - unfold createBlockGroupForTransparentKeyframe. destruct (Hhdr 0) as [hdr ->].
    eexists. split; [reflexivity|]. ok_tree.
    cbn [ebml_ok id element]. split; [discriminate | exact Halpha].
  - unfold createSimpleBlockForKeyframe. destruct (Hhdr (Z.shiftl 1 7)) as [hdr ->].
    eexists. split; [reflexivity|]. ok_tree.
Qed.

Lemma containers_ok frames :
  Forall frame_ok frames ->
  exists blocks, mapM createContainerForKeyframe frames = Ok blocks /\
    ebml_ok_all blocks.
Proof.
  induction 1 as [|f frames Hf _ [blocks [Hm Hok]]].
  - exists []. split; [reflexivity | exact I].
  - destruct (createContainerForKeyframe_ok f Hf) as [t [Ht Hokt]].
    exists (t :: blocks). cbn [mapM]. rewrite Ht, Hm. split; [reflexivity|].
    split; assumption.
Qed.

Lemma createCluster_ok timecode blocks :
  ebml_ok_all blocks -> ebml_ok (createCluster timecode blocks).
Proof.
  intros Hok. unfold createCluster. ok_tree. exact Hok.
Qed.

Lemma measureUnsignedInt_pos n : (1 <= measureUnsignedInt n)%nat.
Proof.
  unfold measureUnsignedInt.
  repeat match goal with |- context [if ?c then _ else _] => destruct c end; lia.
Qed.

(** What the serializer writes for an element with children is not
    empty. *)
Lemma written_list_nonempty capacity off hd children b' t' :
  (0 < capacity)%nat ->
  writeEBML (newStream capacity) off (EList hd children) = Ok (b', t') ->
  getAsDataArray b' <> [].
Proof.
  intros Hcap Hw.
  destruct (written_list _ _ _ _ _ _ Hw) as (hd' & children' & -> & _ & _ & _ & Hp).
  destruct (writeEBML_advances _ _ _ _ _ Hw) as [_ [Hl _]].
  rewrite encoded_length_EList in Hp. pose proof (measureUnsignedInt_pos (id hd')).
  apply getAsDataArray_nonempty; [lia|].
  rewrite Hl. unfold newStream. cbn [s_data]. rewrite length_replicate. exact Hcap.
Qed.

Lemma segment_relative m :
  mux_inv m -> writtenHeader m = true ->
  forall o, fileOffsetToSegmentRelative m (Some o) = Ok (o - 48).
Proof.
  intros Hinv Hw o.
  destruct (mi_header _ Hinv Hw) as (len0 & seg & _ & _ & Hseg & _ & _ & Hd & _).
  unfold fileOffsetToSegmentRelative. rewrite Hseg, Hd. reflexivity.
Qed.

Lemma flush_ok m :
  mux_wf m -> writtenHeader m = true ->
  exists m', flushClusterFrameBuffer m = Ok m' /\ mux_wf m' /\
    writtenHeader m' = true /\ clusterFrameBuffer m' = [] /\ appends_to m m' /\
    clusterStartTime m' =
      match clusterFrameBuffer m with
      | [] => clusterStartTime m
      | _ => double_add (clusterStartTime m) (clusterDuration m)
      end /\
    clusterDuration m' =
      match clusterFrameBuffer m with
      | [] => clusterDuration m
      | _ => double_zero
      end /\
    options m' = options m /\
    match clusterFrameBuffer m with
    | [] => cues m' = cues m
    | _ => exists position,
        cues m' = cues m ++ [cuePoint DEFAULT_TRACK_NUMBER
                               (Math_round (clusterStartTime m)) position]
    end.
Proof.
  intros Hwf Hw. unfold flushClusterFrameBuffer.
  destruct (clusterFrameBuffer m) as [|f frames] eqn:Hfr.
  { exists m. split; [reflexivity|]. split; [exact Hwf|]. split; [exact Hw|].
    split; [exact Hfr|]. split; [apply appends_to_refl | auto]. }
  destruct (containers_ok (f :: frames)) as [blocks [Hm Hblocks]].
  { rewrite <- Hfr. apply (wf_frames _ Hwf). }
  rewrite Hm. cbn [rbind].
  set (cluster := createCluster (Math_round (clusterStartTime m)) blocks).
  set (buffer := newStream (rawImageSize (f :: frames) + length (f :: frames) * 64)).
  destruct (writeEBML_accepts_step (pos (blobBuffer m)) cluster buffer
              (createCluster_ok _ _ Hblocks)) as [[buffer' cluster'] Hwr].
  rewrite Hwr. cbn [rbind].
  assert (Hne : getAsDataArray buffer' <> []).
  { eapply written_list_nonempty; [|exact Hwr]. cbn [length]. lia. }
  assert (Hid : take 4 (getAsDataArray buffer') = cluster_id_bytes).
  { apply (written_list_id_new _ _ _ _ _ _ Hwr). cbn [length]. change (measureUnsignedInt _) with 4%nat. lia. }
  destruct (written_list _ _ _ _ _ _ Hwr) as (hd' & children' & -> & _ & Ho & _).
  destruct (append_step m buffer' Hwf Hw Hne) as (m1 & Hbw & Hwf1 & Hsame & Him).
  rewrite Hbw. cbn [rbind].
  pose proof Hsame as [Hso [Hsw [Hsb [Hst [Hsd [Hsseg [Hsdur [Hssh Hscu]]]]]]]].
  assert (Hw1 : writtenHeader m1 = true) by congruence.
  unfold addCuePoint. cbn [offset_of header_of mbind option_bind]. rewrite Ho.
  rewrite (segment_relative m1 (wf_inv _ Hwf1) Hw1). cbn [rbind].
  eexists. split; [reflexivity|].
  split; [|split; [exact Hw1 | split; [reflexivity | split; [eexists; exact Him |]]]];
    [|split; [reflexivity | split; [reflexivity | split; [exact Hso|]]];
      cbn [cues set_cluster set_cues]; rewrite Hscu; eexists; reflexivity].
  apply (mux_wf_same_seekHead m1); try assumption; try reflexivity.
  - constructor.
  - cbn [cues set_cluster set_cues]. apply ebml_ok_all_app.
    split; [apply (wf_cues _ Hwf1)|]. split; [apply cuePoint_ok | exact I].
  - cbn [cues set_cluster set_cues]. apply Forall_app.
    split; [apply (wf_cue_targets _ Hwf1)|]. constructor; [|constructor].
    pose proof (header_long m Hwf Hw) as Hlong.
    pose proof (image_length m (wf_inv _ Hwf)) as Hil.
    pose proof (mi_end _ (wf_inv _ Hwf)) as Hend.
    eexists _, _. split; [reflexivity|].
    change (Z.of_nat (s_pos buffer)) with 0.
    split; [lia|].
    rewrite Him.
    replace (Z.to_nat (0 + pos (blobBuffer m) - 48 + 48)) with (length (mux_image m)) by lia.
    rewrite drop_app_length. exact Hid.
Qed.
End ClusterSuccess.
Section SeekHeadSuccess.
Implicit Types (m : Muxer) (b : Stream) (t : EBML).

Lemma writeEBML_all_pos off items b b' items' :
  writeEBML_all b off items = Ok (b', items') ->
  s_pos b' = (s_pos b + encoded_length_all items')%nat /\
  length (s_data b') = length (s_data b).
Proof.
  intros Hw. split.
  - eapply (writeEBML_all_layout off items); [|exact Hw].
    apply Forall_true. intros t. apply writeEBML_layout_step.
  - assert (Ha : advances b b').
    { eapply (writeEBML_all_advances off items); [|exact Hw].
      apply Forall_true. intros t. apply writeEBML_advances. }
    apply Ha.
Qed.

(** The size of a written element with children is the bytes they take,
    unless it was one of the UNKNOWN marks. *)
Lemma written_list_size b off hd children b' hd' children' :
  writeEBML b off (EList hd children) = Ok (b', EList hd' children') ->
  size_is hd EBML_SIZE_UNKNOWN = false ->
  size_is hd EBML_SIZE_UNKNOWN_5_BYTES = false ->
  size hd' = Some (Z.of_nat (encoded_length_all children')).
Proof.
  intros Hw Hu Hu5. revert Hw. rewrite writeEBML_EList.
  destruct (id hd =? 0); [discriminate|]. cbv zeta.
  match goal with |- rbind (writeEBML_all ?b2 off children) _ = _ -> _ =>
    destruct (writeEBML_all b2 off children) as [[b3 r3]|e] eqn:H3; [|discriminate];
    destruct (writeEBML_all_pos _ _ _ _ _ H3) as [Hp _]
  end.
  cbn [rbind fst snd].
  rewrite !size_is_set_dataOffset, !size_is_set_offset, Hu, Hu5. cbn [negb andb].
  intros H. injection H as _ <- <-. cbn [size set_size]. f_equal. lia.
Qed.

(** A written element without children that had a size keeps it. *)
Lemma written_leaf b off hd data b' t' :
  writeEBML b off (ELeaf hd data) = Ok (b', t') ->
  exists hd', t' = ELeaf hd' data /\ id hd' = id hd /\
    (size_falsy hd = false -> size hd' = size hd).
Proof.
  cbn [writeEBML]. destruct (id hd =? 0); [discriminate|]. cbv zeta.
  match goal with |- rbind (writeLeaf ?b1 off ?hd1 data) _ = _ -> _ =>
    destruct (writeLeaf b1 off hd1 data) as [[b2 hd2]|e] eqn:H2; [|discriminate]
  end.
  cbn [rbind]. intros H. injection H as _ <-.
  exists hd2. split; [reflexivity|].
  split; [rewrite (writeLeaf_id _ _ _ _ _ _ H2); reflexivity|].
  intros Hf. revert H2. unfold writeLeaf.
  destruct data as [s|n|bits|bits|bs|]; try discriminate;
    match goal with |- rbind (writeEBMLVarInt ?b1 ?z) _ = _ -> _ =>
      destruct (writeEBMLVarInt b1 z) as [b3|e] eqn:Hv; [|discriminate] end;
    cbn [rbind]; intros H; injection H as _ <-; try reflexivity.
  unfold size_falsy in *. cbn [size set_offset] in *. rewrite Hf. reflexivity.
Qed.

Lemma seek_entry_accepted t : seek_entry_ok t -> ebml_ok t.
Proof.
  intros (hdS & hdI & ident & hdP & v & -> & HidS & _ & _ & HidI & Hlen & HidP & HszP).
  rewrite ebml_ok_EList. cbn [ebml_ok_all ebml_ok leaf_ok].
  unfold size_falsy. rewrite HidS, HidI, HidP, HszP, Hlen.
  unfold varint_ok. cbn. repeat split; lia.
Qed.

Lemma seek_entry_written off t b :
  seek_entry_ok t ->
  exists b' t', writeEBML b off t = Ok (b', t') /\ seek_entry_ok t' /\
    encoded_length t' = 21%nat /\
    exists ident v, seek_entry_data t = Some (ident, v) /\
      seek_entry_data t' = Some (ident, v) /\ encode t' = seek_bytes ident v.
Proof.
  intros Hok.
  destruct (writeEBML_accepts_step off t b (seek_entry_accepted _ Hok))
    as [[b' t'] Hw].
  exists b', t'. split; [exact Hw|].
  destruct Hok as (hdS & hdI & ident & hdP & v & -> & HidS & Hu & Hu5 & HidI & Hlen &
                   HidP & HszP).
  destruct (written_list _ _ _ _ _ _ Hw) as (hd' & children' & -> & Hid' & _).
  pose proof (written_list_size _ _ _ _ _ _ _ Hw Hu Hu5) as Hsz.
  revert Hw. rewrite writeEBML_EList.
  destruct (id hdS =? 0); [discriminate|]. cbv zeta.
  rewrite writeEBML_all_cons.
  match goal with |- context [writeEBML ?b1 off (ELeaf hdI ?d)] =>
    destruct (writeEBML b1 off (ELeaf hdI d)) as [[b2 t2]|e] eqn:H2; [|discriminate];
    destruct (written_leaf _ _ _ _ _ _ H2) as (hdI' & -> & HidI' & _)
  end.
  rewrite rbind_Ok. cbv beta iota. rewrite writeEBML_all_cons.
  match goal with |- context [writeEBML ?b1 off (ELeaf hdP ?d)] =>
    destruct (writeEBML b1 off (ELeaf hdP d)) as [[b3 t3]|e] eqn:H3; [|discriminate];
    destruct (written_leaf _ _ _ _ _ _ H3) as (hdP' & -> & HidP' & HszP')
  end.
  rewrite rbind_Ok. cbv beta iota. rewrite writeEBML_all_nil.
  repeat (rewrite rbind_Ok; cbv beta iota). cbn [fst snd].
  assert (HszP1 : size hdP' = Some 5).
  { rewrite HszP'; [exact HszP|]. unfold size_falsy. rewrite HszP. reflexivity. }
  assert (Hl : encoded_length_all
                 [ELeaf hdI' (PUint8Array ident); ELeaf hdP' (PNumber v)] = 15%nat).
  { cbn [encoded_length_all encoded_length declared_size payload_length].
    rewrite HidI', HidP', HidI, HidP, HszP1, Hlen. reflexivity. }
  intros H.
  assert (Hch : children' = [ELeaf hdI' (PUint8Array ident); ELeaf hdP' (PNumber v)]).
  { destruct (_ && _); injection H as _ _ <-; reflexivity. }
  subst children'. rewrite Hl in Hsz.
  assert (Hu' : size_is hd' EBML_SIZE_UNKNOWN = false)
    by (unfold size_is; rewrite Hsz; reflexivity).
  assert (Hu5' : size_is hd' EBML_SIZE_UNKNOWN_5_BYTES = false)
    by (unfold size_is; rewrite Hsz; reflexivity).
  split; [|split].
  - exists hd', hdI', ident, hdP', v. repeat split; try assumption; congruence.
  - rewrite encoded_length_EList, Hl. unfold placeholder_width.
    rewrite Hu', Hu5', Hid', HidS. reflexivity.
  - exists ident, v. split; [reflexivity|]. split; [reflexivity|].
    rewrite encode_EList. unfold size_field. rewrite Hu', Hu5', Hsz, Hid', HidS.
    cbn [encode_all encode declared_size payload_bytes].
    rewrite HidI', HidP', HidI, HidP, HszP1, Hlen. reflexivity.
Qed.

Lemma seek_entries_written off seeks :
  Forall seek_entry_ok seeks ->
  forall b, exists b' seeks',
    writeEBML_all b off seeks = Ok (b', seeks') /\
    Forall seek_entry_ok seeks' /\ length seeks' = length seeks /\
    s_pos b' = (s_pos b + 21 * length seeks)%nat /\
    length (s_data b') = length (s_data b) /\
    map seek_entry_data seeks' = map seek_entry_data seeks /\
    encode_all seeks' = seeks_bytes (map seek_entry_data seeks).
Proof.
  induction 1 as [|t seeks Ht _ IH]; intros b.
  - exists b, []. cbn. repeat split; [constructor | lia].
  - destruct (seek_entry_written off t b Ht)
      as (b1 & t1 & H1 & Hok1 & Hl1 & ident & v & Hd & Hd' & He).
    destruct (IH b1) as (b2 & seeks2 & H2 & Hok2 & Hlen2 & Hp2 & Hd2 & Hdata2 & He2).
    destruct (writeEBML_layout_step _ _ _ _ _ H1) as [Hp1 _].
    destruct (writeEBML_advances _ _ _ _ _ H1) as [_ [Hd1 _]].
    exists b2, (t1 :: seeks2). rewrite writeEBML_all_cons, H1, rbind_Ok.
    cbv beta iota. rewrite H2, rbind_Ok. cbv beta iota.
    split; [reflexivity|]. split; [constructor; assumption|].
    cbn [length map encode_all]. rewrite Hd, Hd', Hdata2, He, He2.
    repeat split; [congruence | lia | congruence].
Qed.

Lemma seek_entry_data_Some t ident v :
  seek_entry_data t = Some (ident, v) ->
  exists hdS hdI hdP, t = EList hdS [ELeaf hdI (PUint8Array ident); ELeaf hdP (PNumber v)].
Proof.
  destruct t as [| | |hdS [|[| | | |hdI [| | | |bs|]] [|[| | | |hdP [|n| | | |]] [|]]]|];
    try discriminate.
  cbn [seek_entry_data]. intros H. injection H as <- <-. eauto.
Qed.

(** The entries of the SeekHead when the position of one is set. *)
Lemma set_seekPoint_triple hd seeks k v d0 d1 d2 :
  map seek_entry_data seeks = [Some d0; Some d1; Some d2] ->
  exists seeks', set_seekPoint (EList hd seeks) k v = EList hd seeks' /\
    map seek_entry_data seeks' =
      match k with
      | 0%nat => [Some (fst d0, v); Some d1; Some d2]
      | 1%nat => [Some d0; Some (fst d1, v); Some d2]
      | 2%nat => [Some d0; Some d1; Some (fst d2, v)]
      | _ => [Some d0; Some d1; Some d2]
      end.
Proof.
  destruct seeks as [|s0 [|s1 [|s2 [|]]]]; try discriminate.
  destruct d0 as [i0 v0], d1 as [i1 v1], d2 as [i2 v2].
  cbn [map]. intros H. injection H as H0 H1 H2.
  destruct (seek_entry_data_Some _ _ _ H0) as (a0 & b0 & c0 & ->).
  destruct (seek_entry_data_Some _ _ _ H1) as (a1 & b1 & c1 & ->).
  destruct (seek_entry_data_Some _ _ _ H2) as (a2 & b2 & c2 & ->).
  destruct k as [|[|[|k]]]; eexists; (split; [reflexivity|]); reflexivity.
Qed.

Lemma set_position_data_ok t v : seek_entry_ok t -> seek_entry_ok (set_position_data t v).
Proof.
  intros (hdS & hdI & ident & hdP & v0 & -> & H).
  exists hdS, hdI, ident, hdP, v. split; [reflexivity | exact H].
Qed.

Lemma set_seekPoint_ok hd seeks k v :
  Forall seek_entry_ok seeks ->
  exists seeks', set_seekPoint (EList hd seeks) k v = EList hd seeks' /\
    length seeks' = length seeks /\ Forall seek_entry_ok seeks'.
Proof.
  intros Hok. unfold set_seekPoint.
  destruct (seeks !! k) as [seek|] eqn:Hk.
  - eexists. split; [reflexivity|]. split; [apply length_insert|].
    apply Forall_insert; [exact Hok|]. apply set_position_data_ok.
    exact (proj1 (Forall_lookup _ _) Hok _ _ Hk).
  - exists seeks. auto.
Qed.
End SeekHeadSuccess.
Section CompleteSuccess.
Implicit Types (m : Muxer) (b : Stream) (t : EBML).

(** Whether a cue point leads to a Cluster is read off its ids and
    data. *)
Lemma cue_ok_skeleton (f : list Z) l : forall l',
  Forall (cue_ok f) l -> map skeleton l' = map skeleton l -> Forall (cue_ok f) l'.
Proof.
  induction l as [|c l IH]; intros [|c' l'] Hall Hs; try discriminate; [constructor|].
  cbn [map] in Hs. injection Hs as Hc Hl.
  apply Forall_cons in Hall as [(t & p & Hsk & Hp) Hall].
  constructor; [|apply IH; assumption].
  exists t, p. rewrite Hc. auto.
Qed.

Lemma cues_position_targets m hd seeks p :
  seekHead m = Some (EList hd seeks) -> map seek_entry_data seeks = seek_targets p ->
  cues_position m = Some p.
Proof.
  intros Hsh Hdata. unfold cues_position. rewrite Hsh.
  destruct seeks as [|s0 seeks]; [discriminate|].
  cbn [map] in Hdata. injection Hdata as H0 _. rewrite H0. reflexivity.
Qed.

Lemma writeCues_ok m :
  mux_wf m -> writtenHeader m = true ->
  exists m' p, writeCues m = Ok m' /\ mux_wf m' /\ writtenHeader m' = true /\
    clusterFrameBuffer m' = clusterFrameBuffer m /\
    clusterStartTime m' = clusterStartTime m /\ appends_to m m' /\
    cues_position m' = Some p /\ 179 <= p + 48 /\
    take 4 (drop (Z.to_nat (p + 48)) (mux_image m')) = cues_id_bytes /\
    clusterDuration m' = clusterDuration m /\ options m' = options m.
Proof.
  intros Hwf Hw. unfold writeCues.
  set (ebml := EList (element 0x1C53BB6B) (cues m)).
  set (cuesBuffer := newStream (16 + length (cues m) * 32)).
  assert (Hok : ebml_ok ebml).
  { unfold ebml. rewrite ebml_ok_EList. split; [discriminate | apply (wf_cues _ Hwf)]. }
  destruct (writeEBML_accepts_step (pos (blobBuffer m)) ebml cuesBuffer Hok)
    as [[cuesBuffer' ebml'] Hwr].
  rewrite Hwr. cbn [rbind].
  assert (Hne : getAsDataArray cuesBuffer' <> []).
  { eapply written_list_nonempty; [|exact Hwr]. lia. }
  assert (Hid : take 4 (getAsDataArray cuesBuffer') = cues_id_bytes).
  { apply (written_list_id_new _ _ _ _ _ _ Hwr).
    change (measureUnsignedInt _) with 4%nat. lia. }
  pose proof (writeEBML_keeps_ok _ _ _ _ _ Hok Hwr) as Hok'.
  pose proof (writeEBML_skeleton_step _ _ _ _ _ Hwr) as Hsk.
  destruct (written_list _ _ _ _ _ _ Hwr) as (hd' & children' & -> & _ & Ho & _).
  rewrite ebml_ok_EList in Hok'. destruct Hok' as [_ Hcues'].
  cbn [skeleton] in Hsk. injection Hsk as _ Hsk.
  cbn [children_of].
  set (m0 := set_cues m children').
  destruct (wf_seekHead m Hwf Hw)
    as (len0 & hd & seeks & p0 & _ & _ & _ & Hsh & _ & _ & Hlen & Hseeks & Hdata).
  assert (Hwf0 : mux_wf m0).
  { apply (mux_wf_same_seekHead m m0); try assumption; try reflexivity.
    - apply (wf_frames _ Hwf).
    - exact (cue_ok_skeleton _ _ _ (wf_cue_targets _ Hwf) Hsk). }
  destruct (append_step m0 cuesBuffer' Hwf0 Hw Hne) as (m1 & Hbw & Hwf1 & Hsame & Him).
  rewrite Hbw. cbn [rbind].
  pose proof Hsame as [Hso [Hsw [Hsb [Hst [Hsd [Hsseg [Hsdur [Hssh Hscu]]]]]]]].
  assert (Hw1 : writtenHeader m1 = true) by (rewrite Hsw; exact Hw).
  cbn [offset_of header_of mbind option_bind]. rewrite Ho.
  rewrite (segment_relative m1 (wf_inv _ Hwf1) Hw1). cbn [rbind].
  assert (Hsh1 : seekHead m1 = Some (EList hd seeks)) by (rewrite Hssh; exact Hsh).
  rewrite Hsh1.
  set (p := Z.of_nat (s_pos cuesBuffer) + pos (blobBuffer m) - 48).
  destruct (set_seekPoint_ok hd seeks 0 p Hseeks) as (seeks' & Hset & Hlen' & Hseeks').
  destruct (set_seekPoint_triple hd seeks 0 p _ _ _ Hdata) as (seeks'' & Hset' & Hdata').
  rewrite Hset in Hset'. injection Hset' as <-. rewrite Hset.
  exists (set_seekHead m1 (Some (EList hd seeks'))), p. split; [reflexivity|].
  split; [|split; [exact Hw1 | split; [exact Hsb | split; [exact Hst |]]]].
  - apply (mux_wf_fields m1 _ hd seeks seeks' p); try assumption; try reflexivity.
    + congruence.
    + apply (wf_frames _ Hwf1).
    + apply (wf_cues _ Hwf1).
    + apply (wf_cue_targets _ Hwf1).
  - split; [eexists; exact Him|].
    split; [apply (cues_position_targets _ hd seeks'); [reflexivity | exact Hdata']|].
    pose proof (header_long m Hwf Hw) as Hlong.
    pose proof (image_length m (wf_inv _ Hwf)) as Hil.
    pose proof (mi_end _ (wf_inv _ Hwf)) as Hend.
    unfold p. change (Z.of_nat (s_pos cuesBuffer)) with 0.
    split; [lia|].
    change (mux_image (set_seekHead m1 (Some (EList hd seeks')))) with (mux_image m1).
    rewrite Him. change (mux_image m0) with (mux_image m).
    replace (Z.to_nat (0 + pos (blobBuffer m) - 48 + 48)) with (length (mux_image m)) by lia.
    rewrite drop_app_length. auto.
Qed.

Lemma rewriteSeekHead_ok m :
  mux_wf m -> writtenHeader m = true ->
  exists m' p, rewriteSeekHead m = Ok m' /\ mux_wf m' /\ writtenHeader m' = true /\
    clusterFrameBuffer m' = clusterFrameBuffer m /\
    clusterStartTime m' = clusterStartTime m /\
    cues_position m = Some p /\ cues_position m' = Some p /\
    mux_image m' = splice (mux_image m) 56 (seeks_bytes (seek_targets p)) /\
    clusterDuration m' = clusterDuration m /\ options m' = options m.
Proof.
  intros Hwf Hw.
  destruct (wf_seekHead m Hwf Hw)
    as (len0 & hd & seeks & p & Hc & Hl0 & _ & Hsh & Hsz & Hdo & Hlen & Hseeks & Hdata).
  unfold rewriteSeekHead. rewrite Hsh, Hsz, Hdo. rewrite writeEBML_EArray.
  destruct (seek_entries_written 56 seeks Hseeks (newStream (Z.to_nat 63)))
    as (b' & seeks' & Hwr & Hseeks' & Hlen' & Hp & Hd & Hdata' & Henc).
  assert (Happ : appended (newStream (Z.to_nat 63)) b' (encode_all seeks')).
  { eapply (writeEBML_all_encoding 56 seeks); [|exact Hwr].
    apply Forall_true. intros t. apply writeEBML_encoding_step. }
  rewrite Hwr. cbn [rbind fst snd children_of_array].
  set (m0 := set_seekHead m (Some (EList hd seeks'))).
  assert (Hwf0 : mux_wf m0).
  { apply (mux_wf_fields m m0 hd seeks seeks' p); try assumption; try reflexivity.
    - congruence.
    - congruence.
    - apply (wf_frames _ Hwf).
    - apply (wf_cues _ Hwf).
    - apply (wf_cue_targets _ Hwf). }
  assert (Hcap : length (s_data b') = 63%nat).
  { rewrite Hd. unfold newStream. cbn [s_data]. apply length_replicate. }
  assert (Hpos : s_pos b' = 63%nat) by (rewrite Hp, Hlen; reflexivity).
  assert (Hbytes : getAsDataArray b' = seeks_bytes (seek_targets p)).
  { destruct Happ as [Hpa [_ Hread]]. cbn [s_pos newStream] in Hpa, Hread.
    rewrite <- Hdata, <- Henc. rewrite <- Hread by lia.
    unfold getAsDataArray, stream_bytes. rewrite drop_0. f_equal. lia. }
  assert (Hlb : length (getAsDataArray b') = 63%nat).
  { unfold getAsDataArray. rewrite length_take. lia. }
  destruct (patch_step m0 56 b' len0 Hwf0 Hw Hc)
    as (m' & Hpatch & Hwf' & Hsame & Him & _);
    [intros Hn; rewrite Hn in Hlb; discriminate | lia | rewrite Hlb; lia
    | rewrite Hlb; unfold in_patched_field; lia |].
  pose proof Hsame as [Hso [Hsw [Hsb [Hst [Hsd [_ [_ [Hssh _]]]]]]]].
  exists m', p. split; [exact Hpatch|]. split; [exact Hwf'|].
  split; [rewrite Hsw; exact Hw|]. split; [exact Hsb|]. split; [exact Hst|].
  split; [exact (cues_position_targets m hd seeks p Hsh Hdata)|].
  split.
  - apply (cues_position_targets m' hd seeks'); [rewrite Hssh; reflexivity | congruence].
  - rewrite Him, Hbytes. auto.
Qed.
End CompleteSuccess.
Section HeaderSuccess.
Implicit Types (m : Muxer) (b : Stream) (t : EBML).

Ltac evaluate_in H t :=
  let v := eval vm_compute in t in
  replace t with v in H by (vm_compute; reflexivity).

Ltac ok_leaves :=
  repeat match goal with
  | |- _ /\ _ => split
  | |- True => exact I
  | |- _ <> _ => discriminate
  | |- ebml_ok (EList _ _) => rewrite ebml_ok_EList; cbn [id element ebml_ok_all app]
  | |- ebml_ok (ELeaf (element _) (PNumber _)) => apply number_leaf_ok
  | |- ebml_ok (ELeaf _ _) => cbn [ebml_ok id element]
  | |- leaf_ok _ _ => unfold leaf_ok, varint_ok; cbn; lia
  end.

Lemma take_same_below (n : nat) (l l' : list Z) :
  length l' = length l -> (forall i, (i < n)%nat -> l' !! i = l !! i) ->
  take n l' = take n l.
Proof.
  intros Hlen Hsame. apply list_eq. intros i.
  destruct (decide (i < n)%nat) as [Hi|Hi].
  - rewrite !lookup_take_lt by exact Hi. apply Hsame. exact Hi.
  - rewrite !lookup_take_ge by lia. reflexivity.
Qed.

Lemma window_same_below (a n : nat) (l l' : list Z) :
  (forall i, (i < a + n)%nat -> l' !! i = l !! i) ->
  take n (drop a l') = take n (drop a l).
Proof.
  intros Hsame. apply list_eq. intros i.
  destruct (decide (i < n)%nat) as [Hi|Hi].
  - rewrite !lookup_take_lt by exact Hi. rewrite !lookup_drop. apply Hsame. lia.
  - rewrite !lookup_take_ge by lia. reflexivity.
Qed.

Lemma take_drop_take (a n p : nat) (l : list Z) :
  (a + n <= p)%nat -> take n (drop a (take p l)) = take n (drop a l).
Proof.
  intros Hp. apply window_same_below. intros i Hi. apply lookup_take_lt. lia.
Qed.

Lemma header_trees_ok m :
  segmentDuration m = element 0x4489 -> ebml_ok (EArray [ebmlHeader; segment_of m]).
Proof.
  intros Hdur. rewrite ebml_ok_EArray. cbn [ebml_ok_all].
  unfold ebmlHeader, segment_of, createSeekHead, seekPoint_ids, segmentInfo_of, tracks_of,
    seekPositionEBMLTemplate.
  rewrite Hdur. cbn [map]. destruct (transparent (options m)); ok_leaves.
Qed.

(** The objects [writeHeader] writes on a new file: the places of the
    Segment, of the SeekHead with its three entries, of the Duration, of
    the SegmentInfo and of the Tracks. *)
Lemma writeHeader_objects m bs w :
  pos (blobBuffer m) = 0 -> segmentDuration m = element 0x4489 ->
  writeEBML (newStream 256) (pos (blobBuffer m)) (EArray [ebmlHeader; segment_of m])
    = Ok (bs, w) ->
  exists tH seg shd seeks ih i1 i2 i3 dur dd th tch,
    w = EArray [tH; EList seg [EList shd seeks; EList ih [i1; i2; i3; ELeaf dur dd];
                               EList th tch]] /\
    (183 <= s_pos bs)%nat /\ length (s_data bs) = 256%nat /\
    dataOffset seg = Some 48 /\ dataOffset dur = Some 171 /\
    size shd = Some 63 /\ dataOffset shd = Some 56 /\
    length seeks = 3%nat /\ Forall seek_entry_ok seeks /\
    offset ih = Some 119 /\ offset th = Some 179 /\
    map seek_entry_data seeks =
      [Some (cues_id_bytes, 0); Some (info_id_bytes, 0); Some (tracks_id_bytes, 0)] /\
    header_bytes_ok (s_data bs).
Proof.
  intros Hend Hdur Hw.
  rewrite Hend in Hw.
  rewrite writeEBML_EArray, writeEBML_all_cons in Hw.
  evaluate_in Hw (writeEBML (newStream 256) 0 ebmlHeader).
  rewrite rbind_Ok in Hw. cbv beta iota in Hw.
  rewrite writeEBML_all_cons in Hw.
  unfold segment_of in Hw. rewrite Hdur in Hw.
  rewrite writeEBML_EList in Hw. cbv zeta in Hw.
  match type of Hw with context [if ?c then _ else _] => evaluate_in Hw c end.
  cbv iota in Hw.
  match type of Hw with context [writePlaceholder ?b ?h] =>
    evaluate_in Hw (writePlaceholder b h) end.
  rewrite writeEBML_all_cons in Hw.
  match type of Hw with context [writeEBML ?b 0 createSeekHead] =>
    evaluate_in Hw (writeEBML b 0 createSeekHead) end.
  rewrite rbind_Ok in Hw. cbv beta iota in Hw.
  rewrite writeEBML_all_cons in Hw.
  match type of Hw with context [writeEBML ?b 0 (segmentInfo_of ?d)] =>
    evaluate_in Hw (writeEBML b 0 (segmentInfo_of d)) end.
  rewrite rbind_Ok in Hw. cbv beta iota in Hw.
  rewrite writeEBML_all_cons in Hw.
  match type of Hw with context [writeEBML ?b 0 (tracks_of m)] =>
    destruct (writeEBML b 0 (tracks_of m)) as [[b5 tracks']|e] eqn:H5;
      [|discriminate];
    pose proof (writeEBML_advances _ _ _ _ _ H5) as [_ [Hl5 Hbelow]];
    pose proof (written_list_id _ _ _ _ _ _ H5 ltac:(vm_compute; lia)) as Htid;
    destruct (written_list _ _ _ _ _ _ H5) as (th & tch & -> & Hidt & Hoth & _ & Hp5);
    assert (Hprefix : take 39 (s_data b5) = ebmlHeader_bytes)
      by (rewrite (take_same_below 39 _ _ Hl5);
          [vm_compute; reflexivity
          | intros i Hi; apply Hbelow; cbn [s_pos]; lia]);
    assert (Hinfo : take 4 (drop 119 (s_data b5)) = info_id_bytes)
      by (rewrite (window_same_below 119 4 _ _
                     (fun i Hi => Hbelow i ltac:(cbn [s_pos]; lia)));
          vm_compute; reflexivity)
  end.
  rewrite encoded_length_EList, Hidt in Hp5.
  change (measureUnsignedInt (id (element 0x1654ae6b))) with 4%nat in Hp5, Htid.
  assert (Htracks : take 4 (drop 179 (s_data b5)) = tracks_id_bytes) by exact Htid.
  clear H5 Hbelow Htid. simpl in Hp5, Hl5, Hoth.
  rewrite rbind_Ok in Hw. cbv beta iota in Hw.
  rewrite !writeEBML_all_nil in Hw.
  repeat (rewrite rbind_Ok in Hw; cbv beta iota in Hw).
  match type of Hw with context [if ?c then _ else _] => evaluate_in Hw c end.
  cbv iota in Hw.
  repeat (rewrite rbind_Ok in Hw; cbv beta iota in Hw).
  cbn [fst snd] in Hw.
  injection Hw as <- <-.
  do 12 eexists. split; [reflexivity|].
  split; [lia|]. split; [exact Hl5|].
  split; [reflexivity|]. split; [reflexivity|]. split; [reflexivity|].
  split; [reflexivity|]. split; [reflexivity|].
  split; [|split; [reflexivity | split; [exact Hoth | split; [reflexivity|]]]].
  - repeat constructor; (do 5 eexists; repeat split; reflexivity).
  - split; [exact Hprefix | split; [exact Hinfo | exact Htracks]].
Qed.


Lemma writeHeader_ok m :
  mux_wf m -> writtenHeader m = false ->
  exists m', writeHeader m = Ok m' /\ mux_wf m' /\ writtenHeader m' = true /\
    options m' = options m /\ clusterFrameBuffer m' = clusterFrameBuffer m /\
    clusterStartTime m' = clusterStartTime m /\ clusterDuration m' = clusterDuration m /\
    cues m' = cues m /\ appends_to m m'.
Proof.
  intros Hwf Hnew. pose proof (wf_inv _ Hwf) as Hinv.
  destruct (mi_new _ Hinv Hnew) as [Hbuf [Hlen Hdur]].
  pose proof (mi_end _ Hinv) as Hend. rewrite Hlen in Hend.
  destruct (writeEBML_accepts_step (pos (blobBuffer m))
                     (EArray [ebmlHeader; segment_of m]) (newStream 256)
              (header_trees_ok m Hdur)) as [[bs w] Hwritten].
  destruct (writeHeader_objects m bs w Hend Hdur Hwritten)
    as (tH & seg & shd & seeks & ih & i1 & i2 & i3 & dur & dd & th & tch &
        -> & Hp5 & Hl5 & Hdoff & Hdurd & Hsz & Hshd & Hlen3 & Hseeks & Hoih & Hoth &
        Hdata & Hprefix & Hinfo & Htracks).
  assert (Hne : getAsDataArray bs <> []) by (apply getAsDataArray_nonempty; lia).
  destruct (blob_write_ok m bs (mi_sink _ Hinv) (wf_chain _ Hwf) Hne)
    as [m1 [Hbw Hok1]]; [left; rewrite Hend, Hlen; reflexivity|].
  destruct (blob_write_spec m bs m1 (mi_sink _ Hinv) Hbw Hok1)
    as [_ [Hsame [Hsink [Hn [Hpos [Hlen1 [_ [Him Hshape]]]]]]]].
  assert (Himage : mux_image m1 = getAsDataArray bs).
  { rewrite Him. unfold mux_image at 1. rewrite Hbuf, Hend.
    exact (splice_end [] (getAsDataArray bs)). }
  clear Him.
  destruct Hsame as [Hso [Hsw [Hsb [Hst [Hsd [Hsseg [Hsdur [Hssh Hscu]]]]]]]].
  rewrite Hend in Hpos, Hshape. rewrite Hend, Hlen in Hlen1. rewrite Hbuf in Hshape.
  set (n := Z.of_nat (length (getAsDataArray bs))) in *.
  assert (Hn179 : 183 <= n).
  { unfold n, getAsDataArray. rewrite length_take. lia. }
  assert (Hshape1 : shape (buffer (blobBuffer m1)) = [(0, n)]).
  { destruct Hshape as [Hs|Hs]; [|exact Hs]. exfalso.
    pose proof (inv_extent _ _ Hsink) as Hext.
    destruct (buffer (blobBuffer m1)); [simpl in Hext; lia | discriminate]. }
  destruct (set_seekPoint_ok shd seeks 1 (119 - 48) Hseeks) as (seeks1 & Hs1 & Hl1 & Hok1').
  destruct (set_seekPoint_ok shd seeks1 2 (179 - 48) Hok1') as (seeks2 & Hs2 & Hl2 & Hok2).
  destruct (set_seekPoint_triple shd seeks 1 (119 - 48) _ _ _ Hdata) as (x1 & Hx1 & Hdata1).
  rewrite Hs1 in Hx1. injection Hx1 as <-.
  destruct (set_seekPoint_triple shd seeks1 2 (179 - 48) _ _ _ Hdata1) as (x2 & Hx2 & Hdata2).
  rewrite Hs2 in Hx2. injection Hx2 as <-.
  assert (Hrun : writeHeader m =
                 Ok (set_seekHead (set_header m1 seg dur (EList shd seeks))
                       (Some (EList shd seeks2)))).
  { unfold writeHeader. rewrite Hwritten, rbind_Ok. cbv beta iota.
    rewrite Hbw, rbind_Ok. cbv beta iota zeta.
    unfold fileOffsetToSegmentRelative.
    cbn [ebmlSegment set_header offset_of header_of mbind option_bind].
    rewrite Hdoff, Hoih, Hoth. cbn [rbind]. rewrite Hs1, Hs2. reflexivity. }
  eexists. split; [exact Hrun|].
  assert (Hinv' : mux_inv (set_seekHead (set_header m1 seg dur (EList shd seeks))
                             (Some (EList shd seeks2)))).
  { apply (writeHeader_inv m _ Hinv Hnew Hrun). exact Hok1. }
  split; [|cbn [writtenHeader options clusterFrameBuffer clusterStartTime clusterDuration
                 cues set_seekHead set_header];
           repeat (split; [auto; fail|]);
           exists (getAsDataArray bs); unfold mux_image at 2; rewrite Hbuf; exact Himage].
  constructor.
  - exact Hinv'.
  - exact Hok1.
  - cbn [options set_seekHead set_header]. rewrite Hso. apply (wf_options _ Hwf).
  - cbn [clusterFrameBuffer set_seekHead set_header]. rewrite Hsb. apply (wf_frames _ Hwf).
  - cbn [cues set_seekHead set_header]. rewrite Hscu. apply (wf_cues _ Hwf).
  - intros _. cbn [blobBuffer segmentDuration seekHead set_seekHead set_header].
    split; [exists n; split; [exists []; exact Hshape1 | exact Hn179]|].
    split; [exact Hdurd|]. exists shd, seeks2. repeat split; try assumption. congruence.
  - intros _. change (header_bytes_ok (mux_image m1)).
    rewrite Himage. unfold getAsDataArray, header_bytes_ok.
    rewrite take_take, Nat.min_l by lia. rewrite !take_drop_take by lia. auto.
  - intros _. exists shd, seeks2, 0. split; [reflexivity | exact Hdata2].
  - cbn [cues set_seekHead set_header]. rewrite Hscu.
    eapply Forall_impl; [apply (wf_cue_targets _ Hwf)|].
    intros cue (t & p & _ & Hp & Hb). exfalso.
    assert (Hnil : mux_image m = []) by (unfold mux_image; rewrite Hbuf; reflexivity).
    rewrite Hnil, drop_nil in Hb. discriminate.
Qed.
End HeaderSuccess.
Section CallSuccess.
Implicit Types (m : Muxer).

Lemma length_substring s a b : (length (substring s a b) <= length s)%nat.
Proof. unfold substring. rewrite length_take, length_drop. lia. Qed.

Lemma scan_chunks_result fuel : forall webP cursor alpha r,
  scan_chunks fuel webP cursor alpha = Some r ->
  match r with
  | Ok k => (length (frame k) <= length webP)%nat
  | Err e => e = BadWebP
  end.
Proof.
  induction fuel as [|fuel IH]; intros webP cursor alpha r; cbn [scan_chunks];
    destruct (cursor <? Z.of_nat (length webP) - 8);
    try (intros H; injection H as <-; reflexivity); try discriminate.
  destruct (jsstring_eqb _ str_VP8_).
  - intros H. injection H as <-. cbn [frame]. apply length_substring.
  - apply IH.
Qed.

(** The keyframe that the extractor returns is not longer than the file,
    and it fails with one error only. *)
Lemma extract_result webP :
  match extractKeyframeFromWebP webP with
  | Ok k => (length (frame k) <= length webP)%nat
  | Err e => e = BadWebP
  end.
Proof.
  unfold extractKeyframeFromWebP.
  destruct (indexOf webP str_VP8 12) as [cursor|]; [|reflexivity].
  destruct (scan_chunks _ _ _ _) as [r|] eqn:Hs; [|reflexivity].
  exact (scan_chunks_result _ _ _ _ _ Hs).
Qed.

Lemma set_video_wf m w h :
  mux_wf m -> writtenHeader m = false -> mux_wf (set_video m w h).
Proof.
  intros [[Hsink Hend Hnew Hhd] Hchain Hopt Hfr Hcues Hhead Hbytes Hseeks Htargets] Hw.
  constructor; [constructor|..]; assumption.
Qed.

Lemma addFrameToCluster_ok m frame :
  mux_wf m -> writtenHeader m = true ->
  match f_alpha frame with
  | Some a => varint_ok (Z.of_nat (length a))
  | None => True
  end ->
  exists m', addFrameToCluster m frame = Ok m' /\ mux_wf m' /\
    writtenHeader m' = true /\ appends_to m m' /\
    cluster_step m m' (f_duration frame) /\ options m' = options m.
Proof.
  intros Hwf Hw Halpha. unfold addFrameToCluster.
  set (frame' := mkFrame _ _ _ _ _).
  set (m1 := set_cluster m _ _ _).
  assert (Hwf1 : mux_wf m1).
  { apply (mux_wf_same_seekHead m m1); try assumption; try reflexivity.
    - cbn [clusterFrameBuffer m1 set_cluster]. apply Forall_app.
      split; [apply (wf_frames _ Hwf)|]. constructor; [|constructor].
      split; [reflexivity | exact Halpha].
    - apply (wf_cues _ Hwf).
    - apply (wf_cue_targets _ Hwf). }
  unfold cluster_step. cbv zeta. cbn [clusterDuration m1 set_cluster].
  destruct (double_ge _ _).
  - destruct (flush_ok m1 Hwf1 Hw)
      as (m' & H & Hwf' & Hw' & Hf' & [tail Happ] & Hs' & Hd' & Ho' & Hc').
    exists m'. split; [exact H|]. split; [exact Hwf'|]. split; [exact Hw'|].
    split; [exists tail; exact Happ|]. split; [|exact Ho'].
    split; [exact Hf'|].
    revert Hs' Hd' Hc'.
    cbn [clusterFrameBuffer clusterStartTime clusterDuration cues m1 set_cluster].
    destruct (clusterFrameBuffer m); cbn [app]; intros Hs' Hd' Hc'; auto.
  - exists m1. split; [reflexivity|]. split; [exact Hwf1|]. split; [exact Hw|].
    split; [exact (appends_to_refl m1)|]. split; [|reflexivity].
    exists frame'. repeat split; reflexivity.
Qed.

Lemma varint_ok_le (a b : nat) :
  (a <= b)%nat -> varint_ok (Z.of_nat b) -> varint_ok (Z.of_nat a).
Proof. unfold varint_ok. lia. Qed.

Lemma addFrame_ok m image alpha o :
  mux_wf m -> call_ok (CallAddFrame image alpha o) ->
  ((exists m' d, addFrame m image alpha o = Ok m' /\ mux_wf m' /\
                 writtenHeader m' = true /\ appends_to m m' /\
                 frame_duration_of m alpha o = Some d /\ cluster_step m m' d /\
                 options m' = options m) \/
   addFrame m image alpha o = Err BadWebP) /\
  (call_parses (CallAddFrame image alpha o) ->
   exists m', addFrame m image alpha o = Ok m').
Proof.
  intros Hwf [Hown Hgiven].
  assert (Hhead : exists m1,
    (if negb (writtenHeader m)
     then writeHeader (set_video m (fi_width image) (fi_height image))
     else Ok m) = Ok m1 /\ mux_wf m1 /\ writtenHeader m1 = true /\ appends_to m m1 /\
    options m1 = options m /\ clusterFrameBuffer m1 = clusterFrameBuffer m /\
    clusterDuration m1 = clusterDuration m /\
    clusterStartTime m1 = clusterStartTime m /\ cues m1 = cues m).
  { destruct (writtenHeader m) eqn:Hw; cbn [negb].
    - exists m. auto 12 using appends_to_refl.
    - destruct (writeHeader_ok (set_video m (fi_width image) (fi_height image))
                  (set_video_wf m _ _ Hwf Hw) Hw)
        as (m1 & H1 & Hwf1 & Hw1 & Ho1 & Hf1 & Hs1 & Hd1 & Hc1 & Happ).
      exists m1. auto 12. }
  destruct Hhead as (m1 & Hhead & Hwf1 & Hw1 & Happ1 & Ho1 & Hf1 & Hd1 & Hs1 & Hc1).
  unfold addFrame. rewrite Hhead. cbn [rbind].
  pose proof (extract_result (fi_webP image)) as Hk.
  destruct (extractKeyframeFromWebP (fi_webP image)) as [keyframe|e] eqn:Hx; cbn [rbind].
  2: { subst e. split; [right; reflexivity|]. intros [[k Hk'] _]. congruence. }
  assert (Hd : exists d,
    (if double_option_truthy o
     then match o with Some d => Ok d | None => Err TypeError end
     else match alpha with
          | AlphaNumber n => Ok n
          | _ => match frameDuration (options m1) with
                 | Some d => Ok (double_of_Q d)
                 | None => Err TypeError
                 end
          end) = Ok d /\ frame_duration_of m alpha o = Some d).
  { destruct (wf_options _ Hwf1) as [d0 Hd0]. unfold frame_duration_of.
    rewrite <- Ho1, Hd0.
    destruct o as [d|]; cbn [double_option_truthy option_map].
    - destruct (double_truthy d); [exists d; split; reflexivity|].
      destruct alpha; eexists; split; reflexivity.
    - destruct alpha; eexists; split; reflexivity. }
  destruct Hd as [d [-> Hdur]]. cbn [rbind].
  assert (Hadd : forall a,
    match a with Some bs => varint_ok (Z.of_nat (length bs)) | None => True end ->
    ((exists m' d', addFrameToCluster m1 (mkFrame (frame keyframe) a d 0 0) = Ok m' /\
                 mux_wf m' /\ writtenHeader m' = true /\ appends_to m m' /\
                 frame_duration_of m alpha o = Some d' /\ cluster_step m m' d' /\
                 options m' = options m) \/
     addFrameToCluster m1 (mkFrame (frame keyframe) a d 0 0) = Err BadWebP) /\
    (call_parses (CallAddFrame image alpha o) ->
     exists m', addFrameToCluster m1 (mkFrame (frame keyframe) a d 0 0) = Ok m')).
  { intros a Ha.
    destruct (addFrameToCluster_ok m1 (mkFrame (frame keyframe) a d 0 0) Hwf1 Hw1 Ha)
      as (m' & H & Hwf' & Hw' & Happ' & Hstep & Ho').
    split; [left; exists m', d|intros _; exists m'; exact H].
    split; [exact H|]. split; [exact Hwf'|]. split; [exact Hw'|].
    split; [exact (appends_to_trans _ _ _ Happ1 Happ')|]. split; [exact Hdur|].
    split; [|congruence].
    revert Hstep. unfold cluster_step. cbn [f_duration].
    rewrite Hd1, Hf1, Hs1, Hc1. auto. }
  assert (Himage : forall webP,
    varint_ok (Z.of_nat (length webP)) ->
    (call_parses (CallAddFrame image alpha o) ->
     exists k, extractKeyframeFromWebP webP = Ok k) ->
    ((exists m' d',
        (do alphaFrame <- (do k <- extractKeyframeFromWebP webP; Ok (Some (frame k)));
         addFrameToCluster m1 (mkFrame (frame keyframe) alphaFrame d 0 0)) = Ok m' /\
        mux_wf m' /\ writtenHeader m' = true /\ appends_to m m' /\
        frame_duration_of m alpha o = Some d' /\ cluster_step m m' d' /\
        options m' = options m) \/
     (do alphaFrame <- (do k <- extractKeyframeFromWebP webP; Ok (Some (frame k)));
      addFrameToCluster m1 (mkFrame (frame keyframe) alphaFrame d 0 0)) = Err BadWebP) /\
    (call_parses (CallAddFrame image alpha o) ->
     exists m',
       (do alphaFrame <- (do k <- extractKeyframeFromWebP webP; Ok (Some (frame k)));
        addFrameToCluster m1 (mkFrame (frame keyframe) alphaFrame d 0 0)) = Ok m')).
  { intros webP Hlen Hparses.
    pose proof (extract_result webP) as Hr.
    destruct (extractKeyframeFromWebP webP) as [k|e] eqn:Hx'; cbn [rbind].
    - apply (Hadd (Some (frame k))). exact (varint_ok_le _ _ Hr Hlen).
    - subst e. split; [right; reflexivity|].
      intros Hp. destruct (Hparses Hp) as [k' Hk']. congruence. }
  destruct (transparent (options m1)).
  - destruct alpha as [|n|webP].
    + destruct (hasAlpha keyframe).
      * apply Himage; [exact Hown|]. intros (_ & Hp & _). exact Hp.
      * cbn [rbind]. apply (Hadd None). exact I.
    + destruct (hasAlpha keyframe).
      * apply Himage; [exact Hown|]. intros (_ & Hp & _). exact Hp.
      * cbn [rbind]. apply (Hadd None). exact I.
    + apply Himage; [exact Hgiven|]. intros (_ & _ & Hp). exact Hp.
  - cbn [rbind]. apply (Hadd None). exact I.
Qed.

(** The three patches of [complete] leave the bytes outside their
    fields. *)
Lemma patches_kept (l entries duration segment : list Z) :
  length entries = 63%nat -> length duration = 8%nat -> length segment = 9%nat ->
  (179 <= length l)%nat ->
  kept l (splice (splice (splice l 56 entries) 171 duration) 39 segment).
Proof.
  intros He Hd Hs Hl.
  assert (H1 : length (splice l 56 entries) = length l) by (apply length_splice; lia).
  assert (H2 : length (splice (splice l 56 entries) 171 duration) = length l)
    by (rewrite length_splice; lia).
  eapply kept_trans; [|eapply kept_trans];
    [apply kept_splice | apply kept_splice | apply kept_splice];
    unfold in_patched_field; lia.
Qed.

Lemma patches_entries (l entries duration segment : list Z) :
  length entries = 63%nat -> length duration = 8%nat -> length segment = 9%nat ->
  (179 <= length l)%nat ->
  take 63 (drop 56 (splice (splice (splice l 56 entries) 171 duration) 39 segment))
    = entries.
Proof.
  intros He Hd Hs Hl. apply list_eq. intros i.
  assert (H1 : length (splice l 56 entries) = length l) by (apply length_splice; lia).
  assert (H2 : length (splice (splice l 56 entries) 171 duration) = length l)
    by (rewrite length_splice; lia).
  destruct (decide (i < 63)%nat) as [Hi|Hi].
  - rewrite lookup_take_lt by exact Hi. rewrite lookup_drop.
    rewrite splice_outside by lia. rewrite splice_outside by lia.
    rewrite lookup_splice by lia.
    repeat case_decide; try lia. f_equal. lia.
  - rewrite lookup_take_ge by lia. symmetry. apply lookup_ge_None. lia.
Qed.

Lemma patches_duration (l duration segment : list Z) :
  length duration = 8%nat -> length segment = 9%nat -> (179 <= length l)%nat ->
  take 8 (drop 171 (splice (splice l 171 duration) 39 segment)) = duration.
Proof.
  intros Hd Hs Hl. apply list_eq. intros i.
  assert (H1 : length (splice l 171 duration) = length l) by (apply length_splice; lia).
  destruct (decide (i < 8)%nat) as [Hi|Hi].
  - rewrite lookup_take_lt by exact Hi. rewrite lookup_drop.
    rewrite splice_outside by lia.
    rewrite lookup_splice by lia.
    repeat case_decide; try lia. f_equal. lia.
  - rewrite lookup_take_ge by lia. symmetry. apply lookup_ge_None. lia.
Qed.

Lemma cues_position_same m m' : same_fields m m' -> cues_position m' = cues_position m.
Proof.
  intros [_ [_ [_ [_ [_ [_ [_ [Hsh _]]]]]]]]. unfold cues_position. rewrite Hsh. reflexivity.
Qed.

(** [complete()] on a muxer that is ready for it: the blob, and what it
    holds. *)
Lemma complete_ok m :
  mux_wf m ->
  exists m' bytes p,
    mux_complete m = Ok (m', BlobOf bytes (Some mime_video_webm)) /\
    mux_wf m' /\ writtenHeader m' = true /\ clusterFrameBuffer m' = [] /\
    bytes = mux_image m' /\
    clusterStartTime m' =
      match clusterFrameBuffer m with
      | [] => clusterStartTime m
      | _ => double_add (clusterStartTime m) (clusterDuration m)
      end /\
    take 8 (drop 171 bytes) = bytesBE 8 (double_bits (clusterStartTime m')) /\
    kept (mux_image m) bytes /\
    cues_position m' = Some p /\ 179 <= p + 48 /\
    take 63 (drop 56 bytes) = seeks_bytes (seek_targets p) /\
    take 4 (drop (Z.to_nat (p + 48)) bytes) = cues_id_bytes /\
    clusterDuration m' =
      match clusterFrameBuffer m with
      | [] => clusterDuration m
      | _ => double_zero
      end /\
    options m' = options m.
Proof.
  intros Hwf.
  assert (Hhead : exists m1,
    (if negb (writtenHeader m) then writeHeader m else Ok m) = Ok m1 /\
    mux_wf m1 /\ writtenHeader m1 = true /\ appends_to m m1 /\
    clusterFrameBuffer m1 = clusterFrameBuffer m /\
    clusterStartTime m1 = clusterStartTime m /\
    clusterDuration m1 = clusterDuration m /\ options m1 = options m).
  { destruct (writtenHeader m) eqn:Hw; cbn [negb].
    - exists m. auto 10 using appends_to_refl.
    - destruct (writeHeader_ok m Hwf Hw)
        as (m1 & H1 & Hwf1 & Hw1 & Ho & Hf & Hs & Hd & _ & Ha).
      exists m1. auto 10. }
  destruct Hhead as (m1 & H1 & Hwf1 & Hw1 & Ha1 & Hf1 & Hs1 & Hd1 & Ho1).
  destruct (flush_ok m1 Hwf1 Hw1)
    as (m2 & H2 & Hwf2 & Hw2 & Hf2 & Ha2 & Hs2 & Hd2 & Ho2 & _).
  destruct (writeCues_ok m2 Hwf2 Hw2)
    as (m3 & p & H3 & Hwf3 & Hw3 & Hf3 & Hs3 & Ha3 & Hcp3 & Hp179 & Hcid & Hd3 & Ho3).
  destruct (rewriteSeekHead_ok m3 Hwf3 Hw3)
    as (m4 & p' & H4 & Hwf4 & Hw4 & Hf4 & Hs4 & Hcp3' & Hcp4 & Him4 & Hd4 & Ho4).
  rewrite Hcp3 in Hcp3'. injection Hcp3' as <-.
  destruct (rewriteDuration_ok m4 Hwf4 Hw4) as (m5 & H5 & Hwf5 & Hsame5 & Him5).
  pose proof Hsame5 as [Ho5 [Hw5' [Hf5 [Hs5 [Hd5 _]]]]].
  assert (Hw5 : writtenHeader m5 = true) by congruence.
  destruct (rewriteSegmentLength_ok m5 Hwf5 Hw5) as (m6 & H6 & Hwf6 & Hsame6 & Him6).
  pose proof Hsame6 as [Ho6 [Hw6' [Hf6 [Hs6 [Hd6 _]]]]].
  assert (Hw6 : writtenHeader m6 = true) by congruence.
  destruct (appends_to_trans _ _ _ Ha1 (appends_to_trans _ _ _ Ha2 Ha3)) as [tail Htail].
  pose proof (header_long m3 Hwf3 Hw3) as Hlong.
  set (entries := seeks_bytes (seek_targets p)) in *.
  set (duration := bytesBE 8 (double_bits (clusterStartTime m4))) in *.
  set (segment := bytesBE 4 0x18538067 ++
                  ebmlVarIntBytes (length_ (blobBuffer m5) - 48) 5) in *.
  assert (Hle : length entries = 63%nat) by reflexivity.
  assert (Hld : length duration = 8%nat) by apply length_bytesBE.
  assert (Hls : length segment = 9%nat) by reflexivity.
  rewrite Him5, Him4 in Him6.
  assert (Hkept36 : kept (mux_image m3) (mux_image m6)).
  { rewrite Him6. apply patches_kept; (assumption || lia). }
  exists m6, (mux_image m6), p. unfold mux_complete.
  rewrite H1, rbind_Ok, H2, rbind_Ok, H3, rbind_Ok, H4, rbind_Ok, H5, rbind_Ok, H6, rbind_Ok.
  unfold complete. rewrite (wf_chain _ Hwf6), (inv_dest _ _ (mi_sink _ (wf_inv _ Hwf6))).
  split; [reflexivity|]. split; [exact Hwf6|]. split; [exact Hw6|].
  split; [congruence|]. split; [reflexivity|]. split.
  { rewrite Hs6, Hs5, Hs4, Hs3, Hs2, Hf1, Hs1, Hd1. reflexivity. }
  split.
  { rewrite Him6, Hs6, Hs5.
    apply patches_duration; [exact Hld | exact Hls | rewrite length_splice; lia]. }
  split.
  { eapply kept_trans; [|exact Hkept36]. rewrite Htail. apply kept_app. }
  split.
  { rewrite (cues_position_same _ _ Hsame6), (cues_position_same _ _ Hsame5). exact Hcp4. }
  split; [exact Hp179|]. split.
  { rewrite Him6. apply patches_entries; (assumption || lia). }
  split.
  { rewrite <- Hcid. apply kept_window; [exact Hkept36 | | unfold in_patched_field; lia].
    apply (window_length _ cues_id_bytes); [exact Hcid | reflexivity | lia]. }
  split; [|congruence].
  rewrite Hd6, Hd5, Hd4, Hd3, Hd2, Hf1, Hd1. reflexivity.
Qed.
End CallSuccess.
Section Runs.
Implicit Types (m : Muxer) (c : Call).

Lemma validateOptions_frameDuration o o' :
  validateOptions o = Ok o' -> exists d, frameDuration o' = Some d.
Proof.
  unfold validateOptions.
  destruct (option_truthy (frameDuration o)) eqn:Hd; cbn [negb].
  - cbn [rbind]. intros H. injection H as <-. cbn [frameDuration].
    destruct (frameDuration o) as [d|]; [exists d; reflexivity | discriminate].
  - destruct (option_truthy (frameRate o)); [|discriminate].
    destruct (frameRate o) as [rate|]; [|discriminate].
    cbn [rbind]. intros H. injection H as <-. eexists. reflexivity.
Qed.

(** A new muxer on a memory sink is ready for any call. *)
Lemma WebMWriter_wf h o m :
  fileWriter o = false -> WebMWriter h o = Ok m -> mux_wf m.
Proof.
  intros Hfw Hnew. pose proof (WebMWriter_inv h o m Hfw Hnew) as Hinv.
  revert Hnew. unfold WebMWriter.
  destruct (validateOptions o) as [o'|e] eqn:Hv; [|discriminate]. cbn [rbind].
  intros H. injection H as <-.
  constructor.
  - exact Hinv.
  - reflexivity.
  - exact (validateOptions_frameDuration o o' Hv).
  - constructor.
  - exact I.
  - discriminate.
  - discriminate.
  - discriminate.
  - constructor.
Qed.

Lemma call_step m c :
  mux_wf m -> call_ok c ->
  ((exists m', call m c = Ok m' /\ mux_wf m') \/ call m c = Err BadWebP) /\
  (call_parses c -> exists m', call m c = Ok m').
Proof.
  intros Hwf Hok. destruct c as [image alpha o|].
  - cbn [call]. destruct (addFrame_ok m image alpha o Hwf Hok) as [[Hl|Hr] Hp].
    + destruct Hl as (m' & d & H & Hwf' & _). split; [left; exists m'; auto | exact Hp].
    + split; [right; exact Hr | exact Hp].
  - destruct (complete_ok m Hwf) as (m' & bytes & p & H & Hwf' & _).
    cbn [call]. rewrite H. cbn [rbind fst].
    split; [left|intros _]; exists m'; auto.
Qed.

Lemma run_calls_ok calls : forall m,
  mux_wf m -> Forall call_ok calls ->
  ((exists m', run_calls m calls = Ok m' /\ mux_wf m') \/
   run_calls m calls = Err BadWebP) /\
  (Forall call_parses calls -> exists m', run_calls m calls = Ok m').
Proof.
  induction calls as [|c calls IH]; intros m Hwf Hok; cbn [run_calls].
  - split; [left|intros _]; exists m; auto.
  - apply Forall_cons in Hok as [Hc Hcs].
    destruct (call_step m c Hwf Hc) as [[(m1 & H1 & Hwf1)|Herr] Hparse].
    + rewrite H1. cbn [rbind].
      destruct (IH m1 Hwf1 Hcs) as [Hrun Hp]. split; [exact Hrun|].
      intros Hall. apply Forall_cons in Hall as [_ Hall]. exact (Hp Hall).
    + rewrite Herr. cbn [rbind]. split; [right; reflexivity|].
      intros Hall. apply Forall_cons in Hall as [Hpc _].
      destruct (Hparse Hpc) as [m' Hm']. congruence.
Qed.

(** What the calls lead to from a new muxer on a memory sink is ready
    for any call. *)
Lemma run_calls_wf h o m0 calls m :
  fileWriter o = false -> WebMWriter h o = Ok m0 -> Forall call_ok calls ->
  run_calls m0 calls = Ok m -> mux_wf m.
Proof.
  intros Hfw Hnew Hok Hrun.
  destruct (run_calls_ok calls m0 (WebMWriter_wf h o m0 Hfw Hnew) Hok)
    as [[(m' & H & Hwf')|Herr] _]; congruence.
Qed.
End Runs.

(** ** The numbers of the muxer *)

Section Doubles.
Implicit Types (x y : double) (s : bool).

Lemma shr_1_nonneg (mrs : shr_record) : 0 <= shr_m mrs -> 0 <= shr_m (shr_1 mrs).
Proof.
  destruct mrs as [m r st]. cbn [shr_m shr_1].
  destruct m as [|[p|p|]|[p|p|]]; cbn [shr_m]; lia.
Qed.

Lemma iter_shr_1_nonneg (p : positive) : forall mrs : shr_record,
  0 <= shr_m mrs -> 0 <= shr_m (@SpecFloat.iter_pos shr_record shr_1 p mrs).
Proof.
  induction p as [p IH|p IH|]; intros mrs H; cbn [SpecFloat.iter_pos].
  - apply IH, IH, shr_1_nonneg, H.
  - apply IH, IH, H.
  - apply shr_1_nonneg, H.
Qed.

Lemma shr_fexp_nonneg (m e : Z) (l : location) :
  0 <= m -> 0 <= shr_m (fst (shr_fexp 53 1024 m e l)).
Proof.
  intros Hm. unfold shr_fexp, shr.
  assert (H0 : 0 <= shr_m (shr_record_of_loc m l))
    by (destruct l as [|[| |]]; exact Hm).
  destruct (fexp 53 1024 (Zdigits2 m + e) - e) as [|p|p]; cbn [fst];
    [exact H0 | apply iter_shr_1_nonneg; exact H0 | exact H0].
Qed.

(** Rounding keeps the sign and gives no NaN. *)
Lemma binary_round_aux_signed s (m e : Z) (l : location) :
  0 <= m -> signed s (binary_round_aux 53 1024 s m e l).
Proof.
  intros Hm. unfold binary_round_aux.
  pose proof (shr_fexp_nonneg m e l Hm) as H1.
  destruct (shr_fexp 53 1024 m e l) as [mrs' e'] eqn:E1. cbn [fst] in H1.
  assert (H2 : 0 <= round_nearest_even (shr_m mrs') (loc_of_shr_record mrs')).
  { unfold round_nearest_even.
    destruct (loc_of_shr_record mrs') as [|[| |]];
      try destruct (Z.even (shr_m mrs')); lia. }
  pose proof (shr_fexp_nonneg _ e' loc_Exact H2) as H3.
  destruct (shr_fexp 53 1024 _ e' loc_Exact) as [mrs'' e''] eqn:E2. cbn [fst] in H3.
  destruct (shr_m mrs'') as [|p|p]; [reflexivity| |lia].
  destruct (e'' <=? 1024 - 53); reflexivity.
Qed.

Lemma signed_nonneg x : signed false x -> double_nonneg x.
Proof. destruct x as [s|s| |s m e]; cbn; intros H; try subst s; auto. Qed.

Lemma double_of_Q_nonneg (q : Q) : (0 <= q)%Q -> double_nonneg (double_of_Q q).
Proof.
  intros Hq. unfold double_of_Q.
  destruct q as [n d]. unfold Qle in Hq. cbn [Qnum Qden] in *.
  destruct n as [|n|n]; [exact I| |lia].
  apply signed_nonneg.
  unfold SFdiv_core_binary.
  set (s := 0 - 0 - Z.min _ _).
  set (m' := match s with Z.pos _ => Z.shiftl (Z.pos n) s | 0 => Z.pos n | Z.neg _ => 0 end).
  assert (Hm' : 0 <= m').
  { unfold m'. destruct s; [lia | apply Z.shiftl_nonneg; lia | lia]. }
  pose proof (Z.div_pos m' (Z.pos d) Hm' ltac:(lia)) as Hdiv.
  unfold Z.div in Hdiv.
  destruct (Z.div_eucl m' (Z.pos d)) as [quo r]. cbn [fst] in Hdiv.
  apply binary_round_aux_signed. exact Hdiv.
Qed.

(** The sum of two numbers that are not negative is not negative: it is
    no NaN in particular. *)
Lemma double_add_nonneg x y :
  double_nonneg x -> double_nonneg y -> double_nonneg (double_add x y).
Proof.
  unfold double_add.
  destruct x as [sx|[|]| |[|] mx ex]; destruct y as [sy|[|]| |[|] my ey];
    cbn [double_nonneg SFadd]; try tauto; intros _ _.
  - destruct sx, sy; exact I.
  - apply signed_nonneg.
    set (ez := Z.min ex ey).
    set (a := fst (shl_align mx ex ez)). set (b := fst (shl_align my ey ez)).
    change (signed false (binary_round 53 1024 false (a + b) ez)).
    unfold binary_round.
    destruct (shl_align (a + b) ez _) as [mz ez'].
    apply binary_round_aux_signed. lia.
Qed.

Lemma double_value_nonneg x q :
  double_nonneg x -> double_value x = Some q -> (0 <= q)%Q.
Proof.
  destruct x as [s|[|]| |[|] m e]; cbn [double_nonneg double_value]; try tauto;
    try discriminate; intros _ H; injection H as <-.
  - unfold Qle. cbn. lia.
  - destruct (0 <=? e) eqn:He.
    + unfold Qle, inject_Z. cbn [Qnum Qden]. apply Z.leb_le in He.
      pose proof (Z.pow_nonneg 2 e ltac:(lia)). nia.
    + unfold Qle. cbn [Qnum Qden]. lia.
Qed.

Lemma MAX_CLUSTER_DURATION_MSEC_value :
  exists q, double_value MAX_CLUSTER_DURATION_MSEC = Some q /\ (q == 5000)%Q.
Proof. eexists. split; [vm_compute; reflexivity | reflexivity]. Qed.

(** A number that is not negative and has not reached the maximum
    duration of a cluster is finite and below 5000. *)
Lemma below_MAX_CLUSTER_DURATION_MSEC x :
  double_nonneg x -> double_ge x MAX_CLUSTER_DURATION_MSEC = false ->
  double_within x 0 5000.
Proof.
  intros Hnn Hge.
  destruct MAX_CLUSTER_DURATION_MSEC_value as (qmax & Hmax & Hq).
  assert (Hfin : exists m e, MAX_CLUSTER_DURATION_MSEC = S754_finite false m e)
    by (eexists _, _; vm_compute; reflexivity).
  destruct Hfin as (mm & me & Hm). rewrite Hm in Hge, Hmax.
  destruct x as [s|[|]| |[|] m e]; cbn [double_nonneg] in Hnn; try tauto;
    try discriminate Hge.
  - exists 0%Q. split; [reflexivity|]. split; [apply Qle_refl | reflexivity].
  - unfold double_ge in Hge. rewrite Hmax in Hge.
    destruct (double_value (S754_finite false m e)) as [q|] eqn:Hv; [|discriminate].
    exists q. split; [exact Hv|]. split.
    + exact (double_value_nonneg (S754_finite false m e) q I Hv).
    + apply Qnot_le_lt. intros Hle. rewrite <- Hq in Hle.
      apply Qle_bool_iff in Hle. congruence.
Qed.

Lemma Math_round_Q_range (q : Q) :
  (0 <= q)%Q -> (q < 5000)%Q -> 0 <= Math_round_Q q <= 5000.
Proof.
  unfold Math_round_Q. intros H0 H1. split.
  - change 0 with (Qfloor 0). apply Qfloor_resp_le. lra.
  - change 5000 with (Qfloor (5000 + (1 # 2))). apply Qfloor_resp_le. lra.
Qed.

Lemma Math_round_range x : double_within x 0 5000 -> 0 <= Math_round x <= 5000.
Proof.
  intros (q & Hv & H0 & H1). unfold Math_round. rewrite Hv.
  apply Math_round_Q_range; assumption.
Qed.

End Doubles.

(** ** The cluster, call after call *)

Section ClusterRuns.
Implicit Types (m : Muxer) (c : Call).


Lemma frame_duration_nonneg m image alpha o (d : double) :
  call_nonneg (CallAddFrame image alpha o) ->
  (forall d0, frameDuration (options m) = Some d0 -> (0 <= d0)%Q) ->
  frame_duration_of m alpha o = Some d -> double_nonneg d.
Proof.
  intros [Ho Ha] Hopt. unfold frame_duration_of.
  destruct (double_option_truthy o); [apply Ho|].
  destruct alpha as [|n|webP].
  - destruct (frameDuration (options m)) as [d0|]; [|discriminate].
    intros H. injection H as <-. apply double_of_Q_nonneg, Hopt. reflexivity.
  - intros H. injection H as <-. apply Ha. reflexivity.
  - destruct (frameDuration (options m)) as [d0|]; [|discriminate].
    intros H. injection H as <-. apply double_of_Q_nonneg, Hopt. reflexivity.
Qed.

Lemma double_nonneg_within (x : double) (lo hi : Q) :
  double_within x lo hi -> (0 <= lo)%Q -> double_nonneg x.
Proof.
  intros (q & Hv & H0 & _) Hlo.
  destruct x as [s|[|]| |[|] m e]; cbn [double_nonneg]; try exact I;
    try discriminate Hv.
  cbn [double_value] in Hv. injection Hv as <-. exfalso.
  assert (Hq : (0 <= (if 0 <=? e then inject_Z (Z.neg m * 2 ^ e)
                      else Z.neg m # 2 ^ Z.to_pos (- e)))%Q)
    by (eapply Qle_trans; eassumption).
  destruct (0 <=? e) eqn:He.
  - unfold Qle, inject_Z in Hq. cbn [Qnum Qden] in Hq. apply Z.leb_le in He.
    pose proof (Z.pow_pos_nonneg 2 e ltac:(lia) He). nia.
  - unfold Qle in Hq. cbn [Qnum Qden] in Hq. lia.
Qed.

Lemma call_timecodes m c m' :
  mux_wf m -> call_ok c -> call_nonneg c ->
  (forall d, frameDuration (options m) = Some d -> (0 <= d)%Q) ->
  timecodes_fit m -> call m c = Ok m' ->
  timecodes_fit m' /\ options m' = options m.
Proof.
  intros Hwf Hok Hnn Hopt (H0 & Hall) Hcall.
  assert (Hzero : double_within double_zero 0 5000).
  { exists 0%Q. split; [reflexivity|]. split; [apply Qle_refl | reflexivity]. }
  destruct c as [image alpha o|].
  - cbn [call] in Hcall.
    destruct (addFrame_ok m image alpha o Hwf Hok)
      as [[(m1 & d & H & _ & _ & _ & Hdur & Hstep & Ho)|Herr] _]; [|congruence].
    rewrite H in Hcall. injection Hcall as <-. split; [|exact Ho].
    assert (Hd : double_nonneg d) by exact (frame_duration_nonneg m image alpha o d Hnn Hopt Hdur).
    assert (Hsum : double_nonneg (double_add (clusterDuration m) d)).
    { apply double_add_nonneg; [|exact Hd].
      apply (double_nonneg_within _ 0 5000 H0). apply Qle_refl. }
    unfold cluster_step in Hstep. cbv zeta in Hstep. unfold timecodes_fit.
    destruct (double_ge (double_add (clusterDuration m) d) MAX_CLUSTER_DURATION_MSEC)
      eqn:Hcmp.
    + destruct Hstep as (-> & -> & _). split; [exact Hzero | constructor].
    + destruct Hstep as (f & -> & _ & Htc & -> & _).
      split; [exact (below_MAX_CLUSTER_DURATION_MSEC _ Hsum Hcmp)|].
      apply Forall_app. split; [exact Hall|].
      constructor; [|constructor]. rewrite Htc. apply Math_round_range. exact H0.
  - destruct (complete_ok m Hwf)
      as (m1 & bytes & p & H & _ & _ & Hf & _ & _ & _ & _ & _ & _ & _ & _ & Hd & Ho).
    cbn [call] in Hcall. rewrite H in Hcall. cbn [rbind fst] in Hcall.
    injection Hcall as <-. split; [|exact Ho].
    unfold timecodes_fit. rewrite Hf, Hd.
    destruct (clusterFrameBuffer m).
    + split; [exact H0 | constructor].
    + split; [exact Hzero | constructor].
Qed.

Lemma run_calls_timecodes calls : forall m m',
  mux_wf m -> Forall call_ok calls -> Forall call_nonneg calls ->
  (forall d, frameDuration (options m) = Some d -> (0 <= d)%Q) ->
  timecodes_fit m -> run_calls m calls = Ok m' ->
  timecodes_fit m' /\ options m' = options m.
Proof.
  induction calls as [|c calls IH]; intros m m' Hwf Hok Hnn Hopt Hfit; cbn [run_calls].
  - intros H. injection H as <-. auto.
  - apply Forall_cons in Hok as [Hc Hcs]. apply Forall_cons in Hnn as [Hn Hns].
    destruct (call_step m c Hwf Hc) as [[(m1 & H1 & Hwf1)|Herr] _].
    + rewrite H1. cbn [rbind].
      destruct (call_timecodes m c m1 Hwf Hc Hn Hopt Hfit H1) as [Hfit1 Ho1].
      intros Hrun.
      destruct (IH m1 m' Hwf1 Hcs Hns) as [Hfit' Ho']; try assumption.
      * rewrite Ho1. exact Hopt.
      * split; [exact Hfit' | congruence].
    + rewrite Herr. discriminate.
Qed.
End ClusterRuns.


(** ** The muxer: when a cluster is flushed *)

(** What a call that returns has done to the cluster, whatever the sink
    is and whatever the images are. *)
Section ClusterSteps.
Implicit Types (m : Muxer) (c : Call).



















End ClusterSteps.




(** ** The muxer: the file that [complete] gives *)

(** X14. On a muxer that [new WebMWriter(options)] without a FileWriter and
    such calls have led to, [complete()] resolves with a blob of type
    "video/webm": the blob has as many bytes as [getWrittenSize] counts,
    183 at least, it starts with the 39 bytes of the EBML header that
    declares the document type "webm", and no frame is left in the
    cluster buffer. *)
Theorem complete_resolves_with_blob (h : Heap) (o : Options) (m0 : Muxer)
  (calls : list Call) (m : Muxer)
  (Hmemory : fileWriter o = false)
  (Hnew : WebMWriter h o = Ok m0)
  (Halpha : Forall call_ok calls)
  (Hrun : run_calls m0 calls = Ok m) :
  exists m' bytes,
    mux_complete m = Ok (m', BlobOf bytes (Some mime_video_webm)) /\
    Z.of_nat (length bytes) = getWrittenSize m' /\
    (183 <= length bytes)%nat /\
    take 39 bytes = ebmlHeader_bytes /\
    clusterFrameBuffer m' = [].
Proof.
  pose proof (run_calls_wf h o m0 calls m Hmemory Hnew Halpha Hrun) as Hwf.
  destruct (complete_ok m Hwf) as (m' & bytes & p & H & Hwf' & Hw' & Hf' & -> & _).
  exists m', (mux_image m'). split; [exact H|].
  split; [exact (image_length m' (wf_inv _ Hwf'))|].
  split; [exact (header_long m' Hwf' Hw')|].
  split; [exact (proj1 (wf_bytes _ Hwf' Hw')) | exact Hf'].
Qed.

Lemma complete_resolves_with_blob_witness :
  let o := mkOptions (95 # 100) false None false false None (Some 30%Q) in
  exists m0 m' bytes,
    WebMWriter [] o = Ok m0 /\
    mux_complete m0 = Ok (m', BlobOf bytes (Some mime_video_webm)) /\
    Z.of_nat (length bytes) = getWrittenSize m' /\
    (183 <= length bytes)%nat /\
    take 39 bytes = ebmlHeader_bytes /\
    clusterFrameBuffer m' = [].
Proof.
  intros o.
  let r := eval vm_compute in (WebMWriter [] o) in
  match r with
  | Ok ?m =>
      assert (Hm : WebMWriter [] o = Ok m) by (vm_compute; reflexivity);
      exists m;
      destruct (complete_resolves_with_blob [] o m [] m eq_refl Hm (List.Forall_nil _) eq_refl)
        as (m' & bytes & H);
      exists m', bytes; split; [exact Hm | exact H]
  end.
Defined.

(** X15. The Duration that [complete()] leaves in the file: the eight bytes
    at 171 are the double of the time at which the last cluster ends, the
    start time of the cluster plus, when frames are waiting in it, its
    duration, the sum rounded as a sum of doubles is. *)
Theorem complete_writes_duration (h : Heap) (o : Options) (m0 : Muxer)
  (calls : list Call) (m m' : Muxer) (bytes : list Z) (mimeType : option (list Z))
  (Hmemory : fileWriter o = false)
  (Hnew : WebMWriter h o = Ok m0)
  (Halpha : Forall call_ok calls)
  (Hrun : run_calls m0 calls = Ok m)
  (Hcomplete : mux_complete m = Ok (m', BlobOf bytes mimeType)) :
  take 8 (drop 171 bytes) = bytesBE 8 (double_bits (clusterStartTime m')) /\
  clusterStartTime m' =
    match clusterFrameBuffer m with
    | [] => clusterStartTime m
    | _ => double_add (clusterStartTime m) (clusterDuration m)
    end.
Proof.
  pose proof (run_calls_wf h o m0 calls m Hmemory Hnew Halpha Hrun) as Hwf.
  destruct (complete_ok m Hwf) as (m1 & bytes1 & p & H & _ & _ & _ & _ & Hs & Hd & _).
  rewrite H in Hcomplete. injection Hcomplete as <- <- _. auto.
Qed.

Lemma complete_writes_duration_witness :
  let o := mkOptions (95 # 100) false None false false None (Some 30%Q) in
  let image := mkFrameInput
                 ([82; 73; 70; 70; 0; 0; 0; 0; 87; 69; 66; 80]
                  ++ str_VP8_ ++ [3; 0; 0; 0; 1; 2; 3; 0]) 0 0 [] in
  let calls := repeat (CallAddFrame image AlphaUndefined None) 6 in
  exists m0 m m' bytes mimeType,
    WebMWriter [] o = Ok m0 /\ run_calls m0 calls = Ok m /\
    mux_complete m = Ok (m', BlobOf bytes mimeType) /\
    length (clusterFrameBuffer m) = 6%nat /\
    take 8 (drop 171 bytes) = [0x40; 0x69; 0; 0; 0; 0; 0; 1] /\
    (take 8 (drop 171 bytes) = bytesBE 8 (double_bits (clusterStartTime m')) /\
     clusterStartTime m' =
       match clusterFrameBuffer m with
       | [] => clusterStartTime m
       | _ => double_add (clusterStartTime m) (clusterDuration m)
       end).
Proof.
  intros o image calls.
  assert (Hcalls : Forall call_ok calls).
  { repeat (apply Forall_cons; split); try apply Forall_nil; cbn [call_ok];
      try exact I; (split; [|exact I]); unfold varint_ok; simpl; lia. }
  let r := eval vm_compute in (WebMWriter [] o) in
  match r with
  | Ok ?m0 =>
      let a := eval vm_compute in (run_calls m0 calls) in
      match a with
      | Ok ?m =>
          let c := eval vm_compute in (mux_complete m) in
          match c with
          | Ok (?m', BlobOf ?bytes ?mimeType) =>
              assert (Hm : WebMWriter [] o = Ok m0) by (vm_compute; reflexivity);
              assert (Ha : run_calls m0 calls = Ok m) by (vm_compute; reflexivity);
              assert (Hc : mux_complete m = Ok (m', BlobOf bytes mimeType))
                by (vm_compute; reflexivity);
              exists m0, m, m', bytes, mimeType;
              split; [exact Hm|]; split; [exact Ha|]; split; [exact Hc|];
              split; [vm_compute; reflexivity|];
              split; [vm_compute; reflexivity|];
              exact (complete_writes_duration [] o m0 calls m m' bytes mimeType
                       eq_refl Hm Hcalls Ha Hc)
          end
      end
  end.
Defined.

(** X16. [complete()] changes nothing of what the file held, except in the
    three fields that it patches: outside the id and size of the Segment
    (39 to 47), the entries of the SeekHead (56 to 118) and the Duration
    (171 to 178), every byte written before the call is in the blob at
    the same place. *)
Theorem complete_patches_three_fields (h : Heap) (o : Options) (m0 : Muxer)
  (calls : list Call) (m m' : Muxer) (bytes : list Z) (mimeType : option (list Z))
  (Hmemory : fileWriter o = false)
  (Hnew : WebMWriter h o = Ok m0)
  (Halpha : Forall call_ok calls)
  (Hrun : run_calls m0 calls = Ok m)
  (Hcomplete : mux_complete m = Ok (m', BlobOf bytes mimeType)) :
  (length (mux_image m) <= length bytes)%nat /\
  forall i, (i < length (mux_image m))%nat -> ~ in_patched_field i ->
            bytes !! i = mux_image m !! i.
Proof.
  pose proof (run_calls_wf h o m0 calls m Hmemory Hnew Halpha Hrun) as Hwf.
  destruct (complete_ok m Hwf)
    as (m1 & bytes1 & p & H & _ & _ & _ & _ & _ & _ & [Hl Hi] & _).
  rewrite H in Hcomplete. injection Hcomplete as <- <- _. auto.
Qed.

Lemma complete_patches_three_fields_witness :
  let o := mkOptions (95 # 100) false None false false None (Some 30%Q) in
  let image := mkFrameInput
                 ([82; 73; 70; 70; 0; 0; 0; 0; 87; 69; 66; 80]
                  ++ str_VP8_ ++ [3; 0; 0; 0; 1; 2; 3; 0]) 0 0 [] in
  let calls := [CallAddFrame image AlphaUndefined None] in
  exists m0 m m' bytes mimeType,
    WebMWriter [] o = Ok m0 /\ run_calls m0 calls = Ok m /\
    mux_complete m = Ok (m', BlobOf bytes mimeType) /\
    (length (mux_image m) <= length bytes)%nat /\
    forall i, (i < length (mux_image m))%nat -> ~ in_patched_field i ->
              bytes !! i = mux_image m !! i.
Proof.
  intros o image calls.
  assert (Hcalls : Forall call_ok calls).
  { repeat (apply Forall_cons; split); try apply Forall_nil; cbn [call_ok];
      try exact I; (split; [|exact I]); unfold varint_ok; simpl; lia. }
  let r := eval vm_compute in (WebMWriter [] o) in
  match r with
  | Ok ?m0 =>
      let a := eval vm_compute in (run_calls m0 calls) in
      match a with
      | Ok ?m =>
          let c := eval vm_compute in (mux_complete m) in
          match c with
          | Ok (?m', BlobOf ?bytes ?mimeType) =>
              assert (Hm : WebMWriter [] o = Ok m0) by (vm_compute; reflexivity);
              assert (Ha : run_calls m0 calls = Ok m) by (vm_compute; reflexivity);
              assert (Hc : mux_complete m = Ok (m', BlobOf bytes mimeType))
                by (vm_compute; reflexivity);
              exists m0, m, m', bytes, mimeType;
              split; [exact Hm|]; split; [exact Ha|]; split; [exact Hc|];
              exact (complete_patches_three_fields [] o m0 calls m m' bytes mimeType
                       eq_refl Hm Hcalls Ha Hc)
          end
      end
  end.
Defined.

(** ** The muxer: what [addFrame] writes *)

(** X17. [addFrame] only adds to the end of the file: after a call that
    goes through, the file is the file before the call followed by the
    bytes that the call has written, so the written size does not go
    down and no byte written before is changed. *)
Theorem addFrame_appends (h : Heap) (o : Options) (m0 : Muxer)
  (calls : list Call) (m m' : Muxer)
  (image : FrameInput) (alpha : AlphaArg) (overrideFrameDuration : option double)
  (Hmemory : fileWriter o = false)
  (Hnew : WebMWriter h o = Ok m0)
  (Halpha : Forall call_ok (calls ++ [CallAddFrame image alpha overrideFrameDuration]))
  (Hrun : run_calls m0 calls = Ok m)
  (Hadd : addFrame m image alpha overrideFrameDuration = Ok m') :
  (exists tail, mux_image m' = mux_image m ++ tail) /\
  getWrittenSize m <= getWrittenSize m' /\
  writtenHeader m' = true.
Proof.
  apply Forall_app in Halpha as [Hcalls Hcall].
  apply Forall_cons in Hcall as [Hcall _].
  pose proof (run_calls_wf h o m0 calls m Hmemory Hnew Hcalls Hrun) as Hwf.
  destruct (addFrame_ok m image alpha overrideFrameDuration Hwf Hcall)
    as [[(m1 & d & H & Hwf1 & Hw1 & Happ & _)|Herr] _]; [|congruence].
  rewrite H in Hadd. injection Hadd as <-.
  split; [exact Happ|]. split; [|exact Hw1].
  unfold getWrittenSize.
  rewrite <- (image_length m (wf_inv _ Hwf)), <- (image_length m1 (wf_inv _ Hwf1)).
  destruct Happ as [tail ->]. rewrite length_app. lia.
Qed.

Lemma addFrame_appends_witness :
  let o := mkOptions (95 # 100) false None false false None (Some 30%Q) in
  let image := mkFrameInput
                 ([82; 73; 70; 70; 0; 0; 0; 0; 87; 69; 66; 80]
                  ++ str_VP8_ ++ [3; 0; 0; 0; 1; 2; 3; 0]) 0 0 [] in
  let long := CallAddFrame image (AlphaNumber (double_of_Q 5000)) None in
  exists m0 m m',
    WebMWriter [] o = Ok m0 /\ run_calls m0 [long] = Ok m /\
    addFrame m image (AlphaNumber (double_of_Q 5000)) None = Ok m' /\
    (exists tail, mux_image m' = mux_image m ++ tail) /\
    getWrittenSize m <= getWrittenSize m' /\
    writtenHeader m' = true.
Proof.
  intros o image long.
  assert (Hcalls : Forall call_ok ([long] ++ [long])).
  { repeat (apply Forall_cons; split); try apply Forall_nil; cbn [call_ok];
      try exact I; (split; [|exact I]); unfold varint_ok; simpl; lia. }
  let r := eval vm_compute in (WebMWriter [] o) in
  match r with
  | Ok ?m0 =>
      let a := eval vm_compute in (run_calls m0 [long]) in
      match a with
      | Ok ?m =>
          let c := eval vm_compute in (addFrame m image (AlphaNumber (double_of_Q 5000)) None) in
          match c with
          | Ok ?m' =>
              assert (Hm : WebMWriter [] o = Ok m0) by (vm_compute; reflexivity);
              assert (Ha : run_calls m0 [long] = Ok m) by (vm_compute; reflexivity);
              assert (Hc : addFrame m image (AlphaNumber (double_of_Q 5000)) None = Ok m')
                by (vm_compute; reflexivity);
              exists m0, m, m';
              split; [exact Hm|]; split; [exact Ha|]; split; [exact Hc|];
              exact (addFrame_appends [] o m0 [long] m m' image (AlphaNumber (double_of_Q 5000)) None
                       eq_refl Hm Hcalls Ha Hc)
          end
      end
  end.
Defined.

(** ** The muxer: where the SeekHead and the cue points lead *)

(** X18. The SeekHead that [complete()] leaves in the file: the 63 bytes at
    56 are three Seek entries, for the Cues, the SegmentInfo and the
    Tracks, each with the id sought and its position in five bytes, and
    48 bytes (the start of the payload of the Segment) after each
    position, the file holds the id of the element sought. *)
Theorem complete_seekHead_addresses (h : Heap) (o : Options) (m0 : Muxer)
  (calls : list Call) (m m' : Muxer) (bytes : list Z) (mimeType : option (list Z))
  (Hmemory : fileWriter o = false)
  (Hnew : WebMWriter h o = Ok m0)
  (Halpha : Forall call_ok calls)
  (Hrun : run_calls m0 calls = Ok m)
  (Hcomplete : mux_complete m = Ok (m', BlobOf bytes mimeType)) :
  exists p,
    cues_position m' = Some p /\ 0 <= p /\
    take 63 (drop 56 bytes) =
      seek_bytes cues_id_bytes p ++ seek_bytes info_id_bytes 71
        ++ seek_bytes tracks_id_bytes 131 /\
    take 4 (drop (Z.to_nat (48 + p)) bytes) = cues_id_bytes /\
    take 4 (drop (Z.to_nat (48 + 71)) bytes) = info_id_bytes /\
    take 4 (drop (Z.to_nat (48 + 131)) bytes) = tracks_id_bytes.
Proof.
  pose proof (run_calls_wf h o m0 calls m Hmemory Hnew Halpha Hrun) as Hwf.
  destruct (complete_ok m Hwf)
    as (m1 & bytes1 & p & H & Hwf1 & Hw1 & _ & Hb & _ & _ & _ & Hcp & Hp & Hentries & Hcid & _).
  rewrite H in Hcomplete. injection Hcomplete as <- <- _.
  destruct (wf_bytes _ Hwf1 Hw1) as (_ & Hinfo & Htracks). rewrite <- Hb in Hinfo, Htracks.
  exists p. split; [exact Hcp|]. split; [lia|]. split.
  { rewrite Hentries. unfold seeks_bytes, seek_targets. cbn [map concat].
    rewrite app_nil_r. reflexivity. }
  split; [rewrite Z.add_comm; exact Hcid|]. split; [exact Hinfo | exact Htracks].
Qed.

Lemma complete_seekHead_addresses_witness :
  let o := mkOptions (95 # 100) false None false false None (Some 30%Q) in
  let image := mkFrameInput
                 ([82; 73; 70; 70; 0; 0; 0; 0; 87; 69; 66; 80]
                  ++ str_VP8_ ++ [3; 0; 0; 0; 1; 2; 3; 0]) 0 0 [] in
  let calls := [CallAddFrame image AlphaUndefined None] in
  exists m0 m m' bytes mimeType,
    WebMWriter [] o = Ok m0 /\ run_calls m0 calls = Ok m /\
    mux_complete m = Ok (m', BlobOf bytes mimeType) /\
    exists p,
      cues_position m' = Some p /\ 0 <= p /\
      take 63 (drop 56 bytes) =
        seek_bytes cues_id_bytes p ++ seek_bytes info_id_bytes 71
          ++ seek_bytes tracks_id_bytes 131 /\
      take 4 (drop (Z.to_nat (48 + p)) bytes) = cues_id_bytes /\
      take 4 (drop (Z.to_nat (48 + 71)) bytes) = info_id_bytes /\
      take 4 (drop (Z.to_nat (48 + 131)) bytes) = tracks_id_bytes.
Proof.
  intros o image calls.
  assert (Hcalls : Forall call_ok calls).
  { repeat (apply Forall_cons; split); try apply Forall_nil; cbn [call_ok];
      try exact I; (split; [|exact I]); unfold varint_ok; simpl; lia. }
  let r := eval vm_compute in (WebMWriter [] o) in
  match r with
  | Ok ?m0 =>
      let a := eval vm_compute in (run_calls m0 calls) in
      match a with
      | Ok ?m =>
          let c := eval vm_compute in (mux_complete m) in
          match c with
          | Ok (?m', BlobOf ?bytes ?mimeType) =>
              assert (Hm : WebMWriter [] o = Ok m0) by (vm_compute; reflexivity);
              assert (Ha : run_calls m0 calls = Ok m) by (vm_compute; reflexivity);
              assert (Hc : mux_complete m = Ok (m', BlobOf bytes mimeType))
                by (vm_compute; reflexivity);
              exists m0, m, m', bytes, mimeType;
              split; [exact Hm|]; split; [exact Ha|]; split; [exact Hc|];
              exact (complete_seekHead_addresses [] o m0 calls m m' bytes mimeType
                       eq_refl Hm Hcalls Ha Hc)
          end
      end
  end.
Defined.

(** X19. The cue points lead to the Clusters: in every state that the calls
    lead to, each cue point is, but for the fields that the serializer
    fills in, a CuePoint on the default track whose position, counted
    from the start of the payload of the Segment at 48, is a place after
    the header where the file holds the id of a Cluster; so it is in the
    blob that a [complete()] gives then. *)
Theorem cue_points_address_clusters (h : Heap) (o : Options) (m0 : Muxer)
  (calls : list Call) (m : Muxer)
  (Hmemory : fileWriter o = false)
  (Hnew : WebMWriter h o = Ok m0)
  (Halpha : Forall call_ok calls)
  (Hrun : run_calls m0 calls = Ok m) :
  Forall (cue_ok (mux_image m)) (cues m) /\
  forall m' bytes mimeType,
    mux_complete m = Ok (m', BlobOf bytes mimeType) ->
    Forall (cue_ok bytes) (cues m').
Proof.
  pose proof (run_calls_wf h o m0 calls m Hmemory Hnew Halpha Hrun) as Hwf.
  split; [exact (wf_cue_targets _ Hwf)|].
  intros m' bytes mimeType Hcomplete.
  destruct (complete_ok m Hwf) as (m1 & bytes1 & p & H & Hwf1 & _ & _ & Hb & _).
  rewrite H in Hcomplete. injection Hcomplete as <- <- _.
  rewrite Hb. exact (wf_cue_targets _ Hwf1).
Qed.

Lemma cue_points_address_clusters_witness :
  let o := mkOptions (95 # 100) false None false false None (Some 30%Q) in
  let image := mkFrameInput
                 ([82; 73; 70; 70; 0; 0; 0; 0; 87; 69; 66; 80]
                  ++ str_VP8_ ++ [3; 0; 0; 0; 1; 2; 3; 0]) 0 0 [] in
  let long := CallAddFrame image (AlphaNumber (double_of_Q 5000)) None in
  exists m0 m,
    WebMWriter [] o = Ok m0 /\ run_calls m0 [long; long] = Ok m /\
    length (cues m) = 2%nat /\
    Forall (cue_ok (mux_image m)) (cues m) /\
    forall m' bytes mimeType,
      mux_complete m = Ok (m', BlobOf bytes mimeType) ->
      Forall (cue_ok bytes) (cues m').
Proof.
  intros o image long.
  assert (Hcalls : Forall call_ok [long; long]).
  { repeat (apply Forall_cons; split); try apply Forall_nil; cbn [call_ok];
      try exact I; (split; [|exact I]); unfold varint_ok; simpl; lia. }
  let r := eval vm_compute in (WebMWriter [] o) in
  match r with
  | Ok ?m0 =>
      let a := eval vm_compute in (run_calls m0 [long; long]) in
      match a with
      | Ok ?m =>
          assert (Hm : WebMWriter [] o = Ok m0) by (vm_compute; reflexivity);
          assert (Ha : run_calls m0 [long; long] = Ok m) by (vm_compute; reflexivity);
          exists m0, m;
          split; [exact Hm|]; split; [exact Ha|]; split; [reflexivity|];
          exact (cue_points_address_clusters [] o m0 [long; long] m eq_refl Hm Hcalls Ha)
      end
  end.
Defined.

(** ** The muxer: the timecodes of the frames *)

(** X20. The timecode of a frame fits the two bytes of its block: when no
    duration given is negative or NaN, in every state that the calls lead
    to the duration of the cluster, a sum of doubles, is a number from 0
    and below the maximum duration of 5000 ms, and each frame that waits
    in the cluster has a timecode from 0 to 5000, which the two bytes that
    [writeU16BE] writes for it hold without loss. *)
Theorem block_timecodes_fit (h : Heap) (o : Options) (m0 : Muxer)
  (calls : list Call) (m : Muxer)
  (Hmemory : fileWriter o = false)
  (Hnew : WebMWriter h o = Ok m0)
  (Halpha : Forall call_ok calls)
  (Hnonneg : Forall call_nonneg calls)
  (Hduration : forall d, frameDuration (options m0) = Some d -> (0 <= d)%Q)
  (Hrun : run_calls m0 calls = Ok m) :
  double_within (clusterDuration m) 0 5000 /\
  Forall (fun f => 0 <= f_timecode f <= 5000 /\
                   valueBE (bytesBE 2 (f_timecode f)) 0 = f_timecode f)
         (clusterFrameBuffer m).
Proof.
  pose proof (WebMWriter_wf h o m0 Hmemory Hnew) as Hwf0.
  assert (Hfit0 : timecodes_fit m0).
  { revert Hnew. unfold WebMWriter. destruct (validateOptions o); [|discriminate].
    cbn [rbind]. intros H. injection H as <-.
    split; [|constructor].
    exists 0%Q. split; [reflexivity|]. split; [apply Qle_refl | reflexivity]. }
  destruct (run_calls_timecodes calls m0 m Hwf0 Halpha Hnonneg Hduration Hfit0 Hrun)
    as [[H0 Hall] _].
  split; [exact H0|].
  eapply Forall_impl; [exact Hall|]. intros f Hf.
  assert (Hr : 0 <= f_timecode f <= 5000) by exact Hf.
  split; [exact Hr|].
  rewrite valueBE_bytesBE by lia. change (2 ^ (8 * Z.of_nat 2)) with 65536.
  rewrite Z.mod_small by lia. lia.
Qed.

Lemma block_timecodes_fit_witness :
  let o := mkOptions (95 # 100) false None false false None (Some 96%Q) in
  let image := mkFrameInput
                 ([82; 73; 70; 70; 0; 0; 0; 0; 87; 69; 66; 80]
                  ++ str_VP8_ ++ [3; 0; 0; 0; 1; 2; 3; 0]) 0 0 [] in
  let calls := repeat (CallAddFrame image AlphaUndefined None) 7
               ++ [CallAddFrame image (AlphaNumber (double_of_Q 40)) None;
                   CallAddFrame image AlphaUndefined (Some (double_of_Q 100))] in
  exists m0 m,
    WebMWriter [] o = Ok m0 /\ run_calls m0 calls = Ok m /\
    map f_timecode (clusterFrameBuffer m) = [0; 10; 21; 31; 42; 52; 62; 73; 113] /\
    double_within (clusterDuration m) 0 5000 /\
    Forall (fun f => 0 <= f_timecode f <= 5000 /\
                     valueBE (bytesBE 2 (f_timecode f)) 0 = f_timecode f)
           (clusterFrameBuffer m).
Proof.
  intros o image calls.
  assert (Hcalls : Forall call_ok calls).
  { repeat (apply Forall_cons; split); try apply Forall_nil; cbn [call_ok];
      try exact I; (split; [|exact I]); unfold varint_ok; simpl; lia. }
  assert (Hnonneg : Forall call_nonneg calls).
  { repeat (apply Forall_cons; split); try apply Forall_nil; cbn [call_nonneg];
      try exact I; (split; intros d Hd; try discriminate Hd);
      injection Hd as <-; exact I. }
  let r := eval vm_compute in (WebMWriter [] o) in
  match r with
  | Ok ?m0 =>
      let a := eval vm_compute in (run_calls m0 calls) in
      match a with
      | Ok ?m =>
          assert (Hm : WebMWriter [] o = Ok m0) by (vm_compute; reflexivity);
          assert (Ha : run_calls m0 calls = Ok m) by (vm_compute; reflexivity);
          assert (Hd : forall d, frameDuration (options m0) = Some d -> (0 <= d)%Q)
            by (intros d Hd; injection Hd as <-; discriminate);
          exists m0, m;
          split; [exact Hm|]; split; [exact Ha|]; split; [vm_compute; reflexivity|];
          exact (block_timecodes_fit [] o m0 calls m eq_refl Hm Hcalls Hnonneg Hd Ha)
      end
  end.
Defined.

(** ** The sink: whose bytes an overwrite changes *)

Section WriteThrough.

Lemma heap_buffer_alloc_old (h : Heap) (bs : list Z) (id : nat) :
  (id < length h)%nat -> heap_buffer (h ++ [bs]) id = heap_buffer h id.
Proof.
  intros Hid. unfold heap_buffer. rewrite lookup_app_l by exact Hid. reflexivity.
Qed.

Lemma heap_buffer_insert (h : Heap) (id : nat) (bs : list Z) :
  (id < length h)%nat -> heap_buffer (<[id := bs]> h) id = bs.
Proof.
  intros Hid. unfold heap_buffer. rewrite list_lookup_insert_eq by exact Hid. reflexivity.
Qed.
End WriteThrough.

(** X21. The sink keeps the caller's array and writes into it: after a
    [Uint8Array] is written to a new memory sink, a write of a blob that
    falls inside that chunk without covering it all is accepted, leaves
    the chunk holding the same array, and changes the caller's
    ArrayBuffer itself, at the place of the array plus the offset in the
    file. *)
Theorem overwrite_inside_writes_through (h : Heap) (v : View) (o : Z) (bs : list Z)
  (Hbuffer : (vbuf v < length h)%nat)
  (Hoffset : 0 <= o)
  (Hbytes : bs <> [])
  (Hinside : o + Z.of_nat (length bs) <= Z.of_nat (vlen v))
  (Hpart : ~ (o = 0 /\ length bs = vlen v)) :
  exists h' b',
    run h (newBlobBuffer Memory)
      [OpWrite (DUint8Array v); OpSeek (JNum o); OpWrite (DBlob bs)] = Some (h', b') /\
    writePromise b' = None /\
    buffer b' = [mkEntry 0 (DUint8Array v) (Z.of_nat (vlen v))] /\
    heap_buffer h' (vbuf v) =
      splice (heap_buffer h (vbuf v)) (voff v + Z.to_nat o) bs /\
    forall id, (id < length h)%nat -> id <> vbuf v -> heap_buffer h' id = heap_buffer h id.
Proof.
  assert (Hlen : 0 < Z.of_nat (length bs)) by (destruct bs; [contradiction | cbn; lia]).
  set (n := Z.of_nat (vlen v)) in *.
  set (entry := mkEntry 0 (DUint8Array v) n).
  assert (Hm1 : measureData h (DUint8Array v) = Ok n).
  { unfold measureData, js_or. cbn [prop_byteLength prop_length prop_size truthy].
    fold n. destruct (n =? 0) eqn:H0; [lia|].
    cbn [negb truthy]. rewrite H0. reflexivity. }
  assert (H1 : write h (newBlobBuffer Memory) (DUint8Array v)
               = (h, mkBlobBuffer [entry] None Memory n n, None)).
  { unfold write. rewrite Hm1. unfold write_callback.
    cbn [newBlobBuffer writePromise pos length_ dest buffer e_offset app Z.add Z.leb
         Z.compare].
    rewrite Z.max_r by lia. reflexivity. }
  assert (H2 : seek (mkBlobBuffer [entry] None Memory n n) (JNum o)
               = (mkBlobBuffer [entry] None Memory o n, None)).
  { unfold seek. cbn [js_lt js_isNaN js_gt length_ buffer writePromise dest].
    destruct (o <? 0) eqn:Ho0; [lia|]. destruct (n <? o) eqn:Ho1; [lia|]. reflexivity. }
  assert (Hm2 : measureData h (DBlob bs) = Ok (Z.of_nat (length bs))).
  { unfold measureData, js_or. cbn [prop_byteLength prop_length prop_size truthy].
    destruct (Z.of_nat (length bs) =? 0) eqn:H0; [lia|]. reflexivity. }
  assert (Hover : overlap (mkEntry o (DBlob bs) (Z.of_nat (length bs))) entry = Inside).
  { unfold overlap. cbn [e_offset e_length entry].
    destruct (o + Z.of_nat (length bs) <=? 0) eqn:E1; [lia|].
    destruct (0 + n <=? o) eqn:E2; [lia|].
    destruct (o <? 0) eqn:E3; [lia|].
    destruct (0 + n <? o + Z.of_nat (length bs)) eqn:E4; [lia|].
    cbn [orb].
    destruct (Z.eqb_spec o 0) as [->|]; [|reflexivity].
    destruct (Z.eqb_spec (Z.of_nat (length bs)) n) as [Heq|]; [|reflexivity].
    exfalso. apply Hpart. split; [reflexivity | unfold n in Heq; lia]. }
  set (h' := <[vbuf v := splice (heap_buffer (h ++ [bs]) (vbuf v))
                            (voff v + Z.to_nat (o - 0)) bs]> (h ++ [bs])).
  assert (Hview : view_bytes (h ++ [bs]) (mkView (length h) 0 (length bs)) = bs).
  { unfold view_bytes, heap_buffer. cbn [vbuf voff vlen].
    rewrite lookup_app_r by lia. rewrite Nat.sub_diag. cbn [lookup list_lookup].
    rewrite drop_0. apply take_ge. lia. }
  assert (H3 : write h (mkBlobBuffer [entry] None Memory o n) (DBlob bs)
               = (h', mkBlobBuffer [mkEntry 0 (DUint8Array v) n] None Memory
                        (o + Z.of_nat (length bs))
                        (Z.max n (o + Z.of_nat (length bs))), None)).
  { unfold write. rewrite Hm2.
    cbn [writePromise pos length_ dest buffer e_offset].
    destruct (n <=? o) eqn:Ho2; [lia|].
    unfold write_callback. cbn [dest buffer overwrite]. rewrite Hover.
    cbn [convertToUint8Array heap_alloc entry e_data e_offset e_length].
    unfold view_set. rewrite Hview. cbn [vlen vbuf voff].
    destruct (vlen v <? Z.to_nat (o - 0) + length bs)%nat eqn:H6;
      [apply Nat.ltb_lt in H6; unfold n in *; lia|].
    reflexivity. }
  exists h'. eexists. cbn [run]. rewrite H1, H2, H3.
  split; [reflexivity|]. cbn [writePromise buffer].
  split; [reflexivity|]. split; [reflexivity|]. unfold h'. split.
  - rewrite heap_buffer_insert by (rewrite length_app; lia).
    rewrite heap_buffer_alloc_old by exact Hbuffer. f_equal. lia.
  - intros id Hid Hne. unfold heap_buffer.
    rewrite list_lookup_insert_ne by congruence.
    rewrite lookup_app_l by exact Hid. reflexivity.
Qed.

Lemma overwrite_inside_writes_through_witness :
  let h := [[10; 11; 12; 13; 14; 15]] in
  let v := mkView 0 1 4 in
  exists h' b',
    run h (newBlobBuffer Memory)
      [OpWrite (DUint8Array v); OpSeek (JNum 1); OpWrite (DBlob [7; 8])] = Some (h', b') /\
    writePromise b' = None /\
    buffer b' = [mkEntry 0 (DUint8Array v) 4] /\
    heap_buffer h' 0 = [10; 11; 7; 8; 14; 15] /\
    forall id, (id < 1)%nat -> id <> 0%nat -> heap_buffer h' id = heap_buffer h id.
Proof.
  intros h v.
  apply (overwrite_inside_writes_through h v 1 [7; 8]); cbn; try lia; discriminate.
Defined.
(** ** The alpha channel as an image *)

Section AlphaImage.

Lemma alpha_loop_pixels (pixels : list (Z * Z * Z * Z)) :
  forall (before : list (Z * Z * Z * Z)) (done rest : list Z) (fuel : nat),
    length done = (4 * length before)%nat ->
    length rest = (4 * length pixels)%nat ->
    (length pixels <= fuel)%nat ->
    alpha_loop fuel (flat_map rgba (before ++ pixels))
      (Z.of_nat (4 * length (before ++ pixels)))
      (Z.of_nat (4 * length before) + 3) (4 * length before) (done ++ rest)
    = Some (done ++ flat_map gray_of_alpha pixels).
Proof.
  induction pixels as [|[[[r g] b] a] pixels IH]; intros before done rest fuel Hd Hr Hf.
  - destruct rest; [|discriminate]. rewrite app_nil_r.
    destruct fuel; cbn [alpha_loop flat_map];
      (destruct (_ <? _) eqn:Hc; [apply Z.ltb_lt in Hc; lia | rewrite app_nil_r; reflexivity]).
  - destruct fuel as [|fuel]; [cbn in Hf; lia|].
    destruct rest as [|x0 [|x1 [|x2 [|x3 rest]]]]; try (cbn in Hr; lia).
    cbn [alpha_loop].
    destruct (_ <? _) eqn:Hc;
      [|apply Z.ltb_ge in Hc; rewrite length_app in Hc; cbn [length] in Hc; lia].
    assert (Hread : clamped_read (flat_map rgba (before ++ (r, g, b, a) :: pixels))
                      (Z.to_nat (Z.of_nat (4 * length before) + 3)) = a).
    { unfold clamped_read. rewrite flat_map_app.
      assert (Hlb : length (flat_map rgba before) = (4 * length before)%nat).
      { clear. induction before as [|[[[? ?] ?] ?] before IH]; cbn [flat_map length app];
          [reflexivity|]. rewrite length_app, IH. cbn [rgba length]. lia. }
      rewrite lookup_app_r by lia.
      replace (Z.to_nat (Z.of_nat (4 * length before) + 3) - length (flat_map rgba before))%nat
        with 3%nat by lia.
      reflexivity. }
    rewrite Hread.
    assert (Hstore :
      <[(4 * length before + 3)%nat := 255]>
        (<[(4 * length before + 2)%nat := a]>
           (<[(4 * length before + 1)%nat := a]>
              (<[(4 * length before)%nat := a]> (done ++ x0 :: x1 :: x2 :: x3 :: rest))))
      = (done ++ [a; a; a; 255]) ++ rest).
    { rewrite <- Hd.
      rewrite (insert_app_r_alt done _ (length done)) by lia.
      rewrite (insert_app_r_alt done _ (length done + 1)) by lia.
      rewrite (insert_app_r_alt done _ (length done + 2)) by lia.
      rewrite (insert_app_r_alt done _ (length done + 3)) by lia.
      replace (length done - length done)%nat with 0%nat by lia.
      replace (length done + 1 - length done)%nat with 1%nat by lia.
      replace (length done + 2 - length done)%nat with 2%nat by lia.
      replace (length done + 3 - length done)%nat with 3%nat by lia.
      cbn. rewrite <- app_assoc. reflexivity. }
    rewrite Hstore.
    replace (before ++ (r, g, b, a) :: pixels) with ((before ++ [(r, g, b, a)]) ++ pixels)
      by (rewrite <- app_assoc; reflexivity).
    replace (Z.of_nat (4 * length before) + 3 + 4)
      with (Z.of_nat (4 * length (before ++ [(r, g, b, a)])) + 3)
      by (rewrite length_app; cbn [length]; lia).
    replace (4 * length before + 4)%nat with (4 * length (before ++ [(r, g, b, a)]))%nat
      by (rewrite length_app; cbn [length]; lia).
    rewrite (IH (before ++ [(r, g, b, a)]) (done ++ [a; a; a; 255]) rest fuel).
    + cbn [flat_map gray_of_alpha]. rewrite <- app_assoc. reflexivity.
    + rewrite !length_app. cbn [length]. lia.
    + cbn [length] in Hr. lia.
    + cbn [length] in Hf. lia.
Qed.

Lemma length_flat_map_rgba (pixels : list (Z * Z * Z * Z)) :
  length (flat_map rgba pixels) = (4 * length pixels)%nat.
Proof.
  induction pixels as [|[[[? ?] ?] ?] pixels IH]; cbn [flat_map length app];
    [reflexivity|]. rewrite length_app, IH. cbn [rgba length]. lia.
Qed.

Lemma length_flat_map_gray (pixels : list (Z * Z * Z * Z)) :
  length (flat_map gray_of_alpha pixels) = (4 * length pixels)%nat.
Proof.
  induction pixels as [|[[[? ?] ?] ?] pixels IH]; cbn [flat_map length app];
    [reflexivity|]. rewrite length_app, IH. cbn [gray_of_alpha length]. lia.
Qed.
End AlphaImage.

(** X22. The image of the alpha channel: for a source canvas of [width] by
    [height] pixels, [convertAlphaToGrayscaleImage] returns a canvas of
    the same size in which each pixel is opaque and gray, its three
    colours being the alpha of the source pixel at the same place. The
    canvas kept from an earlier call is used again when it has the same
    size, and whatever it held, nothing of it is left in the result. *)
Theorem convertAlphaToGrayscaleImage_pixels (alphaBuffer : option Canvas)
  (width height : Z) (pixels : list (Z * Z * Z * Z))
  (Hwidth : 0 <= width) (Hheight : 0 <= height)
  (Hpixels : Z.of_nat (length pixels) = width * height)
  (Hkept : forall kept, alphaBuffer = Some kept -> canvas_ok kept) :
  let source := mkCanvas width height (flat_map rgba pixels) in
  let result := mkCanvas width height (flat_map gray_of_alpha pixels) in
  convertAlphaToGrayscaleImage alphaBuffer source = Some result /\
  canvas_ok result.
Proof.
  intros source result.
  assert (Hok : canvas_ok result).
  { unfold canvas_ok, result. cbn [cv_width cv_height cv_data].
    rewrite length_flat_map_gray. lia. }
  split; [|exact Hok].
  unfold convertAlphaToGrayscaleImage.
  cbn [cv_width cv_height cv_data source].
  set (fresh := mkCanvas width height (replicate (Z.to_nat (width * height * 4)) 0)).
  set (buffer := match alphaBuffer with
                 | Some kept =>
                     if negb (cv_width kept =? width) || negb (cv_height kept =? height)
                     then fresh else kept
                 | None => fresh
                 end).
  assert (Hbuf : cv_width buffer = width /\ cv_height buffer = height /\
                 length (cv_data buffer) = (4 * length pixels)%nat).
  { assert (Hfresh : cv_width fresh = width /\ cv_height fresh = height /\
                     length (cv_data fresh) = (4 * length pixels)%nat).
    { unfold fresh. cbn [cv_width cv_height cv_data]. rewrite length_replicate. lia. }
    unfold buffer. destruct alphaBuffer as [kept|]; [|exact Hfresh].
    destruct (Z.eqb_spec (cv_width kept) width) as [Hw|]; [|exact Hfresh].
    destruct (Z.eqb_spec (cv_height kept) height) as [Hh|]; [|exact Hfresh].
    cbn [negb orb]. destruct (Hkept kept eq_refl) as (_ & _ & Hl).
    split; [exact Hw|]. split; [exact Hh|]. rewrite Hw, Hh in Hl. lia. }
  destruct Hbuf as (Hw & Hh & Hl). rewrite Hw, Hh.
  assert (Hloop : alpha_loop (4 * length pixels) (flat_map rgba pixels)
                    (Z.of_nat (4 * length pixels)) 3 0 (cv_data buffer)
                  = Some (flat_map gray_of_alpha pixels))
    by exact (alpha_loop_pixels pixels [] [] (cv_data buffer) (4 * length pixels)
                eq_refl Hl ltac:(lia)).
  replace (width * height * 4) with (Z.of_nat (4 * length pixels)) by lia.
  rewrite Nat2Z.id, Hloop. reflexivity.
Qed.

Lemma convertAlphaToGrayscaleImage_pixels_witness :
  let stale := mkCanvas 2 1 [9; 9; 9; 9; 9; 9; 9; 9] in
  let source := mkCanvas 2 1 [10; 20; 30; 40; 50; 60; 70; 80] in
  convertAlphaToGrayscaleImage (Some stale) source
    = Some (mkCanvas 2 1 [40; 40; 40; 255; 80; 80; 80; 255]) /\
  canvas_ok (mkCanvas 2 1 [40; 40; 40; 255; 80; 80; 80; 255]).
Proof.
  intros stale source.
  apply (convertAlphaToGrayscaleImage_pixels (Some stale) 2 1
           [(10, 20, 30, 40); (50, 60, 70, 80)]); try lia; try reflexivity.
  intros kept H. injection H as <-. unfold canvas_ok. cbn. lia.
Defined.
(** ** The sink on a file descriptor *)

Section FileSink.
Implicit Types (file buffer bytes : list Z).

Lemma file_write_split file (p w : nat) bytes :
  (0 < w)%nat -> (w <= length bytes)%nat ->
  file_write (file_write file p (take w bytes)) (p + w) (drop w bytes)
    = file_write file p bytes.
Proof.
  intros Hw Hle.
  destruct bytes as [|x bytes]; [cbn in Hle; lia|].
  set (bs := x :: bytes) in *.
  assert (H1 : file_write file p (take w bs)
               = (take p file ++ replicate (p - length file) 0) ++ take w bs
                   ++ drop (p + w) file).
  { unfold file_write. destruct (take w bs) eqn:Ht.
    - apply (f_equal (@length Z)) in Ht. rewrite length_take in Ht. cbn in Ht. lia.
    - rewrite <- Ht, length_take, Nat.min_l by lia. rewrite <- app_assoc. reflexivity. }
  assert (H2 : file_write file p bs
               = (take p file ++ replicate (p - length file) 0) ++ bs
                   ++ drop (p + length bs) file).
  { unfold file_write, bs. rewrite <- app_assoc. reflexivity. }
  set (A := take p file ++ replicate (p - length file) 0) in *.
  assert (HA : length A = p).
  { unfold A. rewrite length_app, length_take, length_replicate. lia. }
  rewrite H1, H2. clear H1 H2. clearbody bs A.
  destruct (drop w bs) as [|y rest] eqn:Hd.
  - cbn [file_write].
    assert (Hwl : w = length bs).
    { apply (f_equal (@length Z)) in Hd. rewrite length_drop in Hd.
      cbn [length] in Hd. lia. }
    rewrite Hwl, take_ge by lia. reflexivity.
  - rewrite <- Hd. unfold file_write. rewrite Hd, <- Hd.
    rewrite (app_assoc A (take w bs)).
    assert (HB : length (A ++ take w bs) = (p + w)%nat).
    { rewrite length_app, HA, length_take. lia. }
    rewrite take_app_length' by (symmetry; exact HB).
    rewrite length_app, HB, length_drop.
    replace (p + w - (p + w + length (drop (p + w) file)))%nat with 0%nat by lia.
    cbn [replicate app].
    rewrite drop_app_ge by lia. rewrite HB, drop_drop.
    rewrite length_drop.
    replace (p + w + (p + w + (length bs - w) - (p + w)))%nat with (p + length bs)%nat by lia.
    replace (p + w - (p + w + (length file - (p + w))))%nat with 0%nat by lia.
    cbn [replicate app].
    rewrite <- (app_assoc A), (app_assoc (take w bs)), take_drop. reflexivity.
Qed.

(** When the answers add up to what is left of the buffer, the loop writes
    it, as one write would. *)
Lemma writeToFs_loop_writes answers : forall file buffer offset total,
  (total < length buffer)%nat ->
  (length buffer - total <= sum_list answers)%nat ->
  writeToFs_loop answers file buffer offset total
    = Some (file_write file (offset + total) (drop total buffer)).
Proof.
  induction answers as [|answer rest IH]; intros file buffer offset total Hlt Hfuel.
  - change (sum_list []) with 0%nat in Hfuel. lia.
  - change (sum_list (answer :: rest)) with (answer + sum_list rest)%nat in Hfuel.
    cbn [writeToFs_loop].
    set (w := Nat.min answer (length buffer - total)).
    assert (Hw : (w <= length buffer - total)%nat) by (unfold w; lia).
    assert (Hwa : (w = answer \/ w = length buffer - total)%nat) by (unfold w; lia).
    clearbody w.
    destruct (length buffer <=? total + w)%nat eqn:Hc.
    + apply Nat.leb_le in Hc. f_equal. f_equal. apply take_ge. rewrite length_drop. lia.
    + apply Nat.leb_gt in Hc.
      rewrite IH by lia.
      f_equal.
      destruct w as [|w'].
      * rewrite take_0. cbn [file_write]. rewrite Nat.add_0_r. reflexivity.
      * replace (drop (total + S w') buffer) with (drop (S w') (drop total buffer))
          by (rewrite drop_drop; reflexivity).
        rewrite Nat.add_assoc.
        apply file_write_split; [lia | rewrite length_drop; lia].
Qed.

Lemma writeToFs_loop_stalls n : forall file buffer offset total,
  (total < length buffer)%nat ->
  writeToFs_loop (replicate n 0%nat) file buffer offset total = None.
Proof.
  induction n as [|n IH]; intros file buffer offset total Hlt; [reflexivity|].
  cbn [replicate writeToFs_loop Nat.min take file_write].
  rewrite Nat.add_0_r.
  destruct (length buffer <=? total)%nat eqn:Hc; [apply Nat.leb_le in Hc; lia|].
  apply IH. exact Hlt.
Qed.

Lemma file_write_window file (p : nat) bytes :
  take (length bytes) (drop p (file_write file p bytes)) = bytes /\
  (forall i, (i < p)%nat -> (i < length file)%nat ->
             file_write file p bytes !! i = file !! i) /\
  (forall i, (p + length bytes <= i)%nat -> file_write file p bytes !! i = file !! i \/
             (bytes <> [] /\ (length file <= i)%nat /\ file_write file p bytes !! i = None)).
Proof.
  destruct bytes as [|x bytes].
  - cbn [file_write length take]. split; [reflexivity|]. split; auto.
  - assert (Hfw : file_write file p (x :: bytes)
                 = (take p file ++ replicate (p - length file) 0) ++ (x :: bytes)
                     ++ drop (p + length (x :: bytes)) file)
      by (unfold file_write; rewrite <- app_assoc; reflexivity).
    rewrite Hfw. clear Hfw.
    assert (Hne : x :: bytes <> []) by discriminate.
    set (bs := x :: bytes) in *. clearbody bs.
    set (A := take p file ++ replicate (p - length file) 0).
    assert (HA : length A = p).
    { unfold A. rewrite length_app, length_take, length_replicate. lia. }
    split; [|split].
    + clearbody A. rewrite drop_app_length' by (symmetry; exact HA). apply take_app_length.
    + intros i Hi Hf. rewrite lookup_app_l by lia. subst A.
      rewrite lookup_app_l by (rewrite length_take; lia).
      apply lookup_take_lt. exact Hi.
    + clearbody A. intros i Hi. rewrite lookup_app_r by lia.
      rewrite lookup_app_r by lia. rewrite lookup_drop.
      destruct (decide (i < length file)%nat) as [Hf|Hf].
      * left. f_equal. lia.
      * right. split; [exact Hne|]. split; [lia|]. apply lookup_ge_None. lia.
Qed.
End FileSink.

(** X23. What [_writeToFs] puts in the file: when the numbers of bytes
    that the system reports for the calls of [fs.write] add up to the
    length of the buffer, the loop of [handleWriteComplete] ends, and the
    file then holds at the offset of the entry the whole ArrayBuffer
    behind the data: for a [Uint8Array] that is a window of a larger
    buffer, all of that buffer and not the window. The bytes before the
    offset are kept. When every call reports no bytes, the promise is
    never resolved. *)
Theorem writeToFs_writes_whole_buffer (answers : list nat) (h : Heap) (file : list Z)
  (newEntry : Entry)
  (Henough : (length (fs_bytes h (e_data newEntry)) <= sum_list answers)%nat)
  (Hdata : fs_bytes h (e_data newEntry) <> []) :
  let whole := fs_bytes h (e_data newEntry) in
  let offset := Z.to_nat (e_offset newEntry) in
  exists h' file',
    writeToFs answers h file newEntry = Some (h', file') /\
    take (length whole) (drop offset file') = whole /\
    (forall i, (i < offset)%nat -> (i < length file)%nat -> file' !! i = file !! i) /\
    (forall n, writeToFs (replicate n 0%nat) h file newEntry = None).
Proof.
  assert (Hpos : (0 < length (fs_bytes h (e_data newEntry)))%nat).
  { destruct (fs_bytes h (e_data newEntry)); [contradiction | cbn [length]; lia]. }
  intros whole offset. fold whole in Hpos, Henough. unfold writeToFs.
  destruct (convertToUint8Array h (e_data newEntry)) as [h1 dataArray] eqn:Hconv.
  assert (Hbuf : heap_buffer h1 (vbuf dataArray) = whole).
  { unfold whole, fs_bytes. revert Hconv. unfold convertToUint8Array, heap_alloc.
    destruct (e_data newEntry) as [s|v|b|bs]; intros H; injection H as <- <-;
      cbn [vbuf data_bytes]; try reflexivity; apply heap_buffer_alloc. }
  rewrite Hbuf. fold offset. clearbody whole offset.
  rewrite (writeToFs_loop_writes answers file whole offset 0 Hpos) by lia.
  rewrite Nat.add_0_r, drop_0. cbn [mbind option_bind].
  destruct (file_write_window file offset whole) as (Hwin & Hbefore & _).
  eexists _, _. split; [reflexivity|]. split; [exact Hwin|]. split; [exact Hbefore|].
  intros n. rewrite (writeToFs_loop_stalls n file whole offset 0 Hpos). reflexivity.
Qed.

Lemma writeToFs_writes_whole_buffer_witness :
  let h := [[0; 32; 72; 105; 46; 0; 0; 0; 0; 0]] in
  let array := DUint8Array (mkView 0 1 4) in
  exists h' file',
    writeToFs [3; 0; 5; 9]%nat h [1; 2; 3] (mkEntry 2 array 4) = Some (h', file') /\
    file' = [1; 2; 0; 32; 72; 105; 46; 0; 0; 0; 0; 0] /\
    take 10 (drop 2 file') = [0; 32; 72; 105; 46; 0; 0; 0; 0; 0] /\
    (forall i, (i < 2)%nat -> (i < 3)%nat -> file' !! i = [1; 2; 3] !! i) /\
    (forall n, writeToFs (replicate n 0%nat) h [1; 2; 3] (mkEntry 2 array 4) = None).
Proof.
  intros h array.
  destruct (writeToFs_writes_whole_buffer [3; 0; 5; 9]%nat h [1; 2; 3] (mkEntry 2 array 4))
    as (h' & file' & Hw & Hwin & Hbefore & Hstall);
    [vm_compute; lia | discriminate |].
  exists h', file'. split; [exact Hw|]. split.
  { vm_compute in Hw. injection Hw as _ <-. reflexivity. }
  split; [exact Hwin|]. split; [exact Hbefore | exact Hstall].
Defined.
(** ** The header of a block *)

Section BlockHeader.

Lemma marker_bit_add n : 0 <= n < 128 -> Z.lor 128 n = 128 + n.
Proof.
  intros Hn.
  assert (Hland : Z.land 128 n = 0).
  { apply Z.bits_inj'. intros i Hi. rewrite Z.land_spec, Z.bits_0.
    destruct (Z.eq_dec i 7) as [->|Hne].
    - assert (Hb : Z.testbit n 7 = false)
        by (apply Z.testbit_false; [lia | rewrite Z.div_small by lia; reflexivity]).
      rewrite Hb. apply andb_false_r.
    - change 128 with (2 ^ 7). rewrite Z.pow2_bits_false by lia. reflexivity. }
  rewrite <- Z.lxor_lor by exact Hland. symmetry. apply Z.add_nocarry_lxor. exact Hland.
Qed.

Lemma low_byte n : Z.land n 255 = n mod 256.
Proof. change 255 with (Z.ones 8). rewrite Z.land_ones by lia. reflexivity. Qed.

Lemma block_header_bytes f flags :
  block_header f flags =
    if track_number_ok (f_trackNumber f)
    then Ok [128 + f_trackNumber f; f_timecode f / 256 mod 256; f_timecode f mod 256; flags]
    else Err BadTrackNumber.
Proof.
  unfold block_header. destruct (track_number_ok (f_trackNumber f)) eqn:Htrack;
    [|reflexivity].
  cbn [negb]. unfold track_number_ok in Htrack.
  apply andb_true_iff in Htrack as [Hlo Hhi].
  apply Z.ltb_lt in Hlo. apply Z.ltb_lt in Hhi.
  assert (Hvar : writeEBMLVarInt (newStream (1 + 2 + 1)) (f_trackNumber f)
                 = Ok (writeBytes (newStream (1 + 2 + 1)) [128 + f_trackNumber f])).
  { unfold writeEBMLVarInt, measureEBMLVarInt.
    destruct (f_trackNumber f <? 0) eqn:Hneg; [apply Z.ltb_lt in Hneg; lia|].
    cbn [find]. change (7 * Z.of_nat 1) with 7.
    assert (Hw : (f_trackNumber f <? 2 ^ 7 - 1) = true) by (apply Z.ltb_lt; lia).
    rewrite Hw. unfold writeEBMLVarIntWidth, ebmlVarIntBytes. cbn [bytesBE].
    change (8 * Z.of_nat 0) with 0. change (7 * Z.of_nat 1) with 7.
    change (Z.shiftl 1 7) with 128.
    rewrite Z.shiftr_0_r, marker_bit_add, low_byte, Z.mod_small by lia. reflexivity. }
  rewrite Hvar. rewrite rbind_Ok. cbv beta.
  unfold writeU16BE. cbn [bytesBE].
  change (8 * Z.of_nat 0) with 0. change (8 * Z.of_nat 1) with 8.
  rewrite Z.shiftr_0_r, !low_byte, Z.shiftr_div_pow2 by lia. change (2 ^ 8) with 256.
  reflexivity.
Qed.
End BlockHeader.

(** X24. The block of a frame: a track number that is not above 0 and below
    127 is refused; else the frame is put in a SimpleBlock, or, when it
    has an alpha channel that is not empty, in a Block of a BlockGroup
    that holds the alpha channel as a BlockAdditional. The block begins
    with four bytes: the track number with the marker bit of a one-byte
    EBML number, the low sixteen bits of the timecode, most significant
    byte first (a timecode outside 0..65535 is not refused and wraps),
    and the flags, 128 for the keyframe of a SimpleBlock and 0 for a
    Block. *)
Theorem createContainerForKeyframe_block (f : Frame) :
  createContainerForKeyframe f =
    if track_number_ok (f_trackNumber f) then
      let header flags :=
        EUint8Array [128 + f_trackNumber f; f_timecode f / 256 mod 256;
                     f_timecode f mod 256; flags] in
      Ok match f_alpha f with
         | Some (c :: rest) =>
             EList (element 0xA0)
               [EList (element 0xA1) [header 0; EString (f_frame f)];
                EList (element 0x75A1)
                  [EList (element 0xA6)
                     [ELeaf (element 0xEE) (PNumber 1);
                      ELeaf (element 0xA5) (PString (c :: rest))]]]
         | _ => EList (element 0xA3) [header 128; EString (f_frame f)]
         end
    else Err BadTrackNumber.
Proof.
  unfold createContainerForKeyframe, createBlockGroupForTransparentKeyframe,
    createSimpleBlockForKeyframe.
  rewrite !block_header_bytes.
  destruct (track_number_ok (f_trackNumber f)); destruct (f_alpha f) as [[|c rest]|];
    reflexivity.
Qed.

